(** * apk-forge: the JAR v1 signer, the bundle merger, the orchestrator and
      the compiled-XML codec, embedded from the TypeScript sources.

    Conventions of the embedding.
    - A JavaScript string is the list of its UTF-16 code units ([list Z]);
      [lit] turns a literal into one.  Strict equality of strings is
      equality of lists and the default order of [Array.prototype.sort]
      is the lexicographic order on code units.
    - A [Uint8Array] / [ArrayBuffer] is a [list byte].
    - Numbers are [Z]; the 32-bit conversions of the bit operators and of
      [DataView] are written out ([toInt32], [toUint32]).
    - Platform services (SHA-256 and Base64, the text codecs,
      [toLowerCase], the ZIP container reader, the RSA engine) are
      variables of the sections that use them. *)

From Stdlib Require Import ZArith Lia List.
From Stdlib.Strings Require Import String Ascii Byte.
From Stdlib Require DecimalString HexadecimalString.
From stdpp Require Import base tactics option list numbers sorting.

Local Open Scope Z_scope.

(** ** JavaScript strings *)

Module Js.

Abbreviation jsstring := (list Z).

Definition lit (s : string) : jsstring :=
  map (fun a => Z.of_N (N_of_ascii a)) (list_ascii_of_string s).

Arguments lit s%_string.

Definition CRLF : jsstring := [13; 10].

(** [s.startsWith(p)] *)
Fixpoint startsWith (s p : jsstring) : bool :=
  match p, s with
  | [], _ => true
  | _ :: _, [] => false
  | y :: p', x :: s' => if decide (x = y) then startsWith s' p' else false
  end.

(** [s.endsWith(p)] *)
Definition endsWith (s p : jsstring) : bool :=
  startsWith (rev s) (rev p).

(** [s.includes(p)] *)
Fixpoint includes (s p : jsstring) : bool :=
  startsWith s p ||
  match s with
  | [] => false
  | _ :: s' => includes s' p
  end.

(** [s.replace(p, '')] for a string pattern [p]: the first occurrence of
    [p] is removed, the rest is kept. *)
Fixpoint replaceFirst (s p : jsstring) : jsstring :=
  if startsWith s p then drop (length p) s
  else match s with
       | [] => []
       | c :: s' => c :: replaceFirst s' p
       end.

(** [s.split('\r\n')], with [cur] the piece being accumulated. *)
Fixpoint splitCRLF_from (cur s : jsstring) : list jsstring :=
  match s with
  | [] => [cur]
  | c :: s' =>
      match s' with
      | d :: s'' =>
          if decide (c = 13 ∧ d = 10)
          then cur :: splitCRLF_from [] s''
          else splitCRLF_from (cur ++ [c]) s'
      | [] => [cur ++ [c]]
      end
  end.

Definition splitCRLF (s : jsstring) : list jsstring := splitCRLF_from [] s.

(** [xs[i]] for an array and a number: [undefined] (here [None]) outside
    the array. *)
Definition at_index {A} (xs : list A) (i : Z) : option A :=
  if decide (0 ≤ i) then xs !! Z.to_nat i else None.

(** [strings[i] || ''] *)
Definition str_or_empty (strings : list jsstring) (i : Z) : jsstring :=
  default [] (at_index strings i).

(** [a || b] on strings: the empty string is falsy. *)
Definition str_or_default (a b : jsstring) : jsstring :=
  if decide (a = []) then b else a.

(** [xs.indexOf(x)]: the first index holding [x], or [-1]. *)
Fixpoint indexOf_from {A} `{EqDecision A} (i : Z) (xs : list A) (x : A) : Z :=
  match xs with
  | [] => -1
  | y :: xs' => if decide (y = x) then i else indexOf_from (i + 1) xs' x
  end.

Definition indexOf {A} `{EqDecision A} (xs : list A) (x : A) : Z :=
  indexOf_from 0 xs x.

(** The order of [Array.prototype.sort()] without a comparator: strings
    are compared code unit by code unit, a proper prefix coming first. *)
Fixpoint str_leb (a b : jsstring) : bool :=
  match a, b with
  | [], _ => true
  | _ :: _, [] => false
  | x :: a', y :: b' =>
      if decide (x < y) then true
      else if decide (x = y) then str_leb a' b' else false
  end.

Definition str_le (a b : jsstring) : Prop := str_leb a b = true.

Global Instance str_le_dec a b : Decision (str_le a b).
Proof. unfold str_le. apply _. Defined.

(** [names.sort()].  The arrays sorted here hold the keys of a [Map],
    which are distinct, so every sorting algorithm returns the same array. *)
Definition sort (names : list jsstring) : list jsstring :=
  merge_sort str_le names.

(** [n.toString()] and [n.toString(16)] for an integer [n]. *)
Definition toString (n : Z) : jsstring :=
  lit (DecimalString.NilZero.string_of_int (Z.to_int n)).

Definition toString16 (n : Z) : jsstring :=
  lit (HexadecimalString.NilZero.string_of_int (Z.to_hex_int n)).

(** The 32-bit conversions behind the bit operators and [DataView]. *)
Definition toUint32 (z : Z) : Z := z mod 2 ^ 32.

Definition toInt32 (z : Z) : Z :=
  let u := z mod 2 ^ 32 in if decide (u < 2 ^ 31) then u else u - 2 ^ 32.

(** [a >> n], [a << n], [a | b], [a & b] on numbers. *)
Definition sar32 (a n : Z) : Z := Z.shiftr (toInt32 a) n.
Definition shl32 (a n : Z) : Z := toInt32 (Z.shiftl (toInt32 a) n).
Definition or32 (a b : Z) : Z := toInt32 (Z.lor (toInt32 a) (toInt32 b)).
Definition and32 (a b : Z) : Z := toInt32 (Z.land (toInt32 a) (toInt32 b)).

(** What a call may do: return, throw, or never come back. *)
Inductive exn : Type :=
  | ErrorObj (message : jsstring)   (* [new Error(message)] *)
  | RangeErrorObj                   (* thrown by [DataView] and typed arrays *)
  | NonError.                       (* any thrown value that is not an [Error] *)

Inductive completion (A : Type) : Type :=
  | Normal (a : A)
  | Throw (e : exn)
  | Diverge.
Arguments Normal {A} a.
Arguments Throw {A} e.
Arguments Diverge {A}.

(** ** Byte buffers and [DataView] *)

Global Instance byte_eq_decision : EqDecision byte := Byte.byte_eq_dec.

Definition Z_of_byte (b : byte) : Z := Z.of_N (Byte.to_N b).

Definition byte_of_Z (z : Z) : byte :=
  default x00 (Byte.of_N (Z.to_N (z mod 256))).

(** The [n] bytes at [off], when they lie inside the buffer. *)
Definition getBytes (d : list byte) (off n : Z) : option (list byte) :=
  if decide (0 ≤ off ∧ 0 ≤ n ∧ off + n ≤ Z.of_nat (length d))
  then Some (take (Z.to_nat n) (drop (Z.to_nat off) d))
  else None.

Definition le_decode (bs : list byte) : Z :=
  foldr (fun b acc => Z_of_byte b + 256 * acc) 0 bs.

Fixpoint le_encode (n : nat) (v : Z) : list byte :=
  match n with
  | O => []
  | S n' => byte_of_Z v :: le_encode n' (v / 256)
  end.

(** [view.getUint8/16/32(off, true)] and [view.getInt32(off, true)];
    [None] is the [RangeError] of an access outside the buffer. *)
Definition getUint8 (d : list byte) (off : Z) : option Z :=
  le_decode <$> getBytes d off 1.
Definition getUint16 (d : list byte) (off : Z) : option Z :=
  le_decode <$> getBytes d off 2.
Definition getUint32 (d : list byte) (off : Z) : option Z :=
  le_decode <$> getBytes d off 4.
Definition getInt32 (d : list byte) (off : Z) : option Z :=
  toInt32 <$> getUint32 d off.

(** The buffer with the bytes at [off] replaced by [bs]. *)
Definition overwrite (d : list byte) (off : Z) (bs : list byte) : list byte :=
  take (Z.to_nat off) d ++ bs ++ drop (Z.to_nat off + length bs) d.

(** Overwrite the bytes at [off] with [bs]; [None] outside the buffer. *)
Definition setBytes (d : list byte) (off : Z) (bs : list byte)
  : option (list byte) :=
  if decide (0 ≤ off ∧ off + Z.of_nat (length bs) ≤ Z.of_nat (length d))
  then Some (overwrite d off bs)
  else None.

(** [view.setUint16/32(off, v, true)] and [view.setInt32(off, v, true)]. *)
Definition setUint16 (d : list byte) (off v : Z) : option (list byte) :=
  setBytes d off (le_encode 2 v).
Definition setUint32 (d : list byte) (off v : Z) : option (list byte) :=
  setBytes d off (le_encode 4 v).
Definition setInt32 (d : list byte) (off v : Z) : option (list byte) :=
  setBytes d off (le_encode 4 v).

End Js.

(** ** The compiled-XML codec (src/lib/axml-parser.ts) *)

Module Axml.
Import Js.

Definition CHUNK_AXML_FILE : Z := 0x00080003.
Definition CHUNK_STRING_POOL : Z := 0x001C0001.
Definition CHUNK_RESOURCE_IDS : Z := 0x00080180.
Definition CHUNK_XML_START_NAMESPACE : Z := 0x00100100.
Definition CHUNK_XML_END_NAMESPACE : Z := 0x00100101.
Definition CHUNK_XML_START_ELEMENT : Z := 0x00100102.
Definition CHUNK_XML_END_ELEMENT : Z := 0x00100103.
Definition CHUNK_XML_CDATA : Z := 0x00100104.

Definition TYPE_INT_BOOLEAN : Z := 0x12.

Definition ANDROID_NS : jsstring :=
  lit "http://schemas.android.com/apk/res/android".
Definition ATTR_DEBUGGABLE : Z := 0x0101000f.

Record AXMLAttribute : Type := mkAttr {
  attr_namespaceUri : Z;
  attr_name : Z;
  valueString : Z;
  type : Z;
  data : Z
}.

(** The optional fields of the interface are [None] on the chunks that do
    not carry them. *)
Record AXMLElement : Type := mkElem {
  chunkType : Z;
  lineNumber : Z;
  comment : Z;
  namespaceUri : Z;
  name : Z;
  attributes : option (list AXMLAttribute);
  attributeStart : option Z;
  attributeSize : option Z;
  attributeCount : option Z;
  idIndex : option Z;
  classIndex : option Z;
  styleIndex : option Z
}.

Record ParsedAXML : Type := mkParsed {
  strings : list jsstring;
  resourceIds : list Z;
  elements : list AXMLElement;
  rawData : list byte;
  stringPoolOffset : Z;
  stringPoolSize : Z;
  resourceIdsOffset : Z;
  resourceIdsSize : Z;
  elementsOffset : Z
}.

Record ApkManifestInfo : Type := mkInfo {
  packageName : jsstring;
  versionCode : Z;
  versionName : jsstring;
  minSdkVersion : Z;
  targetSdkVersion : Z;
  isDebuggable : bool;
  permissions : list jsstring;
  applicationName : jsstring
}.

(** *** DataReader: a position threaded through reads that may throw *)

Definition Reader (A : Type) : Type := Z → option (A * Z).

Definition rd_ret {A} (a : A) : Reader A := fun pos => Some (a, pos).
Definition rd_bind {A B} (m : Reader A) (k : A → Reader B) : Reader B :=
  fun pos => match m pos with
             | Some (a, pos') => k a pos'
             | None => None
             end.

Declare Scope reader_scope.
Delimit Scope reader_scope with rd.
Notation "x ←ʳ m ; k" := (rd_bind m (fun x => k))
  (at level 20, m at level 100, k at level 200, only parsing, right associativity)
  : reader_scope.
Notation "m ;;ʳ k" := (rd_bind m (fun _ => k))
  (at level 100, k at level 200, only parsing, right associativity)
  : reader_scope.

Section DataReader.
Variable d : list byte.

Definition position : Reader Z := fun pos => Some (pos, pos).
Definition set_position (value : Z) : Reader unit :=
  fun _ => Some (tt, value).

Definition readUint8 : Reader Z :=
  fun pos => v ← getUint8 d pos; Some (v, pos + 1).
Definition readUint16 : Reader Z :=
  fun pos => v ← getUint16 d pos; Some (v, pos + 2).
Definition readUint32 : Reader Z :=
  fun pos => v ← getUint32 d pos; Some (v, pos + 4).
Definition readInt32 : Reader Z :=
  fun pos => v ← getInt32 d pos; Some (v, pos + 4).
Definition readBytes (length : Z) : Reader (list byte) :=
  fun pos => bs ← getBytes d pos length; Some (bs, pos + length).
Definition skip (bytes : Z) : Reader unit :=
  fun pos => Some (tt, pos + bytes).

(** [for (let i = 0; i < n; i++) xs.push(read())] *)
Fixpoint read_many {A} (n : nat) (read : Reader A) : Reader (list A) :=
  match n with
  | O => rd_ret []
  | S n' => (x ←ʳ read; xs ←ʳ read_many n' read; rd_ret (x :: xs))%rd
  end.
End DataReader.

(** *** AXMLParser *)

(** The fields of the parser object. *)
Record ParserState : Type := mkPS {
  ps_strings : list jsstring;
  ps_resourceIds : list Z;
  ps_elements : list AXMLElement;
  ps_stringPoolOffset : Z;
  ps_stringPoolSize : Z;
  ps_resourceIdsOffset : Z;
  ps_resourceIdsSize : Z;
  ps_elementsOffset : Z;
  ps_isUtf8 : bool
}.

Definition initialParser : ParserState :=
  mkPS [] [] [] 0 0 0 0 0 false.

Definition push_element (st : ParserState) (e : AXMLElement) : ParserState :=
  mkPS (ps_strings st) (ps_resourceIds st) (ps_elements st ++ [e])
       (ps_stringPoolOffset st) (ps_stringPoolSize st)
       (ps_resourceIdsOffset st) (ps_resourceIdsSize st)
       (ps_elementsOffset st) (ps_isUtf8 st).

Definition push_strings (st : ParserState) (isUtf8 : bool)
    (ss : list jsstring) : ParserState :=
  mkPS (ps_strings st ++ ss) (ps_resourceIds st) (ps_elements st)
       (ps_stringPoolOffset st) (ps_stringPoolSize st)
       (ps_resourceIdsOffset st) (ps_resourceIdsSize st)
       (ps_elementsOffset st) isUtf8.

Definition push_resourceIds (st : ParserState) (ids : list Z) : ParserState :=
  mkPS (ps_strings st) (ps_resourceIds st ++ ids) (ps_elements st)
       (ps_stringPoolOffset st) (ps_stringPoolSize st)
       (ps_resourceIdsOffset st) (ps_resourceIdsSize st)
       (ps_elementsOffset st) (ps_isUtf8 st).

Definition at_stringPool (st : ParserState) (off size : Z) : ParserState :=
  mkPS (ps_strings st) (ps_resourceIds st) (ps_elements st)
       off size (ps_resourceIdsOffset st) (ps_resourceIdsSize st)
       (ps_elementsOffset st) (ps_isUtf8 st).

Definition at_resourceIds (st : ParserState) (off size : Z) : ParserState :=
  mkPS (ps_strings st) (ps_resourceIds st) (ps_elements st)
       (ps_stringPoolOffset st) (ps_stringPoolSize st) off size
       (ps_elementsOffset st) (ps_isUtf8 st).

(** [if (this.elementsOffset === 0) this.elementsOffset = chunkStart] *)
Definition mark_elements (st : ParserState) (chunkStart : Z) : ParserState :=
  mkPS (ps_strings st) (ps_resourceIds st) (ps_elements st)
       (ps_stringPoolOffset st) (ps_stringPoolSize st)
       (ps_resourceIdsOffset st) (ps_resourceIdsSize st)
       (if decide (ps_elementsOffset st = 0) then chunkStart
        else ps_elementsOffset st)
       (ps_isUtf8 st).

Section AXMLParser.
(** [new TextDecoder('utf-8').decode] *)
Variable utf8_decode : list byte → jsstring.
(** The buffer behind [this.reader]. *)
Variable d : list byte.

Definition readUtf8Length : Reader Z :=
  (len ←ʳ readUint8 d;
   if decide (and32 len 0x80 ≠ 0)
   then (b ←ʳ readUint8 d; rd_ret (or32 (shl32 (and32 len 0x7F) 8) b))
   else rd_ret len)%rd.

Definition readUtf16Length : Reader Z :=
  (len ←ʳ readUint16 d;
   if decide (and32 len 0x8000 ≠ 0)
   then (b ←ʳ readUint16 d; rd_ret (or32 (shl32 (and32 len 0x7FFF) 16) b))
   else rd_ret len)%rd.

(** One turn of the "Read strings" loop; [String.fromCharCode(...chars)]
    is the list of the code units read (the engine's limit on the number
    of arguments of a call is not modelled). *)
Definition readString (isUtf8 : bool) (stringOffset : Z) : Reader jsstring :=
  (set_position stringOffset ;;ʳ
   if isUtf8 then
     (charLen ←ʳ readUtf8Length;
      byteLen ←ʳ readUtf8Length;
      bytes ←ʳ readBytes d byteLen;
      rd_ret (utf8_decode bytes))
   else
     (charLen ←ʳ readUtf16Length;
      chars ←ʳ read_many (Z.to_nat charLen) (readUint16 d);
      rd_ret chars))%rd.

Fixpoint readStrings (isUtf8 : bool) (stringsDataStart : Z)
    (stringOffsets : list Z) : Reader (list jsstring) :=
  match stringOffsets with
  | [] => rd_ret []
  | o :: os =>
      (s ←ʳ readString isUtf8 (stringsDataStart + o);
       ss ←ʳ readStrings isUtf8 stringsDataStart os;
       rd_ret (s :: ss))%rd
  end.

Definition parseStringPool (st : ParserState) (chunkSize : Z)
  : Reader ParserState :=
  (stringCount ←ʳ readUint32 d;
   styleCount ←ʳ readUint32 d;
   flags ←ʳ readUint32 d;
   stringsStart ←ʳ readUint32 d;
   stylesStart ←ʳ readUint32 d;
   let isUtf8 := bool_decide (and32 flags (shl32 1 8) ≠ 0) in
   stringOffsets ←ʳ read_many (Z.to_nat stringCount) (readUint32 d);
   _ ←ʳ read_many (Z.to_nat styleCount) (readUint32 d);
   let stringsDataStart := ps_stringPoolOffset st + 8 + stringsStart in
   ss ←ʳ readStrings isUtf8 stringsDataStart stringOffsets;
   rd_ret (push_strings st isUtf8 ss))%rd.

(** [count = (chunkSize - 8) / 4] is a fraction when the size is not a
    multiple of four; [i < count] then holds for its ceiling many [i]. *)
Definition parseResourceIds (st : ParserState) (chunkSize : Z)
  : Reader ParserState :=
  (ids ←ʳ read_many (Z.to_nat ((chunkSize - 8 + 3) / 4)) (readUint32 d);
   rd_ret (push_resourceIds st ids))%rd.

Definition parseNamespace (st : ParserState) (chunkType : Z)
  : Reader ParserState :=
  (lineNumber ←ʳ readUint32 d;
   comment ←ʳ readUint32 d;
   prefix ←ʳ readUint32 d;
   uri ←ʳ readUint32 d;
   rd_ret (push_element st
     (mkElem chunkType lineNumber comment prefix uri
             None None None None None None None)))%rd.

Definition readAttribute : Reader AXMLAttribute :=
  (ns ←ʳ readInt32 d;
   nm ←ʳ readUint32 d;
   vs ←ʳ readInt32 d;
   ty ←ʳ readUint32 d;
   dt ←ʳ readInt32 d;
   rd_ret (mkAttr ns nm vs (sar32 ty 24) dt))%rd.

Definition parseStartElement (st : ParserState) : Reader ParserState :=
  (lineNumber ←ʳ readUint32 d;
   comment ←ʳ readUint32 d;
   namespaceUri ←ʳ readInt32 d;
   name ←ʳ readUint32 d;
   attributeStart ←ʳ readUint16 d;
   attributeSize ←ʳ readUint16 d;
   attributeCount ←ʳ readUint16 d;
   idIndex ←ʳ readUint16 d;
   classIndex ←ʳ readUint16 d;
   styleIndex ←ʳ readUint16 d;
   attributes ←ʳ read_many (Z.to_nat attributeCount) readAttribute;
   rd_ret (push_element st
     (mkElem CHUNK_XML_START_ELEMENT lineNumber comment namespaceUri name
             (Some attributes) (Some attributeStart) (Some attributeSize)
             (Some attributeCount) (Some idIndex) (Some classIndex)
             (Some styleIndex))))%rd.

Definition parseEndElement (st : ParserState) (chunkType : Z)
  : Reader ParserState :=
  (lineNumber ←ʳ readUint32 d;
   comment ←ʳ readUint32 d;
   namespaceUri ←ʳ readInt32 d;
   name ←ʳ readUint32 d;
   rd_ret (push_element st
     (mkElem chunkType lineNumber comment namespaceUri name
             None None None None None None None)))%rd.

Definition parseCData (st : ParserState) : Reader ParserState :=
  (lineNumber ←ʳ readUint32 d;
   comment ←ʳ readUint32 d;
   data ←ʳ readUint32 d;
   skip 8 ;;ʳ
   rd_ret (push_element st
     (mkElem CHUNK_XML_CDATA lineNumber comment (-1) data
             None None None None None None None)))%rd.

(** The body of the [switch]: the parser state and reader position after
    the chunk's own parser, or [None] when a read throws.  A chunk of
    another type only moves the position. *)
Definition parseChunk (st : ParserState) (chunkStart chunkType chunkSize : Z)
  : Reader ParserState :=
  if decide (chunkType = CHUNK_STRING_POOL) then
    parseStringPool (at_stringPool st chunkStart chunkSize) chunkSize
  else if decide (chunkType = CHUNK_RESOURCE_IDS) then
    parseResourceIds (at_resourceIds st chunkStart chunkSize) chunkSize
  else if decide (chunkType = CHUNK_XML_START_NAMESPACE
                  ∨ chunkType = CHUNK_XML_END_NAMESPACE) then
    parseNamespace (mark_elements st chunkStart) chunkType
  else if decide (chunkType = CHUNK_XML_START_ELEMENT) then
    parseStartElement (mark_elements st chunkStart)
  else if decide (chunkType = CHUNK_XML_END_ELEMENT) then
    parseEndElement st chunkType
  else if decide (chunkType = CHUNK_XML_CDATA) then
    parseCData st
  else
    (set_position (chunkStart + chunkSize) ;;ʳ rd_ret st)%rd.

Definition known_chunk (chunkType : Z) : bool :=
  bool_decide (chunkType ∈ [CHUNK_STRING_POOL; CHUNK_RESOURCE_IDS;
    CHUNK_XML_START_NAMESPACE; CHUNK_XML_END_NAMESPACE;
    CHUNK_XML_START_ELEMENT; CHUNK_XML_END_ELEMENT; CHUNK_XML_CDATA]).

(** The [while (this.reader.position < fileSize)] loop.  A chunk of
    unknown type and size 0 leaves the position where it was, and the
    loop then repeats the same turn for ever: [Diverge].  Every other
    turn moves the position forward and needs eight bytes inside the
    buffer, so [fuel] above the buffer length is never used up. *)
Fixpoint parseChunks (fuel : nat) (fileSize : Z) (st : ParserState)
    (pos : Z) : completion ParserState :=
  if decide (pos < fileSize) then
    match fuel with
    | O => Diverge
    | S fuel' =>
        let chunkStart := pos in
        match (chunkType ←ʳ readUint32 d;
               chunkSize ←ʳ readUint32 d;
               rd_ret (chunkType, chunkSize))%rd pos with
        | None => Throw RangeErrorObj
        | Some ((chunkType, chunkSize), pos1) =>
            if negb (known_chunk chunkType) && bool_decide (chunkSize = 0)
            then Diverge
            else
              match parseChunk st chunkStart chunkType chunkSize pos1 with
              | None => Throw RangeErrorObj
              | Some (st', pos2) =>
                  parseChunks fuel' fileSize st'
                    (if decide (pos2 < chunkStart + chunkSize)
                     then chunkStart + chunkSize else pos2)
              end
        end
    end
  else Normal st.

Definition parse : completion ParsedAXML :=
  match (magic ←ʳ readUint32 d;
         if decide (magic ≠ CHUNK_AXML_FILE) then rd_ret (inl magic)
         else (fileSize ←ʳ readUint32 d; rd_ret (inr fileSize)))%rd 0 with
  | None => Throw RangeErrorObj
  | Some (inl magic, _) =>
      Throw (ErrorObj (lit "Invalid AXML magic: 0x" ++ toString16 magic))
  | Some (inr fileSize, pos) =>
      match parseChunks (S (length d)) fileSize initialParser pos with
      | Normal st =>
          Normal (mkParsed (ps_strings st) (ps_resourceIds st)
                    (ps_elements st) d
                    (ps_stringPoolOffset st) (ps_stringPoolSize st)
                    (ps_resourceIdsOffset st) (ps_resourceIdsSize st)
                    (ps_elementsOffset st))
      | Throw e => Throw e
      | Diverge => Diverge
      end
  end.
End AXMLParser.

(** *** DataWriter

    The writer replaces its [ArrayBuffer] when it grows, while a
    [DataView] made from [getBytes().buffer] keeps pointing at the buffer
    that was current when it was made.  [heap] holds every buffer the
    writer has allocated, the last one being [this.buffer]; a view is the
    index of its buffer. *)

Record DataWriter : Type := mkWriter {
  heap : list (list byte);
  offset : Z
}.

Definition buffer (w : DataWriter) : list byte := default [] (last (heap w)).

Definition newWriter (size : Z) : DataWriter :=
  mkWriter [replicate (Z.to_nat size) x00] 0.

Definition ensureCapacity (needed : Z) (w : DataWriter) : DataWriter :=
  let byteLength := Z.of_nat (length (buffer w)) in
  if decide (offset w + needed > byteLength) then
    let newSize := Z.max (byteLength * 2) (offset w + needed) in
    mkWriter (heap w ++ [buffer w ++ replicate (Z.to_nat (newSize - byteLength)) x00])
             (offset w)
  else w.

(** Store [bs] at the write position of the current buffer and advance. *)
Definition put (bs : list byte) (w : DataWriter) : DataWriter :=
  let w1 := ensureCapacity (Z.of_nat (length bs)) w in
  mkWriter (<[ pred (length (heap w1)) := overwrite (buffer w1) (offset w1) bs ]> (heap w1))
           (offset w1 + Z.of_nat (length bs)).

Definition writeUint8 (value : Z) : DataWriter → DataWriter := put (le_encode 1 value).
Definition writeUint16 (value : Z) : DataWriter → DataWriter := put (le_encode 2 value).
Definition writeUint32 (value : Z) : DataWriter → DataWriter := put (le_encode 4 value).
Definition writeInt32 (value : Z) : DataWriter → DataWriter := put (le_encode 4 value).
Definition writeBytes (bytes : list byte) : DataWriter → DataWriter := put bytes.

(** [writer.getBytes()] *)
Definition writer_getBytes (w : DataWriter) : list byte :=
  take (Z.to_nat (offset w)) (buffer w).

(** [new DataView(writer.getBytes().buffer)]: a view of the current buffer. *)
Definition view_of (w : DataWriter) : nat := pred (length (heap w)).

(** [view.setUint32(pos, v, true)] through a view made earlier. *)
Definition view_setUint32 (view : nat) (pos v : Z) (w : DataWriter)
  : option DataWriter :=
  buf ← heap w !! view;
  buf' ← setUint32 buf pos v;
  Some (mkWriter (<[ view := buf' ]> (heap w)) (offset w)).

(** *** AXMLModifier *)

Definition with_packageName (i : ApkManifestInfo) (v : jsstring) :=
  mkInfo v (versionCode i) (versionName i) (minSdkVersion i)
         (targetSdkVersion i) (isDebuggable i) (permissions i) (applicationName i).
Definition with_versionCode (i : ApkManifestInfo) (v : Z) :=
  mkInfo (packageName i) v (versionName i) (minSdkVersion i)
         (targetSdkVersion i) (isDebuggable i) (permissions i) (applicationName i).
Definition with_versionName (i : ApkManifestInfo) (v : jsstring) :=
  mkInfo (packageName i) (versionCode i) v (minSdkVersion i)
         (targetSdkVersion i) (isDebuggable i) (permissions i) (applicationName i).
Definition with_minSdkVersion (i : ApkManifestInfo) (v : Z) :=
  mkInfo (packageName i) (versionCode i) (versionName i) v
         (targetSdkVersion i) (isDebuggable i) (permissions i) (applicationName i).
Definition with_targetSdkVersion (i : ApkManifestInfo) (v : Z) :=
  mkInfo (packageName i) (versionCode i) (versionName i) (minSdkVersion i)
         v (isDebuggable i) (permissions i) (applicationName i).
Definition with_isDebuggable (i : ApkManifestInfo) (v : bool) :=
  mkInfo (packageName i) (versionCode i) (versionName i) (minSdkVersion i)
         (targetSdkVersion i) v (permissions i) (applicationName i).
Definition push_permission (i : ApkManifestInfo) (v : jsstring) :=
  mkInfo (packageName i) (versionCode i) (versionName i) (minSdkVersion i)
         (targetSdkVersion i) (isDebuggable i) (permissions i ++ [v]) (applicationName i).
Definition with_applicationName (i : ApkManifestInfo) (v : jsstring) :=
  mkInfo (packageName i) (versionCode i) (versionName i) (minSdkVersion i)
         (targetSdkVersion i) (isDebuggable i) (permissions i) v.


Section getManifestInfo.
Variable parsed : ParsedAXML.

Definition manifest_attr (info : ApkManifestInfo) (attr : AXMLAttribute) :=
  let attrName := str_or_empty (strings parsed) (attr_name attr) in
  if decide (attrName = lit "package") then
    with_packageName info
      (str_or_default (str_or_empty (strings parsed) (data attr)) (toString (data attr)))
  else if decide (attrName = lit "versionCode") then
    with_versionCode info (data attr)
  else if decide (attrName = lit "versionName") then
    with_versionName info
      (str_or_default (str_or_empty (strings parsed) (valueString attr)) (toString (data attr)))
  else info.

Definition uses_sdk_attr (info : ApkManifestInfo) (attr : AXMLAttribute) :=
  let attrName := str_or_empty (strings parsed) (attr_name attr) in
  if decide (attrName = lit "minSdkVersion") then
    with_minSdkVersion info (data attr)
  else if decide (attrName = lit "targetSdkVersion") then
    with_targetSdkVersion info (data attr)
  else info.

Definition application_attr (info : ApkManifestInfo) (attr : AXMLAttribute) :=
  let attrName := str_or_empty (strings parsed) (attr_name attr) in
  if decide (attrName = lit "debuggable") then
    with_isDebuggable info (bool_decide (data attr ≠ 0))
  else if decide (attrName = lit "name") then
    with_applicationName info (str_or_empty (strings parsed) (valueString attr))
  else info.

Definition uses_permission_attr (info : ApkManifestInfo) (attr : AXMLAttribute) :=
  let attrName := str_or_empty (strings parsed) (attr_name attr) in
  if decide (attrName = lit "name") then
    let permission := str_or_empty (strings parsed) (valueString attr) in
    if decide (permission ≠ []) then
      push_permission info (replaceFirst permission (lit "android.permission."))
    else info
  else info.

(** One turn of [for (const element of this.parsed.elements)]: the four
    [if]s are tried one after the other. *)
Definition info_element (info : ApkManifestInfo) (element : AXMLElement) :=
  if decide (chunkType element = CHUNK_XML_START_ELEMENT) then
    let tagName := str_or_empty (strings parsed) (name element) in
    let attrs := default [] (attributes element) in
    let on (tag : string) (f : ApkManifestInfo → AXMLAttribute → ApkManifestInfo)
           (info : ApkManifestInfo) :=
      if decide (tagName = lit tag ∧ is_Some (attributes element))
      then fold_left f attrs info else info in
    on "uses-permission"%string uses_permission_attr
      (on "application"%string application_attr
        (on "uses-sdk"%string uses_sdk_attr
          (on "manifest"%string manifest_attr info)))
  else info.

Definition getManifestInfo : ApkManifestInfo :=
  fold_left info_element (elements parsed)
    (mkInfo [] 0 [] 0 0 false [] []).
End getManifestInfo.

Section AXMLModifier.
(** [new TextEncoder().encode] *)
Variable utf8_encode : jsstring → list byte.
(** [this.parsed] *)
Variable parsed : ParsedAXML.

(** The length prefix of a UTF-8 pool string. *)
Definition writeUtf8Length (len : Z) (w : DataWriter) : DataWriter :=
  if decide (len >= 0x80) then
    writeUint8 (and32 len 0xFF)
      (writeUint8 (or32 (and32 (sar32 len 8) 0x7F) 0x80) w)
  else writeUint8 len w.

(** "Write strings and update offsets": the offsets go through [view],
    the [DataView] made before the first string was written. *)
Fixpoint write_strings (view : nat) (offsetsStart stringsDataStart : Z)
    (strs : list jsstring) (i : Z) (w : DataWriter) : option DataWriter :=
  match strs with
  | [] => Some w
  | str :: strs' =>
      let stringOffset := offset w - stringsDataStart in
      w ← view_setUint32 view (offsetsStart + i * 4) stringOffset w;
      let encoded := utf8_encode str in
      let len := Z.of_nat (length encoded) in
      let w := writeUtf8Length len w in
      let w := writeUtf8Length len w in
      let w := writeBytes encoded w in
      let w := writeUint8 0 w in
      write_strings view offsetsStart stringsDataStart strs' (i + 1) w
  end.

(** [while (writer.position % 4 !== 0) writer.writeUint8(0)]: at most
    three turns. *)
Fixpoint align4 (turns : nat) (w : DataWriter) : DataWriter :=
  if decide (offset w `mod` 4 = 0) then w
  else match turns with
       | O => w
       | S turns' => align4 turns' (writeUint8 0 w)
       end.

Definition writeStringPool (strs : list jsstring) (w : DataWriter)
  : option DataWriter :=
  let startPos := offset w in
  let w := writeUint32 CHUNK_STRING_POOL w in
  let chunkSizePos := offset w in
  let w := writeUint32 0 w in
  let w := writeUint32 (Z.of_nat (length strs)) w in
  let w := writeUint32 0 w in
  let w := writeUint32 (shl32 1 8) w in
  let stringsStartPos := offset w in
  let w := writeUint32 0 w in
  let w := writeUint32 0 w in
  let offsetsStart := offset w in
  let w := fold_left (fun w _ => writeUint32 0 w) strs w in
  let stringsDataStart := offset w in
  let stringsStart := stringsDataStart - startPos - 8 in
  let view := view_of w in
  w ← view_setUint32 view stringsStartPos stringsStart w;
  w ← write_strings view offsetsStart stringsDataStart strs 0 w;
  let w := align4 3 w in
  view_setUint32 (view_of w) chunkSizePos (offset w - startPos) w.

Definition writeResourceIds (ids : list Z) (w : DataWriter) : DataWriter :=
  let w := writeUint32 CHUNK_RESOURCE_IDS w in
  let w := writeUint32 (8 + Z.of_nat (length ids) * 4) w in
  fold_left (fun w id => writeUint32 id w) ids w.

Definition writeAttribute (w : DataWriter) (attr : AXMLAttribute) : DataWriter :=
  let w := writeInt32 (attr_namespaceUri attr) w in
  let w := writeUint32 (attr_name attr) w in
  let w := writeInt32 (valueString attr) w in
  let w := writeUint32 (or32 (shl32 (type attr) 24) 0x08) w in
  writeInt32 (data attr) w.

Definition is_debuggable_attr (attr : AXMLAttribute) : bool :=
  bool_decide (str_or_empty (strings parsed) (attr_name attr) = lit "debuggable").

(** The start-element branch of [writeElements]: read the chunk at the
    reader position, write it again with [debuggable] forced on. *)
Definition rewriteStartElement (newStrings : list jsstring)
    (debuggableStrIdx : Z) (w : DataWriter) : Reader DataWriter :=
  let reader := rawData parsed in
  (lineNumber ←ʳ readUint32 reader;
   comment ←ʳ readUint32 reader;
   nsUri ←ʳ readInt32 reader;
   nameIdx ←ʳ readUint32 reader;
   attrStart ←ʳ readUint16 reader;
   attrSize ←ʳ readUint16 reader;
   attrCount ←ʳ readUint16 reader;
   idIdx ←ʳ readUint16 reader;
   classIdx ←ʳ readUint16 reader;
   styleIdx ←ʳ readUint16 reader;
   let tagName := str_or_empty (strings parsed) nameIdx in
   let isApplication := bool_decide (tagName = lit "application") in
   read ←ʳ read_many (Z.to_nat attrCount) (readAttribute reader);
   let hasDebuggable := existsb is_debuggable_attr read in
   let attributes :=
     map (fun attr => if is_debuggable_attr attr
                      then mkAttr (attr_namespaceUri attr) (attr_name attr)
                                  (valueString attr) (type attr) (-1)
                      else attr) read in
   let androidNsIdx := indexOf newStrings ANDROID_NS in
   let attributes :=
     if isApplication && negb hasDebuggable
     then attributes ++ [mkAttr androidNsIdx debuggableStrIdx (-1) TYPE_INT_BOOLEAN (-1)]
     else attributes in
   let elemStartPos := offset w in
   let w := writeUint32 CHUNK_XML_START_ELEMENT w in
   let elemSizePos := offset w in
   let w := writeUint32 0 w in
   let w := writeUint32 lineNumber w in
   let w := writeUint32 comment w in
   let w := writeInt32 nsUri w in
   let w := writeUint32 nameIdx w in
   let w := writeUint16 0x14 w in
   let w := writeUint16 0x14 w in
   let w := writeUint16 (Z.of_nat (length attributes)) w in
   let w := writeUint16 idIdx w in
   let w := writeUint16 classIdx w in
   let w := writeUint16 styleIdx w in
   let w := fold_left writeAttribute attributes w in
   fun pos =>
     w ← view_setUint32 (view_of w) elemSizePos (offset w - elemStartPos) w;
     Some (w, pos))%rd.

(** The loop of [writeElements].  Every turn that does not leave the
    loop or throw moves the reader forward, and needs the eight header
    bytes inside the buffer: [fuel] above the buffer length is never
    used up. *)
Fixpoint writeElements_loop (fuel : nat) (newStrings : list jsstring)
    (debuggableStrIdx : Z) (pos : Z) (w : DataWriter) : option DataWriter :=
  let reader := rawData parsed in
  let len := Z.of_nat (length reader) in
  if decide (pos < len) then
    match fuel with
    | O => None
    | S fuel' =>
        let chunkStart := pos in
        chunkType ← getUint32 reader pos;
        chunkSize ← getUint32 reader (pos + 4);
        if decide (chunkSize = 0 ∨ chunkStart + chunkSize > len) then Some w
        else if decide (chunkType = CHUNK_XML_START_ELEMENT) then
          '(w', pos') ← rewriteStartElement newStrings debuggableStrIdx w (pos + 8);
          writeElements_loop fuel' newStrings debuggableStrIdx pos' w'
        else
          chunkData ← getBytes reader chunkStart chunkSize;
          writeElements_loop fuel' newStrings debuggableStrIdx
            (chunkStart + chunkSize) (writeBytes chunkData w)
    end
  else Some w.

Definition writeElements (newStrings : list jsstring) (debuggableStrIdx : Z)
    (addedNewString : bool) (w : DataWriter) : option DataWriter :=
  writeElements_loop (S (length (rawData parsed))) newStrings
    debuggableStrIdx (elementsOffset parsed) w.

Definition rebuildWithDebuggable (originalData : list byte)
  : option (list byte) :=
  let w := newWriter (Z.of_nat (length originalData) + 1024) in
  let found := indexOf (strings parsed) (lit "debuggable") in
  let needNewString := bool_decide (found = -1) in
  let debuggableStrIdx :=
    if needNewString then Z.of_nat (length (strings parsed)) else found in
  let newStrings :=
    if needNewString then strings parsed ++ [lit "debuggable"]
    else strings parsed in
  let needNewResId :=
    bool_decide (indexOf (resourceIds parsed) ATTR_DEBUGGABLE = -1) in
  let newResourceIds :=
    if needNewResId then resourceIds parsed ++ [ATTR_DEBUGGABLE]
    else resourceIds parsed in
  let w := writeUint32 CHUNK_AXML_FILE w in
  let w := writeUint32 0 w in
  w ← writeStringPool newStrings w;
  let w := writeResourceIds newResourceIds w in
  w ← writeElements newStrings debuggableStrIdx needNewString w;
  w ← view_setUint32 (view_of w) 4 (offset w) w;
  Some (writer_getBytes w).

(** The search for a boolean attribute to use as template:
    [Some (Some off)] when one is found at [off], [Some None] when there
    is none, [None] when a read throws. *)
Fixpoint find_template (data : list byte) (attrsOffset : Z) (n : nat) (i : Z)
  : option (option Z) :=
  match n with
  | O => Some None
  | S n' =>
      let attrOffset := attrsOffset + i * 20 in
      typeAndRes ← getUint32 data (attrOffset + 12);
      if decide (sar32 typeAndRes 24 = TYPE_INT_BOOLEAN)
      then Some (Some attrOffset)
      else find_template data attrsOffset n' (i + 1)
  end.

(** The new attribute record written through [attrView]. *)
Definition newAttr (androidNsIdx debuggableStrIdx : Z) : list byte :=
  le_encode 4 androidNsIdx ++ le_encode 4 debuggableStrIdx
  ++ le_encode 4 (-1) ++ le_encode 4 (or32 (shl32 TYPE_INT_BOOLEAN 24) 0x08)
  ++ le_encode 4 (-1).

(** The branch of [addDebuggableAttribute] that copies the buffer with
    room for one more attribute record. *)
Definition insertAttribute (data : list byte) (applicationChunkStart
    currentAttrCount attrsOffset androidNsIdx debuggableStrIdx : Z)
  : option (list byte) :=
  let newAttrSize := 20 in
  let insertPosition := attrsOffset + currentAttrCount * 20 in
  let newData := replicate (length data + Z.to_nat newAttrSize) x00 in
  (* subarray clamps its bounds to the buffer *)
  newData ← setBytes newData 0 (take (Z.to_nat insertPosition) data);
  newData ← setBytes newData insertPosition (newAttr androidNsIdx debuggableStrIdx);
  newData ← setBytes newData (insertPosition + newAttrSize)
              (drop (Z.to_nat insertPosition) data);
  newData ← setUint32 newData 4 (Z.of_nat (length newData));
  oldChunkSize ← getUint32 data (applicationChunkStart + 4);
  newData ← setUint32 newData (applicationChunkStart + 4) (oldChunkSize + newAttrSize);
  let attrCountOffset := applicationChunkStart + 8 + 8 + 4 + 4 + 2 + 2 in
  setUint16 newData attrCountOffset (currentAttrCount + 1).

Definition addDebuggableAttribute (data : list byte)
    (applicationChunkStart currentAttrCount attrsOffset : Z)
  : option (list byte) :=
  let debuggableStrIdx := indexOf (strings parsed) (lit "debuggable") in
  let androidNsIdx := indexOf (strings parsed) ANDROID_NS in
  let debuggableResIdx := indexOf (resourceIds parsed) ATTR_DEBUGGABLE in
  if decide (debuggableStrIdx = -1 ∨ debuggableResIdx = -1) then
    templateAttrOffset ←
      find_template data attrsOffset (Z.to_nat currentAttrCount) 0;
    match templateAttrOffset with
    | Some _ =>
        if decide (debuggableStrIdx = -1) then rebuildWithDebuggable data
        else insertAttribute data applicationChunkStart currentAttrCount
               attrsOffset androidNsIdx debuggableStrIdx
    | None => rebuildWithDebuggable data
    end
  else rebuildWithDebuggable data.

(** The scan of the application element's attributes:
    [Some (Some off)] when the first attribute named [debuggable] is at
    [off], [Some None] when there is none, [None] when a read throws. *)
Fixpoint find_debuggable (data : list byte) (attrsOffset : Z) (n : nat) (i : Z)
  : option (option Z) :=
  match n with
  | O => Some None
  | S n' =>
      let attrOffset := attrsOffset + i * 20 in
      attrNameIdx ← getUint32 data (attrOffset + 4);
      if decide (str_or_empty (strings parsed) attrNameIdx = lit "debuggable")
      then Some (Some attrOffset)
      else find_debuggable data attrsOffset n' (i + 1)
  end.

(** The header fields of a start element that [makeDebuggable] reads
    after the chunk type and size: the name index and attribute count. *)
Definition readStartHeader (data : list byte) : Reader (Z * Z) :=
  (skip 8 ;;ʳ
   nsUri ←ʳ readInt32 data;
   nameIdx ←ʳ readUint32 data;
   attrStart ←ʳ readUint16 data;
   attrSize ←ʳ readUint16 data;
   attrCount ←ʳ readUint16 data;
   idIdx ←ʳ readUint16 data;
   classIdx ←ʳ readUint16 data;
   styleIdx ←ʳ readUint16 data;
   rd_ret (nameIdx, attrCount))%rd.

(** The [while (reader.position < data.length)] loop of
    [makeDebuggable]; [data] is the copy of [rawData] the function
    returns.  A turn that goes on moves the position forward by a chunk
    size that is not 0: [fuel] above the buffer length is never used up. *)
Fixpoint makeDebuggable_loop (fuel : nat) (data : list byte) (pos : Z)
  : option (list byte) :=
  if decide (pos < Z.of_nat (length data)) then
    match fuel with
    | O => None
    | S fuel' =>
        let chunkStart := pos in
        chunkType ← getUint32 data pos;
        chunkSize ← getUint32 data (pos + 4);
        let next :=
          if decide (chunkSize = 0) then Some data
          else makeDebuggable_loop fuel' data (chunkStart + chunkSize) in
        if decide (chunkType = CHUNK_XML_START_ELEMENT) then
          '(nameIdx, attrCount, _) ← readStartHeader data (pos + 8);
          let tagName := str_or_empty (strings parsed) nameIdx in
          if decide (tagName = lit "application") then
            let attrsOffset := chunkStart + 8 + 8 + 4 + 4 + 2 + 2 + 2 + 2 + 2 + 2 in
            found ← find_debuggable data attrsOffset (Z.to_nat attrCount) 0;
            match found with
            | Some attrOffset => setInt32 data (attrOffset + 16) (-1)
            | None =>
                addDebuggableAttribute data chunkStart attrCount attrsOffset
            end
          else next
        else next
    end
  else Some data.

Definition makeDebuggable : option (list byte) :=
  makeDebuggable_loop (S (length (rawData parsed))) (rawData parsed)
    (elementsOffset parsed).
End AXMLModifier.

(** The two exported entry points; a read outside the buffer surfaces as
    the [RangeError] it is. *)
Definition parseAndroidManifest (utf8_decode : list byte → jsstring)
    (data : list byte) : completion (ApkManifestInfo * ParsedAXML) :=
  match parse utf8_decode data with
  | Normal parsed => Normal (getManifestInfo parsed, parsed)
  | Throw e => Throw e
  | Diverge => Diverge
  end.

Definition makeManifestDebuggable (utf8_decode : list byte → jsstring)
    (utf8_encode : jsstring → list byte) (data : list byte)
  : completion (list byte) :=
  match parse utf8_decode data with
  | Normal parsed =>
      match makeDebuggable utf8_encode parsed with
      | Some out => Normal out
      | None => Throw RangeErrorObj
      end
  | Throw e => Throw e
  | Diverge => Diverge
  end.

End Axml.

(** ** The JAR v1 signer (apk-signer.ts) *)

Module Signer.
Import Js.

(** [Map<string, ArrayBuffer>]: the entries in insertion order, the keys
    distinct. *)
Abbreviation FileMap := (list (jsstring * list byte)).

Definition map_keys (files : FileMap) : list jsstring := map fst files.

Fixpoint map_get (files : FileMap) (name : jsstring) : option (list byte) :=
  match files with
  | [] => None
  | (k, v) :: files' => if decide (k = name) then Some v else map_get files' name
  end.

Fixpoint map_set (files : FileMap) (name : jsstring) (v : list byte) : FileMap :=
  match files with
  | [] => [(name, v)]
  | (k, v') :: files' =>
      if decide (k = name) then (k, v) :: files'
      else (k, v') :: map_set files' name v
  end.

(** The [while (remaining.length > 0)] loop of [wrapLine]; every turn
    removes up to 69 characters, so [fuel] equal to the length is enough. *)
Fixpoint wrapRest (fuel : nat) (remaining : jsstring) : jsstring :=
  match fuel with
  | O => []
  | S fuel' =>
      if decide (0 < length remaining)%nat then
        let chunk := take 69 remaining in
        lit " " ++ chunk ++ CRLF ++ wrapRest fuel' (drop 69 remaining)
      else []
  end.

Definition wrapLine (line : jsstring) : jsstring :=
  if decide (length line ≤ 70)%nat then line ++ CRLF
  else take 70 line ++ CRLF ++ wrapRest (length line) (drop 70 line).

Definition formatManifestEntry (name hash digestName : jsstring) : jsstring :=
  let nameLine := lit "Name: " ++ name in
  let digestLine := digestName ++ lit ": " ++ hash in
  wrapLine nameLine ++ wrapLine digestLine ++ CRLF.

Definition SHA_256_Digest : jsstring := lit "SHA-256-Digest".

Definition manifestHeader : jsstring :=
  lit "Manifest-Version: 1.0" ++ CRLF
  ++ lit "Created-By: 1.0 (APK Debugger)" ++ CRLF
  ++ CRLF.

(** The state of the line loop of [createCertSF]. *)
Record SFState : Type := mkSF {
  sf : jsstring;
  currentEntry : jsstring;
  currentName : jsstring
}.

Section Signer.
(** [sha256Base64]: [btoa] of the [crypto.subtle] SHA-256 digest. *)
Variable sha256Base64 : list byte → jsstring.
(** [new TextEncoder().encode] *)
Variable utf8_encode : jsstring → list byte.

(** One turn of [for (const name of sortedFiles)]; [files.get(name)] is
    never [undefined] there, [name] being a key of [files]. *)
Definition manifest_entry (files : FileMap) (manifest name : jsstring)
  : jsstring :=
  if startsWith name (lit "META-INF/") then manifest
  else match map_get files name with
       | Some data =>
           manifest ++ formatManifestEntry name (sha256Base64 data) SHA_256_Digest
       | None => manifest
       end.

Definition createManifestMF (files : FileMap) : jsstring :=
  let sortedFiles := sort (map_keys files) in
  fold_left (manifest_entry files) sortedFiles manifestHeader.

Definition sfHeader (manifestMF : jsstring) : jsstring :=
  let manifestHash := sha256Base64 (utf8_encode manifestMF) in
  lit "Signature-Version: 1.0" ++ CRLF
  ++ lit "SHA-256-Digest-Manifest: " ++ manifestHash ++ CRLF
  ++ lit "Created-By: 1.0 (APK Debugger)" ++ CRLF
  ++ CRLF.

(** One turn of [for (let i = 0; i < lines.length; i++)]. *)
Definition sf_line (st : SFState) (line : jsstring) : SFState :=
  if startsWith line (lit "Name: ") then
    mkSF (sf st) (line ++ CRLF) (drop 6 line)
  else if startsWith line (lit " ") then
    mkSF (sf st) (currentEntry st ++ line ++ CRLF) (currentName st)
  else if startsWith line (lit "SHA-256-Digest:")
          || startsWith line (lit "SHA256-Digest:") then
    mkSF (sf st) (currentEntry st ++ line ++ CRLF) (currentName st)
  else if decide (line = [] ∧ currentName st ≠ []) then
    let currentEntry := currentEntry st ++ CRLF in
    let entryHash := sha256Base64 (utf8_encode currentEntry) in
    mkSF (sf st ++ formatManifestEntry (currentName st) entryHash SHA_256_Digest)
         [] []
  else st.

Definition createCertSF (manifestMF : jsstring) (files : FileMap) : jsstring :=
  let lines := splitCRLF manifestMF in
  sf (fold_left sf_line lines (mkSF (sfHeader manifestMF) [] [])).

(** [signApk]; the CMS block comes from the PKI engine. *)
Definition signApk {SigningKey : Type}
    (createCertRSA : jsstring → SigningKey → completion (list byte))
    (files : FileMap) (signingKey : SigningKey)
  : completion (jsstring * jsstring * list byte) :=
  let manifestMF := createManifestMF files in
  let certSF := createCertSF manifestMF files in
  match createCertRSA certSF signingKey with
  | Normal certRSA => Normal (manifestMF, certSF, certRSA)
  | Throw e => Throw e
  | Diverge => Diverge
  end.
End Signer.

End Signer.

(** ** The orchestrator and the bundle merger (apk-processor.ts) *)

Module Processor.
Import Js.

Inductive LogType : Type := Info | Success | Warning | Error.

Record ProcessingLog : Type := mkLog {
  log_type : LogType;
  message : jsstring;
  timestamp : Z
}.

Record ApkInfo : Type := mkApkInfo {
  packageName : jsstring;
  versionName : jsstring;
  versionCode : jsstring;
  minSdk : jsstring;
  targetSdk : jsstring;
  isDebuggable : bool;
  permissions : list jsstring
}.

Record ProcessResult (Blob : Type) : Type := mkResult {
  success : bool;
  apkBlob : option Blob;
  apkInfo : option ApkInfo;
  logs : list ProcessingLog
}.
Arguments mkResult {Blob}.
Arguments success {Blob}.
Arguments apkBlob {Blob}.
Arguments apkInfo {Blob}.
Arguments logs {Blob}.

(** [File]: the name, the size and what [arrayBuffer()] settles to. *)
Record File : Type := mkFile {
  file_name : jsstring;
  file_size : Z;
  arrayBuffer : completion (list byte)
}.

(** *** The archive container

    A [JSZip] object is its [files] table in enumeration order, the names
    distinct; an entry is a directory or holds what [async(...)] settles
    to. *)
Record ZipObject : Type := mkZipObject {
  dir : bool;
  async : completion (list byte)
}.

Abbreviation JSZip := (list (jsstring * ZipObject)).

Fixpoint zip_lookup (zip : JSZip) (path : jsstring) : option ZipObject :=
  match zip with
  | [] => None
  | (n, o) :: zip' => if decide (n = path) then Some o else zip_lookup zip' path
  end.

(** Modelled from the spec: the container library is not part of the
    sources; [zip.file(path)] is the adapter's read of an entry, which
    finds entries that are not directories. *)
Definition zip_file (zip : JSZip) (path : jsstring) : option ZipObject :=
  match zip_lookup zip path with
  | Some o => if dir o then None else Some o
  | None => None
  end.

(** Modelled from the spec: [zip.file(path, data)] is the adapter's "add
    or overwrite an entry by (name, bytes)". *)
Fixpoint zip_put (zip : JSZip) (path : jsstring) (data : list byte) : JSZip :=
  match zip with
  | [] => [(path, mkZipObject false (Normal data))]
  | (n, o) :: zip' =>
      if decide (n = path) then (n, mkZipObject false (Normal data)) :: zip'
      else (n, o) :: zip_put zip' path data
  end.

(** Modelled from the spec: [zip.remove(path)] is the adapter's "remove an
    entry by name". *)
Definition zip_remove (zip : JSZip) (path : jsstring) : JSZip :=
  filter (fun e => e.1 ≠ path) zip.

(** *** patchManifestBinary *)

Definition bytes_at (d : list byte) (i : Z) (pat : list byte) : bool :=
  bool_decide (0 ≤ i ∧ take (length pat) (drop (Z.to_nat i) d) = pat).

(** The inner [for (let j = i + 4; j < Math.min(i + 24, result.length - 4); j++)]:
    the patched buffer when the boolean type marker is found.  A store past
    the end of a typed array is dropped. *)
Fixpoint patch_inner (turns : nat) (result : list byte) (j limit : Z)
  : option (list byte) :=
  match turns with
  | O => None
  | S turns' =>
      if decide (j < limit) then
        if bytes_at result j [x12; x00; x00; x08] then
          let k := Z.to_nat j in
          Some (<[(k + 7)%nat := xff]> (<[(k + 6)%nat := xff]>
                 (<[(k + 5)%nat := xff]> (<[(k + 4)%nat := xff]> result))))
        else patch_inner turns' result (j + 1) limit
      else None
  end.

(** The outer [for (let i = 0; i < result.length - 20; i++)]. *)
Fixpoint patch_outer (turns : nat) (result : list byte) (i : Z) : list byte :=
  match turns with
  | O => result
  | S turns' =>
      let len := Z.of_nat (length result) in
      if decide (i < len - 20) then
        if bytes_at result i [x0f; x00; x01; x01] then
          match patch_inner 20 result (i + 4) (Z.min (i + 24) (len - 4)) with
          | Some patched => patched
          | None => patch_outer turns' result (i + 1)
          end
        else patch_outer turns' result (i + 1)
      else result
  end.

Definition patchManifestBinary (data : list byte) : list byte :=
  patch_outer (length data) data 0.

(** *** removeSignatures and collectFiles *)

Section removeSignatures.
Variable toUpperCase : jsstring → jsstring.

Definition is_signature_file (path : jsstring) : bool :=
  startsWith path (lit "META-INF/") &&
  (let upperPath := toUpperCase path in
   endsWith upperPath (lit ".SF")
   || endsWith upperPath (lit ".RSA")
   || endsWith upperPath (lit ".DSA")
   || endsWith upperPath (lit ".EC")
   || bool_decide (upperPath = lit "META-INF/MANIFEST.MF")
   || includes upperPath (lit "CERT")
   || includes upperPath (lit "SIGN")).

(** The archive without the signature files, and their number. *)
Definition removeSignatures (zip : JSZip) : JSZip * Z :=
  let filesToRemove := filter (fun path => is_signature_file path = true) (map fst zip) in
  (fold_left zip_remove filesToRemove zip, Z.of_nat (length filesToRemove)).
End removeSignatures.

(** [collectFiles]: every entry that is not a directory is read and set
    in the map; a read that rejects rejects the whole call. *)
Fixpoint collectFiles (zip : JSZip) (fileMap : Signer.FileMap)
  : completion Signer.FileMap :=
  match zip with
  | [] => Normal fileMap
  | (path, file) :: zip' =>
      if dir file then collectFiles zip' fileMap
      else match async file with
           | Normal data => collectFiles zip' (Signer.map_set fileMap path data)
           | Throw e => Throw e
           | Diverge => Diverge
           end
  end.

(** *** The bundle merger *)

Record ApkFileRef : Type := mkApkFileRef {
  apk_name : jsstring;
  isBase : bool
}.

Section bundle.
Variable toLowerCase : jsstring → jsstring.

(** The [bundleZip.forEach] that fills [apkFiles]. *)
Definition find_apkFiles (bundleZip : JSZip) : list ApkFileRef :=
  flat_map (fun '(path, file) =>
    if endsWith path (lit ".apk") && negb (dir file) then
      let isBase := includes (toLowerCase path) (lit "base")
                    || includes (toLowerCase path) (lit "universal")
                    || bool_decide (path = lit "base.apk") in
      [mkApkFileRef path isBase]
    else []) bundleZip.

(** [apkFiles.find(f => f.isBase)?.name], then the first archive when
    that is [undefined] or empty. *)
Definition select_base (apkFiles : list ApkFileRef) : option jsstring :=
  match apk_name <$> List.find isBase apkFiles with
  | Some ((_ :: _) as n) => Some n
  | _ => apk_name <$> head apkFiles
  end.
End bundle.

(** The entries of a split that its [forEach] schedules for insertion. *)
Definition eligible (mainZip splitZip : JSZip) : JSZip :=
  filter (fun e => dir e.2 = false
                   ∧ startsWith e.1 (lit "META-INF/") = false
                   ∧ zip_file mainZip e.1 = None) splitZip.

(** The scheduled reads and insertions, taken in enumeration order. *)
Fixpoint merge_entries (entries : JSZip) (mainZip : JSZip) (mergedCount : Z)
  : completion (JSZip * Z) :=
  match entries with
  | [] => Normal (mainZip, mergedCount)
  | (path, file) :: entries' =>
      match async file with
      | Normal data => merge_entries entries' (zip_put mainZip path data) (mergedCount + 1)
      | Throw e => Throw e
      | Diverge => Diverge
      end
  end.

Definition merge_split (mainZip splitZip : JSZip) : completion (JSZip * Z) :=
  merge_entries (eligible mainZip splitZip) mainZip 0.

(** *** The orchestrator's monad: the log array and the consumer of the
    log events are threaded through steps that return, throw or hang. *)

Record St (CbState : Type) : Type := mkSt {
  st_logs : list ProcessingLog;
  st_cb : CbState
}.
Arguments mkSt {CbState}.
Arguments st_logs {CbState}.
Arguments st_cb {CbState}.

Definition M (CbState A : Type) : Type := St CbState → completion A * St CbState.

Definition m_ret {S A} (a : A) : M S A := fun st => (Normal a, st).
Definition m_bind {S A B} (m : M S A) (k : A → M S B) : M S B :=
  fun st => match m st with
            | (Normal a, st') => k a st'
            | (Throw e, st') => (Throw e, st')
            | (Diverge, st') => (Diverge, st')
            end.
Definition m_lift {S A} (c : completion A) : M S A := fun st => (c, st).
Definition m_throw {S A} (e : exn) : M S A := fun st => (Throw e, st).
Definition try_catch {S A} (body : M S A) (handler : exn → M S A) : M S A :=
  fun st => match body st with
            | (Throw e, st') => handler e st'
            | r => r
            end.

Declare Scope proc_scope.
Delimit Scope proc_scope with proc.
Notation "x ←ᵐ m ; k" := (m_bind m (fun x => k))
  (at level 20, m at level 100, k at level 200, only parsing, right associativity)
  : proc_scope.
Notation "' x ←ᵐ m ; k" := (m_bind m (fun x => k))
  (at level 20, x pattern, m at level 100, k at level 200, only parsing,
   right associativity) : proc_scope.
Notation "m ;;ᵐ k" := (m_bind m (fun _ => k))
  (at level 100, k at level 200, only parsing, right associativity)
  : proc_scope.

Section Orchestrator.
Context {Blob SigningKey CbState : Type}.
(** The consumer of the log events: it returns, throws or hangs, and
    may keep a state of its own. *)
Variable onLog : ProcessingLog → CbState → completion unit * CbState.
(** [new Date()] at the n-th log entry. *)
Variable clock : nat → Z.
(** [JSZip.loadAsync] and [zip.generateAsync]. *)
Variable loadAsync : list byte → completion JSZip.
Variable generateAsync : JSZip → completion Blob.
Variable blob_size : Blob → Z.
(** The signing identity factory and the CMS signer. *)
Variable generateSigningKey : completion SigningKey.
Variable createCertRSA : jsstring → SigningKey → completion (list byte).
Variable sha256Base64 : list byte → jsstring.
Variable utf8_encode : jsstring → list byte.
Variable utf8_decode : list byte → jsstring.
Variable toLowerCase toUpperCase : jsstring → jsstring.
(** [(n / 1024 / 1024).toFixed(2)] *)
Variable toFixedMB : Z → jsstring.
(** The message of the engine's [RangeError]. *)
Variable rangeErrorMessage : jsstring.

Local Open Scope proc_scope.

Definition log (type : LogType) (message : jsstring) : M CbState unit :=
  fun st =>
    let entry := mkLog type message (clock (length (st_logs st))) in
    let '(r, cb) := onLog entry (st_cb st) in
    (r, mkSt (st_logs st ++ [entry]) cb).

(** The [for (const apkFile of apkFiles)] loop of [processApksBundle]. *)
Fixpoint merge_splits (bundleZip : JSZip) (baseApkPath : jsstring)
    (apkFiles : list ApkFileRef) (mainZip : JSZip) : M CbState JSZip :=
  match apkFiles with
  | [] => m_ret mainZip
  | apkFile :: apkFiles' =>
      if decide (apk_name apkFile = baseApkPath)
      then merge_splits bundleZip baseApkPath apkFiles' mainZip
      else
        log Info (lit "Merging split: " ++ apk_name apkFile) ;;ᵐ
        splitData ←ᵐ m_lift (match zip_file bundleZip (apk_name apkFile) with
                             | Some file => async file
                             | None => Throw (ErrorObj (lit "null"))
                             end);
        splitZip ←ᵐ m_lift (loadAsync splitData);
        '(mainZip', mergedCount) ←ᵐ m_lift (merge_split mainZip splitZip);
        log Success (lit "Merged " ++ toString mergedCount ++ lit " files from "
                     ++ apk_name apkFile) ;;ᵐ
        merge_splits bundleZip baseApkPath apkFiles' mainZip'
  end.

Definition processApksBundle (arrayBuffer : list byte) : M CbState JSZip :=
  bundleZip ←ᵐ m_lift (loadAsync arrayBuffer);
  let apkFiles := find_apkFiles toLowerCase bundleZip in
  match select_base apkFiles with
  | None => m_throw (ErrorObj (lit "No APK files found in APKS bundle"))
  | Some baseApkPath =>
      log Info (lit "Found " ++ toString (Z.of_nat (length apkFiles))
                ++ lit " APK(s) in bundle") ;;ᵐ
      log Info (lit "Base APK: " ++ baseApkPath) ;;ᵐ
      baseApkData ←ᵐ m_lift (match zip_file bundleZip baseApkPath with
                             | Some file => async file
                             | None => Throw (ErrorObj (lit "null"))
                             end);
      mainZip ←ᵐ m_lift (loadAsync baseApkData);
      log Success (lit "Base APK extracted") ;;ᵐ
      mainZip ←ᵐ merge_splits bundleZip baseApkPath apkFiles mainZip;
      log Success (lit "All splits merged into single APK") ;;ᵐ
      m_ret mainZip
  end.

Definition apkInfo_of (info : Axml.ApkManifestInfo) : ApkInfo :=
  mkApkInfo
    (str_or_default (Axml.packageName info) (lit "unknown"))
    (str_or_default (Axml.versionName info) (lit "1.0"))
    (toString (Axml.versionCode info))
    (if decide (Axml.minSdkVersion info > 0)
     then lit "API " ++ toString (Axml.minSdkVersion info) else lit "N/A")
    (if decide (Axml.targetSdkVersion info > 0)
     then lit "API " ++ toString (Axml.targetSdkVersion info) else lit "N/A")
    (Axml.isDebuggable info)
    (Axml.permissions info).

Definition fallbackInfo : ApkInfo :=
  mkApkInfo (lit "unknown.app") (lit "1.0") (lit "1") (lit "N/A") (lit "N/A")
            false [].

Definition with_debuggable (i : ApkInfo) : ApkInfo :=
  mkApkInfo (packageName i) (versionName i) (versionCode i) (minSdk i)
            (targetSdk i) true (permissions i).

(** The [try] block of [processApk]. *)
Definition processApk_try (file : File) : M CbState (Blob * ApkInfo) :=
  log Info (lit "Loading file: " ++ file_name file ++ lit " ("
            ++ toFixedMB (file_size file) ++ lit " MB)") ;;ᵐ
  arrayBuffer ←ᵐ m_lift (arrayBuffer file);
  let isApks := endsWith (toLowerCase (file_name file)) (lit ".apks") in
  mainZip ←ᵐ (if isApks then
                log Info (lit "Detected APKS bundle format") ;;ᵐ
                processApksBundle arrayBuffer
              else
                mainZip ←ᵐ m_lift (loadAsync arrayBuffer);
                log Success (lit "APK extracted successfully") ;;ᵐ
                m_ret mainZip);
  match zip_file mainZip (lit "AndroidManifest.xml") with
  | None => m_throw (ErrorObj (lit "AndroidManifest.xml not found in APK"))
  | Some manifestFile =>
      log Info (lit "Parsing AndroidManifest.xml (binary AXML format)...") ;;ᵐ
      manifestData ←ᵐ m_lift (async manifestFile);
      apkInfo ←ᵐ try_catch
        ('(info, _) ←ᵐ m_lift (Axml.parseAndroidManifest utf8_decode manifestData);
         let apkInfo := apkInfo_of info in
         log Success (lit "Parsed manifest: " ++ packageName apkInfo
                      ++ lit " v" ++ versionName apkInfo) ;;ᵐ
         (if Axml.isDebuggable info
          then log Warning (lit "App is already debuggable")
          else m_ret tt) ;;ᵐ
         m_ret apkInfo)
        (fun parseError =>
           log Warning (lit "Could not fully parse manifest, using fallback") ;;ᵐ
           m_ret fallbackInfo);
      log Info (lit "Patching manifest to enable debugging...") ;;ᵐ
      modifiedManifest ←ᵐ try_catch
        (modifiedManifest ←ᵐ
           m_lift (Axml.makeManifestDebuggable utf8_decode utf8_encode manifestData);
         log Success (lit "Manifest patched: android:debuggable=" ++ [34]
                      ++ lit "true" ++ [34]) ;;ᵐ
         m_ret modifiedManifest)
        (fun modifyError =>
           log Warning (lit "Could not modify manifest via AXML, using binary patch") ;;ᵐ
           m_ret (patchManifestBinary manifestData));
      let mainZip := zip_put mainZip (lit "AndroidManifest.xml") modifiedManifest in
      log Info (lit "Removing existing signatures...") ;;ᵐ
      let '(mainZip, removedFiles) := removeSignatures toUpperCase mainZip in
      log Success (lit "Removed " ++ toString removedFiles
                   ++ lit " signature files from META-INF") ;;ᵐ
      log Info (lit "Collecting files for signing...") ;;ᵐ
      fileMap ←ᵐ m_lift (collectFiles mainZip []);
      log Success (lit "Collected " ++ toString (Z.of_nat (length fileMap))
                   ++ lit " files") ;;ᵐ
      log Info (lit "Generating debug signing key...") ;;ᵐ
      signingKey ←ᵐ m_lift generateSigningKey;
      log Success (lit "RSA 2048-bit key pair generated") ;;ᵐ
      log Info (lit "Creating JAR signature (v1)...") ;;ᵐ
      '(manifestMF, certSF, certRSA) ←ᵐ
        m_lift (Signer.signApk sha256Base64 utf8_encode createCertRSA fileMap signingKey);
      let mainZip := zip_put mainZip (lit "META-INF/MANIFEST.MF") (utf8_encode manifestMF) in
      let mainZip := zip_put mainZip (lit "META-INF/CERT.SF") (utf8_encode certSF) in
      let mainZip := zip_put mainZip (lit "META-INF/CERT.RSA") certRSA in
      log Success (lit "APK signed with PKCS#7 signature") ;;ᵐ
      log Info (lit "Generating final APK...") ;;ᵐ
      apkBlob ←ᵐ m_lift (generateAsync mainZip);
      let apkInfo := with_debuggable apkInfo in
      log Success (lit "APK generated successfully ("
                   ++ toFixedMB (blob_size apkBlob) ++ lit " MB)") ;;ᵐ
      log Info (lit "Install with: adb install -t <filename>.apk") ;;ᵐ
      m_ret (apkBlob, apkInfo)
  end.

(** [error instanceof Error ? error.message : 'Unknown error occurred'] *)
Definition error_message (error : exn) : jsstring :=
  match error with
  | ErrorObj message => message
  | RangeErrorObj => rangeErrorMessage
  | NonError => lit "Unknown error occurred"
  end.

(** [processApk]: the log array starts empty; the result carries the
    array as it stands when the function returns. *)
Definition processApk (file : File) (cb : CbState)
  : completion (ProcessResult Blob) * St CbState :=
  (try_catch
     ('(apkBlob, apkInfo) ←ᵐ processApk_try file;
      fun st => (Normal (mkResult true (Some apkBlob) (Some apkInfo) (st_logs st)), st))
     (fun error =>
        let message := error_message error in
        log Error (lit "Processing failed: " ++ message) ;;ᵐ
        fun st => (Normal (mkResult false None None (st_logs st)), st)))
    (mkSt [] cb).
End Orchestrator.

End Processor.

(** ** Vocabulary of the statements *)

Module Spec.
Import Js Axml Signer Processor.

Definition META_INF : jsstring := lit "META-INF/".
Definition entry_block (sha256Base64 : list byte → jsstring) (e : jsstring * list byte) : jsstring :=
  formatManifestEntry e.1 (sha256Base64 e.2) SHA_256_Digest.
Definition signed_entries (files : FileMap) : FileMap :=
  flat_map (fun n => match map_get files n with Some d => [(n, d)] | None => [] end)
    (filter (fun n => startsWith n META_INF = false) (sort (map_keys files))).
Definition file_entries (zip : JSZip) : FileMap :=
  flat_map (fun e => if dir e.2 then []
                     else match async e.2 with Normal d => [(e.1, d)] | _ => [] end) zip.

(** The text made of the lines [ls], each ended by CRLF. *)
Definition unlines (ls : list jsstring) : jsstring :=
  flat_map (fun l => l ++ CRLF) ls.

(** The continuation lines [wrapRest] writes. *)
Fixpoint cont_lines (fuel : nat) (remaining : jsstring) : list jsstring :=
  match fuel with
  | O => []
  | S fuel' =>
      if decide (0 < length remaining)%nat
      then (lit " " ++ take 69 remaining) :: cont_lines fuel' (drop 69 remaining)
      else []
  end.

(** The physical lines [wrapLine] writes for a logical line. *)
Definition phys_lines (line : jsstring) : list jsstring :=
  if decide (length line ≤ 70)%nat then [line]
  else take 70 line :: cont_lines (length line) (drop 70 line).

(** The block [createCertSF] writes for the manifest block of [e]. *)
Definition sf_block_of (sha256Base64 : list byte → jsstring)
    (utf8_encode : jsstring → list byte) (e : jsstring * list byte) : jsstring :=
  formatManifestEntry (take 64 e.1)
    (sha256Base64 (utf8_encode (entry_block sha256Base64 e))) SHA_256_Digest.
(** The lines of the manifest header and of the block of an entry. *)
Definition header_lines : list jsstring :=
  [lit "Manifest-Version: 1.0"; lit "Created-By: 1.0 (APK Debugger)"; []].

Definition block_lines (n h : jsstring) : list jsstring :=
  phys_lines (lit "Name: " ++ n)
  ++ phys_lines (SHA_256_Digest ++ lit ": " ++ h) ++ [[]].

(** Written from the spec, to be compared with [createManifestMF]: the
    block of an entry is its Name line and its SHA-256-Digest line, each
    wrapped, and a blank line; the header is the two fixed lines and a
    blank line. *)
Definition manifest_block (name digest : jsstring) : list jsstring :=
  phys_lines (lit "Name: " ++ name)
  ++ phys_lines (lit "SHA-256-Digest: " ++ digest)
  ++ [lit ""].
Definition manifest_text (blocks : list (jsstring * jsstring)) : jsstring :=
  unlines [lit "Manifest-Version: 1.0"; lit "Created-By: 1.0 (APK Debugger)"; lit ""]
  ++ flat_map (fun b => unlines (manifest_block b.1 b.2)) blocks.

(** The nested archives of a bundle, in enumeration order. *)
Definition nested_archives (bundleZip : JSZip) : list jsstring :=
  map fst (filter (fun e => endsWith e.1 (lit ".apk") = true ∧ dir e.2 = false) bundleZip).

(** The mark [isBase] of a nested archive. *)
Definition base_mark (toLowerCase : jsstring → jsstring) (path : jsstring) : bool :=
  includes (toLowerCase path) (lit "base")
  || includes (toLowerCase path) (lit "universal")
  || bool_decide (path = lit "base.apk").

(** Written from the claim, to be compared with [select_base]: the first
    archive whose lowercased name equals base.apk, else the first that
    contains base, else the first that contains universal, else the first. *)
Definition claimed_base (toLowerCase : jsstring → jsstring) (bundleZip : JSZip)
  : option jsstring :=
  let apks := nested_archives bundleZip in
  match List.find (fun n => bool_decide (toLowerCase n = lit "base.apk")) apks with
  | Some n => Some n
  | None =>
      match List.find (fun n => includes (toLowerCase n) (lit "base")) apks with
      | Some n => Some n
      | None =>
          match List.find (fun n => includes (toLowerCase n) (lit "universal")) apks with
          | Some n => Some n
          | None => head apks
          end
      end
  end.

(** A split of the bundle: a nested archive other than the base, as the
    container reader loads it. *)
Definition split_of (loadAsync : list byte → completion JSZip) (bundleZip : JSZip)
    (baseApkPath : jsstring) (splitZip : JSZip) : Prop :=
  ∃ name file splitData,
    name ∈ nested_archives bundleZip ∧ name ≠ baseApkPath
    ∧ zip_file bundleZip name = Some file
    ∧ async file = Normal splitData
    ∧ loadAsync splitData = Normal splitZip.

(** What a merge of the archives in [split] into [base] keeps and adds:
    every file of [base] stays as it is; under META-INF/ the archive holds
    what [base] holds; and a file of the merged archive is a file of
    [base] or was read from an entry of a split that is not a directory
    and not under META-INF/.  Files are what [zip.file(path)] finds: the
    entries the container makes for the parent folders of an inserted
    file are left out of account. *)
Definition merge_respects (split : JSZip → Prop) (base merged : JSZip) : Prop :=
  (∀ path o, zip_file base path = Some o → zip_file merged path = Some o)
  ∧ (∀ path, startsWith path META_INF = true →
             zip_lookup merged path = zip_lookup base path)
  ∧ (∀ path o, zip_file merged path = Some o →
       zip_file base path = Some o
       ∨ ∃ splitZip file data,
           split splitZip ∧ (path, file) ∈ splitZip
           ∧ dir file = false ∧ startsWith path META_INF = false
           ∧ async file = Normal data
           ∧ o = mkZipObject false (Normal data)).

Definition APPLICATION : jsstring := lit "application".
Definition DEBUGGABLE : jsstring := lit "debuggable".

(** A chunk of [sz] bytes at [pos] that is not the application start
    element: its header is in the buffer, it is not empty, and when it is
    a start element its fixed part is in the buffer and names another tag. *)
Definition plain_chunk (strs : list jsstring) (d : list byte) (pos sz : Z) : Prop :=
  ∃ ty, getUint32 d pos = Some ty
        ∧ getUint32 d (pos + 4) = Some sz
        ∧ 0 < sz
        ∧ (ty = CHUNK_XML_START_ELEMENT →
             pos + 36 ≤ Z.of_nat (length d)
             ∧ ∃ nameIdx, getUint32 d (pos + 20) = Some nameIdx
                          ∧ str_or_empty strs nameIdx ≠ APPLICATION).

(** The chunks from [pos] up to [pos'] follow one another and none is the
    application start element. *)
Inductive skips (strs : list jsstring) (d : list byte) : Z → Z → Prop :=
  | skips_here pos : skips strs d pos pos
  | skips_chunk pos sz pos' :
      plain_chunk strs d pos sz →
      skips strs d (pos + sz) pos' →
      skips strs d pos pos'.

(** The start element at [cs] is named application and its [count]
    attribute records lie in the buffer. *)
Definition application_at (strs : list jsstring) (d : list byte) (cs count : Z) : Prop :=
  getUint32 d cs = Some CHUNK_XML_START_ELEMENT
  ∧ (∃ sz, getUint32 d (cs + 4) = Some sz)
  ∧ (∃ nameIdx, getUint32 d (cs + 20) = Some nameIdx
                ∧ str_or_empty strs nameIdx = APPLICATION)
  ∧ getUint16 d (cs + 28) = Some count
  ∧ cs + 36 + 20 * count ≤ Z.of_nat (length d).

(** The name of the attribute record at [off]. *)
Definition attr_named (strs : list jsstring) (d : list byte) (off : Z) (nm : jsstring) : Prop :=
  ∃ idx, getUint32 d (off + 4) = Some idx ∧ str_or_empty strs idx = nm.

(** Attribute [i] of the element at [cs] is its first one named debuggable. *)
Definition first_debuggable (strs : list jsstring) (d : list byte) (cs count i : Z) : Prop :=
  0 ≤ i < count
  ∧ attr_named strs d (cs + 36 + 20 * i) DEBUGGABLE
  ∧ ∀ j, 0 ≤ j < i → ∃ nm, attr_named strs d (cs + 36 + 20 * j) nm ∧ nm ≠ DEBUGGABLE.

(** The number of positions at which two buffers differ. *)
Definition diff_count (a b : list byte) : nat :=
  length (filter (fun xy => xy.1 ≠ xy.2) (zip a b)).

(** The buffer [d] with one attribute record spliced in at [ip], before
    the size fields are revised. *)
Definition spliced (d : list byte) (ip androidNsIdx debuggableStrIdx : Z) : list byte :=
  take (Z.to_nat ip) d ++ newAttr androidNsIdx debuggableStrIdx ++ drop (Z.to_nat ip) d.

(** Readers that never move the position backwards. *)
Definition rd_mono {A} (m : Reader A) : Prop :=
  ∀ p a p', m p = Some (a, p') → p ≤ p'.

(** Readers that stay at or above [lb] and return values in [P]. *)
Definition rd_spec {A} (lb : Z) (P : A → Prop) (m : Reader A) : Prop :=
  ∀ p a p', lb ≤ p → m p = Some (a, p') → lb ≤ p' ∧ P a.

(** One turn of the parser's [while] loop over the buffer [d]: from the
    state and the position before a chunk to those after it. *)
Definition parser_turn (utf8_decode : list byte → jsstring) (d : list byte) (fileSize : Z)
    (st : ParserState) (pos : Z) (st' : ParserState) (pos' : Z) : Prop :=
  pos < fileSize
  ∧ ∃ chunkType chunkSize pos2,
      getUint32 d pos = Some chunkType
      ∧ getUint32 d (pos + 4) = Some chunkSize
      ∧ (known_chunk chunkType = true ∨ chunkSize ≠ 0)
      ∧ parseChunk utf8_decode d st pos chunkType chunkSize (pos + 8) = Some (st', pos2)
      ∧ pos' = (if decide (pos2 < pos + chunkSize) then pos + chunkSize else pos2).

(** Turns of the loop, one after the other. *)
Inductive parser_reaches (utf8_decode : list byte → jsstring) (d : list byte) (fileSize : Z)
  : ParserState → Z → ParserState → Z → Prop :=
  | reaches_here st pos : parser_reaches utf8_decode d fileSize st pos st pos
  | reaches_turn st pos st1 pos1 st' pos' :
      parser_turn utf8_decode d fileSize st pos st1 pos1 →
      parser_reaches utf8_decode d fileSize st1 pos1 st' pos' →
      parser_reaches utf8_decode d fileSize st pos st' pos'.

(** The chunks before [cs] parse on their own: over the first [cs] bytes
    of the buffer alone, the loop goes from the first chunk, at byte 8,
    to [cs] exactly and is then in the state [st0]. *)
Definition parses_before (utf8_decode : list byte → jsstring) (d : list byte) (cs : Z)
    (st0 : ParserState) : Prop :=
  parser_reaches utf8_decode (take (Z.to_nat cs) d) cs initialParser 8 st0 cs.

(** An attribute with another data word, an element with other
    attributes, a parser state with another element list. *)
Definition with_data (a : AXMLAttribute) (v : Z) : AXMLAttribute :=
  mkAttr (attr_namespaceUri a) (attr_name a) (valueString a) (type a) v.

Definition with_attributes (e : AXMLElement) (attrs : list AXMLAttribute) : AXMLElement :=
  mkElem (chunkType e) (lineNumber e) (comment e) (namespaceUri e) (name e)
         (Some attrs) (attributeStart e) (attributeSize e) (attributeCount e)
         (idIndex e) (classIndex e) (styleIndex e).

Definition with_elements (st : ParserState) (els : list AXMLElement) : ParserState :=
  mkPS (ps_strings st) (ps_resourceIds st) els
       (ps_stringPoolOffset st) (ps_stringPoolSize st)
       (ps_resourceIdsOffset st) (ps_resourceIdsSize st)
       (ps_elementsOffset st) (ps_isUtf8 st).

(** The object [parse] returns for the last state of the loop. *)
Definition parsed_of (d : list byte) (st : ParserState) : ParsedAXML :=
  mkParsed (ps_strings st) (ps_resourceIds st) (ps_elements st) d
           (ps_stringPoolOffset st) (ps_stringPoolSize st)
           (ps_resourceIdsOffset st) (ps_resourceIdsSize st) (ps_elementsOffset st).

(** Every successful read of [d1] at or after [lo] is the same read of
    [d2]; every successful run of [m1] from [lo] on is a run of [m2]. *)
Definition reads_kept (lo : Z) (d1 d2 : list byte) : Prop :=
  ∀ off n bs, lo ≤ off → getBytes d1 off n = Some bs → getBytes d2 off n = Some bs.

Definition rd_kept {A} (lo : Z) (m1 m2 : Reader A) : Prop :=
  ∀ pos r, lo ≤ pos → m1 pos = Some r → m2 pos = Some r.

(** The writer's invariant: it has a buffer, and the write position is
    inside it. *)
Definition writer_ok (w : DataWriter) : Prop :=
  heap w ≠ [] ∧ 0 ≤ offset w ≤ Z.of_nat (length (buffer w)).

(** From [w] to [w'] the writer went forward and left the first [k] bytes
    of its buffer as they were. *)
Definition frame (k : Z) (w w' : DataWriter) : Prop :=
  writer_ok w' ∧ offset w ≤ offset w'
  ∧ take (Z.to_nat k) (buffer w') = take (Z.to_nat k) (buffer w).

(** The string and resource-id sequences [rebuildWithDebuggable] writes. *)
Definition new_strings (parsed : ParsedAXML) : list jsstring :=
  if bool_decide (indexOf (strings parsed) DEBUGGABLE = -1)
  then strings parsed ++ [DEBUGGABLE] else strings parsed.
Definition new_resourceIds (parsed : ParsedAXML) : list Z :=
  if bool_decide (indexOf (resourceIds parsed) ATTR_DEBUGGABLE = -1)
  then resourceIds parsed ++ [ATTR_DEBUGGABLE] else resourceIds parsed.

(** The headers of a regenerated buffer: the file header with the total
    size, the string pool at 8 with its chunk size and [stringsStart], and
    the resource-id chunk that follows the pool at [resStart], with its
    size.  The 32-bit fields hold the values modulo 2^32. *)
Definition fresh_headers (parsed : ParsedAXML) (out : list byte) : Prop :=
  getUint32 out 0 = Some CHUNK_AXML_FILE
  ∧ getUint32 out 4 = Some (toUint32 (Z.of_nat (length out)))
  ∧ getUint32 out 8 = Some CHUNK_STRING_POOL
  ∧ getUint32 out 28 = Some (toUint32 (20 + 4 * Z.of_nat (length (new_strings parsed))))
  ∧ ∃ resStart,
      getUint32 out 12 = Some (toUint32 (resStart - 8))
      ∧ getUint32 out resStart = Some CHUNK_RESOURCE_IDS
      ∧ getUint32 out (resStart + 4)
        = Some (toUint32 (8 + Z.of_nat (length (new_resourceIds parsed)) * 4)).

(** The walk of [makeDebuggable] from [elementsOffset] reaches the start
    element at [cs]: the chunks before it follow one another and none is the
    application start element, and the element at [cs] is named application
    and has [count] attributes. *)
Definition application_reached (parsed : ParsedAXML) (cs count : Z) : Prop :=
  let d := rawData parsed in
  skips (strings parsed) d (elementsOffset parsed) cs
  ∧ getUint32 d cs = Some CHUNK_XML_START_ELEMENT
  ∧ (∃ nameIdx, getUint32 d (cs + 20) = Some nameIdx
                ∧ str_or_empty (strings parsed) nameIdx = APPLICATION)
  ∧ getUint16 d (cs + 28) = Some count.

(** None of the [count] attributes of the element at [cs] is named
    debuggable. *)
Definition no_debuggable (strs : list jsstring) (d : list byte) (cs count : Z) : Prop :=
  ∀ j, 0 ≤ j < count →
       ∃ nm, attr_named strs d (cs + 36 + 20 * j) nm ∧ nm ≠ DEBUGGABLE.

(** The kinds of result [makeDebuggable] has for the buffer [d]: the
    copy untouched; the copy with the data word of the first attribute
    named debuggable of the application element set to all-ones; and, for
    an application element without such an attribute, the regenerated
    buffer or the copy with an attribute record spliced in after the
    element's attributes. *)
Inductive rewrite_kind (utf8_encode : jsstring → list byte) (parsed : ParsedAXML)
    (out : list byte) : Prop :=
  | kind_untouched :
      out = rawData parsed → rewrite_kind utf8_encode parsed out
  | kind_in_place cs count i :
      let d := rawData parsed in
      let word := cs + 36 + 20 * i + 16 in
      application_reached parsed cs count →
      first_debuggable (strings parsed) d cs count i →
      word + 4 ≤ Z.of_nat (length d) →
      out = overwrite d word [xff; xff; xff; xff] →
      rewrite_kind utf8_encode parsed out
  | kind_regenerated cs count :
      application_reached parsed cs count →
      no_debuggable (strings parsed) (rawData parsed) cs count →
      rebuildWithDebuggable utf8_encode parsed (rawData parsed) = Some out →
      fresh_headers parsed out →
      rewrite_kind utf8_encode parsed out
  | kind_spliced cs count template oldChunkSize s1 s2 :
      let d := rawData parsed in
      let ip := cs + 36 + count * 20 in
      application_reached parsed cs count →
      no_debuggable (strings parsed) d cs count →
      indexOf (strings parsed) DEBUGGABLE ≠ -1 →
      indexOf (resourceIds parsed) ATTR_DEBUGGABLE = -1 →
      find_template d (cs + 36) (Z.to_nat count) 0 = Some (Some template) →
      0 ≤ ip ≤ Z.of_nat (length d) →
      getUint32 d (cs + 4) = Some oldChunkSize →
      setUint32 (spliced d ip (indexOf (strings parsed) ANDROID_NS)
                   (indexOf (strings parsed) DEBUGGABLE))
                4 (Z.of_nat (length d) + 20) = Some s1 →
      setUint32 s1 (cs + 4) (oldChunkSize + 20) = Some s2 →
      setUint16 s2 (cs + 28) (count + 1) = Some out →
      length out = (length d + 20)%nat →
      rewrite_kind utf8_encode parsed out.

Definition PERMISSION_PREFIX : jsstring := lit "android.permission.".

(** The permissions one attribute record of a uses-permission element adds. *)
Definition permission_of_attr (strs : list jsstring) (attr : AXMLAttribute)
  : list jsstring :=
  if decide (str_or_empty strs (attr_name attr) = lit "name"
             ∧ str_or_empty strs (valueString attr) ≠ [])
  then [replaceFirst (str_or_empty strs (valueString attr)) PERMISSION_PREFIX]
  else [].

(** The permissions one element of the stream adds. *)
Definition permissions_of_element (strs : list jsstring) (e : AXMLElement)
  : list jsstring :=
  if decide (chunkType e = CHUNK_XML_START_ELEMENT
             ∧ str_or_empty strs (name e) = lit "uses-permission")
  then flat_map (permission_of_attr strs) (default [] (attributes e))
  else [].

(** A start element carries its attribute list, [attributeCount] being
    the length of the list. *)
Definition element_ok (e : AXMLElement) : Prop :=
  chunkType e = CHUNK_XML_START_ELEMENT →
  ∃ attrs, attributes e = Some attrs
           ∧ attributeCount e = Some (Z.of_nat (length attrs)).

(** What the parser records about the chunks of the buffer [d]: the
    string pool and the resource ids at 0 with size 0 or at a chunk header
    of their type with that size; the first element chunk at 0, the
    stream then holding end elements and character data only, or at a
    namespace or start-element chunk; every start element with its
    attributes. *)
Definition recorded_ok (d : list byte) (elements : list AXMLElement)
    (stringPoolOffset stringPoolSize resourceIdsOffset resourceIdsSize elementsOffset : Z)
  : Prop :=
  (stringPoolOffset = 0 ∧ stringPoolSize = 0
   ∨ 8 ≤ stringPoolOffset
     ∧ getUint32 d stringPoolOffset = Some CHUNK_STRING_POOL
     ∧ getUint32 d (stringPoolOffset + 4) = Some stringPoolSize)
  ∧ (resourceIdsOffset = 0 ∧ resourceIdsSize = 0
     ∨ 8 ≤ resourceIdsOffset
       ∧ getUint32 d resourceIdsOffset = Some CHUNK_RESOURCE_IDS
       ∧ getUint32 d (resourceIdsOffset + 4) = Some resourceIdsSize)
  ∧ (elementsOffset = 0
     ∧ (∀ e, e ∈ elements →
             chunkType e = CHUNK_XML_END_ELEMENT ∨ chunkType e = CHUNK_XML_CDATA)
     ∨ 8 ≤ elementsOffset
       ∧ ∃ ty, getUint32 d elementsOffset = Some ty
               ∧ (ty = CHUNK_XML_START_NAMESPACE ∨ ty = CHUNK_XML_END_NAMESPACE
                  ∨ ty = CHUNK_XML_START_ELEMENT))
  ∧ Forall element_ok elements.

(** The fields of the parser object are as [recorded_ok] asks. *)
Definition state_ok (d : list byte) (st : ParserState) : Prop :=
  recorded_ok d (ps_elements st) (ps_stringPoolOffset st) (ps_stringPoolSize st)
    (ps_resourceIdsOffset st) (ps_resourceIdsSize st) (ps_elementsOffset st).

(** [P] holds of every number below [n]: a check that runs. *)
Fixpoint all_below (P : Z → bool) (n : nat) : bool :=
  match n with
  | O => true
  | S n' => P (Z.of_nat n') && all_below P n'
  end.

(** The bytes [writeUtf8Length] writes. *)
Definition utf8_length_bytes (len : Z) : list byte :=
  if decide (len >= 0x80)
  then [byte_of_Z (128 + (len / 256) `mod` 128); byte_of_Z (len `mod` 256)]
  else [byte_of_Z len].

(** The type tag an attribute record is read with, for the tag it was
    written with: the tags from 0x80 on come back negative. *)
Definition type_read_back (type : Z) : Z :=
  if decide (type < 128) then type else type - 256.

(** The twenty bytes of an attribute record as [writeElements] writes it. *)
Definition attribute_bytes (attr : AXMLAttribute) : list byte :=
  le_encode 4 (attr_namespaceUri attr) ++ le_encode 4 (attr_name attr)
  ++ le_encode 4 (valueString attr)
  ++ le_encode 4 (or32 (shl32 (type attr) 24) 0x08)
  ++ le_encode 4 (data attr).

(** The fields of an attribute record lie in the ranges of the words that
    hold them. *)
Definition attr_in_range (attr : AXMLAttribute) : Prop :=
  - 2 ^ 31 ≤ attr_namespaceUri attr < 2 ^ 31
  ∧ 0 ≤ attr_name attr < 2 ^ 32
  ∧ - 2 ^ 31 ≤ valueString attr < 2 ^ 31
  ∧ - 128 ≤ type attr < 256
  ∧ - 2 ^ 31 ≤ data attr < 2 ^ 31.

(** The writer still has the buffer the view [v] points at, of [cap] bytes. *)
Definition settled (v cap : nat) (w : DataWriter) : Prop :=
  writer_ok w ∧ view_of w = v ∧ length (buffer w) = cap.

(** The bytes of a pool string as [writeStringPool] writes it: the length
    prefix twice, the encoded string, a zero byte. *)
Definition pool_string_bytes (utf8_encode : jsstring → list byte) (s : jsstring)
  : list byte :=
  let encoded := utf8_encode s in
  let len := Z.of_nat (length encoded) in
  utf8_length_bytes len ++ utf8_length_bytes len ++ encoded ++ [x00].

(** The offsets of the pool strings, the first one at [o]. *)
Fixpoint pool_offsets (utf8_encode : jsstring → list byte) (o : Z)
    (strs : list jsstring) : list Z :=
  match strs with
  | [] => []
  | s :: strs' =>
      o :: pool_offsets utf8_encode
             (o + Z.of_nat (length (pool_string_bytes utf8_encode s))) strs'
  end.

(** The string-pool chunk [writeStringPool] writes for [strs], of
    [chunkSize] bytes, [pad] being the alignment bytes. *)
Definition pool_chunk_bytes (utf8_encode : jsstring → list byte)
    (strs : list jsstring) (chunkSize : Z) (pad : list byte) : list byte :=
  le_encode 4 CHUNK_STRING_POOL ++ le_encode 4 chunkSize
  ++ le_encode 4 (Z.of_nat (length strs)) ++ le_encode 4 0 ++ le_encode 4 (shl32 1 8)
  ++ le_encode 4 (20 + 4 * Z.of_nat (length strs)) ++ le_encode 4 0
  ++ flat_map (le_encode 4) (pool_offsets utf8_encode 0 strs)
  ++ flat_map (pool_string_bytes utf8_encode) strs ++ pad.

(** The attribute [writeElements] writes for the attribute [attr] it
    read: one named debuggable gets the data -1. *)
Definition forced_attr (parsed : ParsedAXML) (attr : AXMLAttribute) : AXMLAttribute :=
  if is_debuggable_attr parsed attr
  then mkAttr (attr_namespaceUri attr) (attr_name attr) (valueString attr) (type attr) (-1)
  else attr.

(** The attributes [writeElements] writes for a start element named by
    string [nameIdx] whose attributes [read] it read: the application
    element gets an attribute more when none of its own is named
    debuggable. *)
Definition rewritten_attributes (parsed : ParsedAXML) (newStrings : list jsstring)
    (debuggableStrIdx nameIdx : Z) (read : list AXMLAttribute) : list AXMLAttribute :=
  let attributes := map (forced_attr parsed) read in
  if bool_decide (str_or_empty (strings parsed) nameIdx = lit "application")
     && negb (existsb (is_debuggable_attr parsed) read)
  then attributes
       ++ [mkAttr (indexOf newStrings ANDROID_NS) debuggableStrIdx (-1) TYPE_INT_BOOLEAN (-1)]
  else attributes.

(** The start-element chunk [writeElements] writes: the header with the
    size of the chunk, the element's words and the attribute records. *)
Definition start_element_chunk (lineNumber comment nsUri nameIdx idIdx classIdx styleIdx : Z)
    (attributes : list AXMLAttribute) : list byte :=
  le_encode 4 CHUNK_XML_START_ELEMENT
  ++ le_encode 4 (36 + 20 * Z.of_nat (length attributes))
  ++ le_encode 4 lineNumber ++ le_encode 4 comment ++ le_encode 4 nsUri
  ++ le_encode 4 nameIdx
  ++ le_encode 2 0x14 ++ le_encode 2 0x14
  ++ le_encode 2 (Z.of_nat (length attributes))
  ++ le_encode 2 idIdx ++ le_encode 2 classIdx ++ le_encode 2 styleIdx
  ++ flat_map attribute_bytes attributes.

(** The bytes [writeElements] writes when its reader stands at [pos]:
    nothing at the end of the buffer or at a chunk of size 0 or running
    over the end; a chunk that is no start element as it is, going on at
    its end; a start element as [start_element_chunk] with the attributes
    of [rewritten_attributes], going on where the reading of the
    attributes ended. *)
Inductive rewritten_elements (parsed : ParsedAXML) (newStrings : list jsstring)
    (debuggableStrIdx : Z) : Z → list byte → Prop :=
  | rewritten_end pos :
      ¬ pos < Z.of_nat (length (rawData parsed)) →
      rewritten_elements parsed newStrings debuggableStrIdx pos []
  | rewritten_break pos chunkType chunkSize :
      pos < Z.of_nat (length (rawData parsed)) →
      getUint32 (rawData parsed) pos = Some chunkType →
      getUint32 (rawData parsed) (pos + 4) = Some chunkSize →
      chunkSize = 0 ∨ pos + chunkSize > Z.of_nat (length (rawData parsed)) →
      rewritten_elements parsed newStrings debuggableStrIdx pos []
  | rewritten_copy pos chunkType chunkSize chunkData out :
      pos < Z.of_nat (length (rawData parsed)) →
      getUint32 (rawData parsed) pos = Some chunkType →
      getUint32 (rawData parsed) (pos + 4) = Some chunkSize →
      ¬ (chunkSize = 0 ∨ pos + chunkSize > Z.of_nat (length (rawData parsed))) →
      chunkType ≠ CHUNK_XML_START_ELEMENT →
      getBytes (rawData parsed) pos chunkSize = Some chunkData →
      rewritten_elements parsed newStrings debuggableStrIdx (pos + chunkSize) out →
      rewritten_elements parsed newStrings debuggableStrIdx pos (chunkData ++ out)
  | rewritten_start pos chunkSize ln cm ns nm ast asz cnt id cl sty read pos' out :
      pos < Z.of_nat (length (rawData parsed)) →
      getUint32 (rawData parsed) pos = Some CHUNK_XML_START_ELEMENT →
      getUint32 (rawData parsed) (pos + 4) = Some chunkSize →
      ¬ (chunkSize = 0 ∨ pos + chunkSize > Z.of_nat (length (rawData parsed))) →
      parseStartElement (rawData parsed) initialParser (pos + 8)
      = Some (push_element initialParser
                (mkElem CHUNK_XML_START_ELEMENT ln cm ns nm (Some read) (Some ast)
                   (Some asz) (Some cnt) (Some id) (Some cl) (Some sty)), pos') →
      rewritten_elements parsed newStrings debuggableStrIdx pos' out →
      rewritten_elements parsed newStrings debuggableStrIdx pos
        (start_element_chunk ln cm ns nm id cl sty
           (rewritten_attributes parsed newStrings debuggableStrIdx nm read) ++ out).

(** The data words of the attributes called debuggable that one element
    of the stream gives to [getManifestInfo]: those of an application
    start element. *)
Definition debuggable_values (strs : list jsstring) (e : AXMLElement) : list Z :=
  if decide (chunkType e = CHUNK_XML_START_ELEMENT
             ∧ str_or_empty strs (name e) = lit "application")
  then map data (filter (fun a => str_or_empty strs (attr_name a) = lit "debuggable")
                        (default [] (attributes e)))
  else [].

(** The flag the last of the data words [ds] leaves, [b] when there is none. *)
Definition last_flag (ds : list Z) (b : bool) : bool :=
  match last ds with
  | Some d => bool_decide (d ≠ 0)
  | None => b
  end.

(** An entry [collectFiles] gets through: a directory, or a file whose
    read settles to bytes. *)
Definition readable (e : jsstring * ZipObject) : Prop :=
  dir e.2 = true ∨ ∃ d, async e.2 = Normal d.

(** What [patchManifestBinary] looks for: the bytes of 0x0101000f at [i],
    and the bytes 12 00 00 08 at [j], within twenty bytes after them and
    more than four bytes before the end of the buffer. *)
Definition marker_at (d : list byte) (i j : Z) : Prop :=
  0 ≤ i < Z.of_nat (length d) - 20
  ∧ bytes_at d i [x0f; x00; x01; x01] = true
  ∧ i + 4 ≤ j < Z.min (i + 24) (Z.of_nat (length d) - 4)
  ∧ bytes_at d j [x12; x00; x00; x08] = true.

(** The value of a step inside a [try] whose handler supplies [fallback]. *)
Definition or_fallback {A} (c : completion A) (fallback : A) : A :=
  match c with
  | Normal a => a
  | _ => fallback
  end.

Definition MANIFEST_XML : jsstring := lit "AndroidManifest.xml".
Definition MANIFEST_MF : jsstring := lit "META-INF/MANIFEST.MF".
Definition CERT_SF : jsstring := lit "META-INF/CERT.SF".
Definition CERT_RSA : jsstring := lit "META-INF/CERT.RSA".

(** The archive [processApk] works on for [file]: what the container
    reader loads from the bytes of the file, or, for a file named as a
    bundle, what [processApksBundle] returns for them. *)
Definition loads_to {CbState : Type}
    (onLog : ProcessingLog → CbState → completion unit * CbState) (clock : nat → Z)
    (loadAsync : list byte → completion JSZip) (toLowerCase : jsstring → jsstring)
    (file : File) (mainZip : JSZip) : Prop :=
  ∃ buffer,
    arrayBuffer file = Normal buffer
    ∧ if endsWith (toLowerCase (file_name file)) (lit ".apks")
      then ∃ st : St CbState,
             (processApksBundle onLog clock loadAsync toLowerCase buffer st).1
             = Normal mainZip
      else loadAsync buffer = Normal mainZip.

(** The manifest [processApk] puts back for the manifest bytes [data],
    and the archive it collects the files to sign from. *)
Definition patched_manifest (utf8_decode : list byte → jsstring)
    (utf8_encode : jsstring → list byte) (data : list byte) : list byte :=
  or_fallback (makeManifestDebuggable utf8_decode utf8_encode data)
              (patchManifestBinary data).
Definition stripped_archive (toUpperCase : jsstring → jsstring)
    (mainZip : JSZip) (modified : list byte) : JSZip :=
  (removeSignatures toUpperCase (zip_put mainZip MANIFEST_XML modified)).1.

End Spec.

(** ** Concrete inputs

    Stand-ins for the platform services, and a small assembler for
    compiled-XML buffers, used to run the definitions above. *)

Module Fixture.
Import Js Axml Signer Processor.

(** On ASCII text the UTF-8 codec maps every code unit to the byte of the
    same value; the examples hold nothing else. *)
Definition ascii_decode (bs : list byte) : jsstring := map Z_of_byte bs.
Definition ascii_encode (s : jsstring) : list byte := map byte_of_Z s.

(** ASCII letters only, as in the names of the examples. *)
Definition ascii_lower (s : jsstring) : jsstring :=
  map (fun c => if decide (65 ≤ c ∧ c ≤ 90) then c + 32 else c) s.
Definition ascii_upper (s : jsstring) : jsstring :=
  map (fun c => if decide (97 ≤ c ∧ c ≤ 122) then c - 32 else c) s.

(** A 44-character stand-in for a Base64 SHA-256 digest: it depends on the
    input but is not a hash. *)
Definition demo_digest (bs : list byte) : jsstring :=
  let letters := map (fun b => 65 + Z_of_byte b `mod` 26) bs in
  take 43 (letters ++ replicate 43 65) ++ [61].

Definition u16 (v : Z) : list byte := le_encode 2 v.
Definition u32 (v : Z) : list byte := le_encode 4 v.

Definition bytes_of (s : string) : list byte := ascii_encode (lit s).
Arguments bytes_of s%_string.

(** A UTF-8 pool string shorter than 128 bytes. *)
Definition asm_string (s : string) : list byte :=
  let b := bytes_of s in
  byte_of_Z (Z.of_nat (length b)) :: byte_of_Z (Z.of_nat (length b)) :: b ++ [x00].

Fixpoint asm_offsets (off : Z) (ss : list string) : list byte :=
  match ss with
  | [] => []
  | s :: ss' => u32 off ++ asm_offsets (off + Z.of_nat (length (asm_string s))) ss'
  end.

Definition pad4 (bs : list byte) : list byte :=
  bs ++ replicate (Z.to_nat ((- Z.of_nat (length bs)) `mod` 4)) x00.

(** A UTF-8 string pool; [stringsStart] is counted from the end of the
    eight-byte chunk header, which is where [parseStringPool] takes it
    from and how [writeStringPool] writes it. *)
Definition asm_pool (ss : list string) : list byte :=
  let body := pad4 (flat_map asm_string ss) in
  let n := Z.of_nat (length ss) in
  u32 Axml.CHUNK_STRING_POOL ++ u32 (28 + 4 * n + Z.of_nat (length body))
  ++ u32 n ++ u32 0 ++ u32 0x100 ++ u32 (20 + 4 * n) ++ u32 0
  ++ asm_offsets 0 ss ++ body.

(** A pool whose [n] entries all point at the one string stored. *)
Definition asm_shared_pool (n : nat) (s : string) : list byte :=
  let body := pad4 (asm_string s) in
  let k := Z.of_nat n in
  u32 Axml.CHUNK_STRING_POOL ++ u32 (28 + 4 * k + Z.of_nat (length body))
  ++ u32 k ++ u32 0 ++ u32 0x100 ++ u32 (20 + 4 * k) ++ u32 0
  ++ concat (replicate n (u32 0)) ++ body.

Definition asm_resids (ids : list Z) : list byte :=
  u32 Axml.CHUNK_RESOURCE_IDS ++ u32 (8 + 4 * Z.of_nat (length ids))
  ++ flat_map u32 ids.

Definition asm_attr (ns nm vs ty dt : Z) : list byte :=
  u32 ns ++ u32 nm ++ u32 vs ++ u32 (ty * 2 ^ 24 + 8) ++ u32 dt.

Definition asm_start (line ns nm : Z) (attrs : list (list byte)) : list byte :=
  u32 Axml.CHUNK_XML_START_ELEMENT ++ u32 (36 + 20 * Z.of_nat (length attrs))
  ++ u32 line ++ u32 (-1) ++ u32 ns ++ u32 nm
  ++ u16 0x14 ++ u16 0x14 ++ u16 (Z.of_nat (length attrs))
  ++ u16 0 ++ u16 0 ++ u16 0 ++ concat attrs.

Definition asm_end (line ns nm : Z) : list byte :=
  u32 Axml.CHUNK_XML_END_ELEMENT ++ u32 24
  ++ u32 line ++ u32 (-1) ++ u32 ns ++ u32 nm.

Definition asm_namespace (ty line prefix uri : Z) : list byte :=
  u32 ty ++ u32 24 ++ u32 line ++ u32 (-1) ++ u32 prefix ++ u32 uri.

Definition asm_file (chunks : list (list byte)) : list byte :=
  let body := concat chunks in
  u32 Axml.CHUNK_AXML_FILE ++ u32 (8 + Z.of_nat (length body)) ++ body.

(** <application debuggable=[dt]/> with "debuggable" in the pool and
    0x0101000f in the resource table. *)
Definition xml_with_debuggable (dt : Z) : list byte :=
  asm_file [asm_pool ["debuggable"; "application"]%string;
            asm_resids [Axml.ATTR_DEBUGGABLE];
            asm_start 1 (-1) 1 [asm_attr (-1) 0 (-1) Axml.TYPE_INT_BOOLEAN dt];
            asm_end 1 (-1) 1].

(** A manifest as the asset compiler lays it out: the attribute names
    come first in the pool and the resource table gives their ids, here
    0x0101021b for versionCode; the application element has no attribute
    and the pool has no "debuggable". *)
Definition xml_manifest : list byte :=
  asm_file [asm_pool ["versionCode"; "android";
                      "http://schemas.android.com/apk/res/android";
                      "package"; "manifest"; "application"; "com.example"]%string;
            asm_resids [0x0101021b];
            asm_namespace Axml.CHUNK_XML_START_NAMESPACE 1 1 2;
            asm_start 1 (-1) 4 [asm_attr 2 0 (-1) 0x10 7; asm_attr (-1) 3 6 3 6];
            asm_start 2 (-1) 5 [];
            asm_end 2 (-1) 5;
            asm_end 1 (-1) 4;
            asm_namespace Axml.CHUNK_XML_END_NAMESPACE 1 1 2].

(** <application/> over a pool of 120 entries that share one string:
    written out string by string, the pool outgrows the input by more
    than the 1024 bytes the writer starts with in reserve. *)
Definition xml_shared : list byte :=
  asm_file [asm_shared_pool 120 "application";
            asm_start 1 (-1) 0 [];
            asm_end 1 (-1) 0].

(** <application allowBackup="true"/> whose pool already holds
    "debuggable" while the resource table lacks 0x0101000f. *)
Definition xml_allowBackup : list byte :=
  asm_file [asm_pool ["allowBackup"; "application"; "debuggable"]%string;
            asm_resids [0x01010280];
            asm_start 1 (-1) 1 [asm_attr (-1) 0 (-1) Axml.TYPE_INT_BOOLEAN (-1)];
            asm_end 1 (-1) 1].

(** A string pool whose [stringsStart] is counted from the start of the
    chunk, the way the platform's format has it. *)
Definition asm_pool_platform (ss : list string) : list byte :=
  let body := pad4 (flat_map asm_string ss) in
  let n := Z.of_nat (length ss) in
  u32 Axml.CHUNK_STRING_POOL ++ u32 (28 + 4 * n + Z.of_nat (length body))
  ++ u32 n ++ u32 0 ++ u32 0x100 ++ u32 (28 + 4 * n) ++ u32 0
  ++ asm_offsets 0 ss ++ body.

(** <manifest versionCode=7 package=...><application
    android:debuggable=[dt]/></manifest> as the asset compiler lays it
    out, over the string pool [pool] makes of the names. *)
Definition manifest_chunks (pool : list string → list byte) (dt : Z) : list byte :=
  asm_file [pool ["versionCode"; "debuggable"; "android";
                  "http://schemas.android.com/apk/res/android";
                  "package"; "manifest"; "application"; "com.example"]%string;
            asm_resids [0x0101021b; Axml.ATTR_DEBUGGABLE];
            asm_namespace Axml.CHUNK_XML_START_NAMESPACE 1 2 3;
            asm_start 1 (-1) 5 [asm_attr 3 0 (-1) 0x10 7; asm_attr (-1) 4 7 3 7];
            asm_start 2 (-1) 6 [asm_attr 3 1 (-1) Axml.TYPE_INT_BOOLEAN dt];
            asm_end 2 (-1) 6;
            asm_end 1 (-1) 5;
            asm_namespace Axml.CHUNK_XML_END_NAMESPACE 1 2 3].

(** The manifest with debuggable false, in the two layouts of the pool. *)
Definition xml_platform_manifest : list byte := manifest_chunks asm_pool_platform 0.
Definition xml_codec_manifest : list byte := manifest_chunks asm_pool 0.

(** <manifest package=.../> : no application element. *)
Definition xml_no_application : list byte :=
  asm_file [asm_pool ["package"; "manifest"; "com.example"]%string;
            asm_resids [];
            asm_start 1 (-1) 1 [asm_attr (-1) 0 2 3 2];
            asm_end 1 (-1) 1].

Definition empty_file : ZipObject := mkZipObject false (Normal []).
Definition bundle_universal_first : JSZip :=
  [(lit "split_universal.apk", empty_file); (lit "base.apk", empty_file)].

(** A consumer of the log events that throws on every event. *)
Definition throwing_onLog (entry : ProcessingLog) (cb : unit)
  : completion unit * unit := (Throw NonError, cb).

(** A consumer that records nothing and returns. *)
Definition quiet_onLog (entry : ProcessingLog) (cb : unit)
  : completion unit * unit := (Normal tt, cb).

Definition demo_clock (n : nat) : Z := Z.of_nat n.

Definition demo_toFixedMB (n : Z) : jsstring := toString (n / 1048576) ++ lit ".00".

(** An application archive with a compiled manifest and an old signature. *)
Definition demo_apk : JSZip :=
  [(lit "AndroidManifest.xml", mkZipObject false (Normal (xml_with_debuggable 0)));
   (lit "classes.dex", mkZipObject false (Normal (bytes_of "dex")));
   (lit "META-INF/OLD.RSA", mkZipObject false (Normal (bytes_of "old")))].

Definition demo_base : JSZip :=
  [(lit "res/x", mkZipObject false (Normal (bytes_of "A")))].
Definition demo_split : JSZip :=
  [(lit "res/x", mkZipObject false (Normal (bytes_of "B")));
   (lit "res/y", mkZipObject false (Normal (bytes_of "C")));
   (lit "META-INF/SPLIT.SF", mkZipObject false (Normal (bytes_of "S")));
   (lit "lib/", mkZipObject true (Normal []))].
Definition demo_bundle : JSZip :=
  [(lit "base.apk", mkZipObject false (Normal [x01]));
   (lit "split_config.en.apk", mkZipObject false (Normal [x02]))].
Definition demo_empty_bundle : JSZip :=
  [(lit "toc.pb", mkZipObject false (Normal []))].

(** A container reader that knows five buffers. *)
Definition demo_loadAsync (bs : list byte) : completion JSZip :=
  if decide (bs = [x00]) then Normal demo_bundle
  else if decide (bs = [x01]) then Normal demo_base
  else if decide (bs = [x02]) then Normal demo_split
  else if decide (bs = [x03]) then Normal demo_empty_bundle
  else if decide (bs = [x04]) then Normal demo_apk
  else Throw (ErrorObj (lit "Can't find end of central directory")).

Definition demo_generateAsync (zip : JSZip) : completion unit := Normal tt.
Definition demo_blob_size (b : unit) : Z := 0.
Definition demo_generateSigningKey : completion unit := Normal tt.
Definition demo_createCertRSA (certSF : jsstring) (key : unit)
  : completion (list byte) := Normal [].

(** A CMS signer that throws. *)
Definition failing_createCertRSA (certSF : jsstring) (key : unit)
  : completion (list byte) := Throw (ErrorObj (lit "signing failed")).

Definition demo_processApk (onLog : ProcessingLog → unit → completion unit * unit)
    (file : File) : completion (ProcessResult unit) * St unit :=
  processApk onLog demo_clock demo_loadAsync demo_generateAsync demo_blob_size
    demo_generateSigningKey demo_createCertRSA demo_digest ascii_encode ascii_decode
    ascii_lower ascii_upper demo_toFixedMB (lit "Offset is outside the bounds of the DataView")
    file tt.

Definition apk_file : File := mkFile (lit "app.apk") 1 (Normal [x04]).
Definition empty_apks_file : File := mkFile (lit "app.apks") 1 (Normal [x03]).

Definition force_parsed (c : completion ParsedAXML) : ParsedAXML :=
  match c with
  | Normal p => p
  | _ => mkParsed [] [] [] [] 0 0 0 0 0
  end.

Definition parsed_with_debuggable_false : ParsedAXML :=
  Eval vm_compute in force_parsed (parse ascii_decode (xml_with_debuggable 0)).
(** The parser's state after the string pool of [xml_with_debuggable 0],
    and after its resource table, where the application element begins. *)
Definition force_state (c : completion ParserState) : ParserState :=
  match c with
  | Normal st => st
  | _ => initialParser
  end.
Definition state_after_pool : ParserState :=
  Eval vm_compute in
    force_state (parseChunks ascii_decode (take 72 (xml_with_debuggable 0)) 2 72
                   initialParser 8).
Definition state_before_application : ParserState :=
  Eval vm_compute in
    force_state (parseChunks ascii_decode (take 84 (xml_with_debuggable 0)) 3 84
                   initialParser 8).
Definition parsed_no_application : ParsedAXML :=
  Eval vm_compute in force_parsed (parse ascii_decode xml_no_application).
Definition parsed_allowBackup : ParsedAXML :=
  Eval vm_compute in force_parsed (parse ascii_decode xml_allowBackup).
Definition parsed_manifest : ParsedAXML :=
  Eval vm_compute in force_parsed (parse ascii_decode xml_manifest).

(** What [makeDebuggable] returns for [xml_allowBackup] and for
    [xml_manifest]. *)
Definition out_allowBackup : list byte :=
  Eval vm_compute in default [] (makeDebuggable ascii_encode parsed_allowBackup).
Definition out_manifest : list byte :=
  Eval vm_compute in default [] (makeDebuggable ascii_encode parsed_manifest).
Definition parsed_out_manifest : ParsedAXML :=
  Eval vm_compute in force_parsed (parse ascii_decode out_manifest).

Definition parsed_shared : ParsedAXML :=
  Eval vm_compute in force_parsed (parse ascii_decode xml_shared).
Definition out_shared : list byte :=
  Eval vm_compute in default [] (makeDebuggable ascii_encode parsed_shared).
Definition parsed_out_shared : ParsedAXML :=
  Eval vm_compute in force_parsed (parse ascii_decode out_shared).

(** Two uses-permission elements: a platform permission and a vendor
    permission that holds the platform prefix in the middle. *)
Definition xml_permissions : list byte :=
  asm_file [asm_pool ["name"; "uses-permission"; "android.permission.INTERNET";
                      "com.vendor.android.permission.PUSH"]%string;
            asm_resids [0x01010003];
            asm_start 1 (-1) 1 [asm_attr (-1) 0 2 3 2];
            asm_end 1 (-1) 1;
            asm_start 2 (-1) 1 [asm_attr (-1) 0 3 3 3];
            asm_end 2 (-1) 1].
Definition parsed_permissions : ParsedAXML :=
  Eval vm_compute in force_parsed (parse ascii_decode xml_permissions).

(** An entry whose name has 81 characters. *)
Definition long_name : jsstring :=
  lit "res/drawable-xxhdpi-v4/abc_btn_switch_to_on_mtrl_00012_with_a_long_suffix_x.9.png".
Definition long_name_files : FileMap := [(long_name, [x00])].

(** The archive of the digest scenario, and the map read from it. *)
Definition digest_zip : JSZip :=
  [(lit "b/y", mkZipObject false (Normal [x01]));
   (lit "META-INF/OLD.SF", mkZipObject false (Normal [x02]));
   (lit "a/", mkZipObject true (Normal []));
   (lit "a/x", mkZipObject false (Normal [x00]))].
Definition digest_files : FileMap :=
  [(lit "b/y", [x01]); (lit "META-INF/OLD.SF", [x02]); (lit "a/x", [x00])].

(** The run of the bundle merger on [demo_bundle]. *)
Definition demo_merge_run : completion JSZip * St unit :=
  Eval vm_compute in
    processApksBundle quiet_onLog demo_clock demo_loadAsync ascii_lower [x00] (mkSt [] tt).
Definition demo_merged : JSZip :=
  [(lit "res/x", mkZipObject false (Normal (bytes_of "A")));
   (lit "res/y", mkZipObject false (Normal (bytes_of "C")))].

End Fixture.

(** * Properties *)

(** ** Strings *)

Lemma list_elem_of_flat_map {A B} (f : A → list B) (l : list A) (x : B) :
  x ∈ flat_map f l ↔ ∃ y, x ∈ f y ∧ y ∈ l.
Proof.
  rewrite list_elem_of_In, in_flat_map. split; intros (y & H1 & H2); exists y;
    rewrite ?list_elem_of_In in *; auto.
Qed.

Section strings.
Import Js.

Lemma str_leb_refl a : str_leb a a = true.
Proof. induction a as [|x a IH]; simpl; [done|]. repeat case_decide; (done || lia). Qed.

Lemma str_leb_total a b : str_leb a b = true ∨ str_leb b a = true.
Proof.
  revert b. induction a as [|x a IH]; intros [|y b]; simpl; auto.
  destruct (IH b); repeat case_decide; auto; try lia; congruence.
Qed.

Lemma str_leb_trans a b c :
  str_leb a b = true → str_leb b c = true → str_leb a c = true.
Proof.
  revert b c. induction a as [|x a IH]; intros [|y b] [|z c]; simpl; auto; try done.
  repeat case_decide; subst; try done; try lia; eauto.
Qed.

Lemma str_leb_antisym a b :
  str_leb a b = true → str_leb b a = true → a = b.
Proof.
  revert b. induction a as [|x a IH]; intros [|y b]; simpl; auto; try done.
  repeat case_decide; subst; try done; try lia. intros. f_equal; auto.
Qed.

Global Instance str_le_total : Total str_le.
Proof. intros a b. apply str_leb_total. Qed.
Global Instance str_le_trans : Transitive str_le.
Proof. intros a b c. apply str_leb_trans. Qed.
Global Instance str_le_antisym : AntiSymm (=) str_le.
Proof. intros a b. apply str_leb_antisym. Qed.

Lemma sort_sorted names : Sorted str_le (sort names).
Proof. apply Sorted_merge_sort, _. Qed.

Lemma sort_perm names : sort names ≡ₚ names.
Proof. apply merge_sort_Permutation. Qed.

Lemma sort_agnostic names names' : names ≡ₚ names' → sort names = sort names'.
Proof.
  intros Hp. apply (Sorted_unique str_le); try apply sort_sorted.
  by rewrite !sort_perm.
Qed.

Lemma startsWith_app s p : startsWith (p ++ s) p = true.
Proof. induction p as [|y p IH]; simpl; [by destruct s|]. by rewrite decide_True. Qed.

Lemma startsWith_spec s p : startsWith s p = true ↔ ∃ r, s = p ++ r.
Proof.
  split.
  - revert s. induction p as [|y p IH]; intros s H; [by exists s|].
    destruct s as [|x s]; simpl in H; [done|]. case_decide; [|done]. subst.
    destruct (IH _ H) as [r ->]. by exists r.
  - intros [r ->]. apply startsWith_app.
Qed.
End strings.

(** ** The manifest of the signer *)

Section manifest.
Import Js Signer Processor Spec.
Variable sha256Base64 : list byte → jsstring.

Lemma map_get_Some files n d : NoDup (map_keys files) → (n, d) ∈ files ↔ map_get files n = Some d.
Proof.
  induction files as [|[k v] files IH]; simpl; intros Hnd.
  - split; [by intros ?%elem_of_nil|done].
  - apply NoDup_cons in Hnd as [Hk Hnd]. rewrite elem_of_cons. case_decide; subst.
    + split; [|intros [= ->]; by left].
      intros [[= <-]|Hin]; [done|]. exfalso. apply Hk.
      apply list_elem_of_fmap. by exists (n, d).
    + rewrite <- IH by done. split; [|by auto]. intros [[= ]|]; [congruence|done].
Qed.

Lemma map_get_key files n : n ∈ map_keys files → is_Some (map_get files n).
Proof.
  induction files as [|[k v] files IH]; simpl; [by intros ?%elem_of_nil|].
  rewrite elem_of_cons. case_decide; subst; [by eauto|]. intros [|]; [done|]. auto.
Qed.

Lemma map_get_perm files files' n :
  NoDup (map_keys files) → files' ≡ₚ files → map_get files' n = map_get files n.
Proof.
  intros Hnd Hp.
  assert (NoDup (map_keys files')) as Hnd' by (unfold map_keys; by rewrite Hp).
  destruct (map_get files n) as [d|] eqn:E.
  - apply map_get_Some; [done|]. rewrite Hp. by apply map_get_Some.
  - destruct (map_get files' n) as [d|] eqn:E'; [|done].
    apply map_get_Some in E'; [|done]. rewrite Hp in E'. apply map_get_Some in E'; congruence.
Qed.

Lemma fold_manifest_entry files l acc :
  fold_left (manifest_entry sha256Base64 files) l acc
  = acc ++ flat_map (entry_block sha256Base64)
             (flat_map (fun n => match map_get files n with Some d => [(n, d)] | None => [] end)
                (filter (fun n => startsWith n META_INF = false) l)).
Proof.
  revert acc. induction l as [|n l IH]; intros acc; simpl; [by rewrite app_nil_r|].
  rewrite IH. unfold manifest_entry. rewrite filter_cons. fold META_INF.
  destruct (startsWith n META_INF) eqn:E; simpl; [done|].
  destruct (map_get files n); simpl; [|done].
  unfold entry_block at 2. simpl. by rewrite <- !app_assoc.
Qed.

Lemma createManifestMF_blocks files :
  createManifestMF sha256Base64 files
  = manifestHeader ++ flat_map (entry_block sha256Base64) (signed_entries files).
Proof. apply fold_manifest_entry. Qed.

Lemma signed_entries_names files :
  map fst (signed_entries files)
  = filter (fun n => startsWith n META_INF = false) (sort (map_keys files)).
Proof.
  unfold signed_entries.
  assert (∀ n, n ∈ filter (fun n => startsWith n META_INF = false) (sort (map_keys files))
               → is_Some (map_get files n)) as H.
  { intros n [_ Hn]%list_elem_of_filter. apply map_get_key. by rewrite <- sort_perm. }
  induction (filter _ _) as [|n l IH]; simpl; [done|].
  destruct (H n) as [d ->]; [by left|]. simpl. f_equal. apply IH.
  intros m Hm. apply H. by right.
Qed.

Lemma Sorted_filter {A} (R : relation A) `{!Transitive R} (P : A → Prop)
    `{∀ x, Decision (P x)} l :
  Sorted R l → Sorted R (filter P l).
Proof.
  intros Hs%Sorted_StronglySorted; [|done]. apply StronglySorted_Sorted.
  induction Hs as [|x l Hs IH Hall]; [constructor|].
  rewrite filter_cons. case_decide; [|done]. constructor; [done|].
  rewrite Forall_forall in *. intros y [_ Hy]%list_elem_of_filter. auto.
Qed.

Lemma signed_entries_elem files n d :
  NoDup (map_keys files) →
  (n, d) ∈ signed_entries files ↔ startsWith n META_INF = false ∧ (n, d) ∈ files.
Proof.
  intros Hnd. unfold signed_entries. rewrite list_elem_of_flat_map. split.
  - intros (m & Hin & [Hm Hs]%list_elem_of_filter).
    destruct (map_get files m) as [d'|] eqn:E; [|by apply elem_of_nil in Hin].
    apply list_elem_of_singleton in Hin as [= -> ->]. split; [done|]. by apply map_get_Some.
  - intros [Hm Hin]. exists n. apply map_get_Some in Hin as Hg; [|done]. rewrite Hg.
    split; [by left|]. apply list_elem_of_filter. split; [done|].
    rewrite sort_perm. apply list_elem_of_fmap. by exists (n, d).
Qed.

Lemma signed_entries_agnostic files files' :
  NoDup (map_keys files) → files' ≡ₚ files → signed_entries files' = signed_entries files.
Proof.
  intros Hnd Hp. unfold signed_entries.
  rewrite (sort_agnostic (map_keys files') (map_keys files)) by (unfold map_keys; by rewrite Hp).
  induction (filter _ _) as [|n l IH]; simpl; [done|].
  by rewrite IH, (map_get_perm files files').
Qed.

(** collectFiles *)
Lemma map_set_fresh files n d :
  n ∉ map_keys files → map_set files n d = files ++ [(n, d)].
Proof.
  induction files as [|[k v] files IH]; simpl; [done|].
  rewrite not_elem_of_cons. intros [Hne Hn]. rewrite decide_False by done.
  by rewrite IH.
Qed.

Lemma collectFiles_entries zip acc files :
  NoDup (map_keys acc ++ map fst zip) →
  collectFiles zip acc = Normal files → files = acc ++ file_entries zip.
Proof.
  revert acc. induction zip as [|[n o] zip IH]; simpl; intros acc Hnd Hc.
  - rewrite app_nil_r. congruence.
  - unfold file_entries; simpl. fold (file_entries zip).
    assert (NoDup (map_keys acc ++ map fst zip) ∧ (n ∉ map_keys acc)
            ∧ n ∉ map fst zip) as (Hnd' & Hn1 & Hn2).
    { apply NoDup_app in Hnd as (H1 & H2 & H3). apply NoDup_cons in H3 as [H3 H4].
      split_and!; [|intros Hin; eapply H2; [done|left; done]|done].
      apply NoDup_app. split_and!; [done| |done]. intros x Hx Hx'. eapply H2; [done|right; done]. }
    destruct (dir o); [by apply IH|].
    destruct (async o) as [d| |]; try done.
    apply IH in Hc.
    + rewrite Hc, map_set_fresh by done. by rewrite <- app_assoc.
    + rewrite map_set_fresh by done. unfold map_keys. rewrite map_app. simpl.
      rewrite <- app_assoc. simpl. apply NoDup_app in Hnd' as (H1 & H2 & H3).
      apply NoDup_app. split_and!; [done| |by apply NoDup_cons].
      intros x Hx [->|Hx']%elem_of_cons; [done|]. by eapply H2.
Qed.

Lemma file_entries_elem zip n d :
  (n, d) ∈ file_entries zip ↔ ∃ o, (n, o) ∈ zip ∧ dir o = false ∧ async o = Normal d.
Proof.
  unfold file_entries. rewrite list_elem_of_flat_map. split.
  - intros ([m o] & Hin & Hz). simpl in Hin. destruct (dir o) eqn:Ed; [by apply elem_of_nil in Hin|].
    destruct (async o) as [d'| |] eqn:Ea; try by apply elem_of_nil in Hin.
    apply list_elem_of_singleton in Hin as [= -> ->]. eauto.
  - intros (o & Hin & Hd & Ha). exists (n, o). simpl. rewrite Hd, Ha. split; [by left|done].
Qed.

Lemma file_entries_keys_NoDup zip : NoDup (map fst zip) → NoDup (map_keys (file_entries zip)).
Proof.
  induction zip as [|[n o] zip IH]; simpl; [constructor|].
  intros [Hn Hnd]%NoDup_cons. unfold file_entries; simpl. fold (file_entries zip).
  assert (∀ m, m ∈ map_keys (file_entries zip) → m ∈ map fst zip) as Hsub.
  { intros m ([m' d] & -> & (o' & Hin & _)%file_entries_elem)%list_elem_of_fmap.
    apply list_elem_of_fmap. by exists (m', o'). }
  destruct (dir o); [by auto|]. destruct (async o); simpl; auto.
  apply NoDup_cons. split; auto.
Qed.
End manifest.

Import Js Signer Processor Spec.

(** The digest scenario: the entry under META-INF/ is left out and the
    other two come in name order, whatever the order of the map. *)
Lemma createManifestMF_digest_scenario :
  createManifestMF Fixture.demo_digest
    [(lit "b/y", [x01]); (lit "META-INF/OLD.SF", [x02]); (lit "a/x", [x00])]
  = manifestHeader
    ++ formatManifestEntry (lit "a/x") (Fixture.demo_digest [x00]) SHA_256_Digest
    ++ formatManifestEntry (lit "b/y") (Fixture.demo_digest [x01]) SHA_256_Digest.
Proof. vm_compute. reflexivity. Qed.

(** ** The signature file *)

Section signature_lines.
Import Js Signer Spec.
Variable sha256Base64 : list byte → jsstring.
Variable utf8_encode : jsstring → list byte.

Lemma splitCRLF_from_nil cur : splitCRLF_from cur [] = [cur].
Proof. done. Qed.

Lemma splitCRLF_from_cons cur c d t :
  splitCRLF_from cur (c :: d :: t)
  = if decide (c = 13 ∧ d = 10) then cur :: splitCRLF_from [] t
    else splitCRLF_from (cur ++ [c]) (d :: t).
Proof. done. Qed.

Lemma splitCRLF_from_line l cur rest :
  10 ∉ l →
  splitCRLF_from cur (l ++ CRLF ++ rest) = (cur ++ l) :: splitCRLF_from [] rest.
Proof.
  revert cur. induction l as [|c l IH]; intros cur Hl.
  - simpl. by rewrite app_nil_r.
  - apply not_elem_of_cons in Hl as [Hc Hl].
    specialize (IH (cur ++ [c]) Hl). rewrite <- app_assoc in IH. simpl in IH.
    rewrite <- IH. destruct l as [|d l]; simpl.
    + rewrite decide_False; [done|]. intros [_ [=]].
    + rewrite decide_False; [done|]. intros [_ ->]. apply Hl. by left.
Qed.

Lemma splitCRLF_lines ls rest :
  Forall (fun l => 10 ∉ l) ls →
  splitCRLF_from [] (unlines ls ++ rest) = ls ++ splitCRLF_from [] rest.
Proof.
  induction 1 as [|l ls Hl Hls IH]; simpl; [done|].
  rewrite <- !app_assoc. rewrite splitCRLF_from_line by done. simpl. by rewrite IH.
Qed.

Lemma wrapRest_lines fuel r : wrapRest fuel r = unlines (cont_lines fuel r).
Proof.
  revert r. induction fuel as [|fuel IH]; intros r; simpl; [done|].
  case_decide; simpl; [|done]. rewrite IH. by rewrite <- !app_assoc.
Qed.

Lemma wrapLine_lines line : wrapLine line = unlines (phys_lines line).
Proof.
  unfold wrapLine, phys_lines. case_decide; simpl; [by rewrite app_nil_r|].
  rewrite wrapRest_lines. by rewrite <- !app_assoc.
Qed.

(** Unfolding the continuation lines gives the text back: the fuel of
    [wrapRest] is never used up and wrapping loses nothing. *)
Lemma cont_lines_unwrap fuel r :
  (length r ≤ fuel)%nat → flat_map (drop 1) (cont_lines fuel r) = r.
Proof.
  revert r. induction fuel as [|fuel IH]; intros r Hr; cbn [cont_lines].
  - destruct r; [done|]. cbn [length] in Hr. lia.
  - case_decide as Hl; [|destruct r; [done|cbn [length] in Hl; lia]].
    cbn [flat_map]. rewrite IH by (rewrite length_drop; lia).
    change (drop 1 (lit " " ++ take 69 r)) with (take 69 r). apply take_drop.
Qed.

Lemma phys_lines_unwrap line :
  ∃ l ls, phys_lines line = l :: ls ∧ l ++ flat_map (drop 1) ls = line.
Proof.
  unfold phys_lines. case_decide.
  - exists line, []. by rewrite app_nil_r.
  - eexists _, _. split; [done|].
    rewrite cont_lines_unwrap by (rewrite length_drop; lia). apply take_drop.
Qed.

Lemma unlines_app a b : unlines (a ++ b) = unlines a ++ unlines b.
Proof. unfold unlines. by rewrite flat_map_app. Qed.

Lemma not_elem_take {A} (x : A) n l : x ∉ l → x ∉ take n l.
Proof. intros H Hin. apply H. eapply list_elem_of_lookup in Hin as [i Hi].
  apply lookup_take_Some in Hi as [Hi _]. by eapply list_elem_of_lookup_2. Qed.

Lemma not_elem_drop {A} (x : A) n l : x ∉ l → x ∉ drop n l.
Proof. intros H Hin. apply H. eapply list_elem_of_lookup in Hin as [i Hi].
  rewrite lookup_drop in Hi. by eapply list_elem_of_lookup_2. Qed.

Lemma cont_lines_LF fuel r : 10 ∉ r → Forall (fun l => 10 ∉ l) (cont_lines fuel r).
Proof.
  revert r. induction fuel as [|fuel IH]; intros r Hr; simpl; [constructor|].
  case_decide; constructor.
  - change (lit " " ++ take 69 r) with (32 :: take 69 r).
    apply not_elem_of_cons. split; [done|]. by apply not_elem_take.
  - apply IH. by apply not_elem_drop.
Qed.

Lemma phys_lines_LF line : 10 ∉ line → Forall (fun l => 10 ∉ l) (phys_lines line).
Proof.
  intros H. unfold phys_lines. case_decide; repeat constructor; auto using not_elem_take.
  apply cont_lines_LF. by apply not_elem_drop.
Qed.

(** The line loop on continuation lines. *)
Lemma sf_line_cont st x :
  sf_line sha256Base64 utf8_encode st (lit " " ++ x)
  = mkSF (sf st) (currentEntry st ++ (lit " " ++ x) ++ CRLF) (currentName st).
Proof.
  unfold sf_line.
  assert (startsWith (lit " " ++ x) (lit "Name: ") = false) as -> by (by cbv).
  by rewrite startsWith_app.
Qed.

Lemma sf_cont_lines fuel r s e nm :
  fold_left (sf_line sha256Base64 utf8_encode) (cont_lines fuel r) (mkSF s e nm)
  = mkSF s (e ++ unlines (cont_lines fuel r)) nm.
Proof.
  revert r e. induction fuel as [|fuel IH]; intros r e; cbn [cont_lines];
    [by rewrite app_nil_r|].
  case_decide; cbn [fold_left unlines flat_map]; [|by rewrite app_nil_r].
  rewrite sf_line_cont. cbn [sf currentEntry currentName]. rewrite IH.
  by rewrite <- !app_assoc.
Qed.

Lemma phys_lines_head line :
  ∃ rest, phys_lines line = take 70 line :: rest
          ∧ ∀ s e nm, fold_left (sf_line sha256Base64 utf8_encode) rest (mkSF s e nm)
                      = mkSF s (e ++ unlines rest) nm.
Proof.
  unfold phys_lines. case_decide.
  - exists []. rewrite take_ge by done. split; [done|]. intros. simpl. by rewrite app_nil_r.
  - eexists. split; [done|]. intros. apply sf_cont_lines.
Qed.

Lemma sf_line_name st x :
  sf_line sha256Base64 utf8_encode st (lit "Name: " ++ x)
  = mkSF (sf st) ((lit "Name: " ++ x) ++ CRLF) x.
Proof. unfold sf_line. by rewrite startsWith_app. Qed.

Lemma sf_line_digest st x :
  sf_line sha256Base64 utf8_encode st (lit "SHA-256-Digest: " ++ x)
  = mkSF (sf st) (currentEntry st ++ (lit "SHA-256-Digest: " ++ x) ++ CRLF)
         (currentName st).
Proof.
  unfold sf_line.
  assert (startsWith (lit "SHA-256-Digest: " ++ x) (lit "Name: ") = false) as -> by (by cbv).
  assert (startsWith (lit "SHA-256-Digest: " ++ x) (lit " ") = false) as -> by (by cbv).
  assert (startsWith (lit "SHA-256-Digest: " ++ x) (lit "SHA-256-Digest:") = true) as ->
    by (by cbv).
  done.
Qed.

Lemma sf_line_blank s e nm :
  nm ≠ [] →
  sf_line sha256Base64 utf8_encode (mkSF s e nm) []
  = mkSF (s ++ formatManifestEntry nm (sha256Base64 (utf8_encode (e ++ CRLF)))
                 SHA_256_Digest) [] [].
Proof.
  intros Hnm. unfold sf_line. cbn [currentName currentEntry sf].
  assert (startsWith [] (lit "Name: ") = false) as -> by (by cbv).
  assert (startsWith [] (lit " ") = false) as -> by (by cbv).
  assert (startsWith [] (lit "SHA-256-Digest:") = false) as -> by (by cbv).
  assert (startsWith [] (lit "SHA256-Digest:") = false) as -> by (by cbv).
  cbn [orb]. by rewrite decide_True.
Qed.

Lemma sf_line_blank_idle s e :
  sf_line sha256Base64 utf8_encode (mkSF s e []) [] = mkSF s e [].
Proof.
  unfold sf_line. cbn [currentName currentEntry sf].
  assert (startsWith [] (lit "Name: ") = false) as -> by (by cbv).
  assert (startsWith [] (lit " ") = false) as -> by (by cbv).
  assert (startsWith [] (lit "SHA-256-Digest:") = false) as -> by (by cbv).
  assert (startsWith [] (lit "SHA256-Digest:") = false) as -> by (by cbv).
  cbn [orb]. rewrite decide_False; [done|]. by intros [_ ?].
Qed.

Lemma sf_block st n h :
  n ≠ [] →
  fold_left (sf_line sha256Base64 utf8_encode)
    (phys_lines (lit "Name: " ++ n)
     ++ phys_lines (SHA_256_Digest ++ lit ": " ++ h) ++ [[]]) st
  = mkSF (sf st
          ++ formatManifestEntry (take 64 n)
               (sha256Base64 (utf8_encode (formatManifestEntry n h SHA_256_Digest)))
               SHA_256_Digest) [] [].
Proof.
  intros Hn. unfold formatManifestEntry at 2. rewrite !wrapLine_lines.
  destruct (phys_lines_head (lit "Name: " ++ n)) as (r1 & -> & Hr1).
  destruct (phys_lines_head (SHA_256_Digest ++ lit ": " ++ h)) as (r2 & -> & Hr2).
  rewrite !fold_left_app.
  assert (take 70 (lit "Name: " ++ n) = lit "Name: " ++ take 64 n) as ->.
  { exact (take_app_add' (lit "Name: ") n 6 64 eq_refl). }
  assert (take 70 (SHA_256_Digest ++ lit ": " ++ h)
          = lit "SHA-256-Digest: " ++ take 54 h) as ->.
  { rewrite app_assoc. exact (take_app_add' (SHA_256_Digest ++ lit ": ") h 16 54 eq_refl). }
  cbn [fold_left]. rewrite sf_line_name, Hr1, sf_line_digest.
  cbn [sf currentEntry currentName]. rewrite Hr2, sf_line_blank.
  - unfold unlines. cbn [flat_map]. by rewrite <- !app_assoc.
  - destruct n; [done|]. done.
Qed.
End signature_lines.

Section signature_file.
Import Js Signer Spec.
Variable sha256Base64 : list byte → jsstring.
Variable utf8_encode : jsstring → list byte.

Lemma formatManifestEntry_lines n h :
  formatManifestEntry n h SHA_256_Digest = unlines (block_lines n h).
Proof.
  unfold formatManifestEntry, block_lines. rewrite !wrapLine_lines, !unlines_app.
  done.
Qed.

Lemma closed_LF_free (s : jsstring) : bool_decide (10 ∉ s) = true → 10 ∉ s.
Proof. apply bool_decide_eq_true_1. Qed.

Lemma block_lines_LF n h :
  10 ∉ n → 10 ∉ h → Forall (fun l => 10 ∉ l) (block_lines n h).
Proof.
  intros Hn Hh. unfold block_lines. rewrite !Forall_app. split_and!.
  - apply phys_lines_LF. rewrite not_elem_of_app. split; [by apply closed_LF_free|done].
  - apply phys_lines_LF. rewrite !not_elem_of_app.
    split_and!; [by apply closed_LF_free|by apply closed_LF_free|done].
  - repeat constructor. apply not_elem_of_nil.
Qed.

Lemma sf_header_lines s :
  fold_left (sf_line sha256Base64 utf8_encode) header_lines (mkSF s [] [])
  = mkSF s [] [].
Proof.
  unfold header_lines. cbn [fold_left].
  assert (∀ st, sf_line sha256Base64 utf8_encode st (lit "Manifest-Version: 1.0") = st) as ->.
  { intros st. unfold sf_line.
    assert (startsWith (lit "Manifest-Version: 1.0") (lit "Name: ") = false) as -> by (by cbv).
    assert (startsWith (lit "Manifest-Version: 1.0") (lit " ") = false) as -> by (by cbv).
    assert (startsWith (lit "Manifest-Version: 1.0") (lit "SHA-256-Digest:") = false) as -> by (by cbv).
    assert (startsWith (lit "Manifest-Version: 1.0") (lit "SHA256-Digest:") = false) as -> by (by cbv).
    cbn [orb]. rewrite decide_False; [done|]. by intros [? _]. }
  assert (∀ st, sf_line sha256Base64 utf8_encode st (lit "Created-By: 1.0 (APK Debugger)") = st) as ->.
  { intros st. unfold sf_line.
    assert (startsWith (lit "Created-By: 1.0 (APK Debugger)") (lit "Name: ") = false) as -> by (by cbv).
    assert (startsWith (lit "Created-By: 1.0 (APK Debugger)") (lit " ") = false) as -> by (by cbv).
    assert (startsWith (lit "Created-By: 1.0 (APK Debugger)") (lit "SHA-256-Digest:") = false) as -> by (by cbv).
    assert (startsWith (lit "Created-By: 1.0 (APK Debugger)") (lit "SHA256-Digest:") = false) as -> by (by cbv).
    cbn [orb]. rewrite decide_False; [done|]. by intros [? _]. }
  apply sf_line_blank_idle.
Qed.

Lemma sf_blocks (blocks : list (jsstring * jsstring)) s :
  Forall (fun b => b.1 ≠ []) blocks →
  fold_left (sf_line sha256Base64 utf8_encode)
    (flat_map (fun b => block_lines b.1 b.2) blocks) (mkSF s [] [])
  = mkSF (s ++ flat_map (fun b =>
            formatManifestEntry (take 64 b.1)
              (sha256Base64 (utf8_encode (formatManifestEntry b.1 b.2 SHA_256_Digest)))
              SHA_256_Digest) blocks) [] [].
Proof.
  intros H. revert s. induction H as [|[n h] blocks Hn _ IH]; intros s;
    cbn [flat_map fold_left]; [by rewrite app_nil_r|].
  rewrite fold_left_app. unfold block_lines at 2. cbn [fst snd].
  rewrite sf_block by done. cbn [sf]. rewrite IH. by rewrite <- app_assoc.
Qed.

(** What [createCertSF] makes of a manifest of well-formed blocks. *)
Lemma createCertSF_of_blocks (blocks : list (jsstring * jsstring)) files :
  Forall (fun b => b.1 ≠ [] ∧ (10 ∉ b.1) ∧ (10 ∉ b.2)) blocks →
  let manifestMF :=
    manifestHeader
    ++ flat_map (fun b => formatManifestEntry b.1 b.2 SHA_256_Digest) blocks in
  createCertSF sha256Base64 utf8_encode manifestMF files
  = sfHeader sha256Base64 utf8_encode manifestMF
    ++ flat_map (fun b =>
         formatManifestEntry (take 64 b.1)
           (sha256Base64 (utf8_encode (formatManifestEntry b.1 b.2 SHA_256_Digest)))
           SHA_256_Digest) blocks.
Proof.
  intros Hb manifestMF. unfold createCertSF, splitCRLF.
  assert (manifestMF
          = unlines (header_lines ++ flat_map (fun b => block_lines b.1 b.2) blocks) ++ [])
    as Hm.
  { rewrite app_nil_r, unlines_app. unfold manifestMF.
    assert (manifestHeader = unlines header_lines) as -> by reflexivity.
    f_equal. clear. induction blocks as [|[n h] blocks IH]; [done|].
    cbn [flat_map fst snd]. rewrite unlines_app, formatManifestEntry_lines. by rewrite IH. }
  rewrite Hm at 1. rewrite splitCRLF_lines.
  - rewrite splitCRLF_from_nil, !fold_left_app, sf_header_lines, sf_blocks.
    + cbn [fold_left]. by rewrite sf_line_blank_idle.
    + eapply Forall_impl; [done|]. by intros ? [? _].
  - apply Forall_app. split.
    + repeat constructor; by apply closed_LF_free.
    + clear -Hb. induction Hb as [|[n h] blocks (Hn & H1 & H2) _ IH]; [constructor|].
      cbn [flat_map]. apply Forall_app. split; [by apply block_lines_LF|done].
Qed.

(** The signature file of the manifest [createManifestMF] makes. *)
Lemma createCertSF_manifest (files : FileMap) :
  (∀ d, 10 ∉ sha256Base64 d) →
  (∀ n, n ∈ map_keys files → n ≠ [] ∧ (10 ∉ n)) →
  let manifestMF := createManifestMF sha256Base64 files in
  createCertSF sha256Base64 utf8_encode manifestMF files
  = sfHeader sha256Base64 utf8_encode manifestMF
    ++ flat_map (sf_block_of sha256Base64 utf8_encode) (signed_entries files).
Proof.
  intros Hsha Hnames manifestMF. unfold manifestMF.
  rewrite createManifestMF_blocks.
  pose proof (createCertSF_of_blocks
    (map (fun e => (e.1, sha256Base64 e.2)) (signed_entries files)) files) as H.
  cbv zeta in H. rewrite !flat_map_concat_map, !map_map in H.
  rewrite !flat_map_concat_map. apply H.
  apply Forall_fmap, Forall_forall. intros [n d] Hin. cbn.
  assert (n ∈ map_keys files) as Hk.
  { unfold signed_entries in Hin. apply list_elem_of_flat_map in Hin as (m & Hm & Hf).
    apply list_elem_of_filter in Hf as [_ Hf]. rewrite sort_perm in Hf.
    destruct (map_get files m); [|by apply elem_of_nil in Hm].
    by apply list_elem_of_singleton in Hm as [= -> ->]. }
  destruct (Hnames n Hk). auto.
Qed.
End signature_file.

(** C4.  For an archive with distinct entry names and the map
    [collectFiles] reads from it, MANIFEST.MF is the text of the fixed
    header lines followed by one block per entry that is not a directory
    and whose name does not start with META-INF/: the line Name: with the
    entry name, the line SHA-256-Digest: with the digest of the entry's
    bytes, each wrapped, and a blank line, every line ended by CRLF; the
    blocks come in ascending order of the names, each name once; and a
    map with the same entries in another insertion order gives the same
    text. *)
Theorem createManifestMF_sorted_blocks
    (sha256Base64 : list byte → jsstring) (zip : JSZip) (files : FileMap) :
  NoDup (map fst zip) →
  collectFiles zip [] = Normal files →
  ∃ blocks : list (jsstring * list byte),
    createManifestMF sha256Base64 files
      = manifest_text (map (fun e => (e.1, sha256Base64 e.2)) blocks)
    ∧ (∀ n bytes, (n, bytes) ∈ blocks ↔
         startsWith n META_INF = false
         ∧ ∃ o, (n, o) ∈ zip ∧ dir o = false ∧ async o = Normal bytes)
    ∧ Sorted str_le (map fst blocks)
    ∧ NoDup (map fst blocks)
    ∧ ∀ files', files' ≡ₚ files →
        createManifestMF sha256Base64 files' = createManifestMF sha256Base64 files.
Proof.
  intros Hnd Hc. apply collectFiles_entries in Hc; [|done]. simpl in Hc. subst files.
  pose proof (file_entries_keys_NoDup zip Hnd) as Hk.
  exists (signed_entries (file_entries zip)). split_and!.
  - rewrite createManifestMF_blocks. unfold manifest_text. f_equal.
    induction (signed_entries (file_entries zip)) as [|e l IH]; [done|].
    cbn [flat_map map]. rewrite IH. f_equal.
    unfold entry_block. by rewrite formatManifestEntry_lines.
  - intros n d. rewrite signed_entries_elem by done. by rewrite file_entries_elem.
  - rewrite signed_entries_names. apply Sorted_filter; [apply _|]. apply sort_sorted.
  - rewrite signed_entries_names. apply NoDup_filter. by rewrite sort_perm.
  - intros files' Hp. rewrite !createManifestMF_blocks.
    by rewrite (signed_entries_agnostic (file_entries zip) files').
Qed.

(** ** Base selection *)

Section base_selection.
Import Js Processor Spec.

Lemma endsWith_nonempty s p : p ≠ [] → endsWith s p = true → s ≠ [].
Proof.
  intros Hp H ->. unfold endsWith in H. simpl in H.
  destruct (rev p) eqn:E; [|done]. apply Hp. by rewrite <- (rev_involutive p), E.
Qed.

Lemma find_apkFiles_nested toLowerCase bundleZip :
  find_apkFiles toLowerCase bundleZip
  = map (fun n => mkApkFileRef n (base_mark toLowerCase n)) (nested_archives bundleZip).
Proof.
  unfold nested_archives. induction bundleZip as [|[path file] zip IH]; [done|].
  cbn [find_apkFiles flat_map]. rewrite filter_cons. cbn [fst snd].
  fold (find_apkFiles toLowerCase zip). rewrite IH.
  destruct (endsWith path (lit ".apk")), (dir file); cbn [andb negb];
    rewrite ?decide_True by done; rewrite ?decide_False by (intros [? ?]; done); done.
Qed.

Lemma find_isBase_map toLowerCase names :
  apk_name <$> List.find isBase
    (map (fun n => mkApkFileRef n (base_mark toLowerCase n)) names)
  = List.find (base_mark toLowerCase) names.
Proof.
  induction names as [|n names IH]; [done|]. cbn [map List.find isBase].
  destruct (base_mark toLowerCase n); [done|]. apply IH.
Qed.

Lemma find_some_in {A} (f : A → bool) l x : List.find f l = Some x → x ∈ l.
Proof. intros [H _]%find_some. by apply list_elem_of_In. Qed.

Lemma nested_archives_nonempty bundleZip n : n ∈ nested_archives bundleZip → n ≠ [].
Proof.
  intros ([m o] & -> & [[H _] _]%list_elem_of_filter)%list_elem_of_fmap.
  eapply endsWith_nonempty; [|done]. done.
Qed.
End base_selection.

(** C6, as amended.  The base is the first nested archive (name ending
    in .apk, not a directory) whose lowercased name contains base or
    universal, or whose name is base.apk, with no precedence among the
    three; when there is none it is the first nested archive. *)
Theorem select_base_first_marked
    (toLowerCase : Js.jsstring → Js.jsstring) (bundleZip : Processor.JSZip) :
  Processor.select_base (Processor.find_apkFiles toLowerCase bundleZip)
  = match List.find (Spec.base_mark toLowerCase) (Spec.nested_archives bundleZip) with
    | Some n => Some n
    | None => head (Spec.nested_archives bundleZip)
    end.
Proof.
  unfold Processor.select_base. rewrite find_apkFiles_nested, find_isBase_map.
  destruct (List.find _ _) as [n|] eqn:E.
  - apply find_some_in, nested_archives_nonempty in E. by destruct n.
  - by destruct (Spec.nested_archives bundleZip).
Qed.

(** C6, counterexample: with split_universal.apk enumerated before
    base.apk the code takes split_universal.apk, where the claimed
    precedence takes base.apk. *)
Lemma select_base_ignores_precedence :
  Processor.select_base
    (Processor.find_apkFiles Fixture.ascii_lower Fixture.bundle_universal_first)
  = Some (Js.lit "split_universal.apk")
  ∧ Spec.claimed_base Fixture.ascii_lower Fixture.bundle_universal_first
    = Some (Js.lit "base.apk").
Proof. split; vm_compute; reflexivity. Qed.

(** ** The bundle merge *)

Section bundle_merge.
Import Js Processor Spec.

Lemma zip_lookup_put zip p d q :
  zip_lookup (zip_put zip p d) q
  = if decide (p = q) then Some (mkZipObject false (Normal d)) else zip_lookup zip q.
Proof.
  induction zip as [|[n o] zip IH]; cbn [zip_put zip_lookup].
  - done.
  - destruct (decide (n = p)) as [->|Hne]; cbn [zip_lookup].
    + by destruct (decide (p = q)).
    + rewrite IH. destruct (decide (n = q)) as [->|]; [|done].
      by rewrite decide_False by done.
Qed.

Lemma zip_lookup_elem zip p o : zip_lookup zip p = Some o → (p, o) ∈ zip.
Proof.
  induction zip as [|[n o'] zip IH]; cbn [zip_lookup]; [done|].
  case_decide; [intros [= ->]; subst; by left|]. right. auto.
Qed.

Lemma merge_respects_refl split zip : merge_respects split zip zip.
Proof. split_and!; [done|done|]. intros path o Ho. by left. Qed.

Lemma merge_respects_trans split a b c :
  merge_respects split a b → merge_respects split b c → merge_respects split a c.
Proof.
  intros (A1 & A2 & A3) (B1 & B2 & B3). split_and!; [by eauto| |].
  - intros path Hp. by rewrite B2, A2.
  - intros path o Ho. destruct (B3 path o Ho) as [Hb|Hs]; [by apply A3|by right].
Qed.

Lemma zip_file_put_ne zip p d q :
  p ≠ q → zip_file (zip_put zip p d) q = zip_file zip q.
Proof. intros. unfold zip_file. by rewrite zip_lookup_put, decide_False. Qed.

Lemma zip_file_put_eq zip p d :
  zip_file (zip_put zip p d) p = Some (mkZipObject false (Normal d)).
Proof. unfold zip_file. by rewrite zip_lookup_put, decide_True. Qed.

Lemma merge_put_respects (split : JSZip → Prop) base mainZip splitZip p f d :
  split splitZip → (p, f) ∈ splitZip → dir f = false → async f = Normal d →
  startsWith p META_INF = false → zip_file base p = None →
  merge_respects split base mainZip →
  merge_respects split base (zip_put mainZip p d).
Proof.
  intros Hsplit Hin Hdir Hread Hmeta Hfree (H1 & H2 & H3). split_and!.
  - intros q o Hq. destruct (decide (p = q)) as [->|]; [congruence|].
    rewrite zip_file_put_ne by done. auto.
  - intros q Hq. rewrite zip_lookup_put, decide_False; [by auto|]. intros ->. congruence.
  - intros q o. destruct (decide (p = q)) as [<-|Hne].
    + rewrite zip_file_put_eq. intros [= <-]. right. by exists splitZip, f, d.
    + rewrite zip_file_put_ne by done. apply H3.
Qed.

Lemma merge_entries_respects (split : JSZip → Prop) base splitZip entries mainZip cnt
    mainZip' cnt' :
  merge_entries entries mainZip cnt = Normal (mainZip', cnt') →
  split splitZip →
  Forall (fun e => e ∈ splitZip ∧ dir e.2 = false
                   ∧ startsWith e.1 META_INF = false ∧ zip_file base e.1 = None) entries →
  merge_respects split base mainZip →
  merge_respects split base mainZip'.
Proof.
  revert mainZip cnt. induction entries as [|[p f] entries IH]; intros mainZip cnt;
    cbn [merge_entries].
  - by intros [= -> _] _ _ ?.
  - destruct (async f) as [d| |] eqn:Ea; try done. intros Hm Hsplit Hall Hr.
    apply Forall_cons in Hall as [(Hin & Hdir & Hmeta & Hfree) Hall]. cbn [fst snd] in *.
    eapply IH; [done|done|done|]. by eapply merge_put_respects.
Qed.

Lemma merge_split_respects (split : JSZip → Prop) mainZip splitZip mainZip' cnt :
  merge_split mainZip splitZip = Normal (mainZip', cnt) →
  split splitZip →
  merge_respects split mainZip mainZip'.
Proof.
  intros Hm Hsplit.
  eapply merge_entries_respects; [done|done| |apply merge_respects_refl].
  apply Forall_forall. intros e [(H0 & H1 & H2) Hin]%list_elem_of_filter. done.
Qed.

Section merge_loop.
Context {CbState : Type}.
Variable onLog : ProcessingLog → CbState → completion unit * CbState.
Variable clock : nat → Z.
Variable loadAsync : list byte → completion JSZip.
Variable toLowerCase : jsstring → jsstring.

Lemma merge_splits_respects bundleZip baseApkPath apkFiles mainZip st merged st' :
  merge_splits onLog clock loadAsync bundleZip baseApkPath apkFiles mainZip st
    = (Normal merged, st') →
  (∀ apkFile, apkFile ∈ apkFiles → apk_name apkFile ∈ nested_archives bundleZip) →
  merge_respects (split_of loadAsync bundleZip baseApkPath) mainZip merged.
Proof.
  revert mainZip st. induction apkFiles as [|apkFile apkFiles IH]; intros mainZip st;
    cbn [merge_splits].
  - intros [= -> _] _. apply merge_respects_refl.
  - intros Hl Hnested.
    assert (∀ f, f ∈ apkFiles → apk_name f ∈ nested_archives bundleZip) as Hrest
      by (intros f Hf; apply Hnested; by right).
    revert Hl. case_decide as Hbase; [intros Hl; by eapply IH|]. unfold m_bind, m_lift.
    destruct (log _ _ _ _ st) as [[[]| |] st1]; try done.
    destruct (zip_file bundleZip (apk_name apkFile)) as [file|] eqn:Ef; [|done].
    destruct (async file) as [splitData| |] eqn:Ea; try done.
    destruct (loadAsync splitData) as [splitZip| |] eqn:El; try done.
    destruct (merge_split mainZip splitZip) as [[mainZip1 cnt]| |] eqn:Em; try done.
    destruct (log _ _ _ _ st1) as [[[]| |] st2]; try done.
    intros Hl. eapply merge_respects_trans; [|by eapply IH].
    eapply merge_split_respects; [done|].
    exists (apk_name apkFile), file, splitData. split_and!; try done.
    apply Hnested. by left.
Qed.
End merge_loop.
End bundle_merge.

(** C5.  When the bundle merger returns an archive, the base archive was
    loaded from the bundle entry [select_base] names, and the merged
    archive keeps every file of the base as it is (base wins on
    collision), holds under META-INF/ exactly what the base holds there,
    and has no file besides those of the base and the ones read from the
    entries of the splits that are not directories and not under
    META-INF/: an entry of a split under META-INF/ and a directory entry
    of a split are never inserted. *)
Theorem processApksBundle_base_wins {CbState : Type}
    (onLog : Processor.ProcessingLog → CbState → Js.completion unit * CbState)
    (clock : nat → Z) (loadAsync : list byte → Js.completion Processor.JSZip)
    (toLowerCase : Js.jsstring → Js.jsstring)
    (arrayBuffer : list byte) (st st' : Processor.St CbState)
    (merged : Processor.JSZip) :
  Processor.processApksBundle onLog clock loadAsync toLowerCase arrayBuffer st
    = (Js.Normal merged, st') →
  ∃ bundleZip baseApkPath baseFile baseApkData base,
    loadAsync arrayBuffer = Js.Normal bundleZip
    ∧ Processor.select_base (Processor.find_apkFiles toLowerCase bundleZip)
      = Some baseApkPath
    ∧ Processor.zip_file bundleZip baseApkPath = Some baseFile
    ∧ Processor.async baseFile = Js.Normal baseApkData
    ∧ loadAsync baseApkData = Js.Normal base
    ∧ Spec.merge_respects (Spec.split_of loadAsync bundleZip baseApkPath) base merged.
Proof.
  unfold Processor.processApksBundle, Processor.m_bind, Processor.m_lift,
    Processor.m_throw, Processor.m_ret.
  destruct (loadAsync arrayBuffer) as [bundleZip| |] eqn:E1; try done.
  destruct (Processor.select_base _) as [baseApkPath|] eqn:E2; try done.
  destruct (Processor.log _ _ _ _ st) as [[[]| |] st1]; try done.
  destruct (Processor.log _ _ _ _ st1) as [[[]| |] st2]; try done.
  destruct (Processor.zip_file bundleZip baseApkPath) as [baseFile|] eqn:E3; try done.
  destruct (Processor.async baseFile) as [baseApkData| |] eqn:E4; try done.
  destruct (loadAsync baseApkData) as [base| |] eqn:E5; try done.
  destruct (Processor.log _ _ _ _ st2) as [[[]| |] st3]; try done.
  destruct (Processor.merge_splits _ _ _ _ _ _ _ st3) as [[merged'| |] st4] eqn:E6; try done.
  destruct (Processor.log _ _ _ _ st4) as [[[]| |] st5]; try done.
  intros [= -> ->]. exists bundleZip, baseApkPath, baseFile, baseApkData, base.
  split_and!; try done. eapply merge_splits_respects; [done|].
  intros apkFile. rewrite find_apkFiles_nested.
  intros (n & -> & Hn)%list_elem_of_fmap. done.
Qed.

(** ** The orchestrator *)

Section orchestrator.
Import Js Axml Signer Processor Spec.
Context {Blob SigningKey CbState : Type}.
Variable onLog : ProcessingLog → CbState → completion unit * CbState.
Variable clock : nat → Z.
Variable loadAsync : list byte → completion JSZip.
Variable generateAsync : JSZip → completion Blob.
Variable blob_size : Blob → Z.
Variable generateSigningKey : completion SigningKey.
Variable createCertRSA : jsstring → SigningKey → completion (list byte).
Variable sha256Base64 : list byte → jsstring.
Variable utf8_encode : jsstring → list byte.
Variable utf8_decode : list byte → jsstring.
Variable toLowerCase toUpperCase : jsstring → jsstring.
Variable toFixedMB : Z → jsstring.
Variable rangeErrorMessage : jsstring.

Hypothesis onLog_returns : ∀ entry cb, (onLog entry cb).1 = Normal tt.

Lemma log_returns type message st :
  log onLog clock type message st
  = (Normal tt, mkSt (st_logs st ++ [mkLog type message (clock (length (st_logs st)))])
                     (onLog (mkLog type message (clock (length (st_logs st)))) (st_cb st)).2).
Proof.
  unfold log. pose proof (onLog_returns (mkLog type message (clock (length (st_logs st)))) (st_cb st)) as H.
  destruct (onLog _ _) as [r cb]. cbn in *. by subst.
Qed.

Local Abbreviation processApk :=
  (processApk onLog clock loadAsync generateAsync blob_size generateSigningKey
     createCertRSA sha256Base64 utf8_encode utf8_decode toLowerCase toUpperCase
     toFixedMB rangeErrorMessage).
Local Abbreviation processApk_try :=
  (processApk_try onLog clock loadAsync generateAsync blob_size generateSigningKey
     createCertRSA sha256Base64 utf8_encode utf8_decode toLowerCase toUpperCase
     toFixedMB).

Lemma processApk_cases file cb :
  match processApk_try file (mkSt [] cb) with
  | (Normal (apkBlob, apkInfo), st) =>
      processApk file cb
      = (Normal (mkResult true (Some apkBlob) (Some apkInfo) (st_logs st)), st)
  | (Throw e, st) =>
      ∃ entry st',
        entry = mkLog Error (lit "Processing failed: " ++ error_message rangeErrorMessage e)
                      (clock (length (st_logs st)))
        ∧ st_logs st' = st_logs st ++ [entry]
        ∧ processApk file cb = (Normal (mkResult false None None (st_logs st')), st')
  | (Diverge, st) => processApk file cb = (Diverge, st)
  end.
Proof.
  unfold Processor.processApk, try_catch, m_bind.
  destruct (processApk_try file _) as [[[apkBlob apkInfo]|e|] st]; [done| |done].
  rewrite log_returns. eexists _, _. split; [done|]. split; [|done]. done.
Qed.

Lemma m_bind_Normal {S A B} (m : M S A) (k : A → M S B) st b st' :
  m_bind m k st = (Normal b, st') →
  ∃ a st1, m st = (Normal a, st1) ∧ k a st1 = (Normal b, st').
Proof.
  unfold m_bind. destruct (m st) as [[a| |] st1]; try done. eauto.
Qed.

Local Abbreviation log := (log onLog clock).

Lemma try_parse_block manifestData st a st' :
  try_catch
    (m_bind (m_lift (parseAndroidManifest utf8_decode manifestData))
       (fun '(info, _) =>
          let apkInfo := apkInfo_of info in
          m_bind (log Success (lit "Parsed manifest: " ++ Processor.packageName apkInfo
                               ++ lit " v" ++ Processor.versionName apkInfo))
            (fun _ => m_bind (if Axml.isDebuggable info
                              then log Warning (lit "App is already debuggable")
                              else m_ret tt)
                        (fun _ => m_ret apkInfo))))
    (fun parseError =>
       m_bind (log Warning (lit "Could not fully parse manifest, using fallback"))
         (fun _ => m_ret fallbackInfo)) st = (Normal a, st') →
  a = or_fallback (match parseAndroidManifest utf8_decode manifestData with
                   | Normal (info, _) => Normal (apkInfo_of info)
                   | Throw e => Throw e
                   | Diverge => Diverge
                   end) fallbackInfo.
Proof.
  unfold try_catch, m_bind, m_lift, m_ret.
  destruct (parseAndroidManifest utf8_decode manifestData) as [[info p]|e|]; cbn [or_fallback].
  - rewrite log_returns.
    destruct (Axml.isDebuggable info).
    + rewrite log_returns. by intros [= <- _].
    + by intros [= <- _].
  - rewrite log_returns. by intros [= <- _].
  - done.
Qed.

Lemma try_patch_block manifestData st a st' :
  try_catch
    (m_bind (m_lift (makeManifestDebuggable utf8_decode utf8_encode manifestData))
       (fun modifiedManifest =>
          m_bind (log Success (lit "Manifest patched: android:debuggable=" ++ [34]
                               ++ lit "true" ++ [34]))
            (fun _ => m_ret modifiedManifest)))
    (fun modifyError =>
       m_bind (log Warning (lit "Could not modify manifest via AXML, using binary patch"))
         (fun _ => m_ret (patchManifestBinary manifestData))) st = (Normal a, st') →
  a = or_fallback (makeManifestDebuggable utf8_decode utf8_encode manifestData)
                  (patchManifestBinary manifestData).
Proof.
  unfold try_catch, m_bind, m_lift, m_ret.
  destruct (makeManifestDebuggable utf8_decode utf8_encode manifestData) as [m|e|];
    cbn [or_fallback].
  - rewrite log_returns. by intros [= <- _].
  - rewrite log_returns. by intros [= <- _].
  - done.
Qed.

Lemma processApk_try_archive file st apkBlob apkInfo st' :
  processApk_try file st = (Normal (apkBlob, apkInfo), st') →
  ∃ mainZip manifestFile manifestData fileMap signingKey certRSA,
    loads_to onLog clock loadAsync toLowerCase file mainZip
    ∧ zip_file mainZip MANIFEST_XML = Some manifestFile
    ∧ async manifestFile = Normal manifestData
    ∧ let modified :=
        or_fallback (makeManifestDebuggable utf8_decode utf8_encode manifestData)
                    (patchManifestBinary manifestData) in
      let stripped :=
        (removeSignatures toUpperCase (zip_put mainZip MANIFEST_XML modified)).1 in
      let manifestMF := createManifestMF sha256Base64 fileMap in
      let certSF := createCertSF sha256Base64 utf8_encode manifestMF fileMap in
      collectFiles stripped [] = Normal fileMap
      ∧ generateSigningKey = Normal signingKey
      ∧ createCertRSA certSF signingKey = Normal certRSA
      ∧ generateAsync
          (zip_put (zip_put (zip_put stripped MANIFEST_MF (utf8_encode manifestMF))
                      CERT_SF (utf8_encode certSF)) CERT_RSA certRSA)
        = Normal apkBlob
      ∧ apkInfo
        = with_debuggable
            (or_fallback (match parseAndroidManifest utf8_decode manifestData with
                          | Normal (info, _) => Normal (apkInfo_of info)
                          | Throw e => Throw e
                          | Diverge => Diverge
                          end) fallbackInfo).
Proof.
  unfold Processor.processApk_try. intros H.
  apply m_bind_Normal in H as (? & ? & _ & H).
  apply m_bind_Normal in H as (buffer & ? & Hbuf & H).
  apply m_bind_Normal in H as (mainZip & ? & Hmain & H).
  assert (loads_to onLog clock loadAsync toLowerCase file mainZip) as Hloads.
  { exists buffer. unfold m_lift in Hbuf. injection Hbuf as Hbuf _. split; [done|].
    destruct (endsWith (toLowerCase (file_name file)) (lit ".apks")).
    - apply m_bind_Normal in Hmain as (? & st0 & _ & Hb). exists st0. by rewrite Hb.
    - apply m_bind_Normal in Hmain as (z & ? & Hl & Hm).
      apply m_bind_Normal in Hm as (? & ? & _ & Hm). unfold m_ret in Hm.
      injection Hm as <- _. unfold m_lift in Hl. by injection Hl. }
  clear Hbuf Hmain.
  fold MANIFEST_XML in H.
  destruct (zip_file mainZip MANIFEST_XML) as [manifestFile|] eqn:Ef; [|done].
  apply m_bind_Normal in H as (? & ? & _ & H).
  apply m_bind_Normal in H as (manifestData & ? & Hdata & H).
  apply m_bind_Normal in H as (info & ? & Hinfo & H).
  apply m_bind_Normal in H as (? & ? & _ & H).
  apply m_bind_Normal in H as (modified & ? & Hmod & H).
  apply try_parse_block in Hinfo. apply try_patch_block in Hmod.
  apply m_bind_Normal in H as (? & ? & _ & H).
  destruct (removeSignatures _ _) as [stripped removedFiles] eqn:Er.
  apply m_bind_Normal in H as (? & ? & _ & H).
  apply m_bind_Normal in H as (? & ? & _ & H).
  apply m_bind_Normal in H as (fileMap & ? & Hfiles & H).
  apply m_bind_Normal in H as (? & ? & _ & H).
  apply m_bind_Normal in H as (? & ? & _ & H).
  apply m_bind_Normal in H as (signingKey & ? & Hkey & H).
  apply m_bind_Normal in H as (? & ? & _ & H).
  apply m_bind_Normal in H as (? & ? & _ & H).
  apply m_bind_Normal in H as ([[manifestMF certSF] certRSA] & ? & Hsign & H).
  apply m_bind_Normal in H as (? & ? & _ & H).
  apply m_bind_Normal in H as (? & ? & _ & H).
  apply m_bind_Normal in H as (blob & ? & Hgen & H).
  apply m_bind_Normal in H as (? & ? & _ & H).
  apply m_bind_Normal in H as (? & ? & _ & H).
  unfold m_ret in H. injection H as <- <- _.
  unfold m_lift in Hdata, Hfiles, Hkey, Hsign, Hgen.
  injection Hdata as Hdata _. injection Hfiles as Hfiles _. injection Hkey as Hkey _.
  injection Hgen as Hgen _.
  unfold signApk in Hsign.
  destruct (createCertRSA _ signingKey) as [rsa| |] eqn:Ersa; try done.
  injection Hsign as <- <- <- _.
  exists mainZip, manifestFile, manifestData, fileMap, signingKey, rsa.
  cbv zeta. rewrite <- Hmod. fold MANIFEST_XML in Er. rewrite Er. cbn [fst].
  split_and!; try done. by rewrite Hinfo.
Qed.

(** Steps of the monad that return, throw or hang. *)
Lemma m_bind_run {S A B} (m : M S A) (k : A → M S B) st a st1 :
  m st = (Normal a, st1) → m_bind m k st = k a st1.
Proof. unfold m_bind. by intros ->. Qed.

Lemma m_bind_throws {S A B} (m : M S A) (k : A → M S B) st e st1 :
  m st = (Throw e, st1) → m_bind m k st = (Throw e, st1).
Proof. unfold m_bind. by intros ->. Qed.

(** The archive the merger returns does not depend on the log array. *)
Lemma merge_splits_value bundleZip baseApkPath apkFiles mainZip st st' :
  (merge_splits onLog clock loadAsync bundleZip baseApkPath apkFiles mainZip st).1
  = (merge_splits onLog clock loadAsync bundleZip baseApkPath apkFiles mainZip st').1.
Proof.
  revert mainZip st st'. induction apkFiles as [|apkFile apkFiles IH]; intros mainZip st st';
    cbn [merge_splits]; [done|].
  case_decide; [apply IH|]. unfold m_bind, m_lift. rewrite !log_returns.
  destruct (match zip_file bundleZip (apk_name apkFile) with
            | Some file => async file | None => _ end) as [splitData| |]; try done.
  destruct (loadAsync splitData) as [splitZip| |]; try done.
  destruct (merge_split mainZip splitZip) as [[mainZip1 cnt]| |]; try done.
  rewrite !log_returns. apply IH.
Qed.

Lemma processApksBundle_value buffer st st' :
  (processApksBundle onLog clock loadAsync toLowerCase buffer st).1
  = (processApksBundle onLog clock loadAsync toLowerCase buffer st').1.
Proof.
  unfold processApksBundle, m_bind, m_lift, m_throw, m_ret.
  destruct (loadAsync buffer) as [bundleZip| |]; try done.
  destruct (select_base _) as [baseApkPath|]; try done.
  rewrite !log_returns.
  destruct (match zip_file bundleZip baseApkPath with
            | Some file => async file | None => _ end) as [baseApkData| |]; try done.
  destruct (loadAsync baseApkData) as [mainZip| |]; try done.
  rewrite ?log_returns.
  match goal with
  | |- (match merge_splits _ _ _ _ _ _ _ ?s1 with _ => _ end).1
       = (match merge_splits _ _ _ _ _ _ _ ?s2 with _ => _ end).1 =>
      pose proof (merge_splits_value bundleZip baseApkPath
                    (find_apkFiles toLowerCase bundleZip) mainZip s1 s2) as Hv;
      destruct (merge_splits onLog clock loadAsync bundleZip baseApkPath
                  (find_apkFiles toLowerCase bundleZip) mainZip s1) as [[z1| |] t1];
      destruct (merge_splits onLog clock loadAsync bundleZip baseApkPath
                  (find_apkFiles toLowerCase bundleZip) mainZip s2) as [[z2| |] t2];
      cbn [fst] in Hv; try done
  end.
  injection Hv as ->. by rewrite !log_returns.
Qed.

(** The two recovered steps return unless the parser hangs. *)
Lemma try_parse_block_run manifestData st :
  parse utf8_decode manifestData ≠ Diverge →
  ∃ st',
    try_catch
      (m_bind (m_lift (parseAndroidManifest utf8_decode manifestData))
         (fun '(info, _) =>
            let apkInfo := apkInfo_of info in
            m_bind (log Success (lit "Parsed manifest: " ++ Processor.packageName apkInfo
                                 ++ lit " v" ++ Processor.versionName apkInfo))
              (fun _ => m_bind (if Axml.isDebuggable info
                                then log Warning (lit "App is already debuggable")
                                else m_ret tt)
                          (fun _ => m_ret apkInfo))))
      (fun parseError =>
         m_bind (log Warning (lit "Could not fully parse manifest, using fallback"))
           (fun _ => m_ret fallbackInfo)) st
    = (Normal (or_fallback (match parseAndroidManifest utf8_decode manifestData with
                            | Normal (info, _) => Normal (apkInfo_of info)
                            | Throw e => Throw e
                            | Diverge => Diverge
                            end) fallbackInfo), st').
Proof.
  intros Hp. unfold try_catch, m_bind, m_lift, m_ret, parseAndroidManifest.
  destruct (parse utf8_decode manifestData) as [parsed|e|]; [| |done]; cbn [or_fallback].
  - rewrite log_returns. destruct (Axml.isDebuggable (getManifestInfo parsed)).
    + rewrite log_returns. by eexists.
    + by eexists.
  - rewrite log_returns. by eexists.
Qed.

Lemma try_patch_block_run manifestData st :
  parse utf8_decode manifestData ≠ Diverge →
  ∃ st',
    try_catch
      (m_bind (m_lift (makeManifestDebuggable utf8_decode utf8_encode manifestData))
         (fun modifiedManifest =>
            m_bind (log Success (lit "Manifest patched: android:debuggable=" ++ [34]
                                 ++ lit "true" ++ [34]))
              (fun _ => m_ret modifiedManifest)))
      (fun modifyError =>
         m_bind (log Warning (lit "Could not modify manifest via AXML, using binary patch"))
           (fun _ => m_ret (patchManifestBinary manifestData))) st
    = (Normal (patched_manifest utf8_decode utf8_encode manifestData), st').
Proof.
  intros Hp. unfold try_catch, m_bind, m_lift, m_ret, patched_manifest, makeManifestDebuggable.
  destruct (parse utf8_decode manifestData) as [parsed|e|]; [| |done]; cbn [or_fallback].
  - destruct (makeDebuggable utf8_encode parsed); cbn [or_fallback];
      rewrite log_returns; by eexists.
  - rewrite log_returns. by eexists.
Qed.

(** A run whose steps before the signing return throws what the key
    generation or the CMS signing of its CERT.SF throws. *)
Lemma processApk_try_signing_throws file st mainZip manifestFile manifestData fileMap e :
  loads_to onLog clock loadAsync toLowerCase file mainZip →
  zip_file mainZip MANIFEST_XML = Some manifestFile →
  async manifestFile = Normal manifestData →
  parse utf8_decode manifestData ≠ Diverge →
  collectFiles (stripped_archive toUpperCase mainZip
                  (patched_manifest utf8_decode utf8_encode manifestData)) []
  = Normal fileMap →
  generateSigningKey = Throw e
  ∨ (∃ signingKey,
       generateSigningKey = Normal signingKey
       ∧ createCertRSA
           (createCertSF sha256Base64 utf8_encode
              (createManifestMF sha256Base64 fileMap) fileMap) signingKey
         = Throw e) →
  (processApk_try file st).1 = Throw e.
Proof.
  intros (buffer & Hbuf & Hload) Hmf Hdata Hp Hfiles Hsign.
  unfold Processor.processApk_try.
  erewrite m_bind_run by apply log_returns.
  erewrite m_bind_run by (unfold m_lift; rewrite Hbuf; reflexivity).
  match goal with |- (m_bind _ _ ?s).1 = _ => set (s0 := s) end.
  assert (∃ s1, (if endsWith (toLowerCase (file_name file)) (lit ".apks")
                 then m_bind (log Info (lit "Detected APKS bundle format"))
                        (fun _ => processApksBundle onLog clock loadAsync toLowerCase buffer)
                 else m_bind (m_lift (loadAsync buffer))
                        (fun mainZip => m_bind (log Success (lit "APK extracted successfully"))
                                          (fun _ => m_ret mainZip))) s0
                = (Normal mainZip, s1)) as [s1 Hmain].
  { destruct (endsWith (toLowerCase (file_name file)) (lit ".apks")).
    - destruct Hload as [st0 Hv]. erewrite m_bind_run by apply log_returns.
      match goal with |- ∃ s1, processApksBundle _ _ _ _ _ ?s = _ =>
        rewrite (processApksBundle_value buffer st0 s) in Hv;
        destruct (processApksBundle onLog clock loadAsync toLowerCase buffer s) as [r s1]
      end.
      cbn [fst] in Hv. subst r. by eexists.
    - erewrite m_bind_run by (unfold m_lift; rewrite Hload; reflexivity).
      erewrite m_bind_run by apply log_returns. by eexists. }
  erewrite m_bind_run by exact Hmain. clear Hmain s0.
  fold MANIFEST_XML. rewrite Hmf.
  erewrite m_bind_run by apply log_returns.
  erewrite m_bind_run by (unfold m_lift; rewrite Hdata; reflexivity).
  match goal with |- (m_bind _ _ ?s).1 = _ =>
    destruct (try_parse_block_run manifestData s Hp) as [s2 Hparse] end.
  erewrite m_bind_run by exact Hparse. clear Hparse.
  erewrite m_bind_run by apply log_returns.
  match goal with |- (m_bind _ _ ?s).1 = _ =>
    destruct (try_patch_block_run manifestData s Hp) as [s3 Hpatch] end.
  erewrite m_bind_run by exact Hpatch. clear Hpatch.
  erewrite m_bind_run by apply log_returns.
  unfold stripped_archive in Hfiles.
  destruct (removeSignatures toUpperCase _) as [stripped removedFiles]. cbn [fst] in Hfiles.
  erewrite m_bind_run by apply log_returns.
  erewrite m_bind_run by apply log_returns.
  erewrite m_bind_run by (unfold m_lift; rewrite Hfiles; reflexivity).
  erewrite m_bind_run by apply log_returns.
  erewrite m_bind_run by apply log_returns.
  destruct Hsign as [Hkey|(signingKey & Hkey & Hrsa)].
  - erewrite m_bind_throws by (unfold m_lift; rewrite Hkey; reflexivity). done.
  - erewrite m_bind_run by (unfold m_lift; rewrite Hkey; reflexivity).
    erewrite m_bind_run by apply log_returns.
    erewrite m_bind_run by apply log_returns.
    erewrite m_bind_throws
      by (unfold m_lift, signApk; rewrite Hrsa; reflexivity).
    done.
Qed.

End orchestrator.

(** ** Byte buffers *)

Section bytes.
Import Js.

Lemma getBytes_Some d off n :
  0 ≤ off → 0 ≤ n → off + n ≤ Z.of_nat (length d) →
  getBytes d off n = Some (take (Z.to_nat n) (drop (Z.to_nat off) d)).
Proof. intros. unfold getBytes. by rewrite decide_True. Qed.

Lemma getBytes_inv d off n bs :
  getBytes d off n = Some bs →
  0 ≤ off ∧ 0 ≤ n ∧ off + n ≤ Z.of_nat (length d)
  ∧ bs = take (Z.to_nat n) (drop (Z.to_nat off) d).
Proof. unfold getBytes. case_decide as Hr; [|done]. intros [= <-]. destruct Hr as (?&?&?). done. Qed.

Lemma getUint32_Some d off :
  0 ≤ off → off + 4 ≤ Z.of_nat (length d) → is_Some (getUint32 d off).
Proof. intros. unfold getUint32. rewrite getBytes_Some by lia. by eexists. Qed.

Lemma getUint16_Some d off :
  0 ≤ off → off + 2 ≤ Z.of_nat (length d) → is_Some (getUint16 d off).
Proof. intros. unfold getUint16. rewrite getBytes_Some by lia. by eexists. Qed.

Lemma getUint32_inv d off v :
  getUint32 d off = Some v → 0 ≤ off ∧ off + 4 ≤ Z.of_nat (length d).
Proof.
  unfold getUint32. destruct (getBytes d off 4) eqn:E; [|done].
  apply getBytes_inv in E. lia.
Qed.

Lemma getUint16_inv d off v :
  getUint16 d off = Some v → 0 ≤ off ∧ off + 2 ≤ Z.of_nat (length d).
Proof.
  unfold getUint16. destruct (getBytes d off 2) eqn:E; [|done].
  apply getBytes_inv in E. lia.
Qed.

Lemma length_overwrite d off bs :
  0 ≤ off → off + Z.of_nat (length bs) ≤ Z.of_nat (length d) →
  length (overwrite d off bs) = length d.
Proof.
  intros. unfold overwrite. rewrite !length_app, length_take, length_drop. lia.
Qed.

Lemma lookup_overwrite_out d off bs (k : nat) :
  0 ≤ off → off + Z.of_nat (length bs) ≤ Z.of_nat (length d) →
  (Z.of_nat k < off ∨ off + Z.of_nat (length bs) ≤ Z.of_nat k) →
  overwrite d off bs !! k = d !! k.
Proof.
  intros H0 H1 Hk. unfold overwrite.
  destruct (decide (Z.of_nat k < off)).
  - rewrite lookup_app_l by (rewrite length_take; lia). rewrite lookup_take_lt by lia. done.
  - rewrite lookup_app_r by (rewrite length_take; lia).
    rewrite lookup_app_r by (rewrite length_take; lia).
    rewrite lookup_drop, length_take. f_equal. lia.
Qed.

Lemma lookup_overwrite_in d off bs (k : nat) :
  0 ≤ off → off + Z.of_nat (length bs) ≤ Z.of_nat (length d) →
  (k < length bs)%nat →
  overwrite d off bs !! (Z.to_nat off + k)%nat = bs !! k.
Proof.
  intros H0 H1 Hk. unfold overwrite.
  rewrite lookup_app_r by (rewrite length_take; lia).
  rewrite lookup_app_l by (rewrite length_take; lia).
  f_equal. rewrite length_take. lia.
Qed.

Lemma getBytes_overwrite d off bs :
  0 ≤ off → off + Z.of_nat (length bs) ≤ Z.of_nat (length d) →
  getBytes (overwrite d off bs) off (Z.of_nat (length bs)) = Some bs.
Proof.
  intros H0 H1. rewrite getBytes_Some; try lia.
  - f_equal. unfold overwrite. rewrite drop_app_length' by (rewrite length_take; lia).
    rewrite Nat2Z.id. by rewrite take_app_length.
  - rewrite length_overwrite by lia. lia.
Qed.
End bytes.

(** ** The writer and the regenerated buffer *)

Section writer.
Import Js Axml Spec.

Lemma buffer_snoc h x o : buffer (mkWriter (h ++ [x]) o) = x.
Proof. unfold buffer. cbn [heap]. by rewrite last_snoc. Qed.

Lemma buffer_insert_last h x o :
  h ≠ [] → buffer (mkWriter (<[pred (length h) := x]> h) o) = x.
Proof.
  intros Hh. unfold buffer. cbn [heap].
  rewrite last_lookup, length_insert, list_lookup_insert_eq; [done|].
  destruct h; [done|]. cbn [length]. lia.
Qed.

Lemma buffer_insert_other h (v : nat) x o :
  v ≠ pred (length h) → buffer (mkWriter (<[v := x]> h) o) = default [] (last h).
Proof.
  intros Hv. unfold buffer. cbn [heap].
  by rewrite !last_lookup, length_insert, list_lookup_insert_ne.
Qed.

Lemma length_le_encode n v : length (le_encode n v) = n.
Proof. revert v. induction n as [|n IH]; intros v; cbn [le_encode length]; [done|]. by rewrite IH. Qed.

Lemma ensureCapacity_spec needed w :
  writer_ok w → 0 ≤ needed →
  let w1 := ensureCapacity needed w in
  heap w1 ≠ [] ∧ offset w1 = offset w
  ∧ offset w + needed ≤ Z.of_nat (length (buffer w1))
  ∧ take (length (buffer w)) (buffer w1) = buffer w.
Proof.
  intros [Hh Ho] Hn. unfold ensureCapacity. cbv zeta. case_decide as Hc.
  - rewrite buffer_snoc. cbn [heap offset].
    split_and!; [by destruct (heap w)|done| |by rewrite take_app_length].
    rewrite length_app, length_replicate. lia.
  - split_and!; [done|done|lia|by rewrite take_ge].
Qed.

(** What a write at the write position does. *)
Lemma put_spec bs w :
  writer_ok w →
  let w' := put bs w in
  writer_ok w'
  ∧ offset w' = offset w + Z.of_nat (length bs)
  ∧ take (Z.to_nat (offset w)) (buffer w') = take (Z.to_nat (offset w)) (buffer w)
  ∧ getBytes (buffer w') (offset w) (Z.of_nat (length bs)) = Some bs.
Proof.
  intros Hok. pose proof Hok as [Hh Ho].
  destruct (ensureCapacity_spec (Z.of_nat (length bs)) w Hok) as (H1 & H2 & H3 & H4); [lia|].
  unfold put, writer_ok. cbv zeta. set (w1 := ensureCapacity _ w) in *.
  rewrite buffer_insert_last by done. cbn [heap offset]. rewrite H2.
  assert (length (overwrite (buffer w1) (offset w) bs) = length (buffer w1)) as Hlen
    by (apply length_overwrite; lia).
  split_and!.
  - intros E. apply (f_equal length) in E.
    rewrite length_insert in E. by destruct (heap w1).
  - lia.
  - rewrite Hlen. lia.
  - done.
  - unfold overwrite. rewrite take_app_le by (rewrite length_take; lia).
    rewrite take_take, Nat.min_id. rewrite <- H4. rewrite take_take.
    f_equal. lia.
  - apply getBytes_overwrite; lia.
Qed.

Lemma setBytes_inv d off bs out :
  setBytes d off bs = Some out →
  0 ≤ off ∧ off + Z.of_nat (length bs) ≤ Z.of_nat (length d) ∧ out = overwrite d off bs.
Proof. unfold setBytes. case_decide as H; [|done]. intros [= <-]. by destruct H. Qed.

Lemma take_overwrite d off bs (k : nat) :
  0 ≤ off ≤ Z.of_nat (length d) → Z.of_nat k ≤ off →
  take k (overwrite d off bs) = take k d.
Proof.
  intros H0 Hk. unfold overwrite.
  rewrite take_app_le by (rewrite length_take; lia). rewrite take_take. f_equal. lia.
Qed.

Lemma view_setUint32_spec view pos v w w' :
  writer_ok w → view_setUint32 view pos v w = Some w' →
  writer_ok w' ∧ offset w' = offset w ∧ 0 ≤ pos
  ∧ ((view = view_of w ∧ pos + 4 ≤ Z.of_nat (length (buffer w))
      ∧ buffer w' = overwrite (buffer w) pos (le_encode 4 v))
     ∨ (view ≠ view_of w ∧ buffer w' = buffer w)).
Proof.
  intros [Hh Ho]. unfold view_setUint32.
  destruct (heap w !! view) as [buf|] eqn:Eb; [|done]. cbn [mbind option_bind].
  destruct (setUint32 buf pos v) as [buf'|] eqn:Es; [|done]. cbn [mbind option_bind].
  intros [= <-]. apply setBytes_inv in Es as (Hp0 & Hp4 & ->).
  rewrite length_le_encode in Hp4. unfold writer_ok, view_of. cbn [heap offset].
  assert (<[view:=overwrite buf pos (le_encode 4 v)]> (heap w) ≠ []) as Hne.
  { intros E. apply (f_equal length) in E. rewrite length_insert in E. by destruct (heap w). }
  destruct (decide (view = pred (length (heap w)))) as [->|Hv].
  - assert (buf = buffer w) as ->.
    { unfold buffer. rewrite last_lookup, Eb. done. }
    rewrite buffer_insert_last by done.
    rewrite length_overwrite by (rewrite ?length_le_encode; lia).
    split_and!; try done; try lia. left. done.
  - rewrite buffer_insert_other by done. fold (buffer w).
    split_and!; try done; try lia. right. done.
Qed.

Lemma frame_refl k w : writer_ok w → frame k w w.
Proof. intros. split_and!; [done|lia|done]. Qed.

Lemma frame_trans k a b c : frame k a b → frame k b c → frame k a c.
Proof. intros (A1 & A2 & A3) (B1 & B2 & B3). split_and!; [done|lia|congruence]. Qed.

Lemma frame_weaken k k' a b : k' ≤ k → frame k a b → frame k' a b.
Proof.
  intros Hk (A1 & A2 & A3). split_and!; [done..|].
  apply (f_equal (take (Z.to_nat k'))) in A3. rewrite !take_take in A3.
  by rewrite Nat.min_l in A3 by lia.
Qed.

Lemma frame_put k bs w : writer_ok w → k ≤ offset w → frame k w (put bs w).
Proof.
  intros Hok Hk. destruct (put_spec bs w Hok) as (H1 & H2 & H3 & _).
  apply (frame_weaken (offset w)); [done|]. split_and!; [done|lia|done].
Qed.

Lemma frame_view k view pos v w w' :
  writer_ok w → view_setUint32 view pos v w = Some w' → k ≤ pos → frame k w w'.
Proof.
  intros Hok Hv Hk. destruct (view_setUint32_spec _ _ _ _ _ Hok Hv) as (H1 & H2 & H3 & H4).
  split_and!; [done|lia|]. destruct H4 as [(_ & Hp & ->)|(_ & ->)]; [|done].
  apply take_overwrite; lia.
Qed.

Lemma frame_step_put k w w1 bs :
  frame k w w1 → k ≤ offset w → frame k w (put bs w1).
Proof.
  intros Hf Hk. eapply frame_trans; [done|]. destruct Hf as (H1 & H2 & _).
  apply frame_put; [done|lia].
Qed.

Lemma frame_step_view k w w1 view pos v w2 :
  frame k w w1 → view_setUint32 view pos v w1 = Some w2 → k ≤ pos → frame k w w2.
Proof.
  intros Hf Hv Hk. eapply frame_trans; [done|]. destruct Hf as (H1 & _).
  by eapply frame_view.
Qed.

Lemma frame_writeUtf8Length k w w1 len :
  frame k w w1 → k ≤ offset w → frame k w (writeUtf8Length len w1).
Proof.
  intros Hf Hk. unfold writeUtf8Length, writeUint8.
  case_decide; repeat apply frame_step_put; done.
Qed.

Lemma frame_align4 k w w1 turns :
  frame k w w1 → k ≤ offset w → frame k w (align4 turns w1).
Proof.
  revert w1. induction turns as [|turns IH]; intros w1 Hf Hk; cbn [align4];
    case_decide; try done.
  apply IH; [|done]. by apply frame_step_put.
Qed.

Lemma frame_fold_put {A} (f : A → list byte) k w (xs : list A) w1 :
  frame k w w1 → k ≤ offset w → frame k w (fold_left (fun w x => put (f x) w) xs w1).
Proof.
  revert w1. induction xs as [|x xs IH]; intros w1 Hf Hk; cbn [fold_left]; [done|].
  apply IH; [|done]. by apply frame_step_put.
Qed.

Lemma offset_fold_put4 {A} (f : A → Z) (xs : list A) w :
  writer_ok w →
  offset (fold_left (fun w x => writeUint32 (f x) w) xs w)
  = offset w + 4 * Z.of_nat (length xs).
Proof.
  revert w. induction xs as [|x xs IH]; intros w Hok; cbn [fold_left length]; [lia|].
  destruct (put_spec (le_encode 4 (f x)) w Hok) as (H1 & H2 & _).
  unfold writeUint32 at 2. rewrite IH by done. rewrite H2, length_le_encode. lia.
Qed.

Lemma getBytes_take d (k : nat) o n :
  0 ≤ n → o + n ≤ Z.of_nat k → (k ≤ length d)%nat →
  getBytes (take k d) o n = getBytes d o n.
Proof.
  intros Hn Hk Hd. unfold getBytes. rewrite length_take.
  destruct (decide (0 ≤ o)) as [Ho|Ho].
  - rewrite !decide_True by lia. f_equal.
    replace k with (Z.to_nat o + (k - Z.to_nat o))%nat at 1 by lia.
    rewrite <- take_drop_commute, take_take. f_equal. lia.
  - rewrite !decide_False by lia. done.
Qed.

Lemma getBytes_frame k w w' o n :
  frame k w w' → writer_ok w → 0 ≤ n → o + n ≤ k → k ≤ offset w →
  getBytes (buffer w') o n = getBytes (buffer w) o n.
Proof.
  intros (Hok' & Hle & Ht) Hok Hn Hon Hk.
  destruct Hok as [_ ?], Hok' as [_ ?].
  rewrite <- (getBytes_take (buffer w') (Z.to_nat k)) by lia.
  rewrite <- (getBytes_take (buffer w) (Z.to_nat k)) by lia.
  by rewrite Ht.
Qed.

Lemma getBytes_overwrite_after d p bs o n :
  0 ≤ p → p + Z.of_nat (length bs) ≤ Z.of_nat (length d) →
  p + Z.of_nat (length bs) ≤ o →
  getBytes (overwrite d p bs) o n = getBytes d o n.
Proof.
  intros Hp Hin Ho. unfold getBytes. rewrite length_overwrite by lia.
  case_decide; [|done]. f_equal. f_equal. unfold overwrite.
  rewrite drop_app_ge by (rewrite length_take; lia).
  rewrite drop_app_ge by (rewrite length_take; lia).
  rewrite drop_drop, length_take. f_equal. lia.
Qed.

Lemma getBytes_overwrite_before d p bs o n :
  0 ≤ p → p + Z.of_nat (length bs) ≤ Z.of_nat (length d) →
  0 ≤ n → o + n ≤ p →
  getBytes (overwrite d p bs) o n = getBytes d o n.
Proof.
  intros Hp Hin Hn Ho.
  rewrite <- (getBytes_take (overwrite d p bs) (Z.to_nat p)) by (rewrite ?length_overwrite; lia).
  rewrite <- (getBytes_take d (Z.to_nat p)) by lia.
  rewrite take_overwrite by lia. done.
Qed.

Lemma Z_of_byte_of_Z z : Z_of_byte (byte_of_Z z) = z `mod` 256.
Proof.
  unfold Z_of_byte, byte_of_Z.
  assert (0 ≤ z `mod` 256 < 256) as Hr by (apply Z.mod_pos_bound; lia).
  destruct (Byte.of_N (Z.to_N (z `mod` 256))) as [b|] eqn:E.
  - apply Byte.to_of_N in E. change (default x00 (Some b)) with b. rewrite E. lia.
  - apply Byte.of_N_None_iff in E. lia.
Qed.

Lemma le_decode_encode n v : le_decode (le_encode n v) = v `mod` 256 ^ Z.of_nat n.
Proof.
  revert v. induction n as [|n IH]; intros v; cbn [le_encode le_decode foldr].
  - by rewrite Z.mod_1_r.
  - fold (le_decode (le_encode n (v / 256))). rewrite IH, Z_of_byte_of_Z.
    rewrite Nat2Z.inj_succ, Z.pow_succ_r by lia.
    rewrite (Z.rem_mul_r v 256 (256 ^ Z.of_nat n)) by lia. done.
Qed.

Lemma getUint32_encoded d o v :
  getBytes d o 4 = Some (le_encode 4 v) → getUint32 d o = Some (toUint32 v).
Proof.
  intros H. unfold getUint32. rewrite H. cbn [fmap option_fmap option_map].
  f_equal. apply (le_decode_encode 4).
Qed.

Section phases.
Variable utf8_encode : jsstring → list byte.
Variable parsed : ParsedAXML.

Lemma frame_write_strings k w view offsetsStart stringsDataStart strs :
  ∀ i w1 w2,
  write_strings utf8_encode view offsetsStart stringsDataStart strs i w1 = Some w2 →
  frame k w w1 → k ≤ offset w → k ≤ offsetsStart → 0 ≤ i →
  frame k w w2.
Proof.
  induction strs as [|str strs IH]; intros i w1 w2; cbn [write_strings].
  - by intros [= <-].
  - cbv zeta.
    destruct (view_setUint32 view _ _ w1) as [w1'|] eqn:Ev; [|done].
    cbn [mbind option_bind]. intros Hw Hf Hk Hos Hi.
    eapply IH; [exact Hw| |done|done|lia].
    unfold writeUint8, writeBytes. apply frame_step_put; [|done].
    apply frame_step_put; [|done].
    do 2 (apply frame_writeUtf8Length; [|done]).
    eapply frame_step_view; [done|done|lia].
Qed.

Lemma frame_writeAttribute k w w1 attr :
  frame k w w1 → k ≤ offset w → frame k w (writeAttribute w1 attr).
Proof.
  intros. unfold writeAttribute, writeInt32, writeUint32. cbv zeta.
  repeat apply frame_step_put; done.
Qed.

Lemma frame_fold_writeAttribute k w attrs w1 :
  frame k w w1 → k ≤ offset w → frame k w (fold_left writeAttribute attrs w1).
Proof.
  revert w1. induction attrs as [|a attrs IH]; intros w1 Hf Hk; cbn [fold_left]; [done|].
  apply IH; [|done]. by apply frame_writeAttribute.
Qed.

Lemma frame_writeResourceIds k w w1 ids :
  frame k w w1 → k ≤ offset w → frame k w (writeResourceIds ids w1).
Proof.
  intros. unfold writeResourceIds, writeUint32. cbv zeta.
  apply (frame_fold_put (le_encode 4)); [|done]. repeat apply frame_step_put; done.
Qed.

Lemma frame_rewriteStartElement k w w1 newStrings idx pos w2 pos' :
  frame k w w1 → k ≤ offset w →
  rewriteStartElement parsed newStrings idx w1 pos = Some (w2, pos') →
  frame k w w2.
Proof.
  intros Hf Hk. unfold rewriteStartElement, rd_bind. cbv zeta.
  repeat match goal with
         | |- context [match ?r ?p with Some _ => _ | None => _ end] =>
             destruct (r p) as [[? ?]|]; [|done]
         end.
  destruct (view_setUint32 _ _ _ _) as [w3|] eqn:Ev; [|done].
  cbn [mbind option_bind]. intros [= <- <-].
  eapply frame_step_view; [|exact Ev|].
  - apply frame_fold_writeAttribute; [|done].
    unfold writeUint16, writeUint32, writeInt32. repeat apply frame_step_put; done.
  - destruct Hf as (Hok & Hle & _).
    destruct (put_spec (le_encode 4 CHUNK_XML_START_ELEMENT) w1 Hok) as (_ & Ho & _).
    clear Ev. unfold writeUint32. rewrite Ho. lia.
Qed.

Lemma frame_writeElements_loop k w newStrings idx fuel :
  ∀ pos w1 w2,
  frame k w w1 → k ≤ offset w →
  writeElements_loop parsed fuel newStrings idx pos w1 = Some w2 →
  frame k w w2.
Proof.
  induction fuel as [|fuel IH]; intros pos w1 w2 Hf Hk; cbn [writeElements_loop]; cbv zeta.
  - case_decide; [done|]. by intros [= <-].
  - case_decide; [|by intros [= <-]].
    destruct (getUint32 _ pos) as [ty|]; [|done]. cbn [mbind option_bind].
    destruct (getUint32 _ (pos + 4)) as [sz|]; [|done]. cbn [mbind option_bind].
    case_decide; [by intros [= <-]|]. case_decide.
    + destruct (rewriteStartElement _ _ _ _ _) as [[w' pos']|] eqn:Er; [|done].
      cbn [mbind option_bind]. apply IH; [|done]. by eapply frame_rewriteStartElement.
    + destruct (getBytes _ _ _) as [chunkData|]; [|done]. cbn [mbind option_bind].
      apply IH; [|done]. unfold writeBytes. by apply frame_step_put.
Qed.

Lemma writeUint32_spec v w :
  writer_ok w →
  writer_ok (writeUint32 v w)
  ∧ offset (writeUint32 v w) = offset w + 4
  ∧ getBytes (buffer (writeUint32 v w)) (offset w) 4 = Some (le_encode 4 v).
Proof.
  intros Hok. destruct (put_spec (le_encode 4 v) w Hok) as (H1 & H2 & _ & H4).
  rewrite length_le_encode in H2, H4. done.
Qed.

Lemma writeStringPool_spec strs w w' :
  writer_ok w → writeStringPool utf8_encode strs w = Some w' →
  let s := offset w in
  frame s w w'
  ∧ s + 28 + 4 * Z.of_nat (length strs) ≤ offset w'
  ∧ getUint32 (buffer w') s = Some CHUNK_STRING_POOL
  ∧ getUint32 (buffer w') (s + 4) = Some (toUint32 (offset w' - s))
  ∧ getUint32 (buffer w') (s + 20) = Some (toUint32 (20 + 4 * Z.of_nat (length strs))).
Proof.
  intros Hok. unfold writeStringPool. cbv zeta.
  destruct (writeUint32_spec CHUNK_STRING_POOL w Hok) as (Hok1 & Ho1 & Hb1).
  set (w1 := writeUint32 CHUNK_STRING_POOL w) in *.
  destruct (writeUint32_spec 0 w1 Hok1) as (Hok2 & Ho2 & _).
  set (w2 := writeUint32 0 w1) in *.
  destruct (writeUint32_spec (Z.of_nat (length strs)) w2 Hok2) as (Hok3 & Ho3 & _).
  set (w3 := writeUint32 _ w2) in *.
  destruct (writeUint32_spec 0 w3 Hok3) as (Hok4 & Ho4 & _).
  set (w4 := writeUint32 0 w3) in *.
  destruct (writeUint32_spec (shl32 1 8) w4 Hok4) as (Hok5 & Ho5 & _).
  set (w5 := writeUint32 _ w4) in *.
  destruct (writeUint32_spec 0 w5 Hok5) as (Hok6 & Ho6 & _).
  set (w6 := writeUint32 0 w5) in *.
  destruct (writeUint32_spec 0 w6 Hok6) as (Hok7 & Ho7 & _).
  set (w7 := writeUint32 0 w6) in *.
  pose proof (offset_fold_put4 (fun _ : jsstring => 0) strs w7 Hok7) as Ho8.
  assert (frame (offset w7) w7 (fold_left (λ w _, writeUint32 0 w) strs w7)) as Hf8.
  { apply (frame_fold_put (fun _ => le_encode 4 0)); [by apply frame_refl|lia]. }
  set (w8 := fold_left _ strs w7) in *.
  destruct (view_setUint32 (view_of w8) (offset w5) _ w8) as [w9|] eqn:E9; [|done].
  cbn [mbind option_bind].
  destruct (write_strings _ _ _ _ _ _ w9) as [w10|] eqn:E10; [|done].
  cbn [mbind option_bind]. intros E11. set (s := offset w) in *.
  assert (frame (s + 4) w1 w8) as F8.
  { apply (frame_fold_put (fun _ => le_encode 4 0)); [|lia].
    unfold w7, w6, w5, w4, w3, w2, writeUint32.
    do 6 (apply frame_step_put; [|lia]). by apply frame_refl. }
  pose proof F8 as (Hok8 & _ & _).
  destruct (view_setUint32_spec _ _ _ _ _ Hok8 E9) as (Hok9 & Ho9 & Hp9 & Hb9).
  destruct Hb9 as [(_ & Hin9 & Hb9)|[? _]]; [|done].
  assert (frame (s + 24) w9 (align4 3 w10)) as F11.
  { apply frame_align4; [|lia].
    eapply frame_write_strings; [exact E10|by apply frame_refl|lia|lia|lia]. }
  pose proof F11 as (Hok11 & Hle11 & _).
  set (w11 := align4 3 w10) in *.
  destruct (view_setUint32_spec _ _ _ _ _ Hok11 E11) as (Hok' & Ho' & Hp' & Hb').
  destruct Hb' as [(_ & Hin' & Hb')|[? _]]; [|done].
  assert (frame (s + 4) w1 w') as F'.
  { eapply frame_step_view; [|exact E11|lia].
    eapply frame_trans; [|eapply frame_weaken; [|exact F11]; lia].
    eapply frame_step_view; [exact F8|exact E9|lia]. }
  split_and!.
  - eapply frame_trans; [|eapply frame_weaken; [|exact F']; lia].
    unfold w1, writeUint32. apply frame_put; [done|]. unfold s. lia.
  - lia.
  - apply (getUint32_encoded _ _ CHUNK_STRING_POOL).
    rewrite (getBytes_frame (s + 4) w1 w') by (try done; lia). done.
  - rewrite Ho'. apply getUint32_encoded. rewrite Hb'.
    replace (s + 4) with (offset w1) by lia.
    replace 4 with (Z.of_nat (length (le_encode 4 (offset w11 - s)))) at 2
      by (by rewrite length_le_encode).
    apply getBytes_overwrite; rewrite ?length_le_encode; lia.
  - replace (20 + 4 * Z.of_nat (length strs)) with (offset w8 - s - 8) by lia.
    apply getUint32_encoded. rewrite Hb'.
    rewrite getBytes_overwrite_after by (rewrite ?length_le_encode; lia).
    rewrite (getBytes_frame (s + 24) w9 w11) by (try done; lia).
    rewrite Hb9. replace (s + 20) with (offset w5) by lia.
    replace 4 with (Z.of_nat (length (le_encode 4 (offset w8 - s - 8)))) at 2
      by (by rewrite length_le_encode).
    apply getBytes_overwrite; rewrite ?length_le_encode; lia.
Qed.

Lemma getUint32_frame k w w' o :
  frame k w w' → writer_ok w → o + 4 ≤ k → k ≤ offset w →
  getUint32 (buffer w') o = getUint32 (buffer w) o.
Proof. intros. unfold getUint32. by rewrite (getBytes_frame k w w') by (try done; lia). Qed.

Lemma writeResourceIds_spec ids w :
  writer_ok w →
  let w' := writeResourceIds ids w in
  frame (offset w) w w'
  ∧ offset w' = offset w + 8 + 4 * Z.of_nat (length ids)
  ∧ getUint32 (buffer w') (offset w) = Some CHUNK_RESOURCE_IDS
  ∧ getUint32 (buffer w') (offset w + 4)
    = Some (toUint32 (8 + Z.of_nat (length ids) * 4)).
Proof.
  intros Hok. unfold writeResourceIds. cbv zeta.
  destruct (writeUint32_spec CHUNK_RESOURCE_IDS w Hok) as (Hok1 & Ho1 & Hb1).
  set (w1 := writeUint32 CHUNK_RESOURCE_IDS w) in *.
  destruct (writeUint32_spec (8 + Z.of_nat (length ids) * 4) w1 Hok1) as (Hok2 & Ho2 & Hb2).
  set (w2 := writeUint32 _ w1) in *.
  pose proof (offset_fold_put4 (fun id : Z => id) ids w2 Hok2) as Ho3.
  assert (frame (offset w2) w2 (fold_left (λ w id, writeUint32 id w) ids w2)) as F3.
  { apply (frame_fold_put (le_encode 4)); [by apply frame_refl|lia]. }
  set (w3 := fold_left _ ids w2) in *.
  assert (frame (offset w1) w1 w3) as F13.
  { eapply frame_trans; [|eapply frame_weaken; [|exact F3]; lia].
    unfold w2, writeUint32. apply frame_put; [done|lia]. }
  split_and!.
  - eapply frame_trans; [|eapply frame_weaken; [|exact F13]; lia].
    unfold w1, writeUint32. apply frame_put; [done|lia].
  - lia.
  - rewrite (getUint32_frame (offset w1) w1 w3) by (try done; lia).
    by apply (getUint32_encoded _ _ CHUNK_RESOURCE_IDS).
  - rewrite (getUint32_frame (offset w2) w2 w3) by (try done; lia).
    apply getUint32_encoded. by rewrite <- Ho1.
Qed.

Lemma newWriter_ok size : 0 ≤ size → writer_ok (newWriter size) ∧ offset (newWriter size) = 0.
Proof.
  intros. split; [|done]. split; [done|].
  change (buffer (newWriter size)) with (replicate (Z.to_nat size) x00).
  rewrite length_replicate. cbn [newWriter offset]. lia.
Qed.

Lemma rebuild_fresh_headers originalData out :
  rebuildWithDebuggable utf8_encode parsed originalData = Some out →
  fresh_headers parsed out.
Proof.
  unfold rebuildWithDebuggable. cbv zeta.
  fold DEBUGGABLE. fold (new_strings parsed). fold (new_resourceIds parsed).
  destruct (newWriter_ok (Z.of_nat (length originalData) + 1024)) as [Hok0 Ho0]; [lia|].
  set (w0 := newWriter _) in *.
  destruct (writeUint32_spec CHUNK_AXML_FILE w0 Hok0) as (Hok1 & Ho1 & Hb1).
  set (w1 := writeUint32 CHUNK_AXML_FILE w0) in *.
  destruct (writeUint32_spec 0 w1 Hok1) as (Hok2 & Ho2 & _).
  set (w2 := writeUint32 0 w1) in *.
  destruct (writeStringPool utf8_encode (new_strings parsed) w2) as [w3|] eqn:E3; [|done].
  cbn [mbind option_bind].
  destruct (writeStringPool_spec _ _ _ Hok2 E3) as (F3 & Hle3 & P1 & P2 & P3).
  pose proof F3 as (Hok3 & _ & _).
  destruct (writeResourceIds_spec (new_resourceIds parsed) w3 Hok3) as (F4 & Ho4 & R1 & R2).
  set (w4 := writeResourceIds (new_resourceIds parsed) w3) in *.
  pose proof F4 as (Hok4 & _ & _).
  destruct (writeElements _ _ _ _ w4) as [w5|] eqn:E5; [|done].
  cbn [mbind option_bind].
  assert (frame (offset w4) w4 w5) as F5.
  { eapply frame_writeElements_loop; [by apply frame_refl|lia|exact E5]. }
  pose proof F5 as (Hok5 & Hle5 & _).
  destruct (view_setUint32 (view_of w5) 4 (offset w5) w5) as [w6|] eqn:E6; [|done].
  cbn [mbind option_bind]. intros [= <-].
  destruct (view_setUint32_spec _ _ _ _ _ Hok5 E6) as (Hok6 & Ho6 & _ & Hb6).
  destruct Hb6 as [(_ & Hin6 & Hb6)|[? _]]; [|done].
  unfold writer_getBytes. rewrite Ho6, Hb6.
  pose proof Hok5 as [_ HL].
  set (B5 := buffer w5) in *. set (L := offset w5) in *.
  assert (length (le_encode 4 L) = 4%nat) as Henc by apply length_le_encode.
  assert (length (overwrite B5 4 (le_encode 4 L)) = length B5) as Hlen
    by (apply length_overwrite; lia).
  assert (∀ o, o + 4 ≤ L →
            getUint32 (take (Z.to_nat L) (overwrite B5 4 (le_encode 4 L))) o
            = getUint32 (overwrite B5 4 (le_encode 4 L)) o) as Htake.
  { intros o Ho. unfold getUint32. rewrite getBytes_take by lia. done. }
  assert (∀ o, 8 ≤ o → o + 4 ≤ L →
            getUint32 (take (Z.to_nat L) (overwrite B5 4 (le_encode 4 L))) o
            = getUint32 B5 o) as Hout.
  { intros o Ho1' Ho2'. rewrite Htake by done. unfold getUint32.
    rewrite getBytes_overwrite_after by lia. done. }
  assert (frame (offset w3) w3 w5) as F35.
  { eapply frame_trans; [exact F4|]. eapply frame_weaken; [|exact F5]. lia. }
  assert (frame 4 w1 w5) as F15.
  { eapply frame_trans; [|eapply frame_weaken; [|exact F35]; lia].
    eapply frame_trans; [|eapply frame_weaken; [|exact F3]; lia].
    unfold w2, writeUint32. apply frame_put; [done|lia]. }
  unfold fresh_headers. split_and!.
  - rewrite Htake by lia. unfold getUint32 at 1.
    rewrite getBytes_overwrite_before by lia. fold (getUint32 B5 0).
    unfold B5. rewrite (getUint32_frame 4 w1 w5) by (try done; lia).
    apply (getUint32_encoded _ _ CHUNK_AXML_FILE). by rewrite <- Ho0.
  - rewrite Htake by lia. rewrite length_take, Hlen.
    replace (Z.of_nat (Z.to_nat L `min` length B5)) with L by lia.
    apply getUint32_encoded.
    replace 4 with (Z.of_nat (length (le_encode 4 L))) at 2 by lia.
    apply getBytes_overwrite; lia.
  - rewrite Hout by lia. unfold B5.
    rewrite (getUint32_frame (offset w3) w3 w5) by (try done; lia).
    by replace 8 with (offset w2) by lia.
  - rewrite Hout by lia. unfold B5.
    rewrite (getUint32_frame (offset w3) w3 w5) by (try done; lia).
    by replace 28 with (offset w2 + 20) by lia.
  - exists (offset w3). split_and!.
    + rewrite Hout by lia. unfold B5.
      rewrite (getUint32_frame (offset w3) w3 w5) by (try done; lia).
      replace 12 with (offset w2 + 4) by lia. rewrite P2. do 2 f_equal. lia.
    + rewrite Hout by lia. unfold B5.
      by rewrite (getUint32_frame (offset w4) w4 w5) by (try done; lia).
    + rewrite Hout by lia. unfold B5.
      by rewrite (getUint32_frame (offset w4) w4 w5) by (try done; lia).
Qed.
End phases.
End writer.

(** ** The in-place path *)

Section in_place.
Import Js Axml Spec.
Variable utf8_encode : jsstring → list byte.
Variable parsed : ParsedAXML.

Local Abbreviation loop := (makeDebuggable_loop utf8_encode parsed).

Lemma readStartHeader_Some d pos :
  0 ≤ pos → pos + 36 ≤ Z.of_nat (length d) →
  ∃ nameIdx attrCount,
    getUint32 d (pos + 20) = Some nameIdx
    ∧ getUint16 d (pos + 28) = Some attrCount
    ∧ readStartHeader d (pos + 8) = Some ((nameIdx, attrCount), pos + 36).
Proof.
  intros H0 H1.
  destruct (getUint32_Some d (pos + 16)) as [ns Hns]; [lia..|].
  destruct (getUint32_Some d (pos + 20)) as [nm Hnm]; [lia..|].
  destruct (getUint16_Some d (pos + 24)) as [a1 Ha1]; [lia..|].
  destruct (getUint16_Some d (pos + 26)) as [a2 Ha2]; [lia..|].
  destruct (getUint16_Some d (pos + 28)) as [a3 Ha3]; [lia..|].
  destruct (getUint16_Some d (pos + 30)) as [a4 Ha4]; [lia..|].
  destruct (getUint16_Some d (pos + 32)) as [a5 Ha5]; [lia..|].
  destruct (getUint16_Some d (pos + 34)) as [a6 Ha6]; [lia..|].
  exists nm, a3. split_and!; [done..|].
  unfold readStartHeader, rd_bind, rd_ret, skip, readInt32, readUint32, readUint16, getInt32.
  replace (pos + 8 + 8) with (pos + 16) by lia. rewrite Hns. cbn.
  replace (pos + 16 + 4) with (pos + 20) by lia. rewrite Hnm. cbn.
  replace (pos + 20 + 4) with (pos + 24) by lia. rewrite Ha1. cbn.
  replace (pos + 24 + 2) with (pos + 26) by lia. rewrite Ha2. cbn.
  replace (pos + 26 + 2) with (pos + 28) by lia. rewrite Ha3. cbn.
  replace (pos + 28 + 2) with (pos + 30) by lia. rewrite Ha4. cbn.
  replace (pos + 30 + 2) with (pos + 32) by lia. rewrite Ha5. cbn.
  replace (pos + 32 + 2) with (pos + 34) by lia. rewrite Ha6. cbn.
  by replace (pos + 34 + 2) with (pos + 36) by lia.
Qed.

(** More fuel does not change a result. *)
Lemma loop_fuel_mono fuel fuel' d pos out :
  (fuel ≤ fuel')%nat → loop fuel d pos = Some out → loop fuel' d pos = Some out.
Proof.
  revert fuel' pos. induction fuel as [|fuel IH]; intros fuel' pos Hle.
  - cbn [makeDebuggable_loop]. case_decide; [done|]. destruct fuel'; cbn [makeDebuggable_loop];
      by rewrite decide_False.
  - destruct fuel' as [|fuel']; [lia|]. cbn [makeDebuggable_loop].
    case_decide; [|done].
    destruct (getUint32 d pos) as [ty|]; [|done]. cbn [mbind option_bind].
    destruct (getUint32 d (pos + 4)) as [sz|]; [|done]. cbn [mbind option_bind].
    assert ((if decide (sz = 0) then Some d else loop fuel d (pos + sz)) = Some out →
            (if decide (sz = 0) then Some d else loop fuel' d (pos + sz)) = Some out) as Hnext.
    { destruct (decide (sz = 0)); [done|]. apply IH. lia. }
    destruct (decide (ty = CHUNK_XML_START_ELEMENT)); [|by apply Hnext].
    destruct (readStartHeader d (pos + 8)) as [[[nameIdx attrCount] p']|]; [|done].
    cbn [mbind option_bind].
    destruct (decide (str_or_empty (strings parsed) nameIdx = lit "application")); [done|].
    by apply Hnext.
Qed.

(** One turn of the loop over a chunk that is not the application. *)
Lemma loop_plain_chunk fuel d pos sz :
  plain_chunk (strings parsed) d pos sz →
  pos < Z.of_nat (length d) →
  loop (S fuel) d pos = loop fuel d (pos + sz).
Proof.
  intros (ty & Hty & Hsz & Hpos & Hstart) Hlt. cbn [makeDebuggable_loop].
  rewrite decide_True by done. rewrite Hty, Hsz. cbn [mbind option_bind].
  rewrite (decide_False (P := sz = 0)) by lia.
  destruct (decide (ty = CHUNK_XML_START_ELEMENT)) as [Hs|]; [|done].
  destruct (Hstart Hs) as (Hin & nameIdx & Hn & Hne).
  apply getUint32_inv in Hty.
  destruct (readStartHeader_Some d pos) as (nameIdx' & attrCount & Hn' & _ & ->); [lia..|].
  cbn [mbind option_bind]. rewrite decide_False; [done|]. unfold APPLICATION in Hne. congruence.
Qed.

Lemma skips_le d pos pos' : skips (strings parsed) d pos pos' → pos ≤ pos'.
Proof.
  induction 1 as [|pos sz pos' (ty & _ & _ & Hsz & _) _ IH]; lia.
Qed.

Lemma loop_skips d pos pos' fuel out :
  skips (strings parsed) d pos pos' →
  loop fuel d pos' = Some out →
  loop (fuel + Z.to_nat (pos' - pos)) d pos = Some out.
Proof.
  induction 1 as [pos|pos sz pos' Hc Hs IH]; intros Hout.
  - eapply loop_fuel_mono; [|done]. lia.
  - specialize (IH Hout). pose proof (skips_le _ _ _ Hs) as Hle.
    destruct Hc as (ty & Hty & Hsz & Hpos & Hstart).
    destruct (decide (pos < Z.of_nat (length d))) as [Hlt|Hge].
    + eapply (loop_fuel_mono (S (fuel + Z.to_nat (pos' - (pos + sz))))); [lia|].
      rewrite (loop_plain_chunk _ d pos sz); [done| |done]. by exists ty.
    + apply getUint32_inv in Hty. lia.
Qed.

Lemma loop_end fuel d pos : Z.of_nat (length d) ≤ pos → loop fuel d pos = Some d.
Proof. intros. destruct fuel; cbn [makeDebuggable_loop]; by rewrite decide_False by lia. Qed.

Lemma skips_nonneg d pos pos' : skips (strings parsed) d pos pos' → pos < pos' → 0 ≤ pos.
Proof.
  destruct 1 as [|pos sz pos' (ty & Hty & _) _]; [lia|]. apply getUint32_inv in Hty. lia.
Qed.

Lemma loop_skips_to_end d pos end_ :
  skips (strings parsed) d pos end_ →
  Z.of_nat (length d) ≤ end_ →
  ∃ fuel, loop fuel d pos = Some d
          ∧ (fuel ≤ length d)%nat ∧ (fuel ≤ Z.to_nat (Z.of_nat (length d) - pos))%nat.
Proof.
  induction 1 as [pos|pos sz pos' Hc Hs IH]; intros Hend.
  - exists 0%nat. split; [by apply loop_end|lia].
  - destruct (IH Hend) as (fuel & Hf & Hle1 & Hle2).
    destruct (decide (pos < Z.of_nat (length d))) as [Hlt|Hge].
    + exists (S fuel). split; [by rewrite (loop_plain_chunk _ d pos sz)|].
      destruct Hc as (ty & Hty & Hsz & Hpos & Hstart). apply getUint32_inv in Hty. lia.
    + exists 0%nat. split; [apply loop_end; lia|lia].
Qed.

(** No application element: the copy is returned as it is. *)
Lemma makeDebuggable_no_application end_ :
  skips (strings parsed) (rawData parsed) (elementsOffset parsed) end_ →
  Z.of_nat (length (rawData parsed)) ≤ end_ →
  makeDebuggable utf8_encode parsed = Some (rawData parsed).
Proof.
  intros Hs Hend. unfold makeDebuggable.
  destruct (loop_skips_to_end _ _ _ Hs Hend) as (fuel & Hf & Hle & _).
  eapply loop_fuel_mono; [|done]. lia.
Qed.

(** The attribute scan up to the first attribute named debuggable. *)
Lemma find_debuggable_first d cs count i :
  first_debuggable (strings parsed) d cs count i →
  find_debuggable parsed d (cs + 36) (Z.to_nat count) 0
  = Some (Some (cs + 36 + 20 * i)).
Proof.
  intros (Hi & Hat & Hbefore).
  assert (∀ n k, 0 ≤ k ≤ i → Z.of_nat n = count - k →
            find_debuggable parsed d (cs + 36) n k = Some (Some (cs + 36 + 20 * i))) as H.
  { induction n as [|n IH]; intros k Hk Hn; [lia|]. cbn [find_debuggable].
    destruct (decide (k = i)) as [->|Hne].
    - destruct Hat as (idx & Hidx & Hnm). replace (cs + 36 + i * 20) with (cs + 36 + 20 * i) by lia.
      rewrite Hidx. cbn [mbind option_bind]. by rewrite decide_True.
    - destruct (Hbefore k) as (nm & (idx & Hidx & Hnm) & Hnot); [lia|].
      replace (cs + 36 + k * 20) with (cs + 36 + 20 * k) by lia.
      rewrite Hidx. cbn [mbind option_bind]. rewrite decide_False by (unfold DEBUGGABLE in *; congruence).
      apply IH; lia. }
  apply H; lia.
Qed.

(** The in-place path. *)
Lemma makeDebuggable_in_place cs count i :
  let d := rawData parsed in
  skips (strings parsed) d (elementsOffset parsed) cs →
  application_at (strings parsed) d cs count →
  first_debuggable (strings parsed) d cs count i →
  makeDebuggable utf8_encode parsed
  = Some (overwrite d (cs + 36 + 20 * i + 16) [xff; xff; xff; xff]).
Proof.
  intros d Hs (Hty & (sz & Hsz) & (nameIdx & Hname & Happ) & Hcount & Hin) Hfirst.
  unfold makeDebuggable. fold d.
  pose proof (getUint32_inv _ _ _ Hty) as [Hcs0 Hcs4].
  eapply (loop_fuel_mono (1 + Z.to_nat (cs - elementsOffset parsed))).
  { destruct (decide (elementsOffset parsed < cs)) as [Hlt|]; [|lia].
    pose proof (skips_nonneg _ _ _ Hs Hlt). lia. }
  apply loop_skips; [done|]. cbn [makeDebuggable_loop].
  rewrite decide_True by lia. rewrite Hty, Hsz. cbn [mbind option_bind].
  rewrite decide_True by done.
  pose proof Hfirst as (Hi & _ & _).
  destruct (readStartHeader_Some d cs) as (nameIdx' & attrCount & Hn' & Hc' & ->); [lia..|].
  cbn [mbind option_bind]. rewrite decide_True by (unfold APPLICATION in *; congruence).
  assert (attrCount = count) as -> by congruence.
  replace (cs + 8 + 8 + 4 + 4 + 2 + 2 + 2 + 2 + 2 + 2) with (cs + 36) by lia.
  rewrite (find_debuggable_first d cs count i) by done. cbn [mbind option_bind].
  unfold setInt32, setBytes. rewrite decide_True; [done|]. cbn [length le_encode]. lia.
Qed.
End in_place.

Section entry_points.
Import Js Axml Spec.
Variable utf8_decode : list byte → jsstring.
Variable utf8_encode : jsstring → list byte.

Lemma parse_rawData d p : parse utf8_decode d = Normal p → rawData p = d.
Proof.
  unfold parse. destruct (rd_bind _ _ 0) as [[[magic|fileSize] pos]|]; try done.
  destruct (parseChunks _ _ _ _ _ _) as [st| |]; try done. by intros [= <-].
Qed.

Lemma Z_of_byte_zero b : Z_of_byte b = 0 → b = x00.
Proof.
  unfold Z_of_byte. intros H. assert (Byte.to_N b = 0%N) as Hn by lia.
  apply (f_equal Byte.of_N) in Hn. rewrite Byte.of_to_N in Hn. by injection Hn.
Qed.

Lemma Z_of_byte_nonneg b : 0 ≤ Z_of_byte b.
Proof. unfold Z_of_byte. lia. Qed.

Lemma le_decode_zero4 bs :
  length bs = 4%nat → le_decode bs = 0 → bs = [x00; x00; x00; x00].
Proof.
  destruct bs as [|b0 [|b1 [|b2 [|b3 [|]]]]]; try done. intros _. cbn [le_decode foldr].
  pose proof (Z_of_byte_nonneg b0). pose proof (Z_of_byte_nonneg b1).
  pose proof (Z_of_byte_nonneg b2). pose proof (Z_of_byte_nonneg b3).
  intros Hz. rewrite (Z_of_byte_zero b0), (Z_of_byte_zero b1), (Z_of_byte_zero b2),
    (Z_of_byte_zero b3) by lia. done.
Qed.

Lemma Z_of_byte_max b : Z_of_byte b ≤ 255 ∧ (Z_of_byte b = 255 → b = xff).
Proof. by destruct b. Qed.

Lemma le_decode_ones4 bs :
  length bs = 4%nat → le_decode bs = 0xFFFFFFFF → bs = [xff; xff; xff; xff].
Proof.
  destruct bs as [|b0 [|b1 [|b2 [|b3 [|]]]]]; try done. intros _. cbn [le_decode foldr].
  pose proof (Z_of_byte_nonneg b0). pose proof (Z_of_byte_nonneg b1).
  pose proof (Z_of_byte_nonneg b2). pose proof (Z_of_byte_nonneg b3).
  destruct (Z_of_byte_max b0) as [? M0], (Z_of_byte_max b1) as [? M1],
    (Z_of_byte_max b2) as [? M2], (Z_of_byte_max b3) as [? M3].
  intros Hz. rewrite M0, M1, M2, M3 by lia. done.
Qed.

Lemma diff_count_same a : diff_count a a = 0%nat.
Proof.
  unfold diff_count. induction a as [|x a IH]; [done|]. cbn [zip zip_with].
  rewrite filter_cons. cbn [fst snd]. by rewrite decide_False by (intros H; by apply H).
Qed.

Lemma diff_count_app a1 a2 b1 b2 :
  length a1 = length b1 →
  diff_count (a1 ++ a2) (b1 ++ b2) = (diff_count a1 b1 + diff_count a2 b2)%nat.
Proof.
  intros H. unfold diff_count. rewrite zip_with_app by done.
  by rewrite filter_app, length_app.
Qed.

Lemma diff_count_le a b : (diff_count a b ≤ length a)%nat.
Proof.
  unfold diff_count. etrans; [apply length_filter|]. rewrite length_zip_with. lia.
Qed.

Lemma diff_count_overwrite d o bs :
  0 ≤ o → o + Z.of_nat (length bs) ≤ Z.of_nat (length d) →
  diff_count d (overwrite d o bs)
  = diff_count (take (length bs) (drop (Z.to_nat o) d)) bs.
Proof.
  intros H0 H1. unfold overwrite.
  rewrite <- (take_drop (Z.to_nat o) d) at 1.
  rewrite <- (take_drop (length bs) (drop (Z.to_nat o) d)) at 1.
  rewrite !diff_count_app, diff_count_same, drop_drop, diff_count_same; [lia| |done].
  rewrite length_take, length_drop. lia.
Qed.
End entry_points.

(** ** Termination of the loops *)

Section fuel.
Import Js Axml Spec.

Lemma le_decode_nonneg bs : 0 ≤ le_decode bs.
Proof.
  induction bs as [|b bs IH]; cbn [le_decode foldr]; [done|].
  fold (le_decode bs). pose proof (Z_of_byte_nonneg b). lia.
Qed.

Lemma getUint32_nonneg d off v : getUint32 d off = Some v → 0 ≤ v.
Proof.
  unfold getUint32. destruct (getBytes d off 4); [|done]. intros [= <-].
  apply le_decode_nonneg.
Qed.

Lemma getUint16_nonneg d off v : getUint16 d off = Some v → 0 ≤ v.
Proof.
  unfold getUint16. destruct (getBytes d off 2); [|done]. intros [= <-].
  apply le_decode_nonneg.
Qed.

Lemma rd_mono_ret {A} (a : A) : rd_mono (rd_ret a).
Proof. intros p a' p' [= _ <-]. lia. Qed.

Lemma rd_mono_bind {A B} (m : Reader A) (k : A → Reader B) :
  rd_mono m → (∀ a, rd_mono (k a)) → rd_mono (rd_bind m k).
Proof.
  intros Hm Hk p b p'. unfold rd_bind. destruct (m p) as [[a p1]|] eqn:E; [|done].
  intros H. apply Hm in E. apply Hk in H. lia.
Qed.

Lemma rd_mono_readUint8 d : rd_mono (readUint8 d).
Proof. intros p a p'. unfold readUint8. destruct (getUint8 d p); [|done]. intros [= _ <-]. lia. Qed.
Lemma rd_mono_readUint16 d : rd_mono (readUint16 d).
Proof. intros p a p'. unfold readUint16. destruct (getUint16 d p); [|done]. intros [= _ <-]. lia. Qed.
Lemma rd_mono_readUint32 d : rd_mono (readUint32 d).
Proof. intros p a p'. unfold readUint32. destruct (getUint32 d p); [|done]. intros [= _ <-]. lia. Qed.
Lemma rd_mono_readInt32 d : rd_mono (readInt32 d).
Proof. intros p a p'. unfold readInt32. destruct (getInt32 d p); [|done]. intros [= _ <-]. lia. Qed.
Lemma rd_mono_readBytes d n : rd_mono (readBytes d n).
Proof.
  intros p a p'. unfold readBytes. destruct (getBytes d p n) eqn:E; [|done].
  intros [= _ <-]. apply getBytes_inv in E. lia.
Qed.
Lemma rd_mono_skip n : 0 ≤ n → rd_mono (skip n).
Proof. intros Hn p a p' [= _ <-]. lia. Qed.

Lemma rd_mono_read_many {A} n (read : Reader A) :
  rd_mono read → rd_mono (read_many n read).
Proof.
  intros Hr. induction n as [|n IH]; cbn [read_many]; [apply rd_mono_ret|].
  apply rd_mono_bind; [done|]. intros x. apply rd_mono_bind; [done|]. intros xs.
  apply rd_mono_ret.
Qed.

Lemma rd_mono_readAttribute d : rd_mono (readAttribute d).
Proof.
  unfold readAttribute.
  repeat (apply rd_mono_bind;
          [first [apply rd_mono_readInt32|apply rd_mono_readUint32]|intros ?]).
  apply rd_mono_ret.
Qed.

Create HintDb rd_mono discriminated.
#[local] Hint Resolve rd_mono_ret rd_mono_readUint8 rd_mono_readUint16 rd_mono_readUint32
  rd_mono_readInt32 rd_mono_readBytes rd_mono_readAttribute : rd_mono.

Ltac rd_mono_steps :=
  repeat (apply rd_mono_bind;
          [first [solve [auto with rd_mono]
                 |apply rd_mono_read_many; solve [auto with rd_mono]]
          |intros ?]).

Section loops.
Variable utf8_encode : jsstring → list byte.
Variable parsed : ParsedAXML.

(** The fuel of [makeDebuggable_loop] is never used up: with as much
    fuel as there are bytes after the position, more fuel changes nothing. *)
Lemma makeDebuggable_loop_fuel fuel fuel' d pos :
  Z.of_nat (length d) - pos ≤ Z.of_nat fuel →
  Z.of_nat (length d) - pos ≤ Z.of_nat fuel' →
  makeDebuggable_loop utf8_encode parsed fuel d pos
  = makeDebuggable_loop utf8_encode parsed fuel' d pos.
Proof.
  revert fuel' pos. induction fuel as [|fuel IH]; intros fuel' pos H1 H2.
  - cbn [makeDebuggable_loop]. rewrite decide_False by lia.
    destruct fuel'; cbn [makeDebuggable_loop]; by rewrite decide_False by lia.
  - destruct fuel' as [|fuel'].
    { cbn [makeDebuggable_loop]. by rewrite !decide_False by lia. }
    cbn [makeDebuggable_loop]. case_decide; [|done].
    destruct (getUint32 d pos) as [ty|] eqn:Ety; [|done]. cbn [mbind option_bind].
    destruct (getUint32 d (pos + 4)) as [sz|] eqn:Esz; [|done]. cbn [mbind option_bind].
    apply getUint32_nonneg in Esz.
    assert ((if decide (sz = 0) then Some d
             else makeDebuggable_loop utf8_encode parsed fuel d (pos + sz))
            = (if decide (sz = 0) then Some d
               else makeDebuggable_loop utf8_encode parsed fuel' d (pos + sz))) as ->.
    { case_decide; [done|]. apply IH; lia. }
    done.
Qed.

Lemma makeDebuggable_fuel fuel :
  (length (rawData parsed) < fuel)%nat →
  makeDebuggable_loop utf8_encode parsed fuel (rawData parsed) (elementsOffset parsed)
  = makeDebuggable utf8_encode parsed.
Proof.
  intros Hf. unfold makeDebuggable.
  destruct (decide (0 ≤ elementsOffset parsed)).
  - apply makeDebuggable_loop_fuel; lia.
  - destruct fuel as [|fuel]; [lia|]. cbn [makeDebuggable_loop].
    destruct (decide (elementsOffset parsed < _)) as [_|]; [|lia].
    destruct (getUint32 _ (elementsOffset parsed)) as [ty|] eqn:E; [|done].
    exfalso. apply getUint32_inv in E. lia.
Qed.

Lemma rd_mono_rewriteStartElement newStrings idx w :
  rd_mono (rewriteStartElement parsed newStrings idx w).
Proof.
  unfold rewriteStartElement. cbv zeta. rd_mono_steps.
  intros p r p'. destruct (view_setUint32 _ _ _ _); [|done]. intros [= _ <-]. lia.
Qed.

(** The fuel of [writeElements_loop] is never used up. *)
Lemma writeElements_loop_fuel fuel fuel' newStrings idx pos w :
  Z.of_nat (length (rawData parsed)) - pos ≤ Z.of_nat fuel →
  Z.of_nat (length (rawData parsed)) - pos ≤ Z.of_nat fuel' →
  writeElements_loop parsed fuel newStrings idx pos w
  = writeElements_loop parsed fuel' newStrings idx pos w.
Proof.
  revert fuel' pos w. induction fuel as [|fuel IH]; intros fuel' pos w H1 H2.
  - cbn [writeElements_loop]. cbv zeta. rewrite decide_False by lia.
    destruct fuel'; cbn [writeElements_loop]; cbv zeta; by rewrite decide_False by lia.
  - destruct fuel' as [|fuel'].
    { cbn [writeElements_loop]. cbv zeta. by rewrite !decide_False by lia. }
    cbn [writeElements_loop]. cbv zeta. case_decide; [|done].
    destruct (getUint32 _ pos) as [ty|] eqn:Ety; [|done]. cbn [mbind option_bind].
    destruct (getUint32 _ (pos + 4)) as [sz|] eqn:Esz; [|done]. cbn [mbind option_bind].
    apply getUint32_nonneg in Esz.
    case_decide; [done|]. case_decide.
    + destruct (rewriteStartElement _ _ _ _ _) as [[w' pos']|] eqn:Er; [|done].
      cbn [mbind option_bind]. apply rd_mono_rewriteStartElement in Er. apply IH; lia.
    + destruct (getBytes _ _ _); [|done]. cbn [mbind option_bind]. apply IH; lia.
Qed.
End loops.

Lemma rd_spec_mono {A} lb (m : Reader A) : rd_mono m → rd_spec lb (λ _, True) m.
Proof. intros Hm p a p' Hp H. apply Hm in H. split; [lia|done]. Qed.

Lemma rd_spec_bind {A B} lb (P : A → Prop) (Q : B → Prop) (m : Reader A) (k : A → Reader B) :
  rd_spec lb P m → (∀ a, P a → rd_spec lb Q (k a)) → rd_spec lb Q (rd_bind m k).
Proof.
  intros Hm Hk p b p' Hp. unfold rd_bind. destruct (m p) as [[a p1]|] eqn:E; [|done].
  destruct (Hm _ _ _ Hp E) as [Hp1 Ha]. by apply Hk.
Qed.

Lemma rd_spec_ret {A} lb (P : A → Prop) (a : A) : P a → rd_spec lb P (rd_ret a).
Proof. intros Ha p a' p' Hp [= <- <-]. done. Qed.

Lemma rd_spec_readUint32 lb d : rd_spec lb (λ v, 0 ≤ v) (readUint32 d).
Proof.
  intros p a p' Hp. unfold readUint32. destruct (getUint32 d p) as [v|] eqn:E; [|done].
  intros [= <- <-]. apply getUint32_nonneg in E. split; [lia|done].
Qed.

Lemma rd_spec_read_many {A} lb (P : A → Prop) n (read : Reader A) :
  rd_spec lb P read → rd_spec lb (Forall P) (read_many n read).
Proof.
  intros Hr. induction n as [|n IH]; cbn [read_many]; [by apply rd_spec_ret|].
  eapply rd_spec_bind; [done|]. intros x Hx. eapply rd_spec_bind; [done|]. intros xs Hxs.
  apply rd_spec_ret. by constructor.
Qed.

Section parser.
Variable utf8_decode : list byte → jsstring.
Variable d : list byte.

Lemma rd_mono_readUtf8Length : rd_mono (readUtf8Length d).
Proof.
  unfold readUtf8Length. apply rd_mono_bind; [auto with rd_mono|]. intros len.
  case_decide; [|apply rd_mono_ret]. rd_mono_steps. apply rd_mono_ret.
Qed.

Lemma rd_mono_readUtf16Length : rd_mono (readUtf16Length d).
Proof.
  unfold readUtf16Length. apply rd_mono_bind; [auto with rd_mono|]. intros len.
  case_decide; [|apply rd_mono_ret]. rd_mono_steps. apply rd_mono_ret.
Qed.

Lemma rd_spec_readString lb isUtf8 stringOffset :
  lb ≤ stringOffset → rd_spec lb (λ _, True) (readString utf8_decode d isUtf8 stringOffset).
Proof.
  intros Hlb p s p' _. unfold readString, rd_bind at 1, set_position.
  assert (rd_mono (if isUtf8
            then rd_bind (readUtf8Length d) (λ charLen,
                   rd_bind (readUtf8Length d) (λ byteLen,
                     rd_bind (readBytes d byteLen) (λ bytes, rd_ret (utf8_decode bytes))))
            else rd_bind (readUtf16Length d) (λ charLen,
                   rd_bind (read_many (Z.to_nat charLen) (readUint16 d))
                     (λ chars, rd_ret chars)))) as Hm.
  { destruct isUtf8.
    - apply rd_mono_bind; [apply rd_mono_readUtf8Length|]. intros ?.
      apply rd_mono_bind; [apply rd_mono_readUtf8Length|]. intros ?.
      rd_mono_steps. apply rd_mono_ret.
    - apply rd_mono_bind; [apply rd_mono_readUtf16Length|]. intros ?.
      rd_mono_steps. apply rd_mono_ret. }
  intros H. apply Hm in H. split; [lia|done].
Qed.

Lemma rd_spec_readStrings lb isUtf8 stringsDataStart stringOffsets :
  lb ≤ stringsDataStart → Forall (λ o, 0 ≤ o) stringOffsets →
  rd_spec lb (λ _, True) (readStrings utf8_decode d isUtf8 stringsDataStart stringOffsets).
Proof.
  intros Hlb. induction 1 as [|o os Ho _ IH]; cbn [readStrings]; [by apply rd_spec_ret|].
  eapply rd_spec_bind; [apply rd_spec_readString; lia|]. intros s _.
  eapply rd_spec_bind; [apply IH|]. intros ss _. by apply rd_spec_ret.
Qed.

(** The parser of a chunk leaves the position after the chunk header. *)
Lemma parseChunk_progress st chunkStart chunkType chunkSize st' pos2 :
  known_chunk chunkType = true →
  parseChunk utf8_decode d st chunkStart chunkType chunkSize (chunkStart + 8) = Some (st', pos2) →
  chunkStart + 8 ≤ pos2.
Proof.
  intros Hk H.
  assert (rd_spec (chunkStart + 8) (λ _, True)
            (parseChunk utf8_decode d st chunkStart chunkType chunkSize)) as Hs.
  { unfold parseChunk. repeat case_decide.
    - unfold parseStringPool. cbv zeta.
      eapply rd_spec_bind; [apply rd_spec_readUint32|]. intros stringCount _.
      eapply rd_spec_bind; [apply rd_spec_readUint32|]. intros styleCount _.
      eapply rd_spec_bind; [apply rd_spec_readUint32|]. intros flags _.
      eapply rd_spec_bind; [apply rd_spec_readUint32|]. intros stringsStart Hss.
      eapply rd_spec_bind; [apply rd_spec_readUint32|]. intros stylesStart _.
      eapply rd_spec_bind; [apply rd_spec_read_many, rd_spec_readUint32|].
      intros stringOffsets Hos.
      eapply rd_spec_bind; [apply rd_spec_read_many, rd_spec_readUint32|]. intros styles _.
      eapply rd_spec_bind; [apply rd_spec_readStrings;
        [unfold at_stringPool; cbn [ps_stringPoolOffset]; cbv beta in Hss; lia|done]|]. intros ss _.
      by apply rd_spec_ret.
    - apply rd_spec_mono. unfold parseResourceIds. rd_mono_steps. apply rd_mono_ret.
    - apply rd_spec_mono. unfold parseNamespace. rd_mono_steps. apply rd_mono_ret.
    - apply rd_spec_mono. unfold parseStartElement. rd_mono_steps. apply rd_mono_ret.
    - apply rd_spec_mono. unfold parseEndElement. rd_mono_steps. apply rd_mono_ret.
    - apply rd_spec_mono. unfold parseCData. rd_mono_steps.
      apply rd_mono_bind; [by apply rd_mono_skip|]. intros ?. apply rd_mono_ret.
    - exfalso. unfold known_chunk in Hk. apply bool_decide_eq_true_1 in Hk.
      repeat (apply elem_of_cons in Hk as [Hk|Hk]; [tauto|]). by apply elem_of_nil in Hk. }
  apply (Hs (chunkStart + 8) st' pos2); [lia|done].
Qed.

(** The fuel of [parseChunks] is never used up: [Diverge] comes from a
    chunk of unknown type and size 0 only. *)
Lemma parseChunks_fuel fuel fuel' fileSize st pos :
  (0 < fuel)%nat → Z.of_nat (length d) - pos < Z.of_nat fuel →
  (0 < fuel')%nat → Z.of_nat (length d) - pos < Z.of_nat fuel' →
  parseChunks utf8_decode d fuel fileSize st pos
  = parseChunks utf8_decode d fuel' fileSize st pos.
Proof.
  revert fuel' st pos. induction fuel as [|fuel IH]; intros fuel' st pos H0 H1 H0' H1'; [lia|].
  destruct fuel' as [|fuel']; [lia|]. cbn [parseChunks]. cbv zeta.
  case_decide; [|done]. unfold rd_bind at 1 3. unfold readUint32 at 1 3.
  destruct (getUint32 d pos) as [ty|] eqn:Ety; [|done]. cbn [mbind option_bind].
  unfold rd_bind, readUint32, rd_ret.
  destruct (getUint32 d (pos + 4)) as [sz|] eqn:Esz; [|done]. cbn [mbind option_bind].
  pose proof (getUint32_inv _ _ _ Esz) as [_ Hin]. apply getUint32_nonneg in Esz.
  destruct (known_chunk ty) eqn:Ek; cbn [negb andb].
  - replace (pos + 4 + 4) with (pos + 8) by lia.
    destruct (parseChunk _ _ _ _ _ _ _) as [[st' pos2]|] eqn:Ep; [|done].
    apply parseChunk_progress in Ep; [|done].
    apply IH; try lia; case_decide; lia.
  - case_bool_decide; [done|]. replace (pos + 4 + 4) with (pos + 8) by lia.
    destruct (parseChunk _ _ _ _ _ _ _) as [[st' pos2]|] eqn:Ep; [|done].
    apply IH; try lia; case_decide; lia.
Qed.

Lemma parse_fuel fuel fileSize :
  (length d < fuel)%nat →
  parseChunks utf8_decode d fuel fileSize initialParser 8
  = parseChunks utf8_decode d (S (length d)) fileSize initialParser 8.
Proof. intros. apply parseChunks_fuel; lia. Qed.
End parser.

(** *** The parse of a patched buffer *)

Section patched_parse.

(** The patched attribute record reads back with the data -1 and its
    other fields as they were. *)
Lemma readAttribute_after_patch data off attr pos' :
  readAttribute data off = Some (attr, pos') →
  readAttribute (overwrite data (off + 16) [xff; xff; xff; xff]) off
  = Some (mkAttr (attr_namespaceUri attr) (attr_name attr) (valueString attr)
                 (type attr) (-1), pos').
Proof.
  unfold readAttribute, rd_bind, rd_ret, readInt32, readUint32, getInt32.
  destruct (getUint32 data off) as [ns|] eqn:E0; [|done]. cbn [fmap option_fmap option_map mbind option_bind].
  destruct (getUint32 data (off + 4)) as [nm|] eqn:E1; [|done]. cbn [fmap option_fmap option_map mbind option_bind].
  destruct (getUint32 data (off + 4 + 4)) as [vs|] eqn:E2; [|done]. cbn [fmap option_fmap option_map mbind option_bind].
  destruct (getUint32 data (off + 4 + 4 + 4)) as [ty|] eqn:E3; [|done]. cbn [fmap option_fmap option_map mbind option_bind].
  destruct (getUint32 data (off + 4 + 4 + 4 + 4)) as [dt|] eqn:E4; [|done]. cbn [fmap option_fmap option_map mbind option_bind].
  intros [= <- <-]. cbn [attr_namespaceUri attr_name valueString type].
  pose proof (getUint32_inv _ _ _ E0) as [H0 _]. pose proof (getUint32_inv _ _ _ E4) as [_ H4].
  assert (∀ o, off ≤ o → o + 4 ≤ off + 16 →
            getUint32 (overwrite data (off + 16) [xff; xff; xff; xff]) o = getUint32 data o) as Hb.
  { intros o Ho1 Ho2. unfold getUint32. rewrite getBytes_overwrite_before; [done|lia| |lia|lia].
    cbn [length]. lia. }
  rewrite Hb, E0 by lia. cbn [fmap option_fmap option_map mbind option_bind].
  rewrite Hb, E1 by lia. cbn [fmap option_fmap option_map mbind option_bind].
  rewrite Hb, E2 by lia. cbn [fmap option_fmap option_map mbind option_bind].
  rewrite Hb, E3 by lia. cbn [fmap option_fmap option_map mbind option_bind].
  replace (off + 4 + 4 + 4 + 4) with (off + 16) by lia.
  unfold getUint32.
  pose proof (getBytes_overwrite data (off + 16) [xff; xff; xff; xff]) as Hg.
  cbn [length] in Hg. change (Z.of_nat 4) with 4 in Hg. rewrite Hg by lia.
  done.
Qed.

Lemma reads_kept_weaken lo lo' d1 d2 : lo ≤ lo' → reads_kept lo d1 d2 → reads_kept lo' d1 d2.
Proof. intros Hle H off n bs Ho. apply H. lia. Qed.

Lemma reads_kept_take (k : nat) d1 d2 lo :
  take k d2 = take k d1 → reads_kept lo (take k d1) d2.
Proof.
  intros Ht off n bs _ H. pose proof (getBytes_inv _ _ _ _ H) as (H0 & Hn & Hin & _).
  rewrite length_take in Hin.
  assert (k ≤ length d2 ∨ length d2 = (k `min` length d1))%nat as Hk.
  { destruct (decide (k ≤ length d2)%nat); [by left|right].
    rewrite take_ge in Ht by lia. by rewrite Ht, length_take. }
  rewrite <- Ht in H.
  destruct (decide (k ≤ length d2)%nat).
  - rewrite getBytes_take in H; [done|lia..].
  - rewrite take_ge in H by lia. done.
Qed.

Lemma reads_kept_overwrite d p bs :
  0 ≤ p → p + Z.of_nat (length bs) ≤ Z.of_nat (length d) →
  reads_kept (p + Z.of_nat (length bs)) d (overwrite d p bs).
Proof. intros Hp Hin off n b Ho H. by rewrite getBytes_overwrite_after. Qed.

Lemma rd_kept_ret {A} lo (a : A) : rd_kept lo (rd_ret a) (rd_ret a).
Proof. by intros pos r _ H. Qed.

Lemma rd_kept_bind {A B} lo (P : A → Prop) (m1 m2 : Reader A) (k1 k2 : A → Reader B) :
  rd_kept lo m1 m2 → rd_spec lo P m1 → (∀ a, P a → rd_kept lo (k1 a) (k2 a)) →
  rd_kept lo (rd_bind m1 k1) (rd_bind m2 k2).
Proof.
  intros Hm Hs Hk pos r Hpos. unfold rd_bind.
  destruct (m1 pos) as [[a p]|] eqn:E; [|done].
  rewrite (Hm _ _ Hpos E). destruct (Hs _ _ _ Hpos E) as [Hp Ha]. by apply Hk.
Qed.

Lemma rd_kept_bind_mono {A B} lo (m1 m2 : Reader A) (k1 k2 : A → Reader B) :
  rd_kept lo m1 m2 → rd_mono m1 → (∀ a, rd_kept lo (k1 a) (k2 a)) →
  rd_kept lo (rd_bind m1 k1) (rd_bind m2 k2).
Proof.
  intros Hm Hs Hk. eapply rd_kept_bind; [done|by apply rd_spec_mono|]. intros a _. apply Hk.
Qed.

Section kept.
Variable utf8_decode : list byte → jsstring.
Variables (lo : Z) (d1 d2 : list byte).
Hypothesis Hkept : reads_kept lo d1 d2.

Lemma rd_kept_readBytes n : rd_kept lo (readBytes d1 n) (readBytes d2 n).
Proof.
  intros pos r Hpos. unfold readBytes.
  destruct (getBytes d1 pos n) as [bs|] eqn:E; [|done]. by rewrite (Hkept _ _ _ Hpos E).
Qed.

Lemma rd_kept_readUint8 : rd_kept lo (readUint8 d1) (readUint8 d2).
Proof.
  intros pos r Hpos. unfold readUint8, getUint8.
  destruct (getBytes d1 pos 1) as [bs|] eqn:E; [|done]. by rewrite (Hkept _ _ _ Hpos E).
Qed.

Lemma rd_kept_readUint16 : rd_kept lo (readUint16 d1) (readUint16 d2).
Proof.
  intros pos r Hpos. unfold readUint16, getUint16.
  destruct (getBytes d1 pos 2) as [bs|] eqn:E; [|done]. by rewrite (Hkept _ _ _ Hpos E).
Qed.

Lemma rd_kept_readUint32 : rd_kept lo (readUint32 d1) (readUint32 d2).
Proof.
  intros pos r Hpos. unfold readUint32, getUint32.
  destruct (getBytes d1 pos 4) as [bs|] eqn:E; [|done]. by rewrite (Hkept _ _ _ Hpos E).
Qed.

Lemma rd_kept_readInt32 : rd_kept lo (readInt32 d1) (readInt32 d2).
Proof.
  intros pos r Hpos. unfold readInt32, getInt32, getUint32.
  destruct (getBytes d1 pos 4) as [bs|] eqn:E; [|done]. by rewrite (Hkept _ _ _ Hpos E).
Qed.

Lemma rd_kept_read_many {A} n (r1 r2 : Reader A) :
  rd_kept lo r1 r2 → rd_mono r1 → rd_kept lo (read_many n r1) (read_many n r2).
Proof.
  intros Hr Hm. induction n as [|n IH]; cbn [read_many]; [apply rd_kept_ret|].
  apply rd_kept_bind_mono; [done|done|]. intros x.
  apply rd_kept_bind_mono; [done|by apply rd_mono_read_many|]. intros xs. apply rd_kept_ret.
Qed.

Create HintDb rd_kept discriminated.
#[local] Hint Resolve rd_kept_ret rd_kept_readBytes rd_kept_readUint8 rd_kept_readUint16
  rd_kept_readUint32 rd_kept_readInt32 : rd_kept.

Ltac rd_kept_steps :=
  repeat (apply rd_kept_bind_mono;
          [solve [auto with rd_kept]
          |first [solve [auto with rd_mono]
                 |apply rd_mono_read_many; solve [auto with rd_mono]]
          |intros ?]).

Lemma rd_kept_readAttribute : rd_kept lo (readAttribute d1) (readAttribute d2).
Proof. unfold readAttribute. rd_kept_steps. apply rd_kept_ret. Qed.

Lemma rd_kept_readUtf8Length : rd_kept lo (readUtf8Length d1) (readUtf8Length d2).
Proof.
  unfold readUtf8Length. apply rd_kept_bind_mono; [auto with rd_kept|auto with rd_mono|].
  intros len. case_decide; [|apply rd_kept_ret]. rd_kept_steps. apply rd_kept_ret.
Qed.

Lemma rd_kept_readUtf16Length : rd_kept lo (readUtf16Length d1) (readUtf16Length d2).
Proof.
  unfold readUtf16Length. apply rd_kept_bind_mono; [auto with rd_kept|auto with rd_mono|].
  intros len. case_decide; [|apply rd_kept_ret]. rd_kept_steps. apply rd_kept_ret.
Qed.

Lemma rd_kept_set_position {B} v (k1 k2 : Reader B) :
  lo ≤ v → rd_kept lo k1 k2 →
  rd_kept lo (rd_bind (set_position v) (λ _, k1)) (rd_bind (set_position v) (λ _, k2)).
Proof. intros Hv Hk pos r _. unfold rd_bind, set_position. by apply Hk. Qed.

Lemma rd_kept_readString isUtf8 stringOffset :
  lo ≤ stringOffset →
  rd_kept lo (readString utf8_decode d1 isUtf8 stringOffset)
             (readString utf8_decode d2 isUtf8 stringOffset).
Proof.
  intros Hlo. unfold readString. apply rd_kept_set_position; [done|]. destruct isUtf8.
  - apply rd_kept_bind_mono; [apply rd_kept_readUtf8Length|apply rd_mono_readUtf8Length|].
    intros charLen.
    apply rd_kept_bind_mono; [apply rd_kept_readUtf8Length|apply rd_mono_readUtf8Length|].
    intros byteLen. rd_kept_steps. apply rd_kept_ret.
  - apply rd_kept_bind_mono; [apply rd_kept_readUtf16Length|apply rd_mono_readUtf16Length|].
    intros charLen.
    apply rd_kept_bind_mono;
      [apply rd_kept_read_many; auto with rd_kept rd_mono
      |apply rd_mono_read_many; auto with rd_mono|].
    intros chars. apply rd_kept_ret.
Qed.

Lemma rd_kept_readStrings isUtf8 stringsDataStart stringOffsets :
  lo ≤ stringsDataStart → Forall (λ o, 0 ≤ o) stringOffsets →
  rd_kept lo (readStrings utf8_decode d1 isUtf8 stringsDataStart stringOffsets)
             (readStrings utf8_decode d2 isUtf8 stringsDataStart stringOffsets).
Proof.
  intros Hlo. induction 1 as [|o os Ho Hos IH]; cbn [readStrings]; [apply rd_kept_ret|].
  eapply rd_kept_bind; [apply rd_kept_readString; lia|apply rd_spec_readString; lia|].
  intros s _.
  eapply rd_kept_bind; [apply IH|by apply rd_spec_readStrings|]. intros ss _.
  apply rd_kept_ret.
Qed.

Lemma rd_kept_parseChunk st chunkStart chunkType chunkSize :
  lo ≤ chunkStart + 8 →
  rd_kept lo (parseChunk utf8_decode d1 st chunkStart chunkType chunkSize)
             (parseChunk utf8_decode d2 st chunkStart chunkType chunkSize).
Proof.
  intros Hlo. unfold parseChunk. repeat case_decide.
  - unfold parseStringPool. cbv zeta.
    eapply rd_kept_bind; [apply rd_kept_readUint32|apply rd_spec_readUint32|].
    intros stringCount _.
    eapply rd_kept_bind; [apply rd_kept_readUint32|apply rd_spec_readUint32|].
    intros styleCount _.
    eapply rd_kept_bind; [apply rd_kept_readUint32|apply rd_spec_readUint32|].
    intros flags _.
    eapply rd_kept_bind; [apply rd_kept_readUint32|apply rd_spec_readUint32|].
    intros stringsStart Hss.
    eapply rd_kept_bind; [apply rd_kept_readUint32|apply rd_spec_readUint32|].
    intros stylesStart _.
    eapply rd_kept_bind;
      [apply rd_kept_read_many; auto with rd_kept rd_mono
      |apply rd_spec_read_many, rd_spec_readUint32|].
    intros stringOffsets Hos.
    eapply rd_kept_bind;
      [apply rd_kept_read_many; auto with rd_kept rd_mono
      |apply rd_spec_read_many, rd_spec_readUint32|].
    intros styles _.
    eapply rd_kept_bind;
      [apply rd_kept_readStrings;
         [unfold at_stringPool; cbn [ps_stringPoolOffset]; cbv beta in Hss; lia|done]
      |apply rd_spec_readStrings;
         [unfold at_stringPool; cbn [ps_stringPoolOffset]; cbv beta in Hss; lia|done]|].
    intros ss _. apply rd_kept_ret.
  - unfold parseResourceIds.
    apply rd_kept_bind_mono;
      [apply rd_kept_read_many; auto with rd_kept rd_mono
      |apply rd_mono_read_many; auto with rd_mono|].
    intros ids. apply rd_kept_ret.
  - unfold parseNamespace. rd_kept_steps. apply rd_kept_ret.
  - unfold parseStartElement. rd_kept_steps.
    apply rd_kept_bind_mono;
      [apply rd_kept_read_many; [apply rd_kept_readAttribute|auto with rd_mono]
      |apply rd_mono_read_many; auto with rd_mono|].
    intros attrs. apply rd_kept_ret.
  - unfold parseEndElement. rd_kept_steps. apply rd_kept_ret.
  - unfold parseCData. rd_kept_steps.
    apply rd_kept_bind_mono; [by intros pos r _ Hr|by apply rd_mono_skip|]. intros ?.
    apply rd_kept_ret.
  - by intros pos r _ Hr.
Qed.
End kept.

Lemma rd_bind_inv {A B} (m : Reader A) (k : A → Reader B) pos r :
  rd_bind m k pos = Some r → ∃ a p, m pos = Some (a, p) ∧ k a p = Some r.
Proof. unfold rd_bind. destruct (m pos) as [[a p]|]; [|done]. eauto. Qed.

Lemma rd_bind_run {A B} (m : Reader A) (k : A → Reader B) pos a p :
  m pos = Some (a, p) → rd_bind m k pos = k a p.
Proof. unfold rd_bind. by intros ->. Qed.

Ltac rd_destruct H :=
  repeat (let a := fresh "v" in let p := fresh "p" in let E := fresh "E" in
          apply rd_bind_inv in H as (a & p & E & H)).
Ltac rd_forward := repeat (erewrite rd_bind_run by eassumption; cbv beta).

Section elements.
Variable utf8_decode : list byte → jsstring.
Variable d : list byte.

(** What a chunk's parser does to the element list does not depend on
    the list: it appends. *)
Lemma parseChunk_elements st chunkStart chunkType chunkSize pos st' pos2 :
  parseChunk utf8_decode d st chunkStart chunkType chunkSize pos = Some (st', pos2) →
  ∃ new, ps_elements st' = ps_elements st ++ new
         ∧ ∀ els, parseChunk utf8_decode d (with_elements st els)
                    chunkStart chunkType chunkSize pos
                  = Some (with_elements st' (els ++ new), pos2).
Proof.
  unfold parseChunk. repeat case_decide.
  - unfold parseStringPool. cbv zeta. cbn [at_stringPool ps_stringPoolOffset].
    intros Hrun. rd_destruct Hrun. injection Hrun as <- <-. exists [].
    split; [by rewrite app_nil_r|]. intros els. rd_forward. by rewrite app_nil_r.
  - unfold parseResourceIds. intros Hrun. rd_destruct Hrun. injection Hrun as <- <-. exists [].
    split; [by rewrite app_nil_r|]. intros els. rd_forward. by rewrite app_nil_r.
  - unfold parseNamespace. intros Hrun. rd_destruct Hrun. injection Hrun as <- <-. eexists [_].
    split; [done|]. intros els. rd_forward. done.
  - unfold parseStartElement. intros Hrun. rd_destruct Hrun. injection Hrun as <- <-. eexists [_].
    split; [done|]. intros els. rd_forward. done.
  - unfold parseEndElement. intros Hrun. rd_destruct Hrun. injection Hrun as <- <-. eexists [_].
    split; [done|]. intros els. rd_forward. done.
  - unfold parseCData. intros Hrun. rd_destruct Hrun. injection Hrun as <- <-. eexists [_].
    split; [done|]. intros els. rd_forward. done.
  - intros Hrun. rd_destruct Hrun. injection Hrun as <- <-. exists [].
    split; [by rewrite app_nil_r|]. intros els. rd_forward. by rewrite app_nil_r.
Qed.

(** One turn of the loop. *)
Lemma parseChunks_turn fuel fileSize st pos st' pos' :
  parser_turn utf8_decode d fileSize st pos st' pos' →
  parseChunks utf8_decode d (S fuel) fileSize st pos
  = parseChunks utf8_decode d fuel fileSize st' pos'.
Proof.
  intros (Hlt & ty & sz & pos2 & Ety & Esz & Hk & Ep & ->).
  cbn [parseChunks]. cbv zeta. rewrite decide_True by done.
  unfold rd_bind at 1. unfold readUint32 at 1. rewrite Ety. cbn [mbind option_bind].
  unfold rd_bind, readUint32, rd_ret. rewrite Esz. cbn [mbind option_bind].
  replace (pos + 4 + 4) with (pos + 8) by lia.
  assert (negb (known_chunk ty) && bool_decide (sz = 0) = false) as ->.
  { destruct Hk as [->|Hk]; [done|]. rewrite bool_decide_eq_false_2 by done.
    by rewrite andb_false_r. }
  by rewrite Ep.
Qed.

Lemma parseChunks_turn_inv fuel fileSize st pos st_end :
  pos < fileSize →
  parseChunks utf8_decode d fuel fileSize st pos = Normal st_end →
  ∃ fuel' st' pos',
    fuel = S fuel'
    ∧ parser_turn utf8_decode d fileSize st pos st' pos'
    ∧ parseChunks utf8_decode d fuel' fileSize st' pos' = Normal st_end.
Proof.
  intros Hlt. destruct fuel as [|fuel]; cbn [parseChunks]; cbv zeta;
    rewrite decide_True by done; [done|].
  unfold rd_bind at 1. unfold readUint32 at 1.
  destruct (getUint32 d pos) as [ty|] eqn:Ety; [|done]. cbn [mbind option_bind].
  unfold rd_bind, readUint32, rd_ret.
  destruct (getUint32 d (pos + 4)) as [sz|] eqn:Esz; [|done]. cbn [mbind option_bind].
  replace (pos + 4 + 4) with (pos + 8) by lia.
  destruct (negb (known_chunk ty) && bool_decide (sz = 0)) eqn:Ek; [done|].
  destruct (parseChunk _ _ _ _ _ _ _) as [[st' pos2]|] eqn:Ep; [|done].
  intros H. eexists fuel, st', _. split; [done|]. split; [|exact H].
  split; [done|]. exists ty, sz, pos2. split_and!; try done.
  destruct (known_chunk ty); [by left|right]. cbn [negb andb] in Ek.
  by apply bool_decide_eq_false_1 in Ek.
Qed.

(** A turn moves the position forward. *)
Lemma parser_turn_forward fileSize st pos st' pos' :
  parser_turn utf8_decode d fileSize st pos st' pos' → pos < pos'.
Proof.
  intros (_ & ty & sz & pos2 & Ety & Esz & Hk & Ep & ->).
  apply getUint32_nonneg in Esz.
  destruct (known_chunk ty) eqn:Ekn.
  - apply parseChunk_progress in Ep; [|done]. case_decide; lia.
  - destruct Hk as [?|Hk]; [done|]. case_decide; [lia|].
    unfold parseChunk in Ep. unfold known_chunk in Ekn.
    apply bool_decide_eq_false_1 in Ekn. rewrite !not_elem_of_cons in Ekn.
    rewrite !decide_False in Ep by tauto.
    unfold rd_bind, set_position, rd_ret in Ep. injection Ep as _ <-. lia.
Qed.
End elements.

Section phases.
Variable utf8_decode : list byte → jsstring.

Lemma reads_kept_getUint32 lo d1 d2 off v :
  reads_kept lo d1 d2 → lo ≤ off → getUint32 d1 off = Some v → getUint32 d2 off = Some v.
Proof.
  intros Hk Ho. unfold getUint32. destruct (getBytes d1 off 4) as [bs|] eqn:E; [|done].
  by rewrite (Hk _ _ _ Ho E).
Qed.

Lemma parser_turn_kept lo d1 d2 fileSize fileSize' st pos st' pos' :
  reads_kept lo d1 d2 → lo ≤ pos → fileSize ≤ fileSize' →
  parser_turn utf8_decode d1 fileSize st pos st' pos' →
  parser_turn utf8_decode d2 fileSize' st pos st' pos'.
Proof.
  intros Hk Hlo Hle (Hlt & ty & sz & pos2 & Ety & Esz & Hkn & Ep & ->).
  split; [lia|]. exists ty, sz, pos2. split_and!; try done.
  - by eapply reads_kept_getUint32.
  - eapply reads_kept_getUint32; [done|lia|done].
  - eapply rd_kept_parseChunk; [exact Hk|lia|lia|done].
Qed.

(** The turns taken on a part of the buffer are the first turns taken on
    the buffer. *)
Lemma parseChunks_before dt d2 fileSize fileSize' st pos st0 pos0 :
  (∀ lo, reads_kept lo dt d2) → fileSize ≤ fileSize' → 0 < pos →
  parser_reaches utf8_decode dt fileSize st pos st0 pos0 →
  parseChunks utf8_decode d2 (S (length d2)) fileSize' st pos
  = parseChunks utf8_decode d2 (S (length d2)) fileSize' st0 pos0.
Proof.
  intros Hk Hle Hpos Hr. induction Hr as [|st pos st1 pos1 st' pos' Ht _ IH]; [done|].
  pose proof (parser_turn_forward _ _ _ _ _ _ _ Ht) as Hfw.
  apply (parser_turn_kept pos dt d2 fileSize fileSize') in Ht; [|done|lia|done].
  rewrite (parseChunks_turn _ _ _ _ _ _ _ _ Ht). rewrite <- IH by lia.
  destruct Ht as (_ & ty & _ & _ & Ety & _). apply getUint32_inv in Ety.
  apply parseChunks_fuel; lia.
Qed.

(** The turns after a position do not depend on the bytes before it,
    and append to the element list whatever it holds. *)
Lemma parseChunks_after d d' lo fileSize fuel :
  reads_kept lo d d' →
  ∀ st pos st_end els,
    lo ≤ pos →
    parseChunks utf8_decode d fuel fileSize st pos = Normal st_end →
    ∃ new, ps_elements st_end = ps_elements st ++ new
           ∧ parseChunks utf8_decode d' fuel fileSize (with_elements st els) pos
             = Normal (with_elements st_end (els ++ new)).
Proof.
  intros Hk. induction fuel as [|fuel IH]; intros st pos st_end els Hlo Hrun.
  - cbn [parseChunks] in *. case_decide; [done|]. injection Hrun as <-.
    exists []. by rewrite !app_nil_r.
  - destruct (decide (pos < fileSize)) as [Hlt|Hge].
    + apply parseChunks_turn_inv in Hrun as (fuel' & st' & pos' & [= <-] & Ht & Hrest);
        [|done].
      pose proof (parser_turn_forward _ _ _ _ _ _ _ Ht) as Hfw.
      apply (parser_turn_kept lo d d' fileSize fileSize) in Ht; [|done|lia|lia].
      destruct Ht as (_ & ty & sz & pos2 & Ety & Esz & Hkn & Ep & Hpos').
      apply parseChunk_elements in Ep as (new1 & Hnew1 & Ep).
      destruct (IH st' pos' st_end (els ++ new1)) as (new2 & Hnew2 & Hrun2); [lia|done|].
      exists (new1 ++ new2). split; [by rewrite Hnew2, Hnew1, app_assoc|].
      rewrite (parseChunks_turn _ _ _ _ _ _ (with_elements st' (els ++ new1)) pos').
      * by rewrite Hrun2, app_assoc.
      * split; [done|]. exists ty, sz, pos2. split_and!; done.
    + cbn [parseChunks] in *. rewrite decide_False in * by done. injection Hrun as <-.
      exists []. by rewrite !app_nil_r.
Qed.
End phases.

Section attribute.
Variable d : list byte.

Lemma getUint32_overwrite_before p bs o :
  0 ≤ p → p + Z.of_nat (length bs) ≤ Z.of_nat (length d) → o + 4 ≤ p →
  getUint32 (overwrite d p bs) o = getUint32 d o.
Proof. intros. unfold getUint32. by rewrite getBytes_overwrite_before by lia. Qed.

Lemma getUint16_overwrite_before p bs o :
  0 ≤ p → p + Z.of_nat (length bs) ≤ Z.of_nat (length d) → o + 2 ≤ p →
  getUint16 (overwrite d p bs) o = getUint16 d o.
Proof. intros. unfold getUint16. by rewrite getBytes_overwrite_before by lia. Qed.

Lemma readAttribute_inv off a p :
  readAttribute d off = Some (a, p) →
  p = off + 20 ∧ 0 ≤ off ∧ off + 20 ≤ Z.of_nat (length d)
  ∧ getUint32 d (off + 4) = Some (attr_name a).
Proof.
  unfold readAttribute, rd_bind, rd_ret, readInt32, readUint32, getInt32.
  destruct (getUint32 d off) as [ns|] eqn:E0; [|done].
  cbn [fmap option_fmap option_map mbind option_bind].
  destruct (getUint32 d (off + 4)) as [nm|] eqn:E1; [|done].
  cbn [fmap option_fmap option_map mbind option_bind].
  destruct (getUint32 d (off + 4 + 4)) as [vs|] eqn:E2; [|done].
  cbn [fmap option_fmap option_map mbind option_bind].
  destruct (getUint32 d (off + 4 + 4 + 4)) as [ty|] eqn:E3; [|done].
  cbn [fmap option_fmap option_map mbind option_bind].
  destruct (getUint32 d (off + 4 + 4 + 4 + 4)) as [dt|] eqn:E4; [|done].
  cbn [fmap option_fmap option_map mbind option_bind].
  intros [= <- <-]. apply getUint32_inv in E0, E4. cbn [attr_name]. split_and!; (done || lia).
Qed.

Lemma readAttribute_overwrite_before p bs off :
  0 ≤ p → p + Z.of_nat (length bs) ≤ Z.of_nat (length d) → off + 20 ≤ p →
  readAttribute (overwrite d p bs) off = readAttribute d off.
Proof.
  intros Hp Hin Hoff.
  unfold readAttribute, rd_bind, rd_ret, readInt32, readUint32, getInt32.
  rewrite (getUint32_overwrite_before p bs off) by lia.
  destruct (getUint32 d off) as [ns|]; [|done].
  cbn [fmap option_fmap option_map mbind option_bind].
  rewrite (getUint32_overwrite_before p bs (off + 4)) by lia.
  destruct (getUint32 d (off + 4)) as [nm|]; [|done].
  cbn [fmap option_fmap option_map mbind option_bind].
  rewrite (getUint32_overwrite_before p bs (off + 4 + 4)) by lia.
  destruct (getUint32 d (off + 4 + 4)) as [vs|]; [|done].
  cbn [fmap option_fmap option_map mbind option_bind].
  rewrite (getUint32_overwrite_before p bs (off + 4 + 4 + 4)) by lia.
  destruct (getUint32 d (off + 4 + 4 + 4)) as [ty|]; [|done].
  cbn [fmap option_fmap option_map mbind option_bind].
  rewrite (getUint32_overwrite_before p bs (off + 4 + 4 + 4 + 4)) by lia.
  done.
Qed.
End attribute.

Lemma read_many_readAttribute_inv d n off attrs p :
  read_many n (readAttribute d) off = Some (attrs, p) →
  p = off + 20 * Z.of_nat n
  ∧ ((0 < n)%nat → 0 ≤ off ∧ p ≤ Z.of_nat (length d)).
Proof.
  revert off attrs p. induction n as [|n IH]; intros off attrs p H.
  - cbn [read_many] in H. injection H as <- <-. split; lia.
  - cbn [read_many] in H. rd_destruct H. injection H as <- <-.
    apply readAttribute_inv in E as (-> & Hoff & Hlen & _).
    apply IH in E0 as (-> & Hn). split; [lia|]. intros _. split; [done|].
    destruct n; [lia|]. destruct Hn; lia.
Qed.

(** The attribute records of an element, read again after the data word
    of record [i] was set to all-ones: record [i] has the data -1, and
    every record its other fields. *)
Lemma read_many_readAttribute_patch d n (i : nat) off attrs p :
  (i < n)%nat →
  read_many n (readAttribute d) off = Some (attrs, p) →
  ∃ a, attrs !! i = Some a
       ∧ getUint32 d (off + 20 * Z.of_nat i + 4) = Some (attr_name a)
       ∧ read_many n (readAttribute (overwrite d (off + 20 * Z.of_nat i + 16)
                                      [xff; xff; xff; xff])) off
         = Some (<[i := with_data a (-1)]> attrs, p).
Proof.
  revert i off attrs p. induction n as [|n IH]; intros i off attrs p Hi H; [lia|].
  pose proof (read_many_readAttribute_inv _ _ _ _ _ H) as (Hp & Hin).
  destruct Hin as [Hoff Hlen]; [lia|].
  cbn [read_many] in H. rd_destruct H. injection H as <- <-.
  pose proof (readAttribute_inv _ _ _ _ E) as (-> & _ & _ & Hname).
  destruct i as [|i].
  - exists v. split; [done|].
    replace (off + 20 * Z.of_nat 0 + 4) with (off + 4) by lia. split; [done|].
    replace (off + 20 * Z.of_nat 0 + 16) with (off + 16) by lia.
    cbn [read_many]. erewrite rd_bind_run by (by apply readAttribute_after_patch).
    erewrite rd_bind_run; [done|].
    eapply (rd_kept_read_many (off + 16 + 4)); [| |lia|exact E0].
    + apply rd_kept_readAttribute.
      apply (reads_kept_overwrite d (off + 16) [xff; xff; xff; xff]); cbn [length]; lia.
    + apply rd_mono_readAttribute.
  - destruct (IH i (off + 20) v0 p1) as (a & Ha & Hnm & Hrun); [lia|done|].
    exists a. split; [done|].
    replace (off + 20 * Z.of_nat (S i) + 4) with (off + 20 + 20 * Z.of_nat i + 4) by lia.
    split; [done|].
    replace (off + 20 * Z.of_nat (S i) + 16) with (off + 20 + 20 * Z.of_nat i + 16) by lia.
    cbn [read_many]. erewrite rd_bind_run.
    2:{ rewrite readAttribute_overwrite_before; [exact E|lia|cbn [length]; lia|lia]. }
    erewrite rd_bind_run by exact Hrun. done.
Qed.

Section reads.
Variable d : list byte.

Lemma readUint32_inv pos v p : readUint32 d pos = Some (v, p) → getUint32 d pos = Some v ∧ p = pos + 4.
Proof. unfold readUint32. destruct (getUint32 d pos); [|done]. by intros [= <- <-]. Qed.
Lemma readInt32_inv pos v p : readInt32 d pos = Some (v, p) → getInt32 d pos = Some v ∧ p = pos + 4.
Proof. unfold readInt32. destruct (getInt32 d pos); [|done]. by intros [= <- <-]. Qed.
Lemma readUint16_inv pos v p : readUint16 d pos = Some (v, p) → getUint16 d pos = Some v ∧ p = pos + 2.
Proof. unfold readUint16. destruct (getUint16 d pos); [|done]. by intros [= <- <-]. Qed.

Lemma readUint32_overwrite_before p bs o :
  0 ≤ p → p + Z.of_nat (length bs) ≤ Z.of_nat (length d) → o + 4 ≤ p →
  readUint32 (overwrite d p bs) o = readUint32 d o.
Proof. intros. unfold readUint32. by rewrite getUint32_overwrite_before. Qed.
Lemma readInt32_overwrite_before p bs o :
  0 ≤ p → p + Z.of_nat (length bs) ≤ Z.of_nat (length d) → o + 4 ≤ p →
  readInt32 (overwrite d p bs) o = readInt32 d o.
Proof. intros. unfold readInt32, getInt32. by rewrite getUint32_overwrite_before. Qed.
Lemma readUint16_overwrite_before p bs o :
  0 ≤ p → p + Z.of_nat (length bs) ≤ Z.of_nat (length d) → o + 2 ≤ p →
  readUint16 (overwrite d p bs) o = readUint16 d o.
Proof. intros. unfold readUint16. by rewrite getUint16_overwrite_before. Qed.
End reads.

Section application.
Variable utf8_decode : list byte → jsstring.

Lemma parseChunk_start d st chunkStart chunkSize :
  parseChunk utf8_decode d st chunkStart CHUNK_XML_START_ELEMENT chunkSize
  = parseStartElement d (mark_elements st chunkStart).
Proof. reflexivity. Qed.

(** The turn at the application element, before and after the patch. *)
Lemma application_turn_patch d fileSize st cs st1 pos1 (i : nat) count :
  parser_turn utf8_decode d fileSize st cs st1 pos1 →
  getUint32 d cs = Some CHUNK_XML_START_ELEMENT →
  getUint16 d (cs + 28) = Some count → Z.of_nat i < count →
  let word := cs + 36 + 20 * Z.of_nat i + 16 in
  ∃ e attrs a,
    st1 = push_element (mark_elements st cs) e
    ∧ chunkType e = CHUNK_XML_START_ELEMENT
    ∧ getUint32 d (cs + 20) = Some (name e)
    ∧ attributes e = Some attrs ∧ attrs !! i = Some a
    ∧ getUint32 d (cs + 36 + 20 * Z.of_nat i + 4) = Some (attr_name a)
    ∧ word + 4 ≤ pos1 ∧ 0 ≤ cs ∧ word + 4 ≤ Z.of_nat (length d)
    ∧ parser_turn utf8_decode (overwrite d word [xff; xff; xff; xff]) fileSize st cs
        (push_element (mark_elements st cs)
           (with_attributes e (<[i := with_data a (-1)]> attrs))) pos1.
Proof.
  intros (Hlt & ty & sz & pos2 & Ety & Esz & Hkn & Ep & ->) Hty Hcount Hi word.
  rewrite Hty in Ety. injection Ety as <-. rewrite parseChunk_start in Ep.
  unfold parseStartElement in Ep. rd_destruct Ep. injection Ep as <- <-.
  apply readUint32_inv in E as [G ->]. apply readUint32_inv in E0 as [G0 ->].
  apply readInt32_inv in E1 as [G1 ->]. apply readUint32_inv in E2 as [G2 ->].
  apply readUint16_inv in E3 as [G3 ->]. apply readUint16_inv in E4 as [G4 ->].
  apply readUint16_inv in E5 as [G5 ->]. apply readUint16_inv in E6 as [G6 ->].
  apply readUint16_inv in E7 as [G7 ->]. apply readUint16_inv in E8 as [G8 ->].
  assert (getUint32 d (cs + 20) = Some v2) as Hname
    by (by replace (cs + 20) with (cs + 8 + 4 + 4 + 4) by lia).
  assert (v5 = count) as ->.
  { replace (cs + 8 + 4 + 4 + 4 + 4 + 2 + 2) with (cs + 28) in G5 by lia. congruence. }
  replace (cs + 8 + 4 + 4 + 4 + 4 + 2 + 2 + 2 + 2 + 2 + 2) with (cs + 36) in E9 by lia.
  destruct (read_many_readAttribute_patch d (Z.to_nat count) i (cs + 36) v9 p9)
    as (a & Ha & Hnm & Hrun'); [lia|done|]. fold word in Hrun'.
  pose proof (read_many_readAttribute_inv _ _ _ _ _ E9) as (Hp9 & Hin).
  destruct Hin as [_ Hlen]; [lia|].
  pose proof (getUint32_inv _ _ _ Hty) as [Hcs0 _].
  assert (0 ≤ word ∧ word + 4 ≤ p9) as [Hw0 Hw4] by (unfold word; lia).
  eexists _, v9, a. split; [reflexivity|]. cbn [chunkType name attributes].
  split_and!; try done.
  - case_decide; lia.
  - lia.
  - split; [done|]. exists CHUNK_XML_START_ELEMENT, sz, p9. split_and!.
    + rewrite getUint32_overwrite_before; cbn [length]; (done || lia).
    + rewrite getUint32_overwrite_before; cbn [length]; (done || lia).
    + done.
    + rewrite parseChunk_start. unfold parseStartElement.
      do 10 (erewrite rd_bind_run;
             [|first [rewrite readUint32_overwrite_before by (cbn [length]; lia);
                      unfold readUint32
                     |rewrite readInt32_overwrite_before by (cbn [length]; lia);
                      unfold readInt32
                     |rewrite readUint16_overwrite_before by (cbn [length]; lia);
                      unfold readUint16];
               match goal with
               | G : ?g = Some _ |- context [?g] => rewrite G
               end; reflexivity]).
      replace (cs + 8 + 4 + 4 + 4 + 4 + 2 + 2 + 2 + 2 + 2 + 2) with (cs + 36) by lia.
      erewrite rd_bind_run by exact Hrun'. reflexivity.
    + done.
Qed.

Lemma parse_unfold d fileSize :
  getUint32 d 0 = Some CHUNK_AXML_FILE → getUint32 d 4 = Some fileSize →
  parse utf8_decode d
  = match parseChunks utf8_decode d (S (length d)) fileSize initialParser 8 with
    | Normal st => Normal (parsed_of d st)
    | Throw e => Throw e
    | Diverge => Diverge
    end.
Proof.
  intros Hm HF. unfold parse, rd_bind, readUint32. rewrite Hm. cbn [mbind option_bind].
  rewrite decide_False by (by intros []). change (0 + 4) with 4. rewrite HF.
  cbn [mbind option_bind]. unfold rd_ret. change (4 + 4) with 8. done.
Qed.

Lemma parse_Normal_inv d parsed :
  parse utf8_decode d = Normal parsed →
  ∃ fileSize st,
    getUint32 d 0 = Some CHUNK_AXML_FILE ∧ getUint32 d 4 = Some fileSize
    ∧ parseChunks utf8_decode d (S (length d)) fileSize initialParser 8 = Normal st
    ∧ parsed = parsed_of d st.
Proof.
  intros Hp. unfold parse in Hp. unfold rd_bind at 1 in Hp. unfold readUint32 at 1 in Hp.
  destruct (getUint32 d 0) as [magic|] eqn:Em; [|done]. cbn [mbind option_bind] in Hp.
  destruct (decide (magic ≠ CHUNK_AXML_FILE)) as [|Hmagic]; [done|].
  apply dec_stable in Hmagic as ->.
  unfold rd_bind, readUint32, rd_ret in Hp. change (0 + 4) with 4 in Hp.
  destruct (getUint32 d 4) as [fileSize|] eqn:EF; [|done]. cbn [mbind option_bind] in Hp.
  change (4 + 4) with 8 in Hp.
  destruct (parseChunks _ _ _ _ _ _) as [st| |] eqn:Erun; [|done..].
  injection Hp as <-. by exists fileSize, st.
Qed.

(** The parse of the patched buffer. *)
Lemma parse_in_place_patch d parsed cs count i fileSize st0 :
  parse utf8_decode d = Normal parsed →
  application_at (strings parsed) d cs count →
  first_debuggable (strings parsed) d cs count i →
  getUint32 d 4 = Some fileSize → cs < fileSize →
  parses_before utf8_decode d cs st0 →
  let out := overwrite d (cs + 36 + 20 * i + 16) [xff; xff; xff; xff] in
  let k := length (ps_elements st0) in
  ∃ e attrs a,
    elements parsed !! k = Some e
    ∧ chunkType e = CHUNK_XML_START_ELEMENT
    ∧ str_or_empty (strings parsed) (name e) = APPLICATION
    ∧ attributes e = Some attrs
    ∧ attrs !! Z.to_nat i = Some a
    ∧ str_or_empty (strings parsed) (attr_name a) = DEBUGGABLE
    ∧ parse utf8_decode out
      = Normal (mkParsed (strings parsed) (resourceIds parsed)
                  (<[k := with_attributes e (<[Z.to_nat i := with_data a (-1)]> attrs)]>
                     (elements parsed))
                  out (stringPoolOffset parsed) (stringPoolSize parsed)
                  (resourceIdsOffset parsed) (resourceIdsSize parsed)
                  (elementsOffset parsed)).
Proof.
  intros Hp (Hty & _ & (nameIdx & Hname & Happ) & Hcount & Hin)
         (Hi & (idx & Hidx & Hdbg) & _) HF Hlt Hbefore out k.
  apply parse_Normal_inv in Hp as (F & st_end & Hm & HF' & Hrun & ->).
  rewrite HF in HF'. injection HF' as <-.
  cbn [strings resourceIds elements stringPoolOffset stringPoolSize resourceIdsOffset
       resourceIdsSize elementsOffset parsed_of] in *.
  pose proof (getUint32_inv _ _ _ Hty) as [Hcs0 Hcs4].
  set (word := cs + 36 + 20 * i + 16) in *.
  assert (0 ≤ word ∧ word + 4 ≤ Z.of_nat (length d)) as [Hw0 Hw4] by (unfold word; nia).
  assert (length out = length d) as Hlen by (unfold out; by rewrite length_overwrite).
  (* the turns before the element *)
  unfold parses_before in Hbefore.
  rewrite (parseChunks_before utf8_decode (take (Z.to_nat cs) d) d cs fileSize
             initialParser 8 st0 cs) in Hrun; [|intros lo; by apply reads_kept_take|lia|lia|done].
  (* the turn at the element *)
  apply parseChunks_turn_inv in Hrun as (fuel' & st1 & pos1 & [= <-] & Ht & Hrest); [|done].
  destruct (application_turn_patch d fileSize st0 cs st1 pos1 (Z.to_nat i) count Ht Hty Hcount)
    as (e & attrs & a & -> & He & Hnm & Hattrs & Ha & Hanm & Hpos1 & _ & _ & Ht'); [lia|].
  rewrite Z2Nat.id in Hanm, Hpos1, Ht' by lia. fold word in Hpos1, Ht'. fold out in Ht'.
  (* the turns after it *)
  set (e' := with_attributes e (<[Z.to_nat i := with_data a (-1)]> attrs)) in *.
  destruct (parseChunks_after utf8_decode d out (word + 4) fileSize (length d)
              (reads_kept_overwrite d word [xff; xff; xff; xff] Hw0 Hw4)
              _ _ _ (ps_elements st0 ++ [e']) Hpos1 Hrest) as (new & Hnew & Hrun').
  cbn [push_element mark_elements ps_elements] in Hnew.
  exists e, attrs, a. split_and!; try done.
  - rewrite Hnew, <- app_assoc. rewrite lookup_app_r by done.
    by rewrite Nat.sub_diag.
  - congruence.
  - congruence.
  - rewrite (parse_unfold out fileSize).
    2:{ unfold out. rewrite getUint32_overwrite_before; cbn [length]; (done || lia). }
    2:{ unfold out. rewrite getUint32_overwrite_before; cbn [length]; (done || lia). }
    rewrite (parseChunks_before utf8_decode (take (Z.to_nat cs) d) out cs fileSize
               initialParser 8 st0 cs); [| |lia|lia|done].
    2:{ intros lo. apply reads_kept_take. unfold out. apply take_overwrite; lia. }
    rewrite Hlen. rewrite (parseChunks_turn _ _ _ _ _ _ _ _ Ht').
    change (push_element (mark_elements st0 cs) e')
      with (with_elements (push_element (mark_elements st0 cs) e) (ps_elements st0 ++ [e'])).
    rewrite Hrun'. unfold parsed_of, with_elements.
    cbn [ps_strings ps_resourceIds ps_elements ps_stringPoolOffset ps_stringPoolSize
         ps_resourceIdsOffset ps_resourceIdsSize ps_elementsOffset].
    do 2 f_equal. rewrite Hnew, <- !app_assoc.
    rewrite insert_app_r_alt by done. rewrite Nat.sub_diag. done.
Qed.
End application.
Section pool_names.
Variable utf8_decode : list byte → jsstring.
Variable d : list byte.

Lemma read_many_readUint32_lookup n pos os p (i : nat) :
  read_many n (readUint32 d) pos = Some (os, p) → (i < n)%nat →
  ∃ o, getUint32 d (pos + 4 * Z.of_nat i) = Some o ∧ os !! i = Some o.
Proof.
  revert pos os p i. induction n as [|n IH]; intros pos os p i H Hi; [lia|].
  cbn [read_many] in H. rd_destruct H. injection H as <- <-.
  apply readUint32_inv in E as [E ->]. destruct i as [|i].
  - exists v. split; [|done]. by replace (pos + 4 * Z.of_nat 0) with pos by lia.
  - destruct (IH _ _ _ i E0) as (o & Ho & Hl); [lia|]. exists o. split; [|done].
    by replace (pos + 4 * Z.of_nat (S i)) with (pos + 4 + 4 * Z.of_nat i) by lia.
Qed.

Lemma readStrings_lookup isUtf8 start offsets pos ss p (i : nat) o :
  readStrings utf8_decode d isUtf8 start offsets pos = Some (ss, p) →
  offsets !! i = Some o →
  ∃ s p', readString utf8_decode d isUtf8 (start + o) 0 = Some (s, p')
          ∧ ss !! i = Some s.
Proof.
  revert pos ss p i. induction offsets as [|o' os IH]; intros pos ss p i H Hi; [done|].
  cbn [readStrings] in H. rd_destruct H. injection H as <- <-. destruct i as [|i].
  - injection Hi as ->. exists v, p0. split; [|done]. exact E.
  - destruct (IH _ _ _ i E0 Hi) as (s & p' & Hs & Hl). by exists s, p'.
Qed.

(** The parser of a chunk and the loop only append to the string table. *)
Lemma parseChunk_strings st chunkStart chunkType chunkSize pos st' pos2 :
  parseChunk utf8_decode d st chunkStart chunkType chunkSize pos = Some (st', pos2) →
  ∃ more, ps_strings st' = ps_strings st ++ more.
Proof.
  unfold parseChunk. repeat case_decide.
  - unfold parseStringPool. cbv zeta. intros Hrun. rd_destruct Hrun.
    injection Hrun as <- <-. by eexists.
  - unfold parseResourceIds. intros Hrun. rd_destruct Hrun. injection Hrun as <- <-.
    exists []. by rewrite app_nil_r.
  - unfold parseNamespace. intros Hrun. rd_destruct Hrun. injection Hrun as <- <-.
    exists []. by rewrite app_nil_r.
  - unfold parseStartElement. intros Hrun. rd_destruct Hrun. injection Hrun as <- <-.
    exists []. by rewrite app_nil_r.
  - unfold parseEndElement. intros Hrun. rd_destruct Hrun. injection Hrun as <- <-.
    exists []. by rewrite app_nil_r.
  - unfold parseCData. intros Hrun. rd_destruct Hrun. injection Hrun as <- <-.
    exists []. by rewrite app_nil_r.
  - intros Hrun. rd_destruct Hrun. injection Hrun as <- <-.
    exists []. by rewrite app_nil_r.
Qed.

Lemma parseChunks_strings fuel fileSize st pos st_end :
  parseChunks utf8_decode d fuel fileSize st pos = Normal st_end →
  ∃ more, ps_strings st_end = ps_strings st ++ more.
Proof.
  revert st pos. induction fuel as [|fuel IH]; intros st pos Hrun.
  - cbn [parseChunks] in Hrun. case_decide; [done|]. injection Hrun as <-.
    exists []. by rewrite app_nil_r.
  - destruct (decide (pos < fileSize)) as [Hlt|Hge].
    + apply parseChunks_turn_inv in Hrun as (fuel' & st' & pos' & [= <-] & Ht & Hrest);
        [|done].
      destruct Ht as (_ & ty & sz & pos2 & _ & _ & _ & Ep & _).
      apply parseChunk_strings in Ep as (more1 & H1).
      apply IH in Hrest as (more2 & H2). exists (more1 ++ more2).
      by rewrite H2, H1, app_assoc.
    + cbn [parseChunks] in Hrun. rewrite decide_False in Hrun by done.
      injection Hrun as <-. exists []. by rewrite app_nil_r.
Qed.

(** The names the parser decodes: string [idx] of a pool that is the
    first chunk is read where the offset table and [stringsStart] place
    it, [stringsStart] being counted from the end of the chunk header. *)
Lemma parse_pool_strings parsed fileSize stringCount flags stringsStart idx o :
  parse utf8_decode d = Normal parsed →
  getUint32 d 4 = Some fileSize → 8 < fileSize →
  getUint32 d 8 = Some CHUNK_STRING_POOL →
  getUint32 d 16 = Some stringCount →
  getUint32 d 24 = Some flags →
  getUint32 d 28 = Some stringsStart →
  0 ≤ idx < stringCount →
  getUint32 d (36 + 4 * idx) = Some o →
  ∃ s p, readString utf8_decode d (bool_decide (and32 flags (shl32 1 8) ≠ 0))
           (8 + 8 + stringsStart + o) 0 = Some (s, p)
         ∧ at_index (strings parsed) idx = Some s.
Proof.
  intros Hp HF Hlt Hty Hn Hfl Hss Hidx Ho.
  apply parse_Normal_inv in Hp as (F & st_end & _ & HF' & Hrun & ->).
  rewrite HF in HF'. injection HF' as <-.
  apply parseChunks_turn_inv in Hrun as (fuel' & st1 & pos1 & _ & Ht & Hrest); [|done].
  destruct Ht as (_ & ty & sz & pos2 & Ety & _ & _ & Ep & _).
  rewrite Hty in Ety. injection Ety as <-.
  apply parseChunks_strings in Hrest as (more & Hmore).
  change (parseChunk utf8_decode d initialParser 8 CHUNK_STRING_POOL sz)
    with (parseStringPool utf8_decode d (at_stringPool initialParser 8 sz) sz) in Ep.
  unfold parseStringPool in Ep. cbv zeta in Ep. rd_destruct Ep. injection Ep as <- _.
  cbn [at_stringPool ps_stringPoolOffset] in *.
  apply readUint32_inv in E as [G ->]. apply readUint32_inv in E0 as [G0 ->].
  apply readUint32_inv in E1 as [G1 ->]. apply readUint32_inv in E2 as [G2 ->].
  apply readUint32_inv in E3 as [G3 ->].
  change (8 + 8) with 16 in *. change (16 + 4) with 20 in *. change (20 + 4) with 24 in *.
  change (24 + 4) with 28 in *. change (28 + 4) with 32 in *. change (32 + 4) with 36 in *.
  rewrite Hn in G. injection G as <-. rewrite Hfl in G1. injection G1 as <-.
  rewrite Hss in G2. injection G2 as <-.
  destruct (read_many_readUint32_lookup _ _ _ _ (Z.to_nat idx) E4) as (o' & Ho' & Hl);
    [lia|].
  rewrite Z2Nat.id in Ho' by lia. rewrite Ho in Ho'. injection Ho' as <-.
  destruct (readStrings_lookup _ _ _ _ _ _ _ _ E6 Hl) as (s & p' & Hs & Hls).
  exists s, p'. split; [exact Hs|].
  cbn [strings parsed_of]. rewrite Hmore. cbn [push_strings ps_strings app].
  unfold at_index. rewrite decide_True by lia.
  by rewrite lookup_app_l_Some with (x := s).
Qed.
End pool_names.
End patched_parse.
End fuel.

(** C10.  When the buffer parses and the chunks from [elementsOffset] to
    the end of the buffer follow one another without an application start
    element, [makeManifestDebuggable] returns a buffer equal to its input.
    The input array itself is a value here and cannot change. *)
Theorem makeDebuggable_without_application
    (utf8_decode : list byte → Js.jsstring) (utf8_encode : Js.jsstring → list byte)
    (data : list byte) (parsed : Axml.ParsedAXML) (end_ : Z) :
  Axml.parse utf8_decode data = Js.Normal parsed →
  Spec.skips (Axml.strings parsed) data (Axml.elementsOffset parsed) end_ →
  Z.of_nat (length data) ≤ end_ →
  Axml.makeManifestDebuggable utf8_decode utf8_encode data = Js.Normal data.
Proof.
  intros Hp Hs Hend. unfold Axml.makeManifestDebuggable. rewrite Hp.
  pose proof (parse_rawData _ _ _ Hp) as Hraw.
  rewrite (makeDebuggable_no_application utf8_encode parsed end_); rewrite Hraw; done.
Qed.


(** ** The kinds of rewrite *)

Section kinds.
Import Js Axml Spec.
Variable utf8_encode : jsstring → list byte.
Variable parsed : ParsedAXML.

Lemma length_setBytes d off bs out : setBytes d off bs = Some out → length out = length d.
Proof.
  unfold setBytes. case_decide as H; [|done]. intros [= <-]. apply length_overwrite; lia.
Qed.

Lemma length_newAttr a b : length (newAttr a b) = 20%nat.
Proof. done. Qed.

Lemma insertAttribute_spliced d cs count ns str out :
  insertAttribute d cs count (cs + 36) ns str = Some out →
  let ip := cs + 36 + count * 20 in
  0 ≤ ip ≤ Z.of_nat (length d)
  ∧ ∃ oldChunkSize s1 s2,
      getUint32 d (cs + 4) = Some oldChunkSize
      ∧ setUint32 (spliced d ip ns str) 4 (Z.of_nat (length d) + 20) = Some s1
      ∧ setUint32 s1 (cs + 4) (oldChunkSize + 20) = Some s2
      ∧ setUint16 s2 (cs + 28) (count + 1) = Some out
      ∧ length out = (length d + 20)%nat.
Proof.
  unfold insertAttribute. intros H. set (ip := cs + 36 + count * 20) in *.
  set (n0 := replicate (length d + Z.to_nat 20) x00) in H.
  destruct (setBytes n0 0 (take (Z.to_nat ip) d)) as [n1|] eqn:E1; [|done].
  cbn [mbind option_bind] in H.
  destruct (setBytes n1 ip (newAttr ns str)) as [n2|] eqn:E2; [|done].
  cbn [mbind option_bind] in H.
  destruct (setBytes n2 (ip + 20) (drop (Z.to_nat ip) d)) as [n3|] eqn:E3; [|done].
  cbn [mbind option_bind] in H.
  destruct (setUint32 n3 4 (Z.of_nat (length n3))) as [n4|] eqn:E4; [|done].
  cbn [mbind option_bind] in H.
  destruct (getUint32 d (cs + 4)) as [old|] eqn:E5; [|done].
  cbn [mbind option_bind] in H.
  destruct (setUint32 n4 (cs + 4) (old + 20)) as [n5|] eqn:E6; [|done].
  cbn [mbind option_bind] in H.
  replace (cs + 8 + 8 + 4 + 4 + 2 + 2) with (cs + 28) in H by lia.
  assert (length n0 = (length d + 20)%nat) as L0 by (unfold n0; by rewrite length_replicate).
  pose proof (length_setBytes _ _ _ _ E1) as L1.
  pose proof (length_setBytes _ _ _ _ E2) as L2.
  pose proof (length_setBytes _ _ _ _ E3) as L3.
  pose proof (length_setBytes _ _ _ _ E4) as L4.
  pose proof (length_setBytes _ _ _ _ E6) as L6.
  pose proof (length_setBytes _ _ _ _ H) as L7.
  assert (0 ≤ ip ≤ Z.of_nat (length d)) as Hip.
  { unfold setBytes in E2. case_decide as Hg; [|done]. rewrite length_newAttr in Hg. lia. }
  split; [done|]. exists old, n4, n5. split_and!; try done; [|lia].
  rewrite <- E4. assert (n3 = spliced d ip ns str) as ->; [|do 2 f_equal; lia].
  unfold setBytes in E1, E2, E3.
  rewrite decide_True in E1 by (rewrite length_take; lia).
  rewrite decide_True in E2 by (rewrite length_newAttr; lia).
  rewrite decide_True in E3 by (rewrite length_drop; lia).
  injection E1 as <-. injection E2 as <-. injection E3 as <-.
  unfold spliced, overwrite. rewrite !length_take, !length_drop, length_newAttr.
  change (Z.to_nat 0) with 0%nat. rewrite take_0. cbn [app].
  set (A := take (Z.to_nat ip) d). set (B := newAttr ns str).
  set (X := drop _ n0).
  assert (length A = Z.to_nat ip) as HA by (unfold A; rewrite length_take; lia).
  assert (length X = (length d + 20 - Z.to_nat ip)%nat) as HX
    by (unfold X; rewrite length_drop; lia).
  rewrite (take_app_length' A X) by done.
  set (Y := drop _ (A ++ X)).
  assert (length Y = (length d - Z.to_nat ip)%nat) as HY
    by (unfold Y; rewrite length_drop, length_app; lia).
  rewrite (app_assoc A B Y).
  rewrite (take_app_length' (A ++ B) Y)
    by (rewrite length_app, HA; unfold B; rewrite length_newAttr; lia).
  rewrite (drop_ge ((A ++ B) ++ Y))
    by (rewrite !length_app, HA, HY; unfold B; rewrite length_newAttr; lia).
  by rewrite app_nil_r, <- app_assoc.
Qed.

Lemma find_debuggable_range d attrsOffset n i off :
  find_debuggable parsed d attrsOffset n i = Some (Some off) →
  0 ≤ off + 4 ∧ off + 8 ≤ Z.of_nat (length d).
Proof.
  revert i. induction n as [|n IH]; intros i; cbn [find_debuggable]; [done|].
  destruct (getUint32 d (attrsOffset + i * 20 + 4)) as [idx|] eqn:E; [|done].
  cbn [mbind option_bind]. case_decide; [|by apply IH].
  intros [= <-]. apply getUint32_inv in E. lia.
Qed.

Lemma skips_snoc d a b sz :
  skips (strings parsed) d a b → plain_chunk (strings parsed) d b sz →
  skips (strings parsed) d a (b + sz).
Proof.
  induction 1 as [pos|pos sz' pos' Hc Hs IH]; intros Hb.
  - eapply skips_chunk; [done|apply skips_here].
  - eapply skips_chunk; [done|by apply IH].
Qed.

Lemma readStartHeader_inv d pos nameIdx attrCount p' :
  readStartHeader d (pos + 8) = Some ((nameIdx, attrCount), p') →
  getUint32 d (pos + 20) = Some nameIdx
  ∧ getUint16 d (pos + 28) = Some attrCount
  ∧ pos + 36 ≤ Z.of_nat (length d).
Proof.
  unfold readStartHeader, rd_bind, rd_ret, skip, readInt32, readUint32, readUint16.
  replace (pos + 8 + 8) with (pos + 16) by lia.
  destruct (getInt32 d (pos + 16)) as [ns|]; [|done]. cbn [mbind option_bind].
  replace (pos + 16 + 4) with (pos + 20) by lia.
  destruct (getUint32 d (pos + 20)) as [nm|] eqn:Enm; [|done]. cbn [mbind option_bind].
  replace (pos + 20 + 4) with (pos + 24) by lia.
  destruct (getUint16 d (pos + 24)) as [a1|]; [|done]. cbn [mbind option_bind].
  replace (pos + 24 + 2) with (pos + 26) by lia.
  destruct (getUint16 d (pos + 26)) as [a2|]; [|done]. cbn [mbind option_bind].
  replace (pos + 26 + 2) with (pos + 28) by lia.
  destruct (getUint16 d (pos + 28)) as [a3|] eqn:Ecnt; [|done]. cbn [mbind option_bind].
  replace (pos + 28 + 2) with (pos + 30) by lia.
  destruct (getUint16 d (pos + 30)) as [a4|]; [|done]. cbn [mbind option_bind].
  replace (pos + 30 + 2) with (pos + 32) by lia.
  destruct (getUint16 d (pos + 32)) as [a5|]; [|done]. cbn [mbind option_bind].
  replace (pos + 32 + 2) with (pos + 34) by lia.
  destruct (getUint16 d (pos + 34)) as [a6|] eqn:E6; [|done]. cbn [mbind option_bind].
  intros [= <- <- _]. apply getUint16_inv in E6. split_and!; [done|done|lia].
Qed.

(** What the attribute scan has seen when it stops. *)
Lemma find_debuggable_inv d cs n k r :
  find_debuggable parsed d (cs + 36) n k = Some r →
  match r with
  | Some off =>
      ∃ i, k ≤ i < k + Z.of_nat n ∧ off = cs + 36 + 20 * i
           ∧ attr_named (strings parsed) d (cs + 36 + 20 * i) DEBUGGABLE
           ∧ ∀ j, k ≤ j < i →
                  ∃ nm, attr_named (strings parsed) d (cs + 36 + 20 * j) nm
                        ∧ nm ≠ DEBUGGABLE
  | None =>
      ∀ j, k ≤ j < k + Z.of_nat n →
           ∃ nm, attr_named (strings parsed) d (cs + 36 + 20 * j) nm ∧ nm ≠ DEBUGGABLE
  end.
Proof.
  revert k. induction n as [|n IH]; intros k; cbn [find_debuggable].
  - intros [= <-]. intros j Hj. lia.
  - replace (cs + 36 + k * 20) with (cs + 36 + 20 * k) by lia.
    destruct (getUint32 d (cs + 36 + 20 * k + 4)) as [idx|] eqn:E; [|done].
    cbn [mbind option_bind]. case_decide as Hnm.
    + intros [= <-]. exists k. split; [lia|]. split; [done|]. split; [by exists idx|].
      intros j Hj. lia.
    + intros Hf. specialize (IH (k + 1) Hf).
      assert (∃ nm, attr_named (strings parsed) d (cs + 36 + 20 * k) nm ∧ nm ≠ DEBUGGABLE)
        as Hk by (eexists; split; [by exists idx|done]).
      destruct r as [off|].
      * destruct IH as (i & Hi & -> & Hat & Hbefore). exists i.
        split; [lia|]. split; [done|]. split; [done|]. intros j Hj.
        destruct (decide (j = k)) as [->|]; [done|]. apply Hbefore. lia.
      * intros j Hj. destruct (decide (j = k)) as [->|]; [done|]. apply IH. lia.
Qed.

Lemma addDebuggableAttribute_kinds cs count out :
  application_reached parsed cs count →
  no_debuggable (strings parsed) (rawData parsed) cs count →
  addDebuggableAttribute utf8_encode parsed (rawData parsed) cs count (cs + 36) = Some out →
  rewrite_kind utf8_encode parsed out.
Proof.
  intros Happ Hnone.
  assert (∀ out, rebuildWithDebuggable utf8_encode parsed (rawData parsed) = Some out →
                 rewrite_kind utf8_encode parsed out) as Hre.
  { intros o Ho. eapply kind_regenerated; [done|done|done|]. by eapply rebuild_fresh_headers. }
  unfold addDebuggableAttribute. case_decide as Hmiss; [|by apply Hre].
  destruct (find_template _ _ _ _) as [[tpl|]|] eqn:Et; cbn [mbind option_bind];
    [|by apply Hre|done].
  case_decide as Hstr; [by apply Hre|].
  intros H. apply insertAttribute_spliced in H as (Hip & old & s1 & s2 & H1 & H2 & H3 & H4 & H5).
  eapply kind_spliced; try done. by destruct Hmiss.
Qed.

Lemma loop_kinds fuel pos out :
  skips (strings parsed) (rawData parsed) (elementsOffset parsed) pos →
  makeDebuggable_loop utf8_encode parsed fuel (rawData parsed) pos = Some out →
  rewrite_kind utf8_encode parsed out.
Proof.
  revert pos. induction fuel as [|fuel IH]; intros pos Hs; cbn [makeDebuggable_loop].
  - case_decide; [done|]. intros [= <-]. by apply kind_untouched.
  - case_decide; [|intros [= <-]; by apply kind_untouched].
    destruct (getUint32 _ pos) as [ty|] eqn:Ety; [|done]. cbn [mbind option_bind].
    destruct (getUint32 _ (pos + 4)) as [sz|] eqn:Esz; [|done]. cbn [mbind option_bind].
    assert (plain_chunk (strings parsed) (rawData parsed) pos sz →
            makeDebuggable_loop utf8_encode parsed fuel (rawData parsed) (pos + sz) = Some out →
            rewrite_kind utf8_encode parsed out) as Hnext.
    { intros Hc. apply IH. by apply skips_snoc. }
    assert (Some (rawData parsed) = Some out → rewrite_kind utf8_encode parsed out)
      as Hzero by (intros [= <-]; by apply kind_untouched).
    pose proof (getUint32_nonneg _ _ _ Esz) as Hsz.
    destruct (decide (ty = CHUNK_XML_START_ELEMENT)) as [->|Hty].
    2:{ destruct (decide (sz = 0)) as [->|Hnz]; [by apply Hzero|].
        apply Hnext. exists ty. split; [done|]. split; [done|]. split; [lia|done]. }
    destruct (readStartHeader _ (pos + 8)) as [[[nameIdx attrCount] p']|] eqn:Eh; [|done].
    cbn [mbind option_bind].
    apply readStartHeader_inv in Eh as (Hname & Hcount & Hin).
    destruct (decide (str_or_empty (strings parsed) nameIdx = lit "application")) as [Happ|Hna].
    2:{ destruct (decide (sz = 0)) as [->|Hnz]; [by apply Hzero|].
        apply Hnext. exists CHUNK_XML_START_ELEMENT.
        split; [done|]. split; [done|]. split; [lia|].
        intros _. split; [done|]. by exists nameIdx. }
    assert (application_reached parsed pos attrCount) as Hreached.
    { split_and!; [done|done| |done]. by exists nameIdx. }
    pose proof (getUint16_nonneg _ _ _ Hcount) as Hc0.
    replace (pos + 8 + 8 + 4 + 4 + 2 + 2 + 2 + 2 + 2 + 2) with (pos + 36) by lia.
    destruct (find_debuggable _ _ _ _ _) as [[off|]|] eqn:Ef; cbn [mbind option_bind];
      [| |done].
    + apply find_debuggable_inv in Ef as (i & Hi & -> & Hat & Hbefore).
      unfold setInt32, setBytes. destruct (decide (0 ≤ _ ∧ _)) as [Hg|]; [|done].
      intros [= <-]. cbn [length le_encode] in Hg.
      eapply (kind_in_place _ _ _ pos attrCount i); [done| |lia|done].
      split; [lia|]. split; [done|]. intros j Hj. apply Hbefore. lia.
    + apply find_debuggable_inv in Ef. apply addDebuggableAttribute_kinds; [done|].
      intros j Hj. apply Ef. lia.
Qed.
End kinds.


(** ** Permissions *)

Section permissions.
Import Js Axml Spec.

Lemma replaceFirst_prefix s p : replaceFirst (p ++ s) p = s.
Proof.
  destruct p as [|c p].
  - by destruct s.
  - cbn [replaceFirst app]. change (c :: p ++ s) with ((c :: p) ++ s).
    rewrite startsWith_app. by rewrite drop_app_length.
Qed.

Lemma replaceFirst_absent s p : includes s p = false → replaceFirst s p = s.
Proof.
  induction s as [|c s IH]; cbn [includes replaceFirst].
  - intros [H _]%orb_false_elim. by rewrite H.
  - intros [H1 H2]%orb_false_elim. by rewrite H1, IH.
Qed.

Lemma replaceFirst_first a b p :
  (∀ k, (k < length a)%nat → startsWith (drop k (a ++ p ++ b)) p = false) →
  replaceFirst (a ++ p ++ b) p = a ++ b.
Proof.
  induction a as [|c a IH]; intros H.
  - cbn [app]. apply replaceFirst_prefix.
  - cbn [app replaceFirst]. pose proof (H 0%nat) as H0. cbn [drop app length] in H0.
    rewrite H0 by lia. f_equal. apply IH. intros k Hk.
    apply (H (S k)). cbn [length]. lia.
Qed.

Variable parsed : ParsedAXML.

Lemma fold_preserves_permissions (f : ApkManifestInfo → AXMLAttribute → ApkManifestInfo)
    attrs info :
  (∀ i a, permissions (f i a) = permissions i) →
  permissions (fold_left f attrs info) = permissions info.
Proof.
  intros Hf. revert info. induction attrs as [|a attrs IH]; intros info; [done|].
  cbn [fold_left]. by rewrite IH, Hf.
Qed.

Lemma manifest_attr_permissions i a :
  permissions (manifest_attr parsed i a) = permissions i.
Proof. unfold manifest_attr. by repeat case_decide. Qed.

Lemma uses_sdk_attr_permissions i a :
  permissions (uses_sdk_attr parsed i a) = permissions i.
Proof. unfold uses_sdk_attr. by repeat case_decide. Qed.

Lemma application_attr_permissions i a :
  permissions (application_attr parsed i a) = permissions i.
Proof. unfold application_attr. by repeat case_decide. Qed.

Lemma fold_uses_permission attrs info :
  permissions (fold_left (uses_permission_attr parsed) attrs info)
  = permissions info ++ flat_map (permission_of_attr (strings parsed)) attrs.
Proof.
  revert info. induction attrs as [|a attrs IH]; intros info; cbn [fold_left flat_map];
    [by rewrite app_nil_r|].
  rewrite IH. unfold uses_permission_attr, permission_of_attr at 2. cbv zeta.
  destruct (decide (str_or_empty (strings parsed) (attr_name a) = lit "name")) as [Hn|Hn].
  - destruct (decide (str_or_empty (strings parsed) (valueString a) ≠ [])) as [Hp|Hp].
    + rewrite decide_True by done. cbn [permissions push_permission].
      by rewrite <- app_assoc.
    + rewrite decide_False by (by intros [_ ?]). done.
  - rewrite decide_False by (by intros [? _]). done.
Qed.

Lemma info_element_permissions info e :
  permissions (info_element parsed info e)
  = permissions info ++ permissions_of_element (strings parsed) e.
Proof.
  unfold info_element, permissions_of_element.
  destruct (decide (chunkType e = CHUNK_XML_START_ELEMENT)) as [Hs|Hs].
  2: { rewrite decide_False by (by intros [? _]). by rewrite app_nil_r. }
  cbv zeta.
  set (i3 := if decide (_ ∧ _) then fold_left (application_attr parsed) _ _ else _).
  assert (permissions i3 = permissions info) as H3.
  { unfold i3. repeat case_decide;
      rewrite ?fold_preserves_permissions
        by auto using manifest_attr_permissions, uses_sdk_attr_permissions,
             application_attr_permissions; done. }
  destruct (decide (str_or_empty (strings parsed) (name e) = lit "uses-permission")) as [Hu|Hu].
  - rewrite (decide_True (P := _ ∧ str_or_empty _ _ = _)) by done.
    destruct (attributes e) as [attrs|] eqn:Ea.
    + rewrite decide_True by (split; [done|by eexists]).
      rewrite fold_uses_permission, H3. done.
    + rewrite decide_False by (intros [_ [? [=]]]). cbn. by rewrite H3, app_nil_r.
  - rewrite decide_False by (by intros [? _]).
    rewrite (decide_False (P := _ ∧ str_or_empty _ _ = _)) by (by intros [_ ?]).
    by rewrite H3, app_nil_r.
Qed.

Lemma getManifestInfo_permissions :
  permissions (getManifestInfo parsed)
  = flat_map (permissions_of_element (strings parsed)) (elements parsed).
Proof.
  unfold getManifestInfo.
  assert (∀ els info, permissions (fold_left (info_element parsed) els info)
            = permissions info
              ++ flat_map (permissions_of_element (strings parsed)) els) as H.
  { induction els as [|e els IH]; intros info; cbn [fold_left flat_map];
      [by rewrite app_nil_r|].
    by rewrite IH, info_element_permissions, <- app_assoc. }
  by rewrite H.
Qed.
End permissions.

(** C8, as amended.  The permission list is made, element by element and
    attribute by attribute, of the non-empty values of the attributes
    called name of the uses-permission start elements, each with the first
    occurrence of android.permission. removed: a leading prefix is
    stripped, a name that does not contain it is kept verbatim, and a name
    that contains it further on loses that occurrence. *)
Theorem permissions_first_occurrence_removed (parsed : Axml.ParsedAXML) :
  Axml.permissions (Axml.getManifestInfo parsed)
  = flat_map (Spec.permissions_of_element (Axml.strings parsed)) (Axml.elements parsed)
  ∧ (∀ rest, Js.replaceFirst (Spec.PERMISSION_PREFIX ++ rest) Spec.PERMISSION_PREFIX = rest)
  ∧ (∀ nm, Js.includes nm Spec.PERMISSION_PREFIX = false →
           Js.replaceFirst nm Spec.PERMISSION_PREFIX = nm)
  ∧ (∀ before after,
       (∀ k, (k < length before)%nat →
             Js.startsWith (drop k (before ++ Spec.PERMISSION_PREFIX ++ after))
               Spec.PERMISSION_PREFIX = false) →
       Js.replaceFirst (before ++ Spec.PERMISSION_PREFIX ++ after) Spec.PERMISSION_PREFIX
       = before ++ after).
Proof.
  split_and!.
  - apply getManifestInfo_permissions.
  - intros. apply replaceFirst_prefix.
  - intros. by apply replaceFirst_absent.
  - intros. by apply replaceFirst_first.
Qed.

(** ** The orchestrator boundary *)

Section never_throws.
Import Js Axml Signer Processor Spec.
Context {Blob SigningKey CbState : Type}.
Variable onLog : ProcessingLog → CbState → completion unit * CbState.
Variable clock : nat → Z.
Variable loadAsync : list byte → completion JSZip.
Variable generateAsync : JSZip → completion Blob.
Variable blob_size : Blob → Z.
Variable generateSigningKey : completion SigningKey.
Variable createCertRSA : jsstring → SigningKey → completion (list byte).
Variable sha256Base64 : list byte → jsstring.
Variable utf8_encode : jsstring → list byte.
Variable utf8_decode : list byte → jsstring.
Variable toLowerCase toUpperCase : jsstring → jsstring.
Variable toFixedMB : Z → jsstring.
Variable rangeErrorMessage : jsstring.

(** C9, as amended: when the consumer of the log events returns on every
    event, [processApk] never throws.  A result that reports failure
    carries no blob and no information but the log array, whose last
    event is of kind error and reads Processing failed: followed by the
    message of what was thrown.  A result that reports success implies
    that the archive was loaded from the file, the manifest entry read,
    the files collected, the key generated and the CMS block made for the
    CERT.SF of the collected files.  Whatever the body of the [try]
    throws, the result is such a failure with the message of what was
    thrown: so it is when the steps before the signing have returned and
    the key generation or the CMS signing of that CERT.SF throws, and so
    it is for a bundle without nested archives. *)
Theorem processApk_never_throws (file : File) (cb : CbState) :
  (∀ entry cb, (onLog entry cb).1 = Normal tt) →
  let run := processApk onLog clock loadAsync generateAsync blob_size
               generateSigningKey createCertRSA sha256Base64 utf8_encode utf8_decode
               toLowerCase toUpperCase toFixedMB rangeErrorMessage file cb in
  let failed_with (e : exn) :=
    ∃ r entry,
      run.1 = Normal r ∧ success r = false ∧ apkBlob r = None
      ∧ Processor.apkInfo r = None ∧ logs r = st_logs run.2
      ∧ last (logs r) = Some entry ∧ log_type entry = Error
      ∧ message entry
        = lit "Processing failed: " ++ error_message rangeErrorMessage e in
  (∀ e, run.1 ≠ Throw e)
  ∧ (∀ r, run.1 = Normal r →
       logs r = st_logs run.2
       ∧ (success r = false → ∃ e, failed_with e)
       ∧ (success r = true →
            ∃ mainZip manifestFile manifestData fileMap signingKey certRSA,
              loads_to onLog clock loadAsync toLowerCase file mainZip
              ∧ zip_file mainZip MANIFEST_XML = Some manifestFile
              ∧ async manifestFile = Normal manifestData
              ∧ collectFiles
                  (stripped_archive toUpperCase mainZip
                     (patched_manifest utf8_decode utf8_encode manifestData)) []
                = Normal fileMap
              ∧ generateSigningKey = Normal signingKey
              ∧ createCertRSA
                  (createCertSF sha256Base64 utf8_encode
                     (createManifestMF sha256Base64 fileMap) fileMap) signingKey
                = Normal certRSA))
  ∧ (∀ e, (processApk_try onLog clock loadAsync generateAsync blob_size
             generateSigningKey createCertRSA sha256Base64 utf8_encode utf8_decode
             toLowerCase toUpperCase toFixedMB file (mkSt [] cb)).1 = Throw e →
          failed_with e)
  ∧ (∀ mainZip manifestFile manifestData fileMap e,
       loads_to onLog clock loadAsync toLowerCase file mainZip →
       zip_file mainZip MANIFEST_XML = Some manifestFile →
       async manifestFile = Normal manifestData →
       parse utf8_decode manifestData ≠ Diverge →
       collectFiles
         (stripped_archive toUpperCase mainZip
            (patched_manifest utf8_decode utf8_encode manifestData)) []
       = Normal fileMap →
       generateSigningKey = Throw e
       ∨ (∃ signingKey,
            generateSigningKey = Normal signingKey
            ∧ createCertRSA
                (createCertSF sha256Base64 utf8_encode
                   (createManifestMF sha256Base64 fileMap) fileMap) signingKey
              = Throw e) →
       failed_with e)
  ∧ (∀ arrayBuffer bundleZip,
       endsWith (toLowerCase (file_name file)) (lit ".apks") = true →
       Processor.arrayBuffer file = Normal arrayBuffer →
       loadAsync arrayBuffer = Normal bundleZip →
       nested_archives bundleZip = [] →
       failed_with (ErrorObj (lit "No APK files found in APKS bundle"))).
Proof.
  intros Hlog run failed_with.
  pose proof (processApk_cases onLog clock loadAsync generateAsync blob_size
    generateSigningKey createCertRSA sha256Base64 utf8_encode utf8_decode toLowerCase
    toUpperCase toFixedMB rangeErrorMessage Hlog file cb) as Hc.
  fold run in Hc.
  assert (∀ e, (processApk_try onLog clock loadAsync generateAsync blob_size
                  generateSigningKey createCertRSA sha256Base64 utf8_encode utf8_decode
                  toLowerCase toUpperCase toFixedMB file (mkSt [] cb)).1 = Throw e →
               failed_with e) as Hthrow.
  { intros e He.
    destruct (processApk_try _ _ _ _ _ _ _ _ _ _ _ _ _ file (mkSt [] cb))
      as [[[apkBlob apkInfo]|e'|] st]; cbn [fst] in He; try done.
    injection He as ->. destruct Hc as (entry & st' & -> & Hlogs & Hrun).
    eexists _, _. rewrite Hrun. split; [done|].
    cbn [fst snd logs success apkBlob Processor.apkInfo].
    rewrite Hlogs, last_snoc. split_and!; done. }
  split_and!; [| |exact Hthrow| |].
  - destruct (processApk_try _ _ _ _ _ _ _ _ _ _ _ _ _ file (mkSt [] cb))
      as [[[apkBlob apkInfo]|e|] st].
    + by rewrite Hc.
    + destruct Hc as (entry & st' & _ & _ & ->). done.
    + by rewrite Hc.
  - intros r Hr.
    destruct (processApk_try _ _ _ _ _ _ _ _ _ _ _ _ _ file (mkSt [] cb))
      as [[[apkBlob apkInfo]|e|] st] eqn:Etry.
    + rewrite Hc in Hr. cbn [fst] in Hr. injection Hr as <-. rewrite Hc.
      cbn [fst snd logs success]. split_and!; [done|done|]. intros _.
      eapply processApk_try_archive in Etry; [|exact Hlog].
      destruct Etry as (mainZip & manifestFile & manifestData & fileMap & signingKey
                        & certRSA & H1 & H2 & H3 & H4).
      cbv zeta in H4. destruct H4 as (H4 & H5 & H6 & _).
      exists mainZip, manifestFile, manifestData, fileMap, signingKey, certRSA.
      split_and!; done.
    + split_and!.
      * destruct Hc as (entry & st' & _ & _ & Hrun). rewrite Hrun in Hr |- *.
        cbn [fst] in Hr. by injection Hr as <-.
      * intros _. exists e. by apply Hthrow.
      * intros Hs. destruct Hc as (entry & st' & _ & _ & Hrun). rewrite Hrun in Hr.
        cbn [fst] in Hr. by injection Hr as <-.
    + by rewrite Hc in Hr.
  - intros mainZip manifestFile manifestData fileMap e Hl Hmf Hd Hp Hf Hsign.
    apply Hthrow. eapply processApk_try_signing_throws; eauto.
  - intros arrayBuffer bundleZip Hapks Hbuf Hload Hnone. apply Hthrow.
    unfold processApk_try, m_bind, m_lift.
    rewrite !(log_returns onLog clock Hlog). rewrite Hbuf, Hapks.
    rewrite !(log_returns onLog clock Hlog).
    unfold processApksBundle, m_bind, m_lift, m_throw. rewrite Hload.
    rewrite find_apkFiles_nested, Hnone. done.
Qed.
End never_throws.

(** ** Runs on concrete inputs *)

Import Js Axml Signer Processor Spec Fixture.

(** C9, counterexample: a consumer that throws on every event makes
    [processApk] throw; the error event is in the log array but no result
    is returned. *)
Lemma processApk_throwing_consumer_escapes :
  (demo_processApk throwing_onLog apk_file).1 = Throw NonError.
Proof. vm_compute. reflexivity. Qed.

Lemma demo_processApk_succeeds :
  success <$> (match (demo_processApk quiet_onLog apk_file).1 with
               | Normal r => Some r | _ => None end) = Some true.
Proof. vm_compute. reflexivity. Qed.

(** A chunk of unknown type and size 0 makes the parser spin. *)
Lemma parse_spins_on_empty_unknown_chunk :
  parse ascii_decode (u32 CHUNK_AXML_FILE ++ u32 16 ++ u32 0 ++ u32 0) = Diverge.
Proof. vm_compute. reflexivity. Qed.

Lemma length_long_name : length long_name = 81%nat.
Proof. reflexivity. Qed.

Lemma demo_merge_run_merged : demo_merge_run.1 = Normal demo_merged.
Proof. vm_compute. reflexivity. Qed.

(** C3: the signature file of an archive whose only entry has a name of
    81 characters.  The manifest block carries the whole name, wrapped; the
    block of the signature file carries its first 64 characters, with the
    digest of the whole manifest block. *)
Theorem createCertSF_truncates_long_name :
  let manifestMF := createManifestMF demo_digest long_name_files in
  manifestMF = manifestHeader ++ entry_block demo_digest (long_name, [x00])
  ∧ createCertSF demo_digest ascii_encode manifestMF long_name_files
    = sfHeader demo_digest ascii_encode manifestMF
      ++ formatManifestEntry (take 64 long_name)
           (demo_digest (ascii_encode (entry_block demo_digest (long_name, [x00]))))
           SHA_256_Digest
  ∧ take 64 long_name ≠ long_name.
Proof. split_and!; [by vm_compute|by vm_compute|]. intros H. by vm_compute in H. Qed.

(** C2: the structural rewrite of a manifest whose resource table is
    aligned with its attribute names and whose application element has no
    attribute.  The result parses; "debuggable" is appended as string 7
    and the added attribute names it, while 0x0101000f is appended as
    resource id 1, the index of the string "android"; the resource table
    has no entry 7. *)
Theorem rebuild_misaligns_resource_id :
  makeManifestDebuggable ascii_decode ascii_encode xml_manifest = Normal out_manifest
  ∧ rebuildWithDebuggable ascii_encode parsed_manifest xml_manifest = Some out_manifest
  ∧ parse ascii_decode out_manifest = Normal parsed_out_manifest
  ∧ strings parsed_out_manifest = strings parsed_manifest ++ [lit "debuggable"]
  ∧ resourceIds parsed_manifest = [0x0101021b]
  ∧ resourceIds parsed_out_manifest = [0x0101021b; ATTR_DEBUGGABLE]
  ∧ indexOf (strings parsed_out_manifest) (lit "debuggable") = 7
  ∧ indexOf (resourceIds parsed_out_manifest) ATTR_DEBUGGABLE = 1
  ∧ at_index (strings parsed_out_manifest) 1 = Some (lit "android")
  ∧ at_index (resourceIds parsed_out_manifest) 7 = None
  ∧ (attributes <$> elements parsed_out_manifest !! 2%nat)
    = Some (Some [mkAttr 2 7 (-1) TYPE_INT_BOOLEAN (-1)]).
Proof. split_and!; by vm_compute. Qed.

(** The view through which [writeStringPool] stores the string offsets
    is made before the strings are written.  When the writer grows in
    between, the offsets of the strings written after that go to the
    buffer left behind: the regenerated pool has 121 entries, the later
    ones with offset 0, and none of them reads "debuggable". *)
Lemma regenerated_pool_forgets_offsets :
  makeDebuggable ascii_encode parsed_shared = Some out_shared
  ∧ Z.of_nat (length xml_shared) + 1024 < Z.of_nat (length out_shared)
  ∧ parse ascii_decode out_shared = Normal parsed_out_shared
  ∧ length (strings parsed_out_shared) = 121%nat
  ∧ last (strings parsed_out_shared) = Some (lit "application")
  ∧ bool_decide (lit "debuggable" ∈ strings parsed_out_shared) = false.
Proof. split_and!; by vm_compute. Qed.



(** C8, counterexample: a vendor permission that holds the platform
    prefix in the middle loses it. *)
Lemma vendor_permission_not_verbatim :
  Axml.permissions (getManifestInfo parsed_permissions)
    = [lit "INTERNET"; lit "com.vendor.PUSH"]
  ∧ startsWith (lit "com.vendor.android.permission.PUSH") PERMISSION_PREFIX = false
  ∧ lit "com.vendor.android.permission.PUSH" ∈ strings parsed_permissions.
Proof. split_and!; [by vm_compute|by vm_compute|]. vm_compute. do 3 right. left. Qed.

Lemma makeDebuggable_without_application_witness :
  parse ascii_decode xml_no_application = Normal parsed_no_application
  ∧ skips (strings parsed_no_application) xml_no_application
      (elementsOffset parsed_no_application) 172
  ∧ Z.of_nat (length xml_no_application) ≤ 172
  ∧ makeManifestDebuggable ascii_decode ascii_encode xml_no_application
    = Normal xml_no_application.
Proof.
  assert (parse ascii_decode xml_no_application = Normal parsed_no_application) as Hp
    by (vm_compute; reflexivity).
  assert (skips (strings parsed_no_application) xml_no_application
            (elementsOffset parsed_no_application) 172) as Hs.
  { apply (skips_chunk _ _ 92 56).
    { exists CHUNK_XML_START_ELEMENT. split_and!; [vm_compute; reflexivity..|lia|].
      intros _. split; [vm_compute; discriminate|].
      exists 1. split; vm_compute; [reflexivity|discriminate]. }
    apply (skips_chunk _ _ 148 24).
    { exists CHUNK_XML_END_ELEMENT. split_and!; [vm_compute; reflexivity..|lia|].
      intros H. vm_compute in H. discriminate. }
    apply skips_here. }
  assert (Z.of_nat (length xml_no_application) ≤ 172) as Hl by (vm_compute; discriminate).
  split_and!; [exact Hp|exact Hs|exact Hl|].
  exact (makeDebuggable_without_application ascii_decode ascii_encode
           xml_no_application parsed_no_application 172 Hp Hs Hl).
Defined.



Lemma createManifestMF_sorted_blocks_witness :
  NoDup (map fst digest_zip)
  ∧ collectFiles digest_zip [] = Normal digest_files
  ∧ ∃ blocks : list (jsstring * list byte),
      createManifestMF demo_digest digest_files
        = manifest_text (map (fun e => (e.1, demo_digest e.2)) blocks)
      ∧ Sorted str_le (map fst blocks)
      ∧ (lit "a/x", [x00]) ∈ blocks
      ∧ ∀ bytes, (lit "META-INF/OLD.SF", bytes) ∉ blocks.
Proof.
  assert (NoDup (map fst digest_zip)) as Hn.
  { refine (bool_decide_unpack _ _). vm_compute. exact I. }
  assert (collectFiles digest_zip [] = Normal digest_files) as Hc by (vm_compute; reflexivity).
  split_and!; [exact Hn|exact Hc|].
  destruct (createManifestMF_sorted_blocks demo_digest digest_zip digest_files Hn Hc)
    as (blocks & H1 & H2 & H3 & _).
  exists blocks. split_and!; [exact H1|exact H3| |].
  - apply H2. split; [reflexivity|]. exists (mkZipObject false (Normal [x00])).
    split; [|split; reflexivity]. unfold digest_zip. do 3 right. left.
  - intros bytes Hin. apply H2 in Hin as [Hin _]. vm_compute in Hin. discriminate Hin.
Defined.

Lemma processApksBundle_base_wins_witness :
  processApksBundle quiet_onLog demo_clock demo_loadAsync ascii_lower [x00] (mkSt [] tt)
    = (Normal demo_merged, demo_merge_run.2)
  ∧ ∃ base,
      demo_loadAsync [x01] = Normal base
      ∧ merge_respects (split_of demo_loadAsync demo_bundle (lit "base.apk")) base demo_merged.
Proof.
  assert (processApksBundle quiet_onLog demo_clock demo_loadAsync ascii_lower [x00]
            (mkSt [] tt) = (Normal demo_merged, demo_merge_run.2)) as H
    by (vm_compute; reflexivity).
  split; [exact H|].
  destruct (processApksBundle_base_wins quiet_onLog demo_clock demo_loadAsync ascii_lower
              [x00] (mkSt [] tt) demo_merge_run.2 demo_merged H)
    as (bundleZip & baseApkPath & baseFile & baseApkData & base & H1 & H2 & H3 & H4 & H5 & H6).
  exists base.
  vm_compute in H1. injection H1 as <-. vm_compute in H2. injection H2 as <-.
  vm_compute in H3. injection H3 as <-. vm_compute in H4. injection H4 as <-.
  split; [exact H5|exact H6].
Defined.

Lemma processApk_never_throws_witness :
  (∀ entry cb, (quiet_onLog entry cb).1 = Normal tt)
  ∧ (∀ e, (demo_processApk quiet_onLog apk_file).1 ≠ Throw e)
  ∧ ∃ r entry,
      (processApk quiet_onLog demo_clock demo_loadAsync demo_generateAsync demo_blob_size
         demo_generateSigningKey failing_createCertRSA demo_digest ascii_encode
         ascii_decode ascii_lower ascii_upper demo_toFixedMB
         (lit "Offset is outside the bounds of the DataView") apk_file tt).1 = Normal r
      ∧ success r = false ∧ apkBlob r = None
      ∧ last (logs r) = Some entry ∧ log_type entry = Error
      ∧ message entry = lit "Processing failed: signing failed".
Proof.
  assert (∀ entry cb, (quiet_onLog entry cb).1 = Normal tt) as H by (intros; reflexivity).
  split; [exact H|]. split.
  - exact (proj1 (processApk_never_throws quiet_onLog demo_clock demo_loadAsync
                    demo_generateAsync demo_blob_size demo_generateSigningKey
                    demo_createCertRSA demo_digest ascii_encode ascii_decode ascii_lower
                    ascii_upper demo_toFixedMB
                    (lit "Offset is outside the bounds of the DataView") apk_file tt H)).
  - pose proof (processApk_never_throws quiet_onLog demo_clock demo_loadAsync
                  demo_generateAsync demo_blob_size demo_generateSigningKey
                  failing_createCertRSA demo_digest ascii_encode ascii_decode ascii_lower
                  ascii_upper demo_toFixedMB
                  (lit "Offset is outside the bounds of the DataView") apk_file tt H)
      as Hthm.
    cbv zeta in Hthm. destruct Hthm as (_ & _ & _ & Hsign & _).
    destruct (Hsign demo_apk (mkZipObject false (Normal (xml_with_debuggable 0)))
                (xml_with_debuggable 0)
                [(lit "AndroidManifest.xml", xml_with_debuggable (-1));
                 (lit "classes.dex", bytes_of "dex")]
                (ErrorObj (lit "signing failed")))
      as (r & entry & H1 & H2 & H3 & _ & _ & H6 & H7 & H8).
    + exists [x04]. split; [reflexivity|]. vm_compute. reflexivity.
    + vm_compute. reflexivity.
    + reflexivity.
    + intros Hd. vm_compute in Hd. discriminate Hd.
    + vm_compute. reflexivity.
    + right. exists tt. split; reflexivity.
    + exists r, entry. split_and!; [exact H1|exact H2|exact H3|exact H6|exact H7|].
      rewrite H8. vm_compute. reflexivity.
Defined.

Lemma permissions_first_occurrence_removed_witness :
  Axml.permissions (getManifestInfo parsed_permissions)
    = flat_map (permissions_of_element (strings parsed_permissions))
        (elements parsed_permissions)
  ∧ replaceFirst (lit "android.permission.INTERNET") PERMISSION_PREFIX = lit "INTERNET".
Proof.
  destruct (permissions_first_occurrence_removed parsed_permissions) as (H1 & H2 & _).
  split; [exact H1|]. exact (H2 (lit "INTERNET")).
Defined.

(** * Further properties of the code *)

(** ** The writer and the reader together *)

Section writer_extras.
Import Js Axml Spec.

Lemma writer_getBytes_put bs w :
  writer_ok w → writer_getBytes (put bs w) = writer_getBytes w ++ bs.
Proof.
  intros Hok. destruct (put_spec bs w Hok) as (Hok' & Ho & Ht & Hg).
  pose proof Hok as [_ H0]. pose proof Hok' as [_ H1].
  unfold writer_getBytes. rewrite Ho.
  apply getBytes_inv in Hg as (_ & _ & _ & Hg). rewrite Nat2Z.id in Hg.
  rewrite Z2Nat.inj_add, Nat2Z.id by lia.
  rewrite <- take_take_drop, Ht. by rewrite <- Hg.
Qed.

(** X1.  Whatever the state of the writer, and also when the write makes
    the buffer grow, [getBytes()] after a write is [getBytes()] before it
    followed by the bytes written: little-endian, the value taken modulo
    the width; and [getBytes()] has as many bytes as the write position
    says. *)
Theorem DataWriter_appends (w : DataWriter) :
  writer_ok w →
  (∀ bytes, writer_ok (writeBytes bytes w)
            ∧ writer_getBytes (writeBytes bytes w) = writer_getBytes w ++ bytes)
  ∧ (∀ v, writer_getBytes (writeUint8 v w) = writer_getBytes w ++ le_encode 1 v)
  ∧ (∀ v, writer_getBytes (writeUint16 v w) = writer_getBytes w ++ le_encode 2 v)
  ∧ (∀ v, writer_getBytes (writeUint32 v w) = writer_getBytes w ++ le_encode 4 v)
  ∧ (∀ v, writer_getBytes (writeInt32 v w) = writer_getBytes w ++ le_encode 4 v)
  ∧ Z.of_nat (length (writer_getBytes w)) = offset w.
Proof.
  intros Hok. split_and!; try (intros; by apply writer_getBytes_put).
  - intros bytes. split; [apply (put_spec bytes w Hok)|by apply writer_getBytes_put].
  - destruct Hok as [_ H]. unfold writer_getBytes. rewrite length_take. lia.
Qed.

Lemma DataWriter_appends_witness :
  writer_ok (newWriter 2)
  ∧ writer_getBytes (writeBytes [x01; x02; x03] (newWriter 2)) = [x01; x02; x03].
Proof.
  assert (writer_ok (newWriter 2)) as H by (apply newWriter_ok; lia).
  split; [exact H|].
  exact (proj2 (proj1 (DataWriter_appends (newWriter 2) H) [x01; x02; x03])).
Defined.
End writer_extras.

Section round_trips.
Import Js Axml Spec.

Lemma getBytes_app_middle (a bs c : list byte) :
  getBytes (a ++ bs ++ c) (Z.of_nat (length a)) (Z.of_nat (length bs)) = Some bs.
Proof.
  rewrite getBytes_Some by (rewrite ?length_app; lia).
  rewrite !Nat2Z.id, drop_app_length, take_app_length. done.
Qed.

Lemma toInt32_toUint32 v : toInt32 (toUint32 v) = toInt32 v.
Proof. unfold toInt32, toUint32. by rewrite Z.mod_mod by lia. Qed.

Lemma read_after_write (w : DataWriter) (n : nat) (v : Z) :
  writer_ok w →
  getBytes (writer_getBytes (put (le_encode n v) w)) (offset w) (Z.of_nat n)
  = Some (le_encode n v).
Proof.
  intros Hok. rewrite writer_getBytes_put by done.
  pose proof (getBytes_app_middle (writer_getBytes w) (le_encode n v) []) as H.
  rewrite app_nil_r, length_le_encode in H.
  assert (Z.of_nat (length (writer_getBytes w)) = offset w) as Hlen.
  { destruct Hok as [_ Ho]. unfold writer_getBytes. rewrite length_take. lia. }
  by rewrite Hlen in H.
Qed.

(** X2.  A value written by the writer is read back by a reader placed
    where the writer stood: the unsigned value modulo 2^8, 2^16 or 2^32,
    the signed one brought into int32; the reader ends where the writer
    ends. *)
Theorem DataWriter_DataReader_round_trip (w : DataWriter) (v : Z) :
  writer_ok w →
  readUint8 (writer_getBytes (writeUint8 v w)) (offset w)
    = Some (v `mod` 2 ^ 8, offset (writeUint8 v w))
  ∧ readUint16 (writer_getBytes (writeUint16 v w)) (offset w)
    = Some (v `mod` 2 ^ 16, offset (writeUint16 v w))
  ∧ readUint32 (writer_getBytes (writeUint32 v w)) (offset w)
    = Some (toUint32 v, offset (writeUint32 v w))
  ∧ readInt32 (writer_getBytes (writeInt32 v w)) (offset w)
    = Some (toInt32 v, offset (writeInt32 v w)).
Proof.
  intros Hok.
  assert (∀ n, offset (put (le_encode n v) w) = offset w + Z.of_nat n) as Ho.
  { intros n. destruct (put_spec (le_encode n v) w Hok) as (_ & -> & _).
    by rewrite length_le_encode. }
  unfold readUint8, readUint16, readUint32, readInt32, getInt32, getUint8, getUint16,
    getUint32, writeUint8, writeUint16, writeUint32, writeInt32.
  rewrite !Ho.
  pose proof (read_after_write w 1 v Hok) as R1. change (Z.of_nat 1) with 1 in R1.
  pose proof (read_after_write w 2 v Hok) as R2. change (Z.of_nat 2) with 2 in R2.
  pose proof (read_after_write w 4 v Hok) as R4. change (Z.of_nat 4) with 4 in R4.
  rewrite R1, R2, R4.
  cbn [fmap option_fmap option_map mbind option_bind].
  rewrite !le_decode_encode. split_and!; try done.
  do 2 f_equal. apply toInt32_toUint32.
Qed.

Lemma DataWriter_DataReader_round_trip_witness :
  writer_ok (newWriter 0)
  ∧ readInt32 (writer_getBytes (writeInt32 (-2) (newWriter 0))) 0 = Some (-2, 4).
Proof.
  assert (writer_ok (newWriter 0)) as H by (apply newWriter_ok; lia).
  split; [exact H|].
  exact (proj2 (proj2 (proj2 (DataWriter_DataReader_round_trip (newWriter 0) (-2) H)))).
Defined.
End round_trips.

Section stale.
Import Js Axml Spec.

(** X3.  Once a write has made the writer replace its buffer, a store
    through a [DataView] made before that write changes nothing in what the
    writer holds, while a store through a view made after it is read back
    from the writer's buffer. *)
Theorem store_through_stale_view_is_lost (w : DataWriter) (bs : list byte) (pos v : Z) :
  writer_ok w →
  offset w + Z.of_nat (length bs) > Z.of_nat (length (buffer w)) →
  let stale := view_of w in
  let w1 := put bs w in
  (∀ w2, view_setUint32 stale pos v w1 = Some w2 →
         buffer w2 = buffer w1 ∧ writer_getBytes w2 = writer_getBytes w1)
  ∧ (∀ w2, view_setUint32 (view_of w1) pos v w1 = Some w2 →
           getUint32 (buffer w2) pos = Some (toUint32 v)).
Proof.
  intros Hok Hgrow stale w1.
  destruct (put_spec bs w Hok) as (Hok1 & Ho1 & _). fold w1 in Hok1, Ho1.
  assert (stale ≠ view_of w1) as Hne.
  { unfold stale, w1, view_of, put, ensureCapacity. cbv zeta.
    rewrite decide_True by done. cbn [heap]. rewrite length_insert, length_app.
    destruct Hok as [Hh _]. destruct (heap w); [done|]. cbn [length]. lia. }
  split; intros w2 Hv; destruct (view_setUint32_spec _ _ _ _ _ Hok1 Hv) as (_ & Ho2 & Hp & Hb).
  - destruct Hb as [[? _]|[_ Hb]]; [done|]. split; [done|].
    unfold writer_getBytes. by rewrite Hb, Ho2.
  - destruct Hb as [(_ & Hin & ->)|[? _]]; [|done].
    apply getUint32_encoded.
    pose proof (getBytes_overwrite (buffer w1) pos (le_encode 4 v)) as Hg.
    rewrite length_le_encode in Hg. apply Hg; lia.
Qed.

Lemma store_through_stale_view_is_lost_witness :
  ∃ w2, view_setUint32 (view_of (newWriter 4)) 0 7 (put [x01; x02; x03; x04; x05] (newWriter 4))
        = Some w2
        ∧ writer_getBytes w2 = [x01; x02; x03; x04; x05].
Proof.
  assert (writer_ok (newWriter 4)) as H by (apply newWriter_ok; lia).
  assert (offset (newWriter 4) + Z.of_nat (length [x01; x02; x03; x04; x05])
          > Z.of_nat (length (buffer (newWriter 4)))) as Hg by (vm_compute; reflexivity).
  destruct (view_setUint32 (view_of (newWriter 4)) 0 7
              (put [x01; x02; x03; x04; x05] (newWriter 4))) as [w2|] eqn:E;
    [|vm_compute in E; discriminate].
  exists w2. split; [reflexivity|].
  destruct (proj1 (store_through_stale_view_is_lost (newWriter 4) [x01; x02; x03; x04; x05]
                     0 7 H Hg) w2 E) as [_ ->].
  vm_compute. reflexivity.
Defined.
End stale.

(** ** The parser: header, hang and recorded positions *)

Section parse_edges.
Import Js Axml Spec Fixture.
Variable utf8_decode : list byte → jsstring.

(** X4.  The header of [parse]: a buffer shorter than four bytes makes
    the first read throw the [RangeError]; a first word other than
    0x00080003 throws an [Error] whose message is Invalid AXML magic: 0x
    followed by the word in lowercase hexadecimal; a buffer that ends
    before the file-size word throws the [RangeError]; and a file size of
    at most 8 ends the chunk loop before its first turn, so the result has
    no strings, no resource ids, no elements and every recorded offset
    and size 0. *)
Theorem parse_header_edges (d : list byte) :
  (Z.of_nat (length d) < 4 → parse utf8_decode d = Throw RangeErrorObj)
  ∧ (∀ magic, getUint32 d 0 = Some magic → magic ≠ CHUNK_AXML_FILE →
       parse utf8_decode d
       = Throw (ErrorObj (lit "Invalid AXML magic: 0x" ++ toString16 magic)))
  ∧ (getUint32 d 0 = Some CHUNK_AXML_FILE → Z.of_nat (length d) < 8 →
       parse utf8_decode d = Throw RangeErrorObj)
  ∧ (∀ fileSize, getUint32 d 0 = Some CHUNK_AXML_FILE →
       getUint32 d 4 = Some fileSize → fileSize ≤ 8 →
       parse utf8_decode d = Normal (mkParsed [] [] [] d 0 0 0 0 0)).
Proof.
  unfold parse, rd_bind, readUint32, rd_ret. split_and!.
  - intros H. destruct (getUint32 d 0) as [m|] eqn:E; [|done].
    apply getUint32_inv in E. lia.
  - intros magic -> Hm. cbn [mbind option_bind]. by rewrite decide_True.
  - intros -> H. cbn [mbind option_bind]. rewrite decide_False by (by intros ?).
    change (0 + 4) with 4.
    destruct (getUint32 d 4) as [m|] eqn:E; [|done]. apply getUint32_inv in E. lia.
  - intros fileSize -> Hs Hle. cbn [mbind option_bind]. rewrite decide_False by (by intros ?).
    change (0 + 4) with 4. rewrite Hs. cbn [mbind option_bind parseChunks].
    by rewrite decide_False by lia.
Qed.
End parse_edges.

Lemma parse_header_edges_witness :
  parse ascii_decode [] = Throw RangeErrorObj
  ∧ parse ascii_decode (u32 0x1C0001)
    = Throw (ErrorObj (lit "Invalid AXML magic: 0x" ++ toString16 0x1C0001))
  ∧ toString16 0x1C0001 = lit "1c0001"
  ∧ parse ascii_decode (u32 CHUNK_AXML_FILE ++ u32 8)
    = Normal (mkParsed [] [] [] (u32 CHUNK_AXML_FILE ++ u32 8) 0 0 0 0 0).
Proof.
  split_and!.
  - apply (proj1 (parse_header_edges ascii_decode [])). cbn [length]. lia.
  - apply (proj1 (proj2 (parse_header_edges ascii_decode (u32 0x1C0001))));
      [reflexivity|discriminate].
  - reflexivity.
  - apply (proj2 (proj2 (proj2 (parse_header_edges ascii_decode
                                  (u32 CHUNK_AXML_FILE ++ u32 8)))) 8);
      [reflexivity|reflexivity|lia].
Defined.

Section parse_hangs.
Import Js Axml Spec Fixture.
Variable utf8_decode : list byte → jsstring.
Variable d : list byte.

Lemma parseChunks_Diverge fuel fileSize st pos :
  (0 < fuel)%nat → Z.of_nat (length d) - pos < Z.of_nat fuel →
  parseChunks utf8_decode d fuel fileSize st pos = Diverge →
  ∃ p ty, pos ≤ p ∧ p < fileSize ∧ getUint32 d p = Some ty ∧ known_chunk ty = false
          ∧ getUint32 d (p + 4) = Some 0.
Proof.
  revert st pos. induction fuel as [|fuel IH]; intros st pos H0 H1; [lia|].
  cbn [parseChunks]. cbv zeta. case_decide as Hlt; [|done].
  unfold rd_bind at 1. unfold readUint32 at 1.
  destruct (getUint32 d pos) as [ty|] eqn:Ety; [|done]. cbn [mbind option_bind].
  unfold rd_bind, readUint32, rd_ret.
  destruct (getUint32 d (pos + 4)) as [sz|] eqn:Esz; [|done]. cbn [mbind option_bind].
  pose proof (getUint32_inv _ _ _ Esz) as [_ Hin]. pose proof (getUint32_nonneg _ _ _ Esz).
  destruct (known_chunk ty) eqn:Ek; cbn [negb andb].
  - replace (pos + 4 + 4) with (pos + 8) by lia.
    destruct (parseChunk _ _ _ _ _ _ _) as [[st' pos2]|] eqn:Ep; [|done].
    apply parseChunk_progress in Ep; [|done]. intros Hd.
    apply IH in Hd as (p & ty' & Hp & ?); [|lia|case_decide; lia].
    exists p, ty'. split; [|done]. revert Hp. case_decide; lia.
  - case_bool_decide as Hz.
    + intros _. exists pos, ty. subst sz. split_and!; try done; lia.
    + replace (pos + 4 + 4) with (pos + 8) by lia.
      destruct (parseChunk _ _ _ _ _ _ _) as [[st' pos2]|] eqn:Ep; [|done]. intros Hd.
      apply IH in Hd as (p & ty' & Hp & ?); [|lia|case_decide; lia].
      exists p, ty'. split; [|done]. revert Hp. case_decide; lia.
Qed.

(** X5.  [parse] hangs only on an empty chunk of unknown type: when it
    does not come back, some position from 8 on holds a chunk header whose
    type is none of the seven the parser knows and whose size is 0; and
    when the first chunk is such a chunk and the file size is above 8, it
    does not come back. *)
Theorem parse_hangs_only_on_empty_unknown_chunk :
  (parse utf8_decode d = Diverge →
   ∃ p ty, 8 ≤ p ∧ getUint32 d p = Some ty ∧ known_chunk ty = false
           ∧ getUint32 d (p + 4) = Some 0)
  ∧ (∀ fileSize ty,
       getUint32 d 0 = Some CHUNK_AXML_FILE → getUint32 d 4 = Some fileSize →
       8 < fileSize → getUint32 d 8 = Some ty → known_chunk ty = false →
       getUint32 d 12 = Some 0 →
       parse utf8_decode d = Diverge).
Proof.
  split.
  - unfold parse, rd_bind, readUint32, rd_ret.
    destruct (getUint32 d 0) as [magic|]; [|done]. cbn [mbind option_bind].
    case_decide; [done|]. change (0 + 4) with 4.
    destruct (getUint32 d 4) as [fileSize|]; [|done]. cbn [mbind option_bind].
    change (4 + 4) with 8.
    destruct (parseChunks _ _ _ _ _ _) eqn:E; try done. intros _.
    apply parseChunks_Diverge in E as (p & ty & ? & ? & ? & ? & ?); [|lia..].
    by exists p, ty.
  - intros fileSize ty Hm Hs Hlt Hty Hk Hz.
    unfold parse, rd_bind, readUint32, rd_ret. rewrite Hm. cbn [mbind option_bind].
    rewrite decide_False by (by intros ?). change (0 + 4) with 4. rewrite Hs.
    cbn [mbind option_bind parseChunks]. change (4 + 4) with 8. cbv zeta.
    rewrite decide_True by done. unfold rd_bind, readUint32, rd_ret.
    rewrite Hty. cbn [mbind option_bind]. change (8 + 4) with 12. rewrite Hz.
    cbn [mbind option_bind]. rewrite Hk. cbn [negb andb]. by rewrite bool_decide_eq_true_2.
Qed.
End parse_hangs.

Lemma parse_hangs_only_on_empty_unknown_chunk_witness :
  let d := u32 CHUNK_AXML_FILE ++ u32 16 ++ u32 0 ++ u32 0 in
  parse ascii_decode d = Diverge
  ∧ ∃ p ty, 8 ≤ p ∧ getUint32 d p = Some ty ∧ known_chunk ty = false
            ∧ getUint32 d (p + 4) = Some 0.
Proof.
  intros d.
  pose proof (parse_hangs_only_on_empty_unknown_chunk ascii_decode d) as [H1 H2].
  assert (parse ascii_decode d = Diverge) as Hd.
  { apply (H2 16 0); by vm_compute. }
  split; [exact Hd|exact (H1 Hd)].
Defined.

Section parse_records.
Import Js Axml Spec Fixture.
Variable utf8_decode : list byte → jsstring.
Variable d : list byte.

Lemma rd_bind_Some {A B} (m : Reader A) (k : A → Reader B) p r :
  rd_bind m k p = Some r → ∃ a p1, m p = Some (a, p1) ∧ k a p1 = Some r.
Proof. unfold rd_bind. destruct (m p) as [[a p1]|]; [|done]. eauto. Qed.

Ltac rd_inv H :=
  repeat (let a := fresh "v" in let p := fresh "p" in let E := fresh "E" in
          apply rd_bind_Some in H as (a & p & E & H)).

Lemma read_many_length {A} n (read : Reader A) p xs p' :
  read_many n read p = Some (xs, p') → length xs = n.
Proof.
  revert p xs p'. induction n as [|n IH]; intros p xs p'; cbn [read_many].
  - by intros [= <- _].
  - intros H. rd_inv H. injection H as <- _. cbn [length]. f_equal. eauto.
Qed.

Lemma state_ok_push st e :
  state_ok d st → element_ok e →
  (ps_elementsOffset st = 0 →
   chunkType e = CHUNK_XML_END_ELEMENT ∨ chunkType e = CHUNK_XML_CDATA) →
  state_ok d (push_element st e).
Proof.
  intros (H1 & H2 & H3 & H4) He Hz. unfold state_ok, push_element. cbn.
  split_and!; [done|done| |].
  - destruct H3 as [[Hz0 Hall]|H3]; [left|by right]. split; [done|].
    intros e' [?| ->%list_elem_of_singleton]%elem_of_app; auto.
  - apply Forall_app. split; [done|]. by constructor.
Qed.

Lemma state_ok_mark st chunkStart ty :
  state_ok d st → 8 ≤ chunkStart → getUint32 d chunkStart = Some ty →
  ty = CHUNK_XML_START_NAMESPACE ∨ ty = CHUNK_XML_END_NAMESPACE
  ∨ ty = CHUNK_XML_START_ELEMENT →
  state_ok d (mark_elements st chunkStart)
  ∧ ps_elementsOffset (mark_elements st chunkStart) ≠ 0.
Proof.
  intros (H1 & H2 & H3 & H4) Hc Hty Hk. unfold state_ok, mark_elements. cbn.
  case_decide as Hz.
  - split; [|lia]. split_and!; [done|done| |done]. right. split; [done|]. by exists ty.
  - split; [|done]. split_and!; try done.
Qed.

Lemma parseChunk_state_ok st chunkStart chunkType chunkSize p st' p' :
  state_ok d st → 8 ≤ chunkStart →
  getUint32 d chunkStart = Some chunkType →
  getUint32 d (chunkStart + 4) = Some chunkSize →
  parseChunk utf8_decode d st chunkStart chunkType chunkSize p = Some (st', p') →
  state_ok d st'.
Proof.
  intros Hok Hc Hty Hsz. unfold parseChunk.
  destruct (decide (chunkType = CHUNK_STRING_POOL)) as [->|_].
  { unfold parseStringPool. cbv zeta. intros Hr. rd_inv Hr. injection Hr as <- _.
    destruct Hok as (H1 & H2 & H3 & H4). unfold state_ok. cbn.
    split_and!; try done. right. done. }
  destruct (decide (chunkType = CHUNK_RESOURCE_IDS)) as [->|_].
  { unfold parseResourceIds. intros Hr. rd_inv Hr. injection Hr as <- _.
    destruct Hok as (H1 & H2 & H3 & H4). unfold state_ok. cbn.
    split_and!; try done. right. done. }
  destruct (decide (chunkType = CHUNK_XML_START_NAMESPACE
                    ∨ chunkType = CHUNK_XML_END_NAMESPACE)) as [Hns|_].
  { unfold parseNamespace. intros Hr. rd_inv Hr. injection Hr as <- _.
    destruct (state_ok_mark st chunkStart chunkType Hok Hc Hty) as [Hm Hnz]; [tauto|].
    apply state_ok_push; [done| |done].
    intros Hs. cbn in Hs. exfalso. destruct Hns; subst chunkType; discriminate Hs. }
  destruct (decide (chunkType = CHUNK_XML_START_ELEMENT)) as [->|_].
  { unfold parseStartElement. intros Hr. rd_inv Hr. injection Hr as <- _.
    destruct (state_ok_mark st chunkStart _ Hok Hc Hty) as [Hm Hnz]; [tauto|].
    apply state_ok_push; [done| |done].
    intros _. cbn. eexists. split; [done|]. f_equal.
    match goal with E : read_many _ _ _ = Some _ |- _ =>
      apply read_many_length in E; rewrite E end.
    match goal with E : readUint16 d ?q = Some (?c, _) |- ?c = _ =>
      unfold readUint16 in E; destruct (getUint16 d q) eqn:Eg; [|done];
      injection E as -> _; apply getUint16_nonneg in Eg; lia end. }
  destruct (decide (chunkType = CHUNK_XML_END_ELEMENT)) as [->|_].
  { unfold parseEndElement. intros Hr. rd_inv Hr. injection Hr as <- _.
    apply state_ok_push; [done| |by left]. intros Hs. discriminate Hs. }
  destruct (decide (chunkType = CHUNK_XML_CDATA)) as [->|_].
  { unfold parseCData. intros Hr. rd_inv Hr. injection Hr as <- _.
    apply state_ok_push; [done| |by right]. intros Hs. discriminate Hs. }
  unfold rd_bind, set_position, rd_ret. by intros [= <- _].
Qed.

Lemma parseChunks_state_ok fuel fileSize st pos st' :
  state_ok d st → 8 ≤ pos →
  parseChunks utf8_decode d fuel fileSize st pos = Normal st' → state_ok d st'.
Proof.
  revert st pos. induction fuel as [|fuel IH]; intros st pos Hok Hp; cbn [parseChunks]; cbv zeta.
  - case_decide; [done|]. by intros [= <-].
  - case_decide; [|by intros [= <-]].
    unfold rd_bind at 1. unfold readUint32 at 1.
    destruct (getUint32 d pos) as [ty|] eqn:Ety; [|done]. cbn [mbind option_bind].
    unfold rd_bind, readUint32, rd_ret.
    destruct (getUint32 d (pos + 4)) as [sz|] eqn:Esz; [|done]. cbn [mbind option_bind].
    pose proof (getUint32_nonneg _ _ _ Esz).
    destruct (negb (known_chunk ty) && bool_decide (sz = 0)) eqn:Eu; [done|].
    replace (pos + 4 + 4) with (pos + 8) by lia.
    destruct (parseChunk _ _ _ _ _ _ _) as [[st1 pos2]|] eqn:Ep; [|done].
    pose proof (parseChunk_state_ok _ _ _ _ _ _ _ Hok Hp Ety Esz Ep) as Hok1.
    apply IH; [done|]. destruct (decide (pos2 < pos + sz)); [lia|].
    destruct (known_chunk ty) eqn:Ek.
    + apply parseChunk_progress in Ep; [lia|done].
    + revert Ep. unfold parseChunk. unfold known_chunk in Ek.
      apply bool_decide_eq_false_1 in Ek.
      repeat match goal with
             | |- context [decide ?P] =>
                 destruct (decide P) as [Hd|_];
                 [exfalso; apply Ek; rewrite !elem_of_cons; tauto|]
             end.
      unfold rd_bind, set_position, rd_ret. intros [= _ <-]. lia.
Qed.

(** X6.  What a [parse] that returns has recorded: [rawData] is the
    input; [stringPoolOffset] and [resourceIdsOffset] are 0 with size 0,
    or the position, from 8 on, of a chunk header of that type whose size
    word is the recorded size; [elementsOffset] is 0, and then the stream
    holds end elements and character data only, or it is the position of
    a namespace or start-element chunk; and every start element of the
    stream carries its attribute list, [attributeCount] being its
    length. *)
Theorem parse_records_chunk_positions (p : ParsedAXML) :
  parse utf8_decode d = Normal p →
  rawData p = d
  ∧ recorded_ok d (elements p) (stringPoolOffset p) (stringPoolSize p)
      (resourceIdsOffset p) (resourceIdsSize p) (elementsOffset p).
Proof.
  unfold parse, rd_bind, readUint32, rd_ret.
  destruct (getUint32 d 0) as [magic|]; [|done]. cbn [mbind option_bind].
  case_decide; [done|]. change (0 + 4) with 4.
  destruct (getUint32 d 4) as [fileSize|]; [|done]. cbn [mbind option_bind].
  change (4 + 4) with 8.
  destruct (parseChunks _ _ _ _ _ _) as [st| |] eqn:E; try done. intros [= <-]. cbn.
  split; [done|]. apply parseChunks_state_ok in E; [done| |lia].
  unfold state_ok, recorded_ok, initialParser. cbn.
  split_and!; [by left|by left| |constructor]. left. split; [done|].
  intros e He. by apply elem_of_nil in He.
Qed.
End parse_records.

Lemma parse_records_chunk_positions_witness :
  parse ascii_decode xml_manifest = Normal parsed_manifest
  ∧ rawData parsed_manifest = xml_manifest
  ∧ recorded_ok xml_manifest (elements parsed_manifest)
      (stringPoolOffset parsed_manifest) (stringPoolSize parsed_manifest)
      (resourceIdsOffset parsed_manifest) (resourceIdsSize parsed_manifest)
      (elementsOffset parsed_manifest).
Proof.
  assert (parse ascii_decode xml_manifest = Normal parsed_manifest) as Hp
    by (vm_compute; reflexivity).
  split; [exact Hp|].
  exact (parse_records_chunk_positions ascii_decode xml_manifest parsed_manifest Hp).
Defined.

(** ** Round trips of the codec *)

Section prefix.
Import Js Axml Spec Fixture.

Lemma all_below_spec P n x :
  all_below P n = true → 0 ≤ x < Z.of_nat n → P x = true.
Proof.
  induction n as [|n IH]; cbn [all_below]; [lia|].
  intros [H1 H2]%andb_prop Hx. destruct (decide (x = Z.of_nat n)) as [->|]; [done|].
  apply IH; [done|lia].
Qed.

Lemma toInt32_small x : 0 ≤ x < 2 ^ 31 → toInt32 x = x.
Proof.
  intros Hx. unfold toInt32. rewrite Z.mod_small by lia. by rewrite decide_True by lia.
Qed.

Lemma and32_ones a n :
  0 ≤ a < 2 ^ 31 → 0 ≤ n ≤ 30 → and32 a (Z.ones n) = a `mod` 2 ^ n.
Proof.
  intros Ha Hn. unfold and32.
  assert (0 < 2 ^ n ≤ 2 ^ 30) as Hp.
  { split; [apply Z.pow_pos_nonneg; lia|apply Z.pow_le_mono_r; lia]. }
  assert (0 ≤ Z.ones n < 2 ^ 31) as Ho by (rewrite Z.ones_equiv; lia).
  rewrite (toInt32_small a), (toInt32_small (Z.ones n)) by done.
  rewrite Z.land_ones by lia. apply toInt32_small.
  pose proof (Z.mod_pos_bound a (2 ^ n)). lia.
Qed.

Lemma sar32_small a n : 0 ≤ a < 2 ^ 31 → 0 ≤ n → sar32 a n = a / 2 ^ n.
Proof. intros Ha Hn. unfold sar32. rewrite toInt32_small by done. by apply Z.shiftr_div_pow2. Qed.

(** The bytes of the two-byte prefix and what the reader makes of two
    such bytes, checked on every value of the bytes. *)
Lemma high_byte_checked h :
  0 ≤ h < 128 → or32 h 0x80 = h + 128.
Proof.
  intros Hh.
  assert (all_below (fun h => bool_decide (or32 h 0x80 = h + 128)) 128 = true) as H
    by (vm_compute; reflexivity).
  pose proof (all_below_spec _ _ h H) as Hx. cbv beta in Hx.
  eapply bool_decide_eq_true_1, Hx. change (Z.of_nat 128) with 128. lia.
Qed.

Lemma lor_shifted h b k :
  0 ≤ h → 0 ≤ k → 0 ≤ b < 2 ^ k → Z.lor (h * 2 ^ k) b = h * 2 ^ k + b.
Proof.
  intros Hh Hk Hb. rewrite <- Z.add_lor_land.
  assert (Z.land (h * 2 ^ k) b = 0) as ->; [|lia].
  apply Z.bits_inj'. intros i Hi. rewrite Z.land_spec, Z.bits_0.
  destruct (decide (i < k)).
  - by rewrite Z.mul_pow2_bits_low by lia.
  - rewrite <- (Z.mod_small b (2 ^ k)) by lia.
    rewrite Z.mod_pow2_bits_high by lia. apply andb_false_r.
Qed.

Lemma two_bytes_checked b1 b2 :
  128 ≤ b1 < 256 → 0 ≤ b2 < 256 →
  and32 b1 0x80 ≠ 0 ∧ or32 (shl32 (and32 b1 0x7F) 8) b2 = (b1 - 128) * 256 + b2.
Proof.
  intros H1 H2.
  assert (all_below (fun x =>
            let b1 := 128 + x in
            bool_decide (and32 b1 0x80 ≠ 0) && bool_decide (shl32 (and32 b1 0x7F) 8 = x * 256))
            128 = true) as H by (vm_compute; reflexivity).
  pose proof (all_below_spec _ _ (b1 - 128) H) as Hx. cbv zeta beta in Hx.
  replace (128 + (b1 - 128)) with b1 in Hx by lia.
  apply andb_prop in Hx as [Ha Hs]; [|change (Z.of_nat 128) with 128; lia].
  apply bool_decide_eq_true_1 in Ha, Hs. split; [done|].
  rewrite Hs. unfold or32.
  rewrite (toInt32_small ((b1 - 128) * 256)), (toInt32_small b2) by lia.
  change 256 with (2 ^ 8) at 1 2. rewrite (lor_shifted (b1 - 128) b2 8) by lia.
  apply toInt32_small. lia.
Qed.

Lemma one_byte_checked b : 0 ≤ b < 128 → and32 b 0x80 = 0.
Proof.
  intros Hb.
  assert (all_below (fun b => bool_decide (and32 b 0x80 = 0)) 128 = true) as H
    by (vm_compute; reflexivity).
  pose proof (all_below_spec _ _ b H) as Hx. cbv beta in Hx.
  eapply bool_decide_eq_true_1, Hx. change (Z.of_nat 128) with 128. lia.
Qed.

Lemma getUint8_at (a : list byte) b c :
  getUint8 (a ++ b :: c) (Z.of_nat (length a)) = Some (Z_of_byte b).
Proof.
  unfold getUint8. pose proof (getBytes_app_middle a [b] c) as H.
  cbn [length app] in H. change (Z.of_nat 1) with 1 in H. rewrite H.
  cbn. f_equal. lia.
Qed.

Lemma readUtf8Length_one (a : list byte) b c :
  0 ≤ b < 128 →
  readUtf8Length (a ++ byte_of_Z b :: c) (Z.of_nat (length a))
  = Some (b, Z.of_nat (length a) + 1).
Proof.
  intros Hb. unfold readUtf8Length, rd_bind, readUint8. rewrite getUint8_at.
  cbn [mbind option_bind]. rewrite Z_of_byte_of_Z, Z.mod_small by lia.
  by rewrite decide_False by (rewrite one_byte_checked by done; lia).
Qed.

Lemma readUtf8Length_two (a : list byte) b1 b2 c :
  128 ≤ b1 < 256 → 0 ≤ b2 < 256 →
  readUtf8Length (a ++ byte_of_Z b1 :: byte_of_Z b2 :: c) (Z.of_nat (length a))
  = Some ((b1 - 128) * 256 + b2, Z.of_nat (length a) + 2).
Proof.
  intros H1 H2. destruct (two_bytes_checked b1 b2 H1 H2) as [Hhi Hv].
  unfold readUtf8Length, rd_bind, readUint8. rewrite getUint8_at.
  cbn [mbind option_bind]. rewrite Z_of_byte_of_Z, Z.mod_small by lia.
  rewrite decide_True by done.
  pose proof (getUint8_at (a ++ [byte_of_Z b1]) (byte_of_Z b2) c) as Hg.
  rewrite <- app_assoc, length_app in Hg. cbn [app length] in Hg.
  replace (Z.of_nat (length a + 1)) with (Z.of_nat (length a) + 1) in Hg by lia.
  rewrite Hg. cbn [mbind option_bind]. rewrite Z_of_byte_of_Z, Z.mod_small by lia.
  unfold rd_ret. rewrite Hv. do 2 f_equal. lia.
Qed.

Lemma writeUtf8Length_bytes len w :
  writer_ok w → 0 ≤ len < 2 ^ 31 →
  writer_ok (writeUtf8Length len w)
  ∧ writer_getBytes (writeUtf8Length len w) = writer_getBytes w ++ utf8_length_bytes len.
Proof.
  intros Hok Hlen. unfold writeUtf8Length, utf8_length_bytes, writeUint8.
  case_decide.
  - destruct (put_spec (le_encode 1 (or32 (and32 (sar32 len 8) 127) 128)) w Hok) as (Hok1 & _).
    split; [apply (put_spec _ _ Hok1)|].
    rewrite !writer_getBytes_put by done. rewrite <- app_assoc. f_equal.
    cbn [le_encode app]. f_equal.
    + rewrite sar32_small by lia. change (2 ^ 8) with 256.
      assert (0 ≤ len / 256 < 2 ^ 31) as Hd.
      { split; [apply Z.div_pos; lia|]. apply Z.div_lt_upper_bound; lia. }
      change 127 with (Z.ones 7).
      rewrite (and32_ones (len / 256) 7) by (done || lia). change (2 ^ 7) with 128.
      pose proof (Z.mod_pos_bound (len / 256) 128 ltac:(lia)).
      rewrite high_byte_checked by lia. f_equal. lia.
    + f_equal. change 255 with (Z.ones 8). rewrite (and32_ones len 8) by (done || lia). done.
  - split; [apply (put_spec _ _ Hok)|]. by rewrite writer_getBytes_put.
Qed.

(** X7.  The length prefix of a UTF-8 pool string is read back as
    written as long as the length is below 0x8000; a longer length loses
    its bits from the fifteenth on. *)
Theorem utf8_length_prefix_round_trip (w : DataWriter) (len : Z) :
  writer_ok w → 0 ≤ len < 2 ^ 31 →
  readUtf8Length (writer_getBytes (writeUtf8Length len w)) (offset w)
  = Some (len `mod` 0x8000, offset (writeUtf8Length len w)).
Proof.
  intros Hok Hlen. destruct (writeUtf8Length_bytes len w Hok Hlen) as [Hok' Hb].
  assert (Z.of_nat (length (writer_getBytes w)) = offset w) as Hl.
  { destruct Hok as [_ ?]. unfold writer_getBytes. rewrite length_take. lia. }
  assert (Z.of_nat (length (writer_getBytes (writeUtf8Length len w)))
          = offset (writeUtf8Length len w)) as Hl'.
  { destruct Hok' as [_ ?]. unfold writer_getBytes. rewrite length_take. lia. }
  rewrite <- Hl', Hb, length_app, <- Hl. unfold utf8_length_bytes. case_decide.
  - pose proof (Z.mod_pos_bound (len / 256) 128 ltac:(lia)).
    pose proof (Z.mod_pos_bound len 256 ltac:(lia)).
    rewrite readUtf8Length_two by lia. cbn [length]. do 2 f_equal; [|lia].
    change 32768 with (256 * 128). rewrite (Z.rem_mul_r len 256 128) by lia. lia.
  - rewrite readUtf8Length_one by lia. cbn [length]. do 2 f_equal; [|lia].
    rewrite Z.mod_small; lia.
Qed.

Lemma utf8_length_prefix_round_trip_witness :
  writer_ok (newWriter 0)
  ∧ readUtf8Length (writer_getBytes (writeUtf8Length 300 (newWriter 0))) 0 = Some (300, 2).
Proof.
  assert (writer_ok (newWriter 0)) as H by (apply newWriter_ok; lia).
  split; [exact H|].
  exact (utf8_length_prefix_round_trip (newWriter 0) 300 H ltac:(lia)).
Defined.
End prefix.

Section attribute.
Import Js Axml Spec Fixture.

Lemma toInt32_id v : - 2 ^ 31 ≤ v < 2 ^ 31 → toInt32 v = v.
Proof.
  intros Hv. destruct (decide (0 ≤ v)); [apply toInt32_small; lia|].
  assert (v `mod` 2 ^ 32 = v + 2 ^ 32) as Hm.
  { symmetry. apply (Z.mod_unique v (2 ^ 32) (-1)); lia. }
  unfold toInt32. rewrite Hm. rewrite decide_False by lia. lia.
Qed.

Lemma readUint32_at d (a : list byte) v c p :
  d = a ++ le_encode 4 v ++ c → p = Z.of_nat (length a) →
  readUint32 d p = Some (toUint32 v, p + 4).
Proof.
  intros -> ->. unfold readUint32.
  pose proof (getBytes_app_middle a (le_encode 4 v) c) as H.
  rewrite length_le_encode in H. change (Z.of_nat 4) with 4 in H.
  by rewrite (getUint32_encoded _ _ v H).
Qed.

Lemma readInt32_at d (a : list byte) v c p :
  d = a ++ le_encode 4 v ++ c → p = Z.of_nat (length a) →
  readInt32 d p = Some (toInt32 v, p + 4).
Proof.
  intros Hd Hp. pose proof (readUint32_at d a v c p Hd Hp) as H.
  unfold readUint32 in H. unfold readInt32, getInt32.
  destruct (getUint32 d p) as [u|]; [|done]. injection H as ->.
  cbn. by rewrite toInt32_toUint32.
Qed.

Lemma type_tag_checked ty :
  - 128 ≤ ty < 256 →
  sar32 (toUint32 (or32 (shl32 ty 24) 0x08)) 24 = type_read_back ty.
Proof.
  intros Hty.
  assert (all_below (fun x =>
            bool_decide (sar32 (toUint32 (or32 (shl32 (x - 128) 24) 0x08)) 24
                         = type_read_back (x - 128)))
            384 = true) as H by (vm_compute; reflexivity).
  pose proof (all_below_spec _ _ (ty + 128) H) as Hx. cbv beta in Hx.
  replace (ty + 128 - 128) with ty in Hx by lia.
  eapply bool_decide_eq_true_1, Hx. change (Z.of_nat 384) with 384. lia.
Qed.

Lemma length_attribute_bytes attr : length (attribute_bytes attr) = 20%nat.
Proof. unfold attribute_bytes. by rewrite !length_app, !length_le_encode. Qed.

Lemma writeAttribute_bytes w attr :
  writer_ok w →
  writer_ok (writeAttribute w attr)
  ∧ offset (writeAttribute w attr) = offset w + 20
  ∧ writer_getBytes (writeAttribute w attr) = writer_getBytes w ++ attribute_bytes attr.
Proof.
  intros Hok. unfold writeAttribute, writeInt32, writeUint32, attribute_bytes. cbv zeta.
  set (b1 := le_encode 4 (attr_namespaceUri attr)).
  set (b2 := le_encode 4 (attr_name attr)).
  set (b3 := le_encode 4 (valueString attr)).
  set (b4 := le_encode 4 (or32 (shl32 (type attr) 24) 8)).
  set (b5 := le_encode 4 (data attr)).
  assert (length b1 = 4%nat ∧ length b2 = 4%nat ∧ length b3 = 4%nat
          ∧ length b4 = 4%nat ∧ length b5 = 4%nat) as (L1 & L2 & L3 & L4 & L5)
    by (unfold b1, b2, b3, b4, b5; rewrite !length_le_encode; done).
  destruct (put_spec b1 w Hok) as (Hok1 & Ho1 & _).
  destruct (put_spec b2 _ Hok1) as (Hok2 & Ho2 & _).
  destruct (put_spec b3 _ Hok2) as (Hok3 & Ho3 & _).
  destruct (put_spec b4 _ Hok3) as (Hok4 & Ho4 & _).
  destruct (put_spec b5 _ Hok4) as (Hok5 & Ho5 & _).
  split; [done|]. split.
  - rewrite Ho5, Ho4, Ho3, Ho2, Ho1, L1, L2, L3, L4, L5. lia.
  - rewrite !writer_getBytes_put by done. by rewrite <- !app_assoc.
Qed.

Lemma readAttribute_at d (a c : list byte) attr p :
  d = a ++ attribute_bytes attr ++ c → p = Z.of_nat (length a) → attr_in_range attr →
  readAttribute d p
  = Some (mkAttr (attr_namespaceUri attr) (attr_name attr) (valueString attr)
                 (type_read_back (type attr)) (data attr), p + 20).
Proof.
  intros Hd Hp (Hns & Hnm & Hvs & Hty & Hdt). unfold attribute_bytes in Hd.
  set (b1 := le_encode 4 (attr_namespaceUri attr)) in *.
  set (b2 := le_encode 4 (attr_name attr)) in *.
  set (b3 := le_encode 4 (valueString attr)) in *.
  set (b4 := le_encode 4 (or32 (shl32 (type attr) 24) 8)) in *.
  set (b5 := le_encode 4 (data attr)) in *.
  assert (length b1 = 4%nat ∧ length b2 = 4%nat ∧ length b3 = 4%nat
          ∧ length b4 = 4%nat ∧ length b5 = 4%nat) as (L1 & L2 & L3 & L4 & L5)
    by (unfold b1, b2, b3, b4, b5; rewrite !length_le_encode; done).
  rewrite <- !app_assoc in Hd.
  unfold readAttribute, rd_bind, rd_ret.
  rewrite (readInt32_at d a (attr_namespaceUri attr) (b2 ++ b3 ++ b4 ++ b5 ++ c) p);
    [|done|done].
  rewrite (readUint32_at d (a ++ b1) (attr_name attr) (b3 ++ b4 ++ b5 ++ c) (p + 4));
    [|by rewrite Hd, <- !app_assoc|rewrite !length_app; lia].
  rewrite (readInt32_at d (a ++ b1 ++ b2) (valueString attr) (b4 ++ b5 ++ c) (p + 4 + 4));
    [|by rewrite Hd, <- !app_assoc|rewrite !length_app; lia].
  rewrite (readUint32_at d (a ++ b1 ++ b2 ++ b3) (or32 (shl32 (type attr) 24) 8) (b5 ++ c)
             (p + 4 + 4 + 4));
    [|by rewrite Hd, <- !app_assoc|rewrite !length_app; lia].
  rewrite (readInt32_at d (a ++ b1 ++ b2 ++ b3 ++ b4) (data attr) c (p + 4 + 4 + 4 + 4));
    [|by rewrite Hd, <- !app_assoc|rewrite !length_app; lia].
  rewrite !toInt32_id by done. rewrite type_tag_checked by done.
  unfold toUint32. rewrite Z.mod_small by done. do 2 f_equal. lia.
Qed.

(** X8.  An attribute record written by [writeAttribute], with a type
    tag from -128 to 255, is read back by [readAttribute] from where the
    writer stood: namespace, name, raw value and data come back as
    written, and the type tag comes back as written when it is below 0x80
    and 256 less from 0x80 on, the reader shifting a signed word; the
    reader ends where the writer ends. *)
Theorem attribute_record_round_trip (w : DataWriter) (attr : AXMLAttribute) :
  writer_ok w →
  - 2 ^ 31 ≤ attr_namespaceUri attr < 2 ^ 31 →
  0 ≤ attr_name attr < 2 ^ 32 →
  - 2 ^ 31 ≤ valueString attr < 2 ^ 31 →
  - 128 ≤ type attr < 256 →
  - 2 ^ 31 ≤ data attr < 2 ^ 31 →
  readAttribute (writer_getBytes (writeAttribute w attr)) (offset w)
  = Some (mkAttr (attr_namespaceUri attr) (attr_name attr) (valueString attr)
                 (type_read_back (type attr)) (data attr),
          offset (writeAttribute w attr)).
Proof.
  intros Hok Hns Hnm Hvs Hty Hdt.
  destruct (writeAttribute_bytes w attr Hok) as (_ & Ho & Hb).
  rewrite Ho. apply (readAttribute_at _ (writer_getBytes w) []).
  - by rewrite Hb, app_nil_r.
  - symmetry. destruct Hok as [_ ?]. unfold writer_getBytes. rewrite length_take. lia.
  - done.
Qed.
End attribute.

Lemma attribute_record_round_trip_witness :
  readAttribute
    (writer_getBytes (writeAttribute (newWriter 0) (mkAttr 2 7 (-1) 0x12 (-1)))) 0
  = Some (mkAttr 2 7 (-1) 0x12 (-1), 20).
Proof.
  apply (attribute_record_round_trip (newWriter 0) (mkAttr 2 7 (-1) 0x12 (-1)));
    [apply newWriter_ok; lia|cbn; lia..].
Defined.

Section resource_ids.
Import Js Axml Signer Processor Spec Fixture.
Variable utf8_decode : list byte → jsstring.

Lemma fold_writeUint32 (ids : list Z) w :
  writer_ok w →
  let w' := fold_left (fun w id => writeUint32 id w) ids w in
  writer_ok w'
  ∧ offset w' = offset w + 4 * Z.of_nat (length ids)
  ∧ writer_getBytes w' = writer_getBytes w ++ flat_map (le_encode 4) ids.
Proof.
  revert w. induction ids as [|id ids IH]; intros w Hok; cbn [fold_left flat_map length].
  - split_and!; [done|lia|by rewrite app_nil_r].
  - destruct (put_spec (le_encode 4 id) w Hok) as (Hok1 & Ho1 & _).
    rewrite length_le_encode in Ho1.
    destruct (IH (writeUint32 id w) Hok1) as (Hok2 & Ho2 & Hg2). split_and!.
    + done.
    + rewrite Ho2. unfold writeUint32. rewrite Ho1. lia.
    + rewrite Hg2. unfold writeUint32. rewrite writer_getBytes_put by done.
      by rewrite <- app_assoc.
Qed.

Lemma read_many_readUint32 (ids : list Z) (a c : list byte) p :
  p = Z.of_nat (length a) →
  read_many (length ids) (readUint32 (a ++ flat_map (le_encode 4) ids ++ c)) p
  = Some (map toUint32 ids, p + 4 * Z.of_nat (length ids)).
Proof.
  revert a p. induction ids as [|id ids IH]; intros a p Hp; cbn [read_many length map].
  - unfold rd_ret. do 2 f_equal. lia.
  - unfold rd_bind at 1. cbn [flat_map]. rewrite <- (app_assoc (le_encode 4 id)).
    rewrite (readUint32_at _ a id (flat_map (le_encode 4) ids ++ c) p);
      [|done|done].
    unfold rd_bind at 1.
    pose proof (IH (a ++ le_encode 4 id) (p + 4)) as H.
    rewrite <- !app_assoc in H. rewrite H by (rewrite length_app, length_le_encode; lia).
    unfold rd_ret. do 2 f_equal. lia.
Qed.

(** X9.  A resource-id chunk written by [writeResourceIds] is read
    back by the chunk parser: the chunk is 8 + 4n bytes long, its header
    holds the type and that size, and parsing it from the writer's
    position records the position and the size, appends exactly the ids
    written and ends where the writer ends. *)
Theorem resourceIds_chunk_round_trip (w : DataWriter) (ids : list Z) (st : ParserState) :
  writer_ok w →
  Forall (fun id => 0 ≤ id < 2 ^ 32) ids →
  8 + Z.of_nat (length ids) * 4 < 2 ^ 32 →
  let w' := writeResourceIds ids w in
  let d := writer_getBytes w' in
  let chunkStart := offset w in
  let chunkSize := 8 + Z.of_nat (length ids) * 4 in
  offset w' = chunkStart + chunkSize
  ∧ getUint32 d chunkStart = Some CHUNK_RESOURCE_IDS
  ∧ getUint32 d (chunkStart + 4) = Some chunkSize
  ∧ parseChunk utf8_decode d st chunkStart CHUNK_RESOURCE_IDS chunkSize (chunkStart + 8)
    = Some (push_resourceIds (at_resourceIds st chunkStart chunkSize) ids, offset w').
Proof.
  intros Hok Hids Hsize w' d chunkStart chunkSize.
  assert (Z.of_nat (length (writer_getBytes w)) = offset w) as Hl.
  { destruct Hok as [_ ?]. unfold writer_getBytes. rewrite length_take. lia. }
  destruct (put_spec (le_encode 4 CHUNK_RESOURCE_IDS) w Hok) as (Hok1 & Ho1 & _).
  destruct (put_spec (le_encode 4 chunkSize) _ Hok1) as (Hok2 & Ho2 & _).
  rewrite length_le_encode in Ho1, Ho2.
  destruct (fold_writeUint32 ids _ Hok2) as (Hok3 & Ho3 & Hg3).
  fold (writeUint32 CHUNK_RESOURCE_IDS w) in Hok1, Ho1, Hok2, Ho2, Hok3, Ho3, Hg3.
  fold (writeUint32 chunkSize (writeUint32 CHUNK_RESOURCE_IDS w)) in Hok2, Ho2, Hok3, Ho3, Hg3.
  assert (offset w' = chunkStart + chunkSize) as Hoff.
  { unfold w', writeResourceIds. cbv zeta. fold chunkSize. rewrite Ho3, Ho2, Ho1.
    unfold chunkStart, chunkSize. lia. }
  assert (d = writer_getBytes w ++ le_encode 4 CHUNK_RESOURCE_IDS
              ++ le_encode 4 chunkSize ++ flat_map (le_encode 4) ids ++ []) as Hd.
  { unfold d, w', writeResourceIds. cbv zeta. fold chunkSize. rewrite Hg3.
    unfold writeUint32 at 1 2. rewrite !writer_getBytes_put by done.
    by rewrite <- !app_assoc, app_nil_r. }
  assert (map toUint32 ids = ids) as Hmap.
  { clear -Hids. induction Hids as [|id ids Hid _ IH]; [done|]. cbn [map].
    rewrite IH. unfold toUint32. by rewrite Z.mod_small. }
  split_and!.
  - done.
  - pose proof (readUint32_at d (writer_getBytes w) CHUNK_RESOURCE_IDS _ chunkStart Hd
                  (eq_sym Hl)) as H.
    unfold readUint32 in H. destruct (getUint32 d chunkStart); [|done].
    cbn in H. injection H as ->. done.
  - pose proof (readUint32_at d (writer_getBytes w ++ le_encode 4 CHUNK_RESOURCE_IDS)
                  chunkSize (flat_map (le_encode 4) ids ++ []) (chunkStart + 4)) as H.
    rewrite <- app_assoc in H. specialize (H Hd).
    rewrite length_app, length_le_encode in H. specialize (H ltac:(unfold chunkStart; lia)).
    unfold readUint32 in H. destruct (getUint32 d (chunkStart + 4)); [|done].
    cbn in H. injection H as ->. unfold toUint32. rewrite Z.mod_small; [done|].
    unfold chunkSize. lia.
  - unfold parseChunk. rewrite decide_False by done. rewrite decide_True by done.
    unfold parseResourceIds, rd_bind, rd_ret.
    replace (Z.to_nat ((chunkSize - 8 + 3) / 4)) with (length ids).
    2:{ unfold chunkSize.
        replace (8 + Z.of_nat (length ids) * 4 - 8 + 3) with (3 + Z.of_nat (length ids) * 4) by lia.
        rewrite Z.div_add by lia. change (3 / 4) with 0. lia. }
    rewrite Hd.
    pose proof (read_many_readUint32 ids
                  (writer_getBytes w ++ le_encode 4 CHUNK_RESOURCE_IDS ++ le_encode 4 chunkSize)
                  [] (chunkStart + 8)) as H.
    rewrite <- !app_assoc in H. rewrite H.
    + rewrite Hmap, Hoff. do 2 f_equal. unfold chunkSize. lia.
    + rewrite !length_app, !length_le_encode. unfold chunkStart. lia.
Qed.
End resource_ids.

Lemma resourceIds_chunk_round_trip_witness :
  parseChunk ascii_decode
    (writer_getBytes (writeResourceIds [0x0101021b; ATTR_DEBUGGABLE] (newWriter 4)))
    initialParser 0 CHUNK_RESOURCE_IDS 16 8
  = Some (push_resourceIds (at_resourceIds initialParser 0 16)
            [0x0101021b; ATTR_DEBUGGABLE], 16).
Proof.
  refine (proj2 (proj2 (proj2 (resourceIds_chunk_round_trip ascii_decode (newWriter 4)
            [0x0101021b; ATTR_DEBUGGABLE] initialParser _ _ _)))).
  - apply newWriter_ok. lia.
  - repeat constructor; unfold ATTR_DEBUGGABLE; lia.
  - cbn. lia.
Defined.

Section flat_writer.
Import Js Axml Signer Processor Spec Fixture.

Lemma settled_put v cap bs w :
  settled v cap w → offset w + Z.of_nat (length bs) ≤ Z.of_nat cap →
  settled v cap (put bs w)
  ∧ offset (put bs w) = offset w + Z.of_nat (length bs)
  ∧ writer_getBytes (put bs w) = writer_getBytes w ++ bs.
Proof.
  intros (Hok & Hv & Hc) Hcap. pose proof Hok as [Hh Ho].
  destruct (put_spec bs w Hok) as (Hok' & Ho' & _).
  split_and!; [split_and!| |]; try done.
  - unfold put, view_of, ensureCapacity. cbv zeta. rewrite decide_False by lia.
    cbn [heap]. rewrite length_insert. exact Hv.
  - unfold put, ensureCapacity. cbv zeta. rewrite decide_False by lia.
    rewrite buffer_insert_last by done. rewrite length_overwrite by lia. done.
  - by apply writer_getBytes_put.
Qed.

Lemma take_overwrite_in d p bs (k : nat) :
  0 ≤ p → p + Z.of_nat (length bs) ≤ Z.of_nat k → (k ≤ length d)%nat →
  take k (overwrite d p bs) = overwrite (take k d) p bs.
Proof.
  intros Hp Hk Hd. unfold overwrite.
  rewrite take_app_ge by (rewrite length_take; lia).
  rewrite take_app_ge by (rewrite length_take; lia).
  rewrite length_take, take_take. rewrite Nat.min_l by lia.
  rewrite Nat.min_l by lia. f_equal. f_equal.
  rewrite take_drop_commute.
  replace (Z.to_nat p + length bs + (k - Z.to_nat p - length bs))%nat with k by lia. done.
Qed.

Lemma settled_view v cap pos val w :
  settled v cap w → 0 ≤ pos → pos + 4 ≤ offset w →
  ∃ w', view_setUint32 v pos val w = Some w'
        ∧ settled v cap w'
        ∧ offset w' = offset w
        ∧ writer_getBytes w' = overwrite (writer_getBytes w) pos (le_encode 4 val).
Proof.
  intros (Hok & Hv & Hc) Hp Hin. pose proof Hok as [Hh Ho].
  assert (heap w !! v = Some (buffer w)) as Hb.
  { unfold buffer. rewrite last_lookup. rewrite <- Hv. unfold view_of.
    destruct (heap w !! pred (length (heap w))) eqn:E; [done|].
    apply lookup_ge_None in E. destruct (heap w); [done|]. cbn [length] in E. lia. }
  unfold view_setUint32. rewrite Hb. cbn [mbind option_bind].
  unfold setUint32, setBytes. rewrite length_le_encode. rewrite decide_True by lia.
  cbn [mbind option_bind]. eexists. split; [done|].
  assert (length (overwrite (buffer w) pos (le_encode 4 val)) = length (buffer w)) as Hlen
    by (apply length_overwrite; rewrite ?length_le_encode; lia).
  assert (buffer {| heap := <[v:=overwrite (buffer w) pos (le_encode 4 val)]> (heap w);
                    offset := offset w |}
          = overwrite (buffer w) pos (le_encode 4 val)) as Hbuf.
  { rewrite <- Hv. unfold view_of. by apply buffer_insert_last. }
  split_and!; [split_and!| |].
  - split; cbn [heap offset].
    + intros E. apply (f_equal length) in E. rewrite length_insert in E. by destruct (heap w).
    + rewrite Hbuf, Hlen. done.
  - unfold view_of. cbn [heap]. by rewrite length_insert.
  - by rewrite Hbuf, Hlen.
  - done.
  - unfold writer_getBytes. rewrite Hbuf. cbn [offset].
    apply take_overwrite_in; rewrite ?length_le_encode; lia.
Qed.

Lemma overwrite_app_middle (a x y c : list byte) :
  length x = length y → overwrite (a ++ x ++ c) (Z.of_nat (length a)) y = a ++ y ++ c.
Proof.
  intros Hxy. unfold overwrite. rewrite Nat2Z.id, take_app_length. f_equal. f_equal.
  rewrite drop_app_ge by lia. rewrite <- Hxy.
  replace (length a + length x - length a)%nat with (length x) by lia.
  by rewrite drop_app_length.
Qed.

Lemma length_writer_getBytes w : writer_ok w → Z.of_nat (length (writer_getBytes w)) = offset w.
Proof. intros [_ ?]. unfold writer_getBytes. rewrite length_take. lia. Qed.

End flat_writer.

Section pool_writer.
Import Js Axml Signer Processor Spec Fixture.
Variable utf8_encode : jsstring → list byte.

Lemma length_utf8_length_bytes len :
  (1 ≤ length (utf8_length_bytes len) ≤ 2)%nat.
Proof. unfold utf8_length_bytes. case_decide; cbn [length]; lia. Qed.

Lemma settled_writeUtf8Length v cap len w :
  settled v cap w → 0 ≤ len < 2 ^ 31 →
  offset w + Z.of_nat (length (utf8_length_bytes len)) ≤ Z.of_nat cap →
  settled v cap (writeUtf8Length len w)
  ∧ writer_getBytes (writeUtf8Length len w) = writer_getBytes w ++ utf8_length_bytes len.
Proof.
  intros Hs Hlen Hcap. pose proof Hs as (Hok & _).
  split; [|by apply writeUtf8Length_bytes].
  revert Hcap. unfold writeUtf8Length, utf8_length_bytes, writeUint8. case_decide.
  - cbn [length]. intros Hcap.
    destruct (settled_put v cap (le_encode 1 (or32 (and32 (sar32 len 8) 127) 128)) w Hs)
      as (Hs1 & Ho1 & _); [cbn [le_encode length]; lia|].
    apply settled_put; [done|]. rewrite Ho1. cbn [le_encode length]. lia.
  - cbn [length]. intros Hcap. apply settled_put; [done|]. cbn [le_encode length]. lia.
Qed.

Lemma settled_pool_string v cap s w :
  settled v cap w → Z.of_nat (length (utf8_encode s)) < 2 ^ 31 →
  offset w + Z.of_nat (length (pool_string_bytes utf8_encode s)) ≤ Z.of_nat cap →
  let encoded := utf8_encode s in
  let len := Z.of_nat (length encoded) in
  let w' := writeUint8 0 (writeBytes encoded (writeUtf8Length len (writeUtf8Length len w))) in
  settled v cap w'
  ∧ writer_getBytes w' = writer_getBytes w ++ pool_string_bytes utf8_encode s.
Proof.
  intros Hs Hlen Hcap encoded len w'. unfold pool_string_bytes in *. cbv zeta in Hcap.
  fold encoded in Hcap |- *. fold len in Hcap |- *.
  rewrite !length_app in Hcap. cbn [length] in Hcap.
  pose proof (length_utf8_length_bytes len) as Hlb.
  assert (0 ≤ len < 2 ^ 31) as Hlen' by (unfold len, encoded; lia).
  assert (len = Z.of_nat (length encoded)) as Hlen'' by done.
  clearbody len.
  pose proof Hs as (Hok & _). pose proof (length_writer_getBytes w Hok) as Hl0.
  destruct (settled_writeUtf8Length v cap len w Hs) as (Hs1 & Hb1); [lia|lia|].
  pose proof Hs1 as (Hok1 & _). pose proof (length_writer_getBytes _ Hok1) as Hl1.
  rewrite Hb1, length_app in Hl1.
  destruct (settled_writeUtf8Length v cap len _ Hs1) as (Hs2 & Hb2); [lia|lia|].
  pose proof Hs2 as (Hok2 & _). pose proof (length_writer_getBytes _ Hok2) as Hl2.
  rewrite Hb2, Hb1, !length_app in Hl2.
  destruct (settled_put v cap encoded _ Hs2) as (Hs3 & Ho3 & Hb3); [lia|].
  destruct (settled_put v cap (le_encode 1 0) _ Hs3) as (Hs4 & Ho4 & Hb4).
  { cbn [le_encode length]. lia. }
  split; [exact Hs4|]. unfold w', writeUint8, writeBytes.
  rewrite Hb4, Hb3, Hb2, Hb1. by rewrite <- !app_assoc.
Qed.

Lemma write_strings_layout v cap offsetsStart stringsDataStart strs :
  ∀ i w pre data,
  settled v cap w →
  writer_getBytes w = pre ++ flat_map (fun _ : jsstring => le_encode 4 0) strs ++ data →
  offsetsStart + i * 4 = Z.of_nat (length pre) →
  stringsDataStart = Z.of_nat (length pre) + 4 * Z.of_nat (length strs) →
  offset w + Z.of_nat (length (flat_map (pool_string_bytes utf8_encode) strs))
    ≤ Z.of_nat cap →
  Forall (fun s => Z.of_nat (length (utf8_encode s)) < 2 ^ 31) strs →
  ∃ w', write_strings utf8_encode v offsetsStart stringsDataStart strs i w = Some w'
        ∧ settled v cap w'
        ∧ writer_getBytes w'
          = pre ++ flat_map (le_encode 4)
                     (pool_offsets utf8_encode (Z.of_nat (length data)) strs)
            ++ data ++ flat_map (pool_string_bytes utf8_encode) strs.
Proof.
  induction strs as [|s strs IH]; intros i w pre data Hs Hb Hos Hds Hcap Hlen;
    cbn [write_strings pool_offsets flat_map].
  - exists w. split_and!; [done|done|]. by rewrite Hb, app_nil_r.
  - cbv zeta. apply Forall_cons in Hlen as [Hlen1 Hlen].
    cbn [flat_map length] in Hb, Hds, Hcap. rewrite length_app in Hcap.
    pose proof Hs as (Hok & _). pose proof (length_writer_getBytes w Hok) as Hl.
    rewrite Hb, !length_app, length_le_encode in Hl.
    assert (offset w - stringsDataStart = Z.of_nat (length data)) as Hoff.
    { assert (length (flat_map (fun _ : jsstring => le_encode 4 0) strs)
              = (4 * length strs)%nat) as Hz.
      { clear. induction strs as [|? ? IH]; [done|]. cbn [flat_map length].
        rewrite length_app, length_le_encode, IH. lia. }
      rewrite Hz in Hl. lia. }
    destruct (settled_view v cap (offsetsStart + i * 4) (offset w - stringsDataStart) w Hs)
      as (w1 & Ev & Hs1 & Ho1 & Hb1); [lia|lia|].
    rewrite Ev. cbn [mbind option_bind].
    rewrite Hb, Hos, Hoff in Hb1. rewrite <- app_assoc in Hb1.
    rewrite overwrite_app_middle in Hb1 by (by rewrite !length_le_encode).
    destruct (settled_pool_string v cap s w1 Hs1 Hlen1) as (Hs2 & Hb2); [lia|].
    cbv zeta in Hs2, Hb2.
    destruct (IH (i + 1) _ (pre ++ le_encode 4 (Z.of_nat (length data)))
                (data ++ pool_string_bytes utf8_encode s) Hs2) as (w' & Ew & Hs' & Hb').
    + rewrite Hb2, Hb1. by rewrite <- !app_assoc.
    + rewrite length_app, length_le_encode. lia.
    + rewrite length_app, length_le_encode. lia.
    + pose proof Hs2 as (Hok2 & _). pose proof (length_writer_getBytes _ Hok2) as Hl2.
      rewrite Hb2, length_app in Hl2.
      pose proof Hs1 as (Hok1 & _). pose proof (length_writer_getBytes _ Hok1) as Hl1.
      lia.
    + done.
    + exists w'. split; [exact Ew|]. split; [done|]. rewrite Hb'.
      rewrite length_app. rewrite Nat2Z.inj_add. by rewrite <- !app_assoc.
Qed.

Lemma settled_fold_zero v cap (strs : list jsstring) w :
  settled v cap w → offset w + 4 * Z.of_nat (length strs) ≤ Z.of_nat cap →
  let w' := fold_left (fun w _ => writeUint32 0 w) strs w in
  settled v cap w'
  ∧ writer_getBytes w'
    = writer_getBytes w ++ flat_map (fun _ : jsstring => le_encode 4 0) strs.
Proof.
  revert w. induction strs as [|s strs IH]; intros w Hs Hcap; cbn [fold_left flat_map].
  - split; [done|]. by rewrite app_nil_r.
  - cbn [length] in Hcap.
    destruct (settled_put v cap (le_encode 4 0) w Hs) as (Hs1 & Ho1 & Hb1);
      [rewrite length_le_encode; lia|]. rewrite length_le_encode in Ho1.
    destruct (IH (writeUint32 0 w) Hs1) as (Hs2 & Hb2); [unfold writeUint32; lia|].
    split; [done|]. rewrite Hb2. unfold writeUint32. rewrite Hb1.
    by rewrite <- app_assoc.
Qed.

Lemma settled_align4 v cap turns w :
  settled v cap w → offset w + Z.of_nat turns ≤ Z.of_nat cap →
  let w' := align4 turns w in
  settled v cap w'
  ∧ ∃ pad, writer_getBytes w' = writer_getBytes w ++ pad ∧ (length pad ≤ turns)%nat.
Proof.
  revert w. induction turns as [|turns IH]; intros w Hs Hcap; cbn [align4].
  - case_decide; (split; [done|]); exists []; by rewrite app_nil_r.
  - case_decide; [split; [done|]; exists []; split; [by rewrite app_nil_r|cbn [length]; lia]|].
    destruct (settled_put v cap (le_encode 1 0) w Hs) as (Hs1 & Ho1 & Hb1);
      [cbn [le_encode length]; lia|]. rewrite length_le_encode in Ho1.
    destruct (IH (writeUint8 0 w) Hs1) as (Hs2 & pad & Hb2 & Hp); [unfold writeUint8; lia|].
    split; [done|]. exists (le_encode 1 0 ++ pad). split.
    + rewrite Hb2. unfold writeUint8. rewrite Hb1. by rewrite <- app_assoc.
    + rewrite length_app. cbn [le_encode length]. lia.
Qed.
End pool_writer.

Section pool_layout.
Import Js Axml Signer Processor Spec Fixture.
Variable utf8_encode : jsstring → list byte.

Lemma length_flat_zero (strs : list jsstring) :
  length (flat_map (fun _ : jsstring => le_encode 4 0) strs) = (4 * length strs)%nat.
Proof.
  induction strs as [|? ? IH]; [done|]. cbn [flat_map length].
  rewrite length_app, length_le_encode, IH. lia.
Qed.

Lemma writeStringPool_layout (strs : list jsstring) (w : DataWriter) :
  writer_ok w →
  offset w + 28 + 4 * Z.of_nat (length strs)
    + Z.of_nat (length (flat_map (pool_string_bytes utf8_encode) strs)) + 3
    ≤ Z.of_nat (length (buffer w)) →
  Forall (fun s => Z.of_nat (length (utf8_encode s)) < 2 ^ 31) strs →
  ∃ w' pad,
    writeStringPool utf8_encode strs w = Some w'
    ∧ writer_ok w'
    ∧ (length pad ≤ 3)%nat
    ∧ writer_getBytes w'
      = writer_getBytes w ++ pool_chunk_bytes utf8_encode strs (offset w' - offset w) pad.
Proof.
  intros Hok Hcap Hlen.
  set (v := view_of w). set (cap := length (buffer w)) in *.
  set (G := writer_getBytes w).
  assert (settled v cap w) as Hs0 by done.
  pose proof (length_writer_getBytes w Hok) as HlG. fold G in HlG.
  unfold writeStringPool. cbv zeta.
  destruct (settled_put v cap (le_encode 4 CHUNK_STRING_POOL) w Hs0) as (Hs1 & Ho1 & Hb1);
    [rewrite length_le_encode; lia|]. rewrite length_le_encode in Ho1.
  fold (writeUint32 CHUNK_STRING_POOL w) in Hs1, Ho1, Hb1.
  set (w1 := writeUint32 CHUNK_STRING_POOL w) in *.
  destruct (settled_put v cap (le_encode 4 0) w1 Hs1) as (Hs2 & Ho2 & Hb2);
    [rewrite length_le_encode; lia|]. rewrite length_le_encode in Ho2.
  fold (writeUint32 0 w1) in Hs2, Ho2, Hb2. set (w2 := writeUint32 0 w1) in *.
  destruct (settled_put v cap (le_encode 4 (Z.of_nat (length strs))) w2 Hs2)
    as (Hs3 & Ho3 & Hb3); [rewrite length_le_encode; lia|]. rewrite length_le_encode in Ho3.
  fold (writeUint32 (Z.of_nat (length strs)) w2) in Hs3, Ho3, Hb3.
  set (w3 := writeUint32 _ w2) in *.
  destruct (settled_put v cap (le_encode 4 0) w3 Hs3) as (Hs4 & Ho4 & Hb4);
    [rewrite length_le_encode; lia|]. rewrite length_le_encode in Ho4.
  fold (writeUint32 0 w3) in Hs4, Ho4, Hb4. set (w4 := writeUint32 0 w3) in *.
  destruct (settled_put v cap (le_encode 4 (shl32 1 8)) w4 Hs4) as (Hs5 & Ho5 & Hb5);
    [rewrite length_le_encode; lia|]. rewrite length_le_encode in Ho5.
  fold (writeUint32 (shl32 1 8) w4) in Hs5, Ho5, Hb5. set (w5 := writeUint32 _ w4) in *.
  destruct (settled_put v cap (le_encode 4 0) w5 Hs5) as (Hs6 & Ho6 & Hb6);
    [rewrite length_le_encode; lia|]. rewrite length_le_encode in Ho6.
  fold (writeUint32 0 w5) in Hs6, Ho6, Hb6. set (w6 := writeUint32 0 w5) in *.
  destruct (settled_put v cap (le_encode 4 0) w6 Hs6) as (Hs7 & Ho7 & Hb7);
    [rewrite length_le_encode; lia|]. rewrite length_le_encode in Ho7.
  fold (writeUint32 0 w6) in Hs7, Ho7, Hb7. set (w7 := writeUint32 0 w6) in *.
  destruct (settled_fold_zero v cap strs w7 Hs7) as (Hs8 & Hb8); [lia|].
  cbv zeta in Hs8, Hb8. set (w8 := fold_left _ strs w7) in *.
  pose proof Hs8 as (Hok8 & Hv8 & _). pose proof (length_writer_getBytes w8 Hok8) as Hl8.
  rewrite Hv8.
  assert (writer_getBytes w8
          = (G ++ le_encode 4 CHUNK_STRING_POOL ++ le_encode 4 0
               ++ le_encode 4 (Z.of_nat (length strs)) ++ le_encode 4 0
               ++ le_encode 4 (shl32 1 8))
            ++ le_encode 4 0
            ++ (le_encode 4 0 ++ flat_map (fun _ : jsstring => le_encode 4 0) strs)) as Hb8'.
  { rewrite Hb8, Hb7, Hb6, Hb5, Hb4, Hb3, Hb2, Hb1. by rewrite <- !app_assoc. }
  assert (offset w8 = offset w + 28 + 4 * Z.of_nat (length strs)) as Ho8.
  { rewrite <- Hl8, Hb8'. rewrite !length_app, !length_le_encode, length_flat_zero. lia. }
  destruct (settled_view v cap (offset w5) (offset w8 - offset w - 8) w8 Hs8)
    as (w9 & E9 & Hs9 & Ho9 & Hb9); [lia|lia|].
  rewrite E9. cbn [mbind option_bind].
  replace (offset w5) with
    (Z.of_nat (length (G ++ le_encode 4 CHUNK_STRING_POOL ++ le_encode 4 0
               ++ le_encode 4 (Z.of_nat (length strs)) ++ le_encode 4 0
               ++ le_encode 4 (shl32 1 8)))) in Hb9
    by (rewrite !length_app, !length_le_encode; lia).
  rewrite Hb8' in Hb9. rewrite overwrite_app_middle in Hb9 by (by rewrite !length_le_encode).
  destruct (write_strings_layout utf8_encode v cap (offset w7) (offset w8) strs 0 w9
              (G ++ le_encode 4 CHUNK_STRING_POOL ++ le_encode 4 0
               ++ le_encode 4 (Z.of_nat (length strs)) ++ le_encode 4 0
               ++ le_encode 4 (shl32 1 8) ++ le_encode 4 (offset w8 - offset w - 8)
               ++ le_encode 4 0) [] Hs9) as (w10 & E10 & Hs10 & Hb10).
  { rewrite Hb9. by rewrite <- !app_assoc, app_nil_r. }
  { rewrite !length_app, !length_le_encode. lia. }
  { rewrite !length_app, !length_le_encode. lia. }
  { lia. }
  { done. }
  rewrite E10. cbn [mbind option_bind].
  pose proof Hs10 as (Hok10 & _). pose proof (length_writer_getBytes w10 Hok10) as Hl10.
  assert (length (flat_map (le_encode 4) (pool_offsets utf8_encode 0 strs))
          = (4 * length strs)%nat) as Hlo.
  { generalize 0. clear. induction strs as [|? ? IH]; intros o; [done|].
    cbn [pool_offsets flat_map length]. rewrite length_app, length_le_encode, IH. lia. }
  cbn [length] in Hb10. change (Z.of_nat 0) with 0 in Hb10.
  assert (offset w10 = offset w8
            + Z.of_nat (length (flat_map (pool_string_bytes utf8_encode) strs))) as Ho10.
  { rewrite <- Hl10, Hb10. rewrite !length_app, !length_le_encode, Hlo. cbn [length]. lia. }
  destruct (settled_align4 v cap 3 w10 Hs10) as (Hs11 & pad & Hb11 & Hpad); [lia|].
  cbv zeta in Hs11, Hb11. set (w11 := align4 3 w10) in *.
  pose proof Hs11 as (Hok11 & Hv11 & _).
  pose proof (length_writer_getBytes w11 Hok11) as Hl11.
  rewrite Hv11.
  assert (offset w10 ≤ offset w11) as Hle11.
  { rewrite <- Hl11, <- Hl10, Hb11, length_app. lia. }
  destruct (settled_view v cap (offset w1) (offset w11 - offset w) w11 Hs11)
    as (w' & E' & Hs' & Ho' & Hb'); [lia|lia|].
  exists w', pad. split; [exact E'|]. split; [apply Hs'|]. split; [done|].
  rewrite Hb', Hb11, Hb10.
  replace (offset w1) with (Z.of_nat (length (G ++ le_encode 4 CHUNK_STRING_POOL)))
    by (rewrite !length_app, !length_le_encode; lia).
  rewrite <- !app_assoc.
  rewrite (app_assoc G (le_encode 4 CHUNK_STRING_POOL)).
  rewrite overwrite_app_middle by (by rewrite !length_le_encode).
  unfold pool_chunk_bytes. rewrite <- !app_assoc. rewrite Ho'.
  replace (offset w8 - offset w - 8) with (20 + 4 * Z.of_nat (length strs)) by lia.
  cbn [app]. done.
Qed.
End pool_layout.

Section pool_reader.
Import Js Axml Signer Processor Spec Fixture.
Variable utf8_encode : jsstring → list byte.
Variable utf8_decode : list byte → jsstring.

Lemma readUtf8Length_bytes (a c : list byte) len :
  0 ≤ len < 0x8000 →
  readUtf8Length (a ++ utf8_length_bytes len ++ c) (Z.of_nat (length a))
  = Some (len, Z.of_nat (length a) + Z.of_nat (length (utf8_length_bytes len))).
Proof.
  intros Hlen. unfold utf8_length_bytes. case_decide.
  - pose proof (Z.mod_pos_bound (len / 256) 128 ltac:(lia)).
    pose proof (Z.mod_pos_bound len 256 ltac:(lia)).
    cbn [app length]. rewrite readUtf8Length_two by lia. do 2 f_equal.
    assert (len / 256 < 128) by (apply Z.div_lt_upper_bound; lia).
    assert (0 ≤ len / 256) by (apply Z.div_pos; lia).
    rewrite (Z.mod_small (len / 256)) by lia.
    pose proof (Z.div_mod len 256 ltac:(lia)). lia.
  - cbn [app length]. by rewrite readUtf8Length_one by lia.
Qed.

Lemma readString_at (d a c : list byte) (s : jsstring) p :
  d = a ++ pool_string_bytes utf8_encode s ++ c →
  Z.of_nat (length (utf8_encode s)) < 0x8000 →
  ∃ p', readString utf8_decode d true (Z.of_nat (length a)) p
        = Some (utf8_decode (utf8_encode s), p').
Proof.
  intros -> Hlen. unfold readString, pool_string_bytes. cbv zeta.
  set (encoded := utf8_encode s) in *. set (lb := utf8_length_bytes _).
  unfold rd_bind at 1. unfold set_position.
  unfold rd_bind at 1. rewrite <- !app_assoc.
  unfold lb at 1. rewrite readUtf8Length_bytes by lia. fold lb.
  unfold rd_bind at 1.
  pose proof (readUtf8Length_bytes (a ++ lb) (encoded ++ [x00] ++ c)
                (Z.of_nat (length encoded)) ltac:(lia)) as H2.
  fold lb in H2. rewrite <- !app_assoc, length_app, Nat2Z.inj_add in H2. rewrite H2.
  unfold rd_bind, readBytes, rd_ret.
  pose proof (getBytes_app_middle (a ++ lb ++ lb) encoded ([x00] ++ c)) as H3.
  rewrite <- !app_assoc, !length_app, !Nat2Z.inj_add in H3.
  rewrite Z.add_assoc in H3. rewrite H3. cbn [mbind option_bind]. eauto.
Qed.

Lemma readStrings_layout (d c : list byte) stringsDataStart :
  ∀ strs a o p,
  d = a ++ flat_map (pool_string_bytes utf8_encode) strs ++ c →
  stringsDataStart + o = Z.of_nat (length a) →
  Forall (fun s => Z.of_nat (length (utf8_encode s)) < 0x8000
                   ∧ utf8_decode (utf8_encode s) = s) strs →
  ∃ p', readStrings utf8_decode d true stringsDataStart
          (pool_offsets utf8_encode o strs) p = Some (strs, p').
Proof.
  induction strs as [|s strs IH]; intros a o p Hd Ho Hall; cbn [readStrings pool_offsets].
  - eexists. reflexivity.
  - apply Forall_cons in Hall as [[Hlen Hrt] Hall]. cbn [flat_map] in Hd.
    rewrite <- app_assoc in Hd.
    destruct (readString_at d a _ s p Hd Hlen) as (p1 & H1).
    unfold rd_bind at 1. rewrite Ho, H1, Hrt.
    destruct (IH (a ++ pool_string_bytes utf8_encode s)
                (o + Z.of_nat (length (pool_string_bytes utf8_encode s))) p1)
      as (p2 & H2); [by rewrite <- app_assoc|rewrite length_app; lia|done|].
    unfold rd_bind at 1. rewrite H2. unfold rd_ret. eauto.
Qed.

Lemma pool_offsets_bounded o strs :
  0 ≤ o →
  Forall (fun x => 0 ≤ x ≤ o + Z.of_nat (length (flat_map (pool_string_bytes utf8_encode) strs)))
         (pool_offsets utf8_encode o strs).
Proof.
  revert o. induction strs as [|s strs IH]; intros o Ho; cbn [pool_offsets flat_map];
    [constructor|].
  rewrite length_app. constructor; [lia|].
  eapply Forall_impl; [apply IH; lia|]. cbv beta. intros x Hx. lia.
Qed.

Lemma length_pool_offsets o strs : length (pool_offsets utf8_encode o strs) = length strs.
Proof. revert o. induction strs as [|s strs IH]; intros o; cbn; [done|]. by rewrite IH. Qed.

Lemma parse_pool_chunk (d G rest pad : list byte) (strs : list jsstring) chunkSize st :
  d = G ++ pool_chunk_bytes utf8_encode strs chunkSize pad ++ rest →
  Z.of_nat (length G) + 28 + 4 * Z.of_nat (length strs)
    + Z.of_nat (length (flat_map (pool_string_bytes utf8_encode) strs)) < 2 ^ 32 →
  Forall (fun s => Z.of_nat (length (utf8_encode s)) < 0x8000
                   ∧ utf8_decode (utf8_encode s) = s) strs →
  let chunkStart := Z.of_nat (length G) in
  ∃ pos', parseChunk utf8_decode d st chunkStart CHUNK_STRING_POOL chunkSize (chunkStart + 8)
          = Some (push_strings (at_stringPool st chunkStart chunkSize) true strs, pos').
Proof.
  intros Hd Hsize Hall chunkStart. unfold pool_chunk_bytes in Hd.
  set (n := Z.of_nat (length strs)) in *.
  set (b1 := le_encode 4 CHUNK_STRING_POOL) in *. set (b2 := le_encode 4 chunkSize) in *.
  set (b3 := le_encode 4 n) in *. set (b4 := le_encode 4 0) in *.
  set (b5 := le_encode 4 (shl32 1 8)) in *. set (b6 := le_encode 4 (20 + 4 * n)) in *.
  set (offs := pool_offsets utf8_encode 0 strs) in *.
  set (data := flat_map (pool_string_bytes utf8_encode) strs) in *.
  assert (length b1 = 4%nat ∧ length b2 = 4%nat ∧ length b3 = 4%nat ∧ length b4 = 4%nat
          ∧ length b5 = 4%nat ∧ length b6 = 4%nat) as (L1 & L2 & L3 & L4 & L5 & L6)
    by (unfold b1, b2, b3, b4, b5, b6; rewrite !length_le_encode; done).
  rewrite <- !app_assoc in Hd.
  unfold parseChunk. rewrite decide_True by done.
  unfold parseStringPool. cbv zeta.
  unfold rd_bind at 1.
  rewrite (readUint32_at d (G ++ b1 ++ b2) n
             (b4 ++ b5 ++ b6 ++ b4 ++ flat_map (le_encode 4) offs ++ data ++ pad ++ rest)
             (chunkStart + 8));
    [|by rewrite Hd, <- !app_assoc|rewrite !length_app; unfold chunkStart; lia].
  unfold rd_bind at 1.
  rewrite (readUint32_at d (G ++ b1 ++ b2 ++ b3) 0
             (b5 ++ b6 ++ b4 ++ flat_map (le_encode 4) offs ++ data ++ pad ++ rest)
             (chunkStart + 8 + 4));
    [|by rewrite Hd, <- !app_assoc|rewrite !length_app; unfold chunkStart; lia].
  unfold rd_bind at 1.
  rewrite (readUint32_at d (G ++ b1 ++ b2 ++ b3 ++ b4) (shl32 1 8)
             (b6 ++ b4 ++ flat_map (le_encode 4) offs ++ data ++ pad ++ rest)
             (chunkStart + 8 + 4 + 4));
    [|by rewrite Hd, <- !app_assoc|rewrite !length_app; unfold chunkStart; lia].
  unfold rd_bind at 1.
  rewrite (readUint32_at d (G ++ b1 ++ b2 ++ b3 ++ b4 ++ b5) (20 + 4 * n)
             (b4 ++ flat_map (le_encode 4) offs ++ data ++ pad ++ rest)
             (chunkStart + 8 + 4 + 4 + 4));
    [|by rewrite Hd, <- !app_assoc|rewrite !length_app; unfold chunkStart; lia].
  unfold rd_bind at 1.
  rewrite (readUint32_at d (G ++ b1 ++ b2 ++ b3 ++ b4 ++ b5 ++ b6) 0
             (flat_map (le_encode 4) offs ++ data ++ pad ++ rest)
             (chunkStart + 8 + 4 + 4 + 4 + 4));
    [|by rewrite Hd, <- !app_assoc|rewrite !length_app; unfold chunkStart; lia].
  assert (toUint32 n = n) as -> by (unfold toUint32; rewrite Z.mod_small; unfold n; lia).
  assert (toUint32 0 = 0) as -> by done.
  assert (toUint32 (20 + 4 * n) = 20 + 4 * n) as ->
    by (unfold toUint32; rewrite Z.mod_small; unfold n; lia).
  assert (bool_decide (and32 (toUint32 (shl32 1 8)) (shl32 1 8) ≠ 0) = true) as ->
    by (by vm_compute).
  unfold rd_bind at 1.
  assert (Z.to_nat n = length offs) as ->
    by (unfold n, offs; rewrite length_pool_offsets; lia).
  pose proof (read_many_readUint32 offs (G ++ b1 ++ b2 ++ b3 ++ b4 ++ b5 ++ b6 ++ b4)
                (data ++ pad ++ rest) (chunkStart + 8 + 4 + 4 + 4 + 4 + 4)) as Hr.
  rewrite <- !app_assoc in Hr. rewrite <- Hd in Hr. rewrite Hr
    by (rewrite !length_app; unfold chunkStart; lia).
  assert (map toUint32 offs = offs) as ->.
  { pose proof (pool_offsets_bounded 0 strs ltac:(lia)) as Hb. fold offs data in Hb.
    clear -Hb Hsize. induction Hb as [|x xs Hx _ IH]; [done|]. cbn [map]. rewrite IH.
    unfold toUint32. rewrite Z.mod_small by lia. done. }
  unfold rd_bind at 1. cbn [Z.to_nat read_many]. unfold rd_ret at 1.
  cbn [ps_stringPoolOffset at_stringPool].
  destruct (readStrings_layout d (pad ++ rest) (chunkStart + 8 + (20 + 4 * n)) strs
              (G ++ b1 ++ b2 ++ b3 ++ b4 ++ b5 ++ b6 ++ b4 ++ flat_map (le_encode 4) offs)
              0 (chunkStart + 8 + 4 + 4 + 4 + 4 + 4 + 4 * Z.of_nat (length offs)))
    as (p' & Hs).
  - by rewrite Hd, <- !app_assoc.
  - rewrite !length_app. unfold offs at 1.
    assert (length (flat_map (le_encode 4) (pool_offsets utf8_encode 0 strs))
            = (4 * length strs)%nat) as ->.
    { generalize 0. clear. induction strs as [|? ? IH]; intros o; [done|].
      cbn [pool_offsets flat_map length]. rewrite length_app, length_le_encode, IH. lia. }
    unfold chunkStart, n. lia.
  - done.
  - unfold rd_bind. change (Z.to_nat 0) with 0%nat. cbn [read_many]. unfold rd_ret.
    fold offs in Hs. rewrite Hs. eauto.
Qed.
End pool_reader.

Section pool_round_trip.
Import Js Axml Signer Processor Spec Fixture.
Variable utf8_encode : jsstring → list byte.
Variable utf8_decode : list byte → jsstring.

(** X10.  A string pool written by [writeStringPool] into a buffer
    that has room for it is read back by the chunk parser: when the
    writer's buffer need not grow and every encoded string is shorter than
    0x8000 bytes and decodes to the string it encodes, the write succeeds,
    the chunk header holds the type and the chunk size, and parsing the
    chunk records its position and size and appends exactly the strings
    written, read as UTF-8. *)
Theorem stringPool_round_trip (w : DataWriter) (strs : list jsstring) (st : ParserState) :
  writer_ok w →
  offset w + 28 + 4 * Z.of_nat (length strs)
    + Z.of_nat (length (flat_map (pool_string_bytes utf8_encode) strs)) + 3
    ≤ Z.of_nat (length (buffer w)) →
  Z.of_nat (length (buffer w)) < 2 ^ 32 →
  Forall (fun s => Z.of_nat (length (utf8_encode s)) < 0x8000
                   ∧ utf8_decode (utf8_encode s) = s) strs →
  ∃ w', writeStringPool utf8_encode strs w = Some w'
    ∧ let d := writer_getBytes w' in
      let chunkStart := offset w in
      let chunkSize := offset w' - offset w in
      getUint32 d chunkStart = Some CHUNK_STRING_POOL
      ∧ getUint32 d (chunkStart + 4) = Some chunkSize
      ∧ ∃ pos',
          parseChunk utf8_decode d st chunkStart CHUNK_STRING_POOL chunkSize (chunkStart + 8)
          = Some (push_strings (at_stringPool st chunkStart chunkSize) true strs, pos').
Proof.
  intros Hok Hcap Hmax Hall.
  destruct (writeStringPool_layout utf8_encode strs w Hok Hcap) as (w' & pad & Hw & Hok' & Hpad & Hb).
  { eapply Forall_impl; [exact Hall|]. cbv beta. intros s [? _]. lia. }
  exists w'. split; [exact Hw|]. cbv zeta.
  pose proof (length_writer_getBytes w Hok) as Hl.
  pose proof (length_writer_getBytes w' Hok') as Hl'.
  assert (writer_getBytes w'
          = writer_getBytes w
            ++ pool_chunk_bytes utf8_encode strs (offset w' - offset w) pad ++ []) as Hb0
    by (by rewrite app_nil_r).
  pose proof Hb as Hb1. unfold pool_chunk_bytes in Hb1.
  assert (0 ≤ offset w' - offset w < 2 ^ 32) as Hsz.
  { destruct Hok as [_ ?]. split.
    - rewrite <- Hl', <- Hl, Hb, length_app. lia.
    - rewrite <- Hl', Hb, length_app. unfold pool_chunk_bytes.
      rewrite !length_app, !length_le_encode.
      assert (length (flat_map (le_encode 4) (pool_offsets utf8_encode 0 strs))
              = (4 * length strs)%nat) as ->.
      { generalize 0. clear. induction strs as [|? ? IH]; intros o; [done|].
        cbn [pool_offsets flat_map length]. rewrite length_app, length_le_encode, IH. lia. }
      lia. }
  split_and!.
  - assert (readUint32 (writer_getBytes w') (offset w)
            = Some (toUint32 CHUNK_STRING_POOL, offset w + 4)) as H
      by (eapply readUint32_at; [exact Hb1|by rewrite Hl]).
    unfold readUint32 in H. destruct (getUint32 _ (offset w)); [|done].
    cbn in H. by injection H as ->.
  - assert (readUint32 (writer_getBytes w') (offset w + 4)
            = Some (toUint32 (offset w' - offset w), offset w + 4 + 4)) as H.
    { eapply (readUint32_at _ (writer_getBytes w ++ le_encode 4 CHUNK_STRING_POOL));
        [rewrite <- app_assoc; exact Hb1|rewrite length_app, length_le_encode; lia]. }
    unfold readUint32 in H. destruct (getUint32 _ (offset w + 4)); [|done].
    cbn in H. injection H as ->. unfold toUint32. by rewrite Z.mod_small.
  - pose proof (parse_pool_chunk utf8_encode utf8_decode _ _ [] pad strs
                  (offset w' - offset w) st Hb0) as H.
    cbv zeta in H. rewrite Hl in H. apply H; [|done]. destruct Hok as [_ ?]. lia.
Qed.
End pool_round_trip.

Lemma stringPool_round_trip_witness :
  ∃ w', writeStringPool ascii_encode [lit "manifest"; lit "package"] (newWriter 100) = Some w'
        ∧ ∃ pos', parseChunk ascii_decode (writer_getBytes w') initialParser 0
                    CHUNK_STRING_POOL (offset w' - 0) 8
                  = Some (push_strings (at_stringPool initialParser 0 (offset w' - 0)) true
                            [lit "manifest"; lit "package"], pos').
Proof.
  destruct (stringPool_round_trip ascii_encode ascii_decode (newWriter 100)
              [lit "manifest"; lit "package"] initialParser)
    as (w' & Hw & _ & _ & Hp).
  - apply newWriter_ok. lia.
  - vm_compute. discriminate.
  - vm_compute. reflexivity.
  - repeat constructor; vm_compute; reflexivity.
  - exists w'. split; [exact Hw|exact Hp].
Defined.

Section ranges.
Import Js Axml Signer Processor Spec Fixture.

Lemma le_decode_bound bs : 0 ≤ le_decode bs < 256 ^ Z.of_nat (length bs).
Proof.
  induction bs as [|b bs IH]; cbn [le_decode foldr length]; [lia|].
  fold (le_decode bs). rewrite Nat2Z.inj_succ, Z.pow_succ_r by lia.
  pose proof (Z_of_byte_of_Z (Z_of_byte b)) as Hb.
  assert (0 ≤ Z_of_byte b < 256) as Hr.
  { unfold Z_of_byte. pose proof (Byte.to_N_bounded b). lia. }
  lia.
Qed.

Lemma getUint32_bound d p v : getUint32 d p = Some v → 0 ≤ v < 2 ^ 32.
Proof.
  unfold getUint32. destruct (getBytes d p 4) as [bs|] eqn:E; [|done]. intros [= <-].
  apply getBytes_inv in E as (_ & _ & _ & ->).
  pose proof (le_decode_bound (take (Z.to_nat 4) (drop (Z.to_nat p) d))) as H.
  assert (length (take (Z.to_nat 4) (drop (Z.to_nat p) d)) ≤ 4)%nat as Hl
    by (rewrite length_take; lia).
  assert (256 ^ Z.of_nat (length (take (Z.to_nat 4) (drop (Z.to_nat p) d))) ≤ 256 ^ 4)
    by (apply Z.pow_le_mono_r; lia).
  change (256 ^ 4) with (2 ^ 32) in *. lia.
Qed.

Lemma getUint16_bound d p v : getUint16 d p = Some v → 0 ≤ v < 2 ^ 16.
Proof.
  unfold getUint16. destruct (getBytes d p 2) as [bs|] eqn:E; [|done]. intros [= <-].
  apply getBytes_inv in E as (_ & _ & _ & ->).
  pose proof (le_decode_bound (take (Z.to_nat 2) (drop (Z.to_nat p) d))) as H.
  assert (length (take (Z.to_nat 2) (drop (Z.to_nat p) d)) ≤ 2)%nat as Hl
    by (rewrite length_take; lia).
  assert (256 ^ Z.of_nat (length (take (Z.to_nat 2) (drop (Z.to_nat p) d))) ≤ 256 ^ 2)
    by (apply Z.pow_le_mono_r; lia).
  change (256 ^ 2) with (2 ^ 16) in *. lia.
Qed.

Lemma toInt32_range z : - 2 ^ 31 ≤ toInt32 z < 2 ^ 31.
Proof.
  unfold toInt32. pose proof (Z.mod_pos_bound z (2 ^ 32) ltac:(lia)).
  case_decide; lia.
Qed.

Lemma readUint32_range d p v p' : readUint32 d p = Some (v, p') → 0 ≤ v < 2 ^ 32 ∧ p' = p + 4.
Proof.
  unfold readUint32. destruct (getUint32 d p) as [u|] eqn:E; [|done].
  intros [= <- <-]. split; [by eapply getUint32_bound|done].
Qed.

Lemma readInt32_range d p v p' :
  readInt32 d p = Some (v, p') → - 2 ^ 31 ≤ v < 2 ^ 31 ∧ p' = p + 4.
Proof.
  unfold readInt32, getInt32. destruct (getUint32 d p) as [u|] eqn:E; [|done].
  intros [= <- <-]. split; [apply toInt32_range|done].
Qed.

Lemma readUint16_range d p v p' : readUint16 d p = Some (v, p') → 0 ≤ v < 2 ^ 16 ∧ p' = p + 2.
Proof.
  unfold readUint16. destruct (getUint16 d p) as [u|] eqn:E; [|done].
  intros [= <- <-]. split; [by eapply getUint16_bound|done].
Qed.

Lemma sar32_24_range z : - 128 ≤ sar32 z 24 < 128.
Proof.
  unfold sar32. pose proof (toInt32_range z) as H. rewrite Z.shiftr_div_pow2 by lia.
  split.
  - apply Z.div_le_lower_bound; lia.
  - apply Z.div_lt_upper_bound; lia.
Qed.

Lemma readAttribute_range d p attr p' :
  readAttribute d p = Some (attr, p') →
  attr_in_range attr ∧ type attr < 128 ∧ p' = p + 20.
Proof.
  unfold readAttribute. intros H.
  apply rd_bind_Some in H as (ns & p1 & E1 & H).
  apply rd_bind_Some in H as (nm & p2 & E2 & H).
  apply rd_bind_Some in H as (vs & p3 & E3 & H).
  apply rd_bind_Some in H as (ty & p4 & E4 & H).
  apply rd_bind_Some in H as (dt & p5 & E5 & H).
  unfold rd_ret in H. injection H as <- <-.
  apply readInt32_range in E1 as [? ->]. apply readUint32_range in E2 as [? ->].
  apply readInt32_range in E3 as [? ->]. apply readUint32_range in E4 as [? ->].
  apply readInt32_range in E5 as [? ->].
  pose proof (sar32_24_range ty). unfold attr_in_range. cbn.
  split_and!; try done; lia.
Qed.

Lemma read_many_readAttribute_range d n p attrs p' :
  read_many n (readAttribute d) p = Some (attrs, p') →
  Forall (fun a => attr_in_range a ∧ type a < 128) attrs ∧ length attrs = n.
Proof.
  revert p attrs p'. induction n as [|n IH]; intros p attrs p'; cbn [read_many].
  - intros [= <- _]. by split.
  - intros H. apply rd_bind_Some in H as (a & p1 & E1 & H).
    apply rd_bind_Some in H as (rest & p2 & E2 & H). injection H as <- _.
    apply readAttribute_range in E1 as (? & ? & _). apply IH in E2 as [? ?].
    split; [by constructor|]. cbn [length]. lia.
Qed.
End ranges.

Section element_bytes.
Import Js Axml Signer Processor Spec Fixture.

Lemma readUint16_at d (a : list byte) v c p :
  d = a ++ le_encode 2 v ++ c → p = Z.of_nat (length a) →
  readUint16 d p = Some (v `mod` 2 ^ 16, p + 2).
Proof.
  intros -> ->. unfold readUint16, getUint16.
  pose proof (getBytes_app_middle a (le_encode 2 v) c) as H.
  rewrite length_le_encode in H. change (Z.of_nat 2) with 2 in H. rewrite H.
  cbn [fmap option_fmap option_map mbind option_bind]. by rewrite (le_decode_encode 2).
Qed.

Lemma fold_writeAttribute_bytes attrs w :
  writer_ok w →
  let w' := fold_left writeAttribute attrs w in
  writer_ok w'
  ∧ offset w' = offset w + 20 * Z.of_nat (length attrs)
  ∧ writer_getBytes w' = writer_getBytes w ++ flat_map attribute_bytes attrs.
Proof.
  revert w. induction attrs as [|a attrs IH]; intros w Hok; cbn [fold_left flat_map length].
  - split_and!; [done|lia|by rewrite app_nil_r].
  - destruct (writeAttribute_bytes w a Hok) as (Hok1 & Ho1 & Hb1).
    destruct (IH _ Hok1) as (Hok2 & Ho2 & Hb2). split_and!; [done|lia|].
    rewrite Hb2, Hb1. by rewrite <- app_assoc.
Qed.

Lemma read_many_readAttribute attrs (a c : list byte) p :
  p = Z.of_nat (length a) →
  Forall (fun x => attr_in_range x ∧ type x < 128) attrs →
  read_many (length attrs) (readAttribute (a ++ flat_map attribute_bytes attrs ++ c)) p
  = Some (attrs, p + 20 * Z.of_nat (length attrs)).
Proof.
  intros Hp Hall. revert a p Hp.
  induction Hall as [|x attrs [Hx Hty] _ IH]; intros a p Hp; cbn [read_many length flat_map].
  - unfold rd_ret. do 2 f_equal. lia.
  - unfold rd_bind at 1. rewrite <- (app_assoc (attribute_bytes x)).
    rewrite (readAttribute_at _ a (flat_map attribute_bytes attrs ++ c) x p); [|done|done|done].
    unfold type_read_back. rewrite decide_True by done.
    unfold rd_bind at 1.
    pose proof (IH (a ++ attribute_bytes x) (p + 20)) as H.
    rewrite <- !app_assoc in H.
    rewrite H by (rewrite length_app, length_attribute_bytes; lia).
    unfold rd_ret. destruct x. cbn. do 2 f_equal. lia.
Qed.
End element_bytes.

Section element_header.
Import Js Axml Signer Processor Spec Fixture.

Lemma writeUint32_appends v w :
  writer_ok w →
  writer_ok (writeUint32 v w) ∧ offset (writeUint32 v w) = offset w + 4
  ∧ writer_getBytes (writeUint32 v w) = writer_getBytes w ++ le_encode 4 v.
Proof.
  intros Hok. destruct (put_spec (le_encode 4 v) w Hok) as (Hok1 & Ho1 & _).
  rewrite length_le_encode in Ho1. split_and!; [done|done|].
  exact (writer_getBytes_put _ _ Hok).
Qed.

Lemma writeInt32_appends v w :
  writer_ok w →
  writer_ok (writeInt32 v w) ∧ offset (writeInt32 v w) = offset w + 4
  ∧ writer_getBytes (writeInt32 v w) = writer_getBytes w ++ le_encode 4 v.
Proof. exact (writeUint32_appends v w). Qed.

Lemma writeUint16_appends v w :
  writer_ok w →
  writer_ok (writeUint16 v w) ∧ offset (writeUint16 v w) = offset w + 2
  ∧ writer_getBytes (writeUint16 v w) = writer_getBytes w ++ le_encode 2 v.
Proof.
  intros Hok. destruct (put_spec (le_encode 2 v) w Hok) as (Hok1 & Ho1 & _).
  rewrite length_le_encode in Ho1. split_and!; [done|done|].
  exact (writer_getBytes_put _ _ Hok).
Qed.

Lemma start_element_bytes w ln cm ns nm n id cl sty attrs :
  writer_ok w →
  let wf :=
    fold_left writeAttribute attrs
      (writeUint16 sty (writeUint16 cl (writeUint16 id (writeUint16 n
         (writeUint16 20 (writeUint16 20 (writeUint32 nm (writeInt32 ns
            (writeUint32 cm (writeUint32 ln (writeUint32 0
               (writeUint32 CHUNK_XML_START_ELEMENT w)))))))))))) in
  writer_ok wf
  ∧ offset wf = offset w + 36 + 20 * Z.of_nat (length attrs)
  ∧ writer_getBytes wf
    = (writer_getBytes w ++ le_encode 4 CHUNK_XML_START_ELEMENT) ++ le_encode 4 0
      ++ (le_encode 4 ln ++ le_encode 4 cm ++ le_encode 4 ns ++ le_encode 4 nm
          ++ le_encode 2 20 ++ le_encode 2 20 ++ le_encode 2 n ++ le_encode 2 id
          ++ le_encode 2 cl ++ le_encode 2 sty ++ flat_map attribute_bytes attrs).
Proof.
  intros Hok.
  destruct (writeUint32_appends CHUNK_XML_START_ELEMENT w Hok) as (Hok1 & Ho1 & Hb1).
  destruct (writeUint32_appends 0 _ Hok1) as (Hok2 & Ho2 & Hb2).
  destruct (writeUint32_appends ln _ Hok2) as (Hok3 & Ho3 & Hb3).
  destruct (writeUint32_appends cm _ Hok3) as (Hok4 & Ho4 & Hb4).
  destruct (writeInt32_appends ns _ Hok4) as (Hok5 & Ho5 & Hb5).
  destruct (writeUint32_appends nm _ Hok5) as (Hok6 & Ho6 & Hb6).
  destruct (writeUint16_appends 20 _ Hok6) as (Hok7 & Ho7 & Hb7).
  destruct (writeUint16_appends 20 _ Hok7) as (Hok8 & Ho8 & Hb8).
  destruct (writeUint16_appends n _ Hok8) as (Hok9 & Ho9 & Hb9).
  destruct (writeUint16_appends id _ Hok9) as (Hok10 & Ho10 & Hb10).
  destruct (writeUint16_appends cl _ Hok10) as (Hok11 & Ho11 & Hb11).
  destruct (writeUint16_appends sty _ Hok11) as (Hok12 & Ho12 & Hb12).
  destruct (fold_writeAttribute_bytes attrs _ Hok12) as (Hokf & Hof & Hbf).
  cbv zeta in Hokf, Hof, Hbf. cbv zeta. split_and!; [done|lia|].
  rewrite Hbf, Hb12, Hb11, Hb10, Hb9, Hb8, Hb7, Hb6, Hb5, Hb4, Hb3, Hb2, Hb1.
  by rewrite <- !app_assoc.
Qed.
End element_header.

Section element_round_trip.
Import Js Axml Signer Processor Spec Fixture.
Variable utf8_decode : list byte → jsstring.
Variable parsed : ParsedAXML.

Lemma forced_attr_range a :
  attr_in_range a ∧ type a < 128 →
  attr_in_range (forced_attr parsed a) ∧ type (forced_attr parsed a) < 128.
Proof.
  intros [(H1 & H2 & H3 & H4 & H5) Hty]. unfold forced_attr.
  destruct (is_debuggable_attr parsed a); [|done].
  unfold attr_in_range. cbn. split_and!; try done; lia.
Qed.

Lemma indexOf_from_range {A} `{EqDecision A} i (xs : list A) (x : A) :
  0 ≤ i → -1 ≤ indexOf_from i xs x < i + Z.of_nat (length xs) ∨ indexOf_from i xs x = -1.
Proof.
  revert i. induction xs as [|y xs IH]; intros i Hi; cbn [indexOf_from length].
  - by right.
  - case_decide; [left; lia|]. destruct (IH (i + 1) ltac:(lia)) as [?|?]; [left; lia|by right].
Qed.

Lemma rewritten_attributes_range newStrings idx nameIdx read :
  Z.of_nat (length newStrings) < 2 ^ 31 → 0 ≤ idx < 2 ^ 32 →
  Forall (fun a => attr_in_range a ∧ type a < 128) read →
  Forall (fun a => attr_in_range a ∧ type a < 128)
         (rewritten_attributes parsed newStrings idx nameIdx read).
Proof.
  intros Hn Hidx Hall. unfold rewritten_attributes. cbv zeta.
  assert (Forall (fun a => attr_in_range a ∧ type a < 128) (map (forced_attr parsed) read))
    as Hm.
  { apply Forall_fmap. eapply Forall_impl; [exact Hall|]. intros a. apply forced_attr_range. }
  destruct (_ && _); [|done]. apply Forall_app. split; [done|].
  constructor; [|constructor]. unfold attr_in_range, TYPE_INT_BOOLEAN.
  cbn [attr_namespaceUri attr_name valueString type data].
  pose proof (indexOf_from_range 0 newStrings ANDROID_NS ltac:(lia)) as Hi.
  fold (indexOf newStrings ANDROID_NS) in Hi.
  generalize dependent (indexOf newStrings ANDROID_NS). intros z Hz.
  split_and!; lia.
Qed.

Lemma rewritten_attributes_forced newStrings idx nameIdx read :
  Forall (fun a => is_debuggable_attr parsed a = true → data a = -1)
         (rewritten_attributes parsed newStrings idx nameIdx read).
Proof.
  unfold rewritten_attributes. cbv zeta.
  assert (Forall (fun a => is_debuggable_attr parsed a = true → data a = -1)
            (map (forced_attr parsed) read)) as Hm.
  { apply Forall_fmap, Forall_forall. intros a _. unfold compose, forced_attr.
    destruct (is_debuggable_attr parsed a) eqn:E; [by intros _|].
    intros E'. congruence. }
  destruct (_ && _); [|done]. apply Forall_app. split; [done|]. by repeat constructor.
Qed.

Lemma rewriteStartElement_bytes (newStrings : list jsstring) (debuggableStrIdx : Z)
    (w w' : DataWriter) (pos pos' : Z) (st0 : ParserState) :
  writer_ok w →
  rewriteStartElement parsed newStrings debuggableStrIdx w pos = Some (w', pos') →
  ∃ ln cm ns nm ast asz cnt id cl sty read,
    parseStartElement (rawData parsed) st0 pos
    = Some (push_element st0
              (mkElem CHUNK_XML_START_ELEMENT ln cm ns nm (Some read) (Some ast) (Some asz)
                 (Some cnt) (Some id) (Some cl) (Some sty)), pos')
    ∧ (0 ≤ ln < 2 ^ 32 ∧ 0 ≤ cm < 2 ^ 32 ∧ - 2 ^ 31 ≤ ns < 2 ^ 31 ∧ 0 ≤ nm < 2 ^ 32
       ∧ 0 ≤ cnt < 2 ^ 16 ∧ 0 ≤ id < 2 ^ 16 ∧ 0 ≤ cl < 2 ^ 16 ∧ 0 ≤ sty < 2 ^ 16
       ∧ length read = Z.to_nat cnt
       ∧ Forall (fun a => attr_in_range a ∧ type a < 128) read)
    ∧ let written := rewritten_attributes parsed newStrings debuggableStrIdx nm read in
      writer_ok w'
      ∧ offset w' = offset w + 36 + 20 * Z.of_nat (length written)
      ∧ writer_getBytes w'
        = writer_getBytes w ++ start_element_chunk ln cm ns nm id cl sty written.
Proof.
  intros Hok H. unfold rewriteStartElement in H. cbv zeta in H.
  apply rd_bind_Some in H as (ln & p1 & E1 & H).
  apply rd_bind_Some in H as (cm & p2 & E2 & H).
  apply rd_bind_Some in H as (ns & p3 & E3 & H).
  apply rd_bind_Some in H as (nm & p4 & E4 & H).
  apply rd_bind_Some in H as (ast & p5 & E5 & H).
  apply rd_bind_Some in H as (asz & p6 & E6 & H).
  apply rd_bind_Some in H as (cnt & p7 & E7 & H).
  apply rd_bind_Some in H as (id & p8 & E8 & H).
  apply rd_bind_Some in H as (cl & p9 & E9 & H).
  apply rd_bind_Some in H as (sty & p10 & E10 & H).
  apply rd_bind_Some in H as (read & p11 & E11 & H).
  fold (forced_attr parsed) in H.
  change (if bool_decide (str_or_empty (strings parsed) nm = lit "application")
             && negb (existsb (is_debuggable_attr parsed) read)
          then map (forced_attr parsed) read
               ++ [mkAttr (indexOf newStrings ANDROID_NS) debuggableStrIdx (-1)
                     TYPE_INT_BOOLEAN (-1)]
          else map (forced_attr parsed) read)
    with (rewritten_attributes parsed newStrings debuggableStrIdx nm read) in H.
  set (written := rewritten_attributes parsed newStrings debuggableStrIdx nm read) in *.
  exists ln, cm, ns, nm, ast, asz, cnt, id, cl, sty, read.
  split.
  { unfold parseStartElement, rd_bind.
    rewrite E1, E2, E3, E4, E5, E6, E7, E8, E9, E10, E11. unfold rd_ret.
    destruct (view_setUint32 _ _ _ _); [|done]. cbn in H. by injection H as _ <-. }
  split.
  { pose proof (readUint32_range _ _ _ _ E1) as [R1 _].
    pose proof (readUint32_range _ _ _ _ E2) as [R2 _].
    pose proof (readInt32_range _ _ _ _ E3) as [R3 _].
    pose proof (readUint32_range _ _ _ _ E4) as [R4 _].
    pose proof (readUint16_range _ _ _ _ E7) as [R7 _].
    pose proof (readUint16_range _ _ _ _ E8) as [R8 _].
    pose proof (readUint16_range _ _ _ _ E9) as [R9 _].
    pose proof (readUint16_range _ _ _ _ E10) as [R10 _].
    pose proof (read_many_readAttribute_range _ _ _ _ _ E11) as [Rall Rlen].
    done. }
  clear E1 E2 E3 E4 E5 E6 E7 E8 E9 E10 E11. cbv zeta. fold written.
  destruct (start_element_bytes w ln cm ns nm (Z.of_nat (length written)) id cl sty written
              Hok) as (Hokf & Hof & Hbf').
  cbv zeta in Hokf, Hof, Hbf'.
  destruct (writeUint32_appends CHUNK_XML_START_ELEMENT w Hok) as (_ & Ho1 & _).
  match type of Hokf with writer_ok ?x => set (wf := x) in * end.
  set (w1 := writeUint32 CHUNK_XML_START_ELEMENT w) in *.
  pose proof (length_writer_getBytes w Hok) as HlG.
  assert (settled (view_of wf) (length (buffer wf)) wf) as Hsf by done.
  destruct (settled_view _ _ (offset w1) (offset wf - offset w) wf Hsf)
    as (w'' & Ev & Hs'' & Ho'' & Hb''); [lia|lia|].
  rewrite Ev in H. cbn [mbind option_bind] in H. injection H as <- <-.
  destruct Hs'' as (Hok'' & _ & _).
  split_and!; [done|lia|].
  replace (offset w1)
    with (Z.of_nat (length (writer_getBytes w ++ le_encode 4 CHUNK_XML_START_ELEMENT)))
    in Hb'' by (rewrite length_app, length_le_encode; lia).
  rewrite Hbf' in Hb''.
  rewrite overwrite_app_middle in Hb'' by (by rewrite !length_le_encode).
  rewrite Hb''. unfold start_element_chunk. rewrite <- !app_assoc.
  do 4 f_equal. lia.
Qed.

(** X20.  The start-element branch of [writeElements], given a string
    table shorter than 2^31 and a 32-bit index for debuggable, reads the
    element as [parseStartElement] reads it and ends at the same position; the
    chunk it writes is 36 + 20n bytes long for the n attributes it writes,
    which are the attributes read, each one named debuggable with its data
    set to -1, followed by the added debuggable attribute when the element
    is the application and had none; the chunk header holds the
    start-element type and that size; and, when n fits in sixteen bits,
    the chunk parser run on the written chunk gives back the element with
    exactly these attributes. *)
Theorem rewriteStartElement_round_trip (newStrings : list jsstring) (debuggableStrIdx : Z)
    (w w' : DataWriter) (pos pos' : Z) (st0 st : ParserState) :
  writer_ok w →
  rewriteStartElement parsed newStrings debuggableStrIdx w pos = Some (w', pos') →
  Z.of_nat (length newStrings) < 2 ^ 31 →
  0 ≤ debuggableStrIdx < 2 ^ 32 →
  ∃ e read,
    parseStartElement (rawData parsed) st0 pos = Some (push_element st0 e, pos')
    ∧ attributes e = Some read
    ∧ let written := rewritten_attributes parsed newStrings debuggableStrIdx (name e) read in
      let d := writer_getBytes w' in
      let chunkStart := offset w in
      let chunkSize := offset w' - offset w in
      chunkSize = 36 + 20 * Z.of_nat (length written)
      ∧ Forall (fun a => is_debuggable_attr parsed a = true → data a = -1) written
      ∧ getUint32 d chunkStart = Some CHUNK_XML_START_ELEMENT
      ∧ getUint32 d (chunkStart + 4) = Some chunkSize
      ∧ (Z.of_nat (length written) < 2 ^ 16 →
         parseChunk utf8_decode d st chunkStart CHUNK_XML_START_ELEMENT chunkSize
           (chunkStart + 8)
         = Some (push_element (mark_elements st chunkStart)
                   (mkElem CHUNK_XML_START_ELEMENT (lineNumber e) (comment e)
                      (namespaceUri e) (name e) (Some written) (Some 0x14) (Some 0x14)
                      (Some (Z.of_nat (length written))) (idIndex e) (classIndex e)
                      (styleIndex e)),
                 offset w')).
Proof.
  intros Hok H Hn Hidx.
  destruct (rewriteStartElement_bytes newStrings debuggableStrIdx w w' pos pos' st0 Hok H)
    as (ln & cm & ns & nm & ast & asz & cnt & id & cl & sty & read & Hp & HR & Hw).
  destruct HR as (R1 & R2 & R3 & R4 & R7 & R8 & R9 & R10 & Rlen & Rall).
  cbv zeta in Hw. destruct Hw as (Hok' & Ho' & Hb').
  exists (mkElem CHUNK_XML_START_ELEMENT ln cm ns nm (Some read) (Some ast) (Some asz)
            (Some cnt) (Some id) (Some cl) (Some sty)), read.
  split; [exact Hp|]. split; [done|].
  cbn [name lineNumber comment namespaceUri idIndex classIndex styleIndex]. cbv zeta.
  pose proof (rewritten_attributes_range newStrings debuggableStrIdx nm read Hn Hidx Rall)
    as Rw.
  pose proof (rewritten_attributes_forced newStrings debuggableStrIdx nm read) as Hforced.
  assert (length (rewritten_attributes parsed newStrings debuggableStrIdx nm read)
          ≤ S (length read))%nat as Hlw.
  { unfold rewritten_attributes. cbv zeta.
    destruct (_ && _); rewrite ?length_app, length_map; cbn [length]; lia. }
  set (written := rewritten_attributes parsed newStrings debuggableStrIdx nm read) in *.
  unfold start_element_chunk in Hb'.
  set (G := writer_getBytes w) in *.
  pose proof (length_writer_getBytes w Hok) as HlG. fold G in HlG.
  set (b1 := le_encode 4 CHUNK_XML_START_ELEMENT) in *.
  set (b2 := le_encode 4 (36 + 20 * Z.of_nat (length written))) in *.
  set (b3 := le_encode 4 ln) in *. set (b4 := le_encode 4 cm) in *.
  set (b5 := le_encode 4 ns) in *. set (b6 := le_encode 4 nm) in *.
  set (c1 := le_encode 2 20) in *.
  set (c3 := le_encode 2 (Z.of_nat (length written))) in *.
  set (c4 := le_encode 2 id) in *. set (c5 := le_encode 2 cl) in *.
  set (c6 := le_encode 2 sty) in *.
  assert (length b1 = 4%nat ∧ length b2 = 4%nat ∧ length b3 = 4%nat ∧ length b4 = 4%nat
          ∧ length b5 = 4%nat ∧ length b6 = 4%nat ∧ length c1 = 2%nat ∧ length c3 = 2%nat
          ∧ length c4 = 2%nat ∧ length c5 = 2%nat ∧ length c6 = 2%nat)
    as (L1 & L2 & L3 & L4 & L5 & L6 & M1 & M3 & M4 & M5 & M6)
    by (unfold b1, b2, b3, b4, b5, b6, c1, c3, c4, c5, c6; rewrite !length_le_encode; done).
  assert (offset w' - offset w = 36 + 20 * Z.of_nat (length written)) as Hsize by lia.
  split_and!.
  - exact Hsize.
  - exact Hforced.
  - assert (readUint32 (writer_getBytes w') (offset w)
            = Some (toUint32 CHUNK_XML_START_ELEMENT, offset w + 4)) as Hr
      by (eapply readUint32_at; [exact Hb'|lia]).
    unfold readUint32 in Hr. destruct (getUint32 _ (offset w)); [|done].
    cbn in Hr. by injection Hr as ->.
  - assert (readUint32 (writer_getBytes w') (offset w + 4)
            = Some (toUint32 (36 + 20 * Z.of_nat (length written)), offset w + 4 + 4))
      as Hr.
    { eapply (readUint32_at _ (G ++ b1)); [rewrite <- app_assoc; exact Hb'|].
      rewrite length_app. lia. }
    unfold readUint32 in Hr. destruct (getUint32 _ (offset w + 4)); [|done].
    cbn in Hr. injection Hr as ->. rewrite Hsize. unfold toUint32.
    rewrite Z.mod_small; [done|]. lia.
  - intros Hcount. rewrite Hsize. set (d := writer_getBytes w') in *.
    unfold parseChunk. rewrite decide_False by done. rewrite decide_False by done.
    rewrite decide_False by (intros [?|?]; done). rewrite decide_True by done.
    unfold parseStartElement.
    unfold rd_bind at 1.
    rewrite (readUint32_at d (G ++ b1 ++ b2) ln
               (b4 ++ b5 ++ b6 ++ c1 ++ c1 ++ c3 ++ c4 ++ c5 ++ c6
                ++ flat_map attribute_bytes written) (offset w + 8));
      [|by rewrite Hb', <- !app_assoc|rewrite !length_app; lia].
    unfold rd_bind at 1.
    rewrite (readUint32_at d (G ++ b1 ++ b2 ++ b3) cm
               (b5 ++ b6 ++ c1 ++ c1 ++ c3 ++ c4 ++ c5 ++ c6
                ++ flat_map attribute_bytes written) (offset w + 8 + 4));
      [|by rewrite Hb', <- !app_assoc|rewrite !length_app; lia].
    unfold rd_bind at 1.
    rewrite (readInt32_at d (G ++ b1 ++ b2 ++ b3 ++ b4) ns
               (b6 ++ c1 ++ c1 ++ c3 ++ c4 ++ c5 ++ c6
                ++ flat_map attribute_bytes written) (offset w + 8 + 4 + 4));
      [|by rewrite Hb', <- !app_assoc|rewrite !length_app; lia].
    unfold rd_bind at 1.
    rewrite (readUint32_at d (G ++ b1 ++ b2 ++ b3 ++ b4 ++ b5) nm
               (c1 ++ c1 ++ c3 ++ c4 ++ c5 ++ c6
                ++ flat_map attribute_bytes written) (offset w + 8 + 4 + 4 + 4));
      [|by rewrite Hb', <- !app_assoc|rewrite !length_app; lia].
    unfold rd_bind at 1.
    rewrite (readUint16_at d (G ++ b1 ++ b2 ++ b3 ++ b4 ++ b5 ++ b6) 20
               (c1 ++ c3 ++ c4 ++ c5 ++ c6
                ++ flat_map attribute_bytes written) (offset w + 8 + 4 + 4 + 4 + 4));
      [|by rewrite Hb', <- !app_assoc|rewrite !length_app; lia].
    unfold rd_bind at 1.
    rewrite (readUint16_at d (G ++ b1 ++ b2 ++ b3 ++ b4 ++ b5 ++ b6 ++ c1) 20
               (c3 ++ c4 ++ c5 ++ c6
                ++ flat_map attribute_bytes written) (offset w + 8 + 4 + 4 + 4 + 4 + 2));
      [|by rewrite Hb', <- !app_assoc|rewrite !length_app; lia].
    unfold rd_bind at 1.
    rewrite (readUint16_at d (G ++ b1 ++ b2 ++ b3 ++ b4 ++ b5 ++ b6 ++ c1 ++ c1)
               (Z.of_nat (length written))
               (c4 ++ c5 ++ c6 ++ flat_map attribute_bytes written)
               (offset w + 8 + 4 + 4 + 4 + 4 + 2 + 2));
      [|by rewrite Hb', <- !app_assoc|rewrite !length_app; lia].
    unfold rd_bind at 1.
    rewrite (readUint16_at d (G ++ b1 ++ b2 ++ b3 ++ b4 ++ b5 ++ b6 ++ c1 ++ c1 ++ c3) id
               (c5 ++ c6 ++ flat_map attribute_bytes written)
               (offset w + 8 + 4 + 4 + 4 + 4 + 2 + 2 + 2));
      [|by rewrite Hb', <- !app_assoc|rewrite !length_app; lia].
    unfold rd_bind at 1.
    rewrite (readUint16_at d (G ++ b1 ++ b2 ++ b3 ++ b4 ++ b5 ++ b6 ++ c1 ++ c1 ++ c3 ++ c4)
               cl (c6 ++ flat_map attribute_bytes written)
               (offset w + 8 + 4 + 4 + 4 + 4 + 2 + 2 + 2 + 2));
      [|by rewrite Hb', <- !app_assoc|rewrite !length_app; lia].
    unfold rd_bind at 1.
    rewrite (readUint16_at d
               (G ++ b1 ++ b2 ++ b3 ++ b4 ++ b5 ++ b6 ++ c1 ++ c1 ++ c3 ++ c4 ++ c5)
               sty (flat_map attribute_bytes written)
               (offset w + 8 + 4 + 4 + 4 + 4 + 2 + 2 + 2 + 2 + 2));
      [|by rewrite Hb', <- !app_assoc|rewrite !length_app; lia].
    rewrite (Z.mod_small (Z.of_nat (length written))) by lia.
    rewrite Nat2Z.id.
    unfold rd_bind.
    pose proof (read_many_readAttribute written
                  (G ++ b1 ++ b2 ++ b3 ++ b4 ++ b5 ++ b6 ++ c1 ++ c1 ++ c3 ++ c4 ++ c5 ++ c6)
                  [] (offset w + 8 + 4 + 4 + 4 + 4 + 2 + 2 + 2 + 2 + 2 + 2)) as Hr.
    rewrite app_nil_r in Hr. rewrite <- !app_assoc in Hr. rewrite <- Hb' in Hr.
    fold d in Hr. rewrite Hr; [|rewrite !length_app; lia|exact Rw].
    unfold rd_ret, toUint32.
    rewrite (Z.mod_small ln), (Z.mod_small cm), (Z.mod_small nm), (Z.mod_small id),
      (Z.mod_small cl), (Z.mod_small sty) by lia.
    change (20 `mod` 2 ^ 16) with 20.
    rewrite (toInt32_id ns) by done.
    replace (offset w') with (offset w + 8 + 4 + 4 + 4 + 4 + 2 + 2 + 2 + 2 + 2 + 2
                              + 20 * Z.of_nat (length written)) by lia.
    reflexivity.
Qed.
End element_round_trip.

Lemma rewriteStartElement_round_trip_witness :
  ∃ w',
    rewriteStartElement parsed_manifest (strings parsed_manifest ++ [lit "debuggable"]) 7
      (newWriter 64) 304 = Some (w', 332)
    ∧ offset w' = 56
    ∧ parseChunk ascii_decode (writer_getBytes w') initialParser 0
        CHUNK_XML_START_ELEMENT 56 8
      = Some (push_element (mark_elements initialParser 0)
                (mkElem CHUNK_XML_START_ELEMENT 2 4294967295 (-1) 5
                   (Some [mkAttr 2 7 (-1) TYPE_INT_BOOLEAN (-1)])
                   (Some 20) (Some 20) (Some 1) (Some 0) (Some 0) (Some 0)),
              56).
Proof.
  eexists. split; [vm_compute; reflexivity|].
  match goal with |- offset ?W = _ ∧ _ => set (w' := W) end.
  assert (writer_ok (newWriter 64)) as Hok by (apply newWriter_ok; lia).
  assert (rewriteStartElement parsed_manifest
            (strings parsed_manifest ++ [lit "debuggable"]) 7 (newWriter 64) 304
          = Some (w', 332)) as E by (vm_compute; reflexivity).
  destruct (rewriteStartElement_round_trip ascii_decode parsed_manifest
              (strings parsed_manifest ++ [lit "debuggable"]) 7 (newWriter 64) w' 304 332
              initialParser initialParser Hok E)
    as (e & read & Hp & Ha & Hs & _ & _ & _ & Hc).
  - vm_compute. reflexivity.
  - lia.
  - assert (offset w' = 56) as Ho by (vm_compute; reflexivity).
    split; [exact Ho|].
    assert (e = mkElem CHUNK_XML_START_ELEMENT 2 4294967295 (-1) 5 (Some [])
                  (Some 20) (Some 20) (Some 0) (Some 0) (Some 0) (Some 0)) as ->.
    { vm_compute in Hp. by injection Hp as <-. }
    cbn in Ha. injection Ha as <-.
    change (offset (newWriter 64)) with 0 in Hc. rewrite Ho in Hc.
    change (56 - 0) with 56 in Hc. change (0 + 8) with 8 in Hc.
    apply Hc. vm_compute. reflexivity.
Defined.

Section elements_output.
Import Js Axml Signer Processor Spec Fixture.
Variable parsed : ParsedAXML.

Lemma writeElements_loop_output fuel newStrings idx pos w w' :
  writer_ok w →
  writeElements_loop parsed fuel newStrings idx pos w = Some w' →
  writer_ok w'
  ∧ ∃ out, writer_getBytes w' = writer_getBytes w ++ out
           ∧ rewritten_elements parsed newStrings idx pos out.
Proof.
  revert pos w. induction fuel as [|fuel IH]; intros pos w Hok;
    cbn [writeElements_loop]; cbv zeta.
  - case_decide as Hlt; [done|]. intros [= <-]. split; [done|].
    exists []. rewrite app_nil_r. split; [done|]. by apply rewritten_end.
  - case_decide as Hlt.
    2:{ intros [= <-]. split; [done|].
        exists []. rewrite app_nil_r. split; [done|]. by apply rewritten_end. }
    destruct (getUint32 (rawData parsed) pos) as [ty|] eqn:Ety; [|done].
    destruct (getUint32 (rawData parsed) (pos + 4)) as [sz|] eqn:Esz; [|done].
    cbn [mbind option_bind].
    case_decide as Hbrk.
    { intros [= <-]. split; [done|].
      exists []. rewrite app_nil_r. split; [done|]. by eapply rewritten_break. }
    case_decide as Hty.
    + subst ty.
      destruct (rewriteStartElement parsed newStrings idx w (pos + 8)) as [[w1 pos1]|] eqn:Er;
        [|done].
      cbn [mbind option_bind]. intros Hl.
      destruct (rewriteStartElement_bytes parsed newStrings idx w w1 (pos + 8) pos1
                  initialParser Hok Er)
        as (ln & cm & ns & nm & ast & asz & cnt & id & cl & sty & read & Hp & _ & Hw).
      cbv zeta in Hw. destruct Hw as (Hok1 & _ & Hb1).
      destruct (IH pos1 w1 Hok1 Hl) as (Hok' & out & Hb' & Hout).
      split; [done|].
      exists (start_element_chunk ln cm ns nm id cl sty
                (rewritten_attributes parsed newStrings idx nm read) ++ out).
      split; [by rewrite Hb', Hb1, <- app_assoc|].
      by eapply rewritten_start.
    + destruct (getBytes (rawData parsed) pos sz) as [data|] eqn:Ed; [|done].
      cbn [mbind option_bind]. intros Hl.
      destruct (put_spec data w Hok) as (Hok1 & _).
      destruct (IH (pos + sz) (writeBytes data w) Hok1 Hl) as (Hok' & out & Hb' & Hout).
      split; [done|]. exists (data ++ out).
      split.
      { rewrite Hb'. unfold writeBytes. rewrite writer_getBytes_put by done.
        by rewrite <- app_assoc. }
      by eapply rewritten_copy.
Qed.

(** X21.  What [writeElements] appends to the writer when it completes:
    walking the raw data from the recorded start of the elements, every
    chunk that is no start element byte for byte, and for every start
    element the chunk made of its words as [parseStartElement] reads them
    and of the rewritten attributes, the walk going on at the end of a
    copied chunk but, after a start element, where the reading of its
    attributes ended; the walk ends without a trace at the end of the
    data and at the first chunk of size 0 or running over the end. *)
Theorem writeElements_output (newStrings : list jsstring) (debuggableStrIdx : Z)
    (addedNewString : bool) (w w' : DataWriter) :
  writer_ok w →
  writeElements parsed newStrings debuggableStrIdx addedNewString w = Some w' →
  ∃ out,
    writer_getBytes w' = writer_getBytes w ++ out
    ∧ rewritten_elements parsed newStrings debuggableStrIdx (elementsOffset parsed) out.
Proof.
  intros Hok H. unfold writeElements in H.
  by destruct (writeElements_loop_output _ _ _ _ _ _ Hok H) as (_ & ?).
Qed.
End elements_output.

Lemma writeElements_output_witness :
  ∃ w',
    writeElements parsed_manifest (strings parsed_manifest ++ [lit "debuggable"]) 7 true
      (newWriter 16) = Some w'
    ∧ ∃ out,
        writer_getBytes w' = writer_getBytes (newWriter 16) ++ out
        ∧ rewritten_elements parsed_manifest (strings parsed_manifest ++ [lit "debuggable"])
            7 (elementsOffset parsed_manifest) out.
Proof.
  eexists. split; [vm_compute; reflexivity|].
  apply (writeElements_output parsed_manifest
           (strings parsed_manifest ++ [lit "debuggable"]) 7 true (newWriter 16)).
  - apply newWriter_ok. lia.
  - vm_compute. reflexivity.
Defined.

(** ** The debuggable flag of the manifest information *)

Section debuggable_flag.
Import Js Axml Spec Fixture.
Variable parsed : ParsedAXML.

Lemma last_flag_app ds ds' b : last_flag (ds ++ ds') b = last_flag ds' (last_flag ds b).
Proof.
  unfold last_flag. destruct ds' as [|d ds'] using rev_ind.
  - by rewrite app_nil_r.
  - by rewrite app_assoc, !last_snoc.
Qed.

Lemma fold_preserves_isDebuggable (f : ApkManifestInfo → AXMLAttribute → ApkManifestInfo)
    attrs info :
  (∀ i a, isDebuggable (f i a) = isDebuggable i) →
  isDebuggable (fold_left f attrs info) = isDebuggable info.
Proof.
  intros Hf. revert info. induction attrs as [|a attrs IH]; intros info; [done|].
  cbn [fold_left]. by rewrite IH, Hf.
Qed.

Lemma manifest_attr_isDebuggable i a :
  isDebuggable (manifest_attr parsed i a) = isDebuggable i.
Proof. unfold manifest_attr. by repeat case_decide. Qed.

Lemma uses_sdk_attr_isDebuggable i a :
  isDebuggable (uses_sdk_attr parsed i a) = isDebuggable i.
Proof. unfold uses_sdk_attr. by repeat case_decide. Qed.

Lemma uses_permission_attr_isDebuggable i a :
  isDebuggable (uses_permission_attr parsed i a) = isDebuggable i.
Proof. unfold uses_permission_attr. by repeat case_decide. Qed.

Lemma fold_application_attr attrs info :
  isDebuggable (fold_left (application_attr parsed) attrs info)
  = last_flag
      (map data (filter (fun a => str_or_empty (strings parsed) (attr_name a)
                                  = lit "debuggable") attrs))
      (isDebuggable info).
Proof.
  revert info. induction attrs as [|a attrs IH]; intros info; cbn [fold_left]; [done|].
  rewrite IH. rewrite filter_cons. unfold application_attr. cbv zeta.
  destruct (decide (str_or_empty (strings parsed) (attr_name a) = lit "debuggable")) as [Hd|Hd].
  - cbn [map isDebuggable with_isDebuggable].
    change (data a :: ?l) with ([data a] ++ l). by rewrite last_flag_app.
  - by case_decide.
Qed.

Lemma info_element_isDebuggable info e :
  isDebuggable (info_element parsed info e)
  = last_flag (debuggable_values (strings parsed) e) (isDebuggable info).
Proof.
  unfold info_element, debuggable_values.
  destruct (decide (chunkType e = CHUNK_XML_START_ELEMENT)) as [Hs|Hs].
  2: { by rewrite decide_False by (by intros [? _]). }
  cbv zeta.
  set (i2 := if decide (str_or_empty _ _ = lit "uses-sdk" ∧ _) then _ else _).
  assert (isDebuggable i2 = isDebuggable info) as H2.
  { unfold i2. repeat case_decide;
      rewrite ?fold_preserves_isDebuggable
        by auto using manifest_attr_isDebuggable, uses_sdk_attr_isDebuggable; done. }
  set (i3 := if decide (str_or_empty _ _ = lit "application" ∧ _) then _ else _).
  assert (isDebuggable i3
          = last_flag
              (if decide (chunkType e = CHUNK_XML_START_ELEMENT
                          ∧ str_or_empty (strings parsed) (name e) = lit "application")
               then map data (filter (fun a => str_or_empty (strings parsed) (attr_name a)
                                               = lit "debuggable")
                                (default [] (attributes e)))
               else []) (isDebuggable info)) as H3.
  { unfold i3.
    destruct (decide (str_or_empty (strings parsed) (name e) = lit "application")) as [Ha|Ha].
    - rewrite (decide_True (P := chunkType e = _ ∧ _)) by done.
      destruct (attributes e) as [attrs|] eqn:Ea.
      + rewrite decide_True by (split; [done|by eexists]).
        by rewrite fold_application_attr, H2.
      + rewrite decide_False by (intros [_ [? [=]]]). by rewrite H2.
    - rewrite decide_False by (by intros [? _]).
      rewrite (decide_False (P := chunkType e = _ ∧ _)) by (by intros [_ ?]).
      by rewrite H2. }
  rewrite <- H3. clear H3.
  match goal with |- context [decide ?P] => destruct (decide P) end; [|done].
  by rewrite fold_preserves_isDebuggable by auto using uses_permission_attr_isDebuggable.
Qed.

(** X11.  [isDebuggable] as [getManifestInfo] reports it is decided by
    the last attribute called debuggable among the application start
    elements of the stream: true when its data word is not 0, false when
    it is 0 or when there is no such attribute. *)
Theorem getManifestInfo_isDebuggable :
  isDebuggable (getManifestInfo parsed)
  = last_flag (flat_map (debuggable_values (strings parsed)) (elements parsed)) false.
Proof.
  unfold getManifestInfo.
  assert (∀ els info, isDebuggable (fold_left (info_element parsed) els info)
            = last_flag (flat_map (debuggable_values (strings parsed)) els)
                (isDebuggable info)) as H.
  { induction els as [|e els IH]; intros info; cbn [fold_left flat_map]; [done|].
    by rewrite IH, info_element_isDebuggable, last_flag_app. }
  by rewrite H.
Qed.
End debuggable_flag.

(** ** Line wrapping and the signed files *)

Section wrapping.
Import Js Axml Signer Processor Spec Fixture.

Lemma cont_lines_bounded fuel r :
  Forall (fun l => (2 ≤ length l ≤ 70)%nat ∧ startsWith l (lit " ") = true)
         (cont_lines fuel r).
Proof.
  revert r. induction fuel as [|fuel IH]; intros r; cbn [cont_lines]; [constructor|].
  case_decide as Hl; [|constructor]. constructor; [|apply IH].
  split; [|apply startsWith_app].
  rewrite length_app, length_take. cbn [length lit]. change (length (lit " ")) with 1%nat. lia.
Qed.

(** X12.  [wrapLine] writes a first line and continuation lines, each
    ended by CRLF: no line is longer than 70 characters, every
    continuation line is a space followed by at least one character, the
    first line followed by the continuation lines without their spaces is
    the line that was wrapped, and there is a continuation line exactly
    when that line is longer than 70 characters. *)
Theorem wrapLine_physical_lines (line : jsstring) :
  ∃ l ls,
    wrapLine line = unlines (l :: ls)
    ∧ Forall (fun x => (length x ≤ 70)%nat) (l :: ls)
    ∧ Forall (fun x => startsWith x (lit " ") = true ∧ (2 ≤ length x)%nat) ls
    ∧ l ++ flat_map (drop 1) ls = line
    ∧ (ls = [] ↔ (length line ≤ 70)%nat).
Proof.
  rewrite wrapLine_lines. unfold phys_lines. case_decide as Hl.
  - exists line, []. split_and!; [done|constructor; [done|constructor]|constructor|by rewrite app_nil_r|done].
  - exists (take 70 line), (cont_lines (length line) (drop 70 line)).
    pose proof (cont_lines_bounded (length line) (drop 70 line)) as Hb.
    split_and!.
    + done.
    + constructor; [rewrite length_take; lia|].
      eapply Forall_impl; [exact Hb|]. cbv beta. intros x [? _]. lia.
    + eapply Forall_impl; [exact Hb|]. cbv beta. intros x [? ?]. split; [done|lia].
    + rewrite cont_lines_unwrap by (rewrite length_drop; lia). apply take_drop.
    + split; [|lia]. intros He. exfalso.
      destruct (length line) as [|n] eqn:En; [lia|]. cbn [cont_lines] in He.
      rewrite decide_True in He by (rewrite length_drop; lia). done.
Qed.
End wrapping.

Section signing.
Import Js Axml Signer Processor Spec Fixture.
Context {SigningKey : Type}.
Variable sha256Base64 : list byte → jsstring.
Variable utf8_encode : jsstring → list byte.
Variable createCertRSA : jsstring → SigningKey → completion (list byte).

(** X13.  [signApk] on a map whose names are not empty and hold no line
    feed, the digest text holding none either: MANIFEST.MF is the header
    followed by the blocks of the entries outside META-INF/ in name order;
    CERT.SF is its header followed, in the same order, by one block per
    entry, which names the first 64 characters of the entry name and
    carries the digest of the entry's manifest block; the call returns
    the two with the CMS block when the CMS signer returns, and throws or
    hangs as the CMS signer does. *)
Theorem signApk_signs_every_entry (files : FileMap) (signingKey : SigningKey) :
  (∀ d, 10 ∉ sha256Base64 d) →
  (∀ n, n ∈ map_keys files → n ≠ [] ∧ 10 ∉ n) →
  let manifestMF :=
    manifestHeader ++ flat_map (entry_block sha256Base64) (signed_entries files) in
  let certSF :=
    sfHeader sha256Base64 utf8_encode manifestMF
    ++ flat_map (sf_block_of sha256Base64 utf8_encode) (signed_entries files) in
  signApk sha256Base64 utf8_encode createCertRSA files signingKey
  = match createCertRSA certSF signingKey with
    | Normal certRSA => Normal (manifestMF, certSF, certRSA)
    | Throw e => Throw e
    | Diverge => Diverge
    end.
Proof.
  intros Hsha Hnames manifestMF certSF. unfold signApk.
  pose proof (createCertSF_manifest sha256Base64 utf8_encode files Hsha Hnames) as H.
  cbv zeta in H. rewrite H. rewrite createManifestMF_blocks. done.
Qed.
End signing.

Lemma demo_digest_LF_free d : 10 ∉ demo_digest d.
Proof.
  unfold demo_digest. cbv zeta. rewrite not_elem_of_app. split.
  - apply not_elem_take. rewrite not_elem_of_app. split.
    + intros (b & Hb & _)%list_elem_of_fmap.
      pose proof (Z.mod_pos_bound (Z_of_byte b) 26 ltac:(lia)). lia.
    + intros [? _]%elem_of_replicate. done.
  - by intros [=]%list_elem_of_singleton.
Qed.

Lemma signApk_signs_every_entry_witness :
  signApk demo_digest ascii_encode demo_createCertRSA long_name_files tt
  = Normal (manifestHeader ++ entry_block demo_digest (long_name, [x00]),
            sfHeader demo_digest ascii_encode
              (manifestHeader ++ entry_block demo_digest (long_name, [x00]))
            ++ sf_block_of demo_digest ascii_encode (long_name, [x00]),
            []).
Proof.
  assert (∀ n, n ∈ map_keys long_name_files → n ≠ [] ∧ 10 ∉ n) as Hn.
  { intros n Hin. apply list_elem_of_singleton in Hin as ->.
    split; [done|]. apply closed_LF_free. vm_compute. reflexivity. }
  pose proof (signApk_signs_every_entry demo_digest ascii_encode demo_createCertRSA
                long_name_files tt demo_digest_LF_free Hn) as H.
  cbv zeta in H. rewrite H.
  change (signed_entries long_name_files) with [(long_name, [x00])].
  cbn [flat_map]. rewrite !app_nil_r. reflexivity.
Defined.

(** ** The archive steps of the orchestrator *)

Section signatures.
Import Js Axml Signer Processor Spec Fixture.
Variable toUpperCase : jsstring → jsstring.

Lemma filter_ext_elem {A} (P Q : A → Prop) `{∀ x, Decision (P x)} `{∀ x, Decision (Q x)}
    (l : list A) :
  (∀ x, x ∈ l → P x ↔ Q x) → filter P l = filter Q l.
Proof.
  induction l as [|x l IH]; intros Hpq; [done|]. rewrite !filter_cons.
  rewrite IH by (intros y Hy; apply Hpq; by right).
  destruct (decide (P x)) as [Hp|Hp], (decide (Q x)) as [Hq|Hq]; try done.
  - exfalso. apply Hq, Hpq; [by left|done].
  - exfalso. apply Hp, Hpq; [by left|done].
Qed.

Lemma fold_zip_remove (paths : list jsstring) (zip : JSZip) :
  fold_left zip_remove paths zip = filter (fun e => e.1 ∉ paths) zip.
Proof.
  revert zip. induction paths as [|p paths IH]; intros zip; cbn [fold_left].
  - induction zip as [|e zip IHz]; [done|]. rewrite filter_cons.
    rewrite decide_True by apply not_elem_of_nil. by rewrite <- IHz.
  - rewrite IH. unfold zip_remove. rewrite list_filter_filter.
    apply list_filter_iff. intros e. rewrite not_elem_of_cons. tauto.
Qed.

Lemma zip_lookup_filter (f : jsstring → bool) (zip : JSZip) path :
  zip_lookup (filter (fun e => f e.1 = false) zip) path
  = if f path then None else zip_lookup zip path.
Proof.
  induction zip as [|[n o] zip IH]; cbn [zip_lookup].
  - rewrite filter_nil. cbn. by destruct (f path).
  - rewrite filter_cons. cbn [fst]. destruct (f n) eqn:En.
    + rewrite decide_False by done. rewrite IH.
      destruct (decide (n = path)) as [<-|]; [by rewrite En|done].
    + rewrite decide_True by done. cbn [zip_lookup].
      destruct (decide (n = path)) as [<-|]; [by rewrite En|done].
Qed.

Lemma removeSignatures_filter (zip : JSZip) :
  (removeSignatures toUpperCase zip).1
  = filter (fun e => is_signature_file toUpperCase e.1 = false) zip.
Proof.
  unfold removeSignatures. cbn [fst]. rewrite fold_zip_remove.
  apply filter_ext_elem. intros [n o] Hin. cbn [fst].
  rewrite list_elem_of_filter. split.
  - intros Hn. destruct (is_signature_file toUpperCase n) eqn:E; [|done].
    exfalso. apply Hn. split; [done|]. apply list_elem_of_fmap. by exists (n, o).
  - intros E [E' _]. congruence.
Qed.

(** X14.  [removeSignatures] leaves the entries that are not signature
    files, in their order, and returns the number of entries it removed;
    afterwards no signature file is found, every other name is found as
    before, and nothing outside META-INF/ is touched. *)
Theorem removeSignatures_removes_exactly (zip : JSZip) :
  let zip' := (removeSignatures toUpperCase zip).1 in
  let removed := (removeSignatures toUpperCase zip).2 in
  zip' = filter (fun e => is_signature_file toUpperCase e.1 = false) zip
  ∧ removed + Z.of_nat (length zip') = Z.of_nat (length zip)
  ∧ (∀ path, zip_lookup zip' path
             = if is_signature_file toUpperCase path then None else zip_lookup zip path)
  ∧ (∀ path, startsWith path (lit "META-INF/") = false →
             zip_lookup zip' path = zip_lookup zip path).
Proof.
  intros zip' removed.
  assert (zip' = filter (fun e => is_signature_file toUpperCase e.1 = false) zip) as Hf
    by apply removeSignatures_filter.
  assert (∀ path, zip_lookup zip' path
             = if is_signature_file toUpperCase path then None else zip_lookup zip path) as Hl.
  { intros path. rewrite Hf.
    apply zip_lookup_filter. }
  split_and!; [done| |done|].
  - rewrite Hf. unfold removed, removeSignatures. cbn [snd]. clear.
    induction zip as [|[n o] zip IH]; [done|].
    cbn [map fst]. rewrite !filter_cons. cbn [fst].
    destruct (is_signature_file toUpperCase n) eqn:E.
    + rewrite decide_True by done. rewrite decide_False by done. cbn [length] in *. lia.
    + rewrite decide_False by done. rewrite decide_True by done. cbn [length] in *. lia.
  - intros path Hp. rewrite Hl. unfold is_signature_file. by rewrite Hp.
Qed.
End signatures.

Section collecting.
Import Js Axml Signer Processor Spec Fixture.

Lemma collectFiles_Normal zip acc :
  NoDup (map_keys acc ++ map fst zip) → Forall readable zip →
  collectFiles zip acc = Normal (acc ++ file_entries zip).
Proof.
  revert acc. induction zip as [|[n o] zip IH]; intros acc Hnd Hr; cbn [collectFiles].
  - by rewrite app_nil_r.
  - apply Forall_cons in Hr as [Hr1 Hr].
    assert (NoDup (map_keys acc ++ map fst zip) ∧ (n ∉ map_keys acc)
            ∧ n ∉ map fst zip) as (Hnd' & Hn1 & Hn2).
    { cbn [map fst] in Hnd. apply NoDup_app in Hnd as (H1 & H2 & H3).
      apply NoDup_cons in H3 as [H3 H4].
      split_and!; [|intros Hin; eapply H2; [done|left; done]|done].
      apply NoDup_app. split_and!; [done| |done]. intros x Hx Hx'. eapply H2; [done|right; done]. }
    unfold file_entries. cbn [flat_map fst snd]. fold (file_entries zip).
    destruct (dir o) eqn:Ed; [by apply IH|].
    destruct Hr1 as [Hr1|[d Hd]]; cbn [snd] in *; [congruence|]. rewrite Hd.
    rewrite IH; [|rewrite map_set_fresh by done|done].
    + rewrite map_set_fresh by done. by rewrite <- app_assoc.
    + unfold map_keys. rewrite map_app. cbn [map fst]. rewrite <- app_assoc. cbn [app].
      apply NoDup_app in Hnd' as (H1 & H2 & H3).
      apply NoDup_app. split_and!; [done| |by apply NoDup_cons].
      intros x Hx [->|Hx']%elem_of_cons; [done|]. by eapply H2.
Qed.

Lemma collectFiles_Throw pre n o post acc err :
  Forall readable pre → dir o = false → async o = Throw err →
  collectFiles (pre ++ (n, o) :: post) acc = Throw err.
Proof.
  intros Hr Hd Ha. revert acc. induction Hr as [|[m f] pre Hf _ IH]; intros acc;
    cbn [collectFiles app].
  - by rewrite Hd, Ha.
  - destruct (dir f) eqn:Ed; [apply IH|].
    destruct Hf as [Hf|[d Hf]]; cbn [snd] in *; [congruence|]. rewrite Hf. apply IH.
Qed.

(** X15.  [collectFiles] on an archive with distinct names: when every
    file of the archive can be read, the map returned has distinct keys
    and holds under a name exactly the bytes of the archive's file of that
    name, directories being left out; and when one file cannot be read
    while the others can, the call throws what that read throws. *)
Theorem collectFiles_reads_every_file (zip : JSZip) :
  NoDup (map fst zip) →
  (Forall readable zip →
     ∃ files, collectFiles zip [] = Normal files
       ∧ NoDup (map_keys files)
       ∧ ∀ n d, map_get files n = Some d
                ↔ ∃ o, zip_lookup zip n = Some o ∧ dir o = false ∧ async o = Normal d)
  ∧ (∀ pre n o post err,
       zip = pre ++ (n, o) :: post → Forall readable pre → Forall readable post →
       dir o = false → async o = Throw err →
       collectFiles zip [] = Throw err).
Proof.
  intros Hnd. split.
  - intros Hr. exists (file_entries zip). split_and!.
    + apply (collectFiles_Normal zip []); [done|done].
    + by apply file_entries_keys_NoDup.
    + intros n d. rewrite <- map_get_Some by by apply file_entries_keys_NoDup.
      rewrite file_entries_elem. split.
      * intros (o & Hin & Hd & Ha). exists o. split; [|done].
        clear -Hnd Hin. induction zip as [|[m f] zip IH]; [by apply elem_of_nil in Hin|].
        apply NoDup_cons in Hnd as [Hm Hnd]. cbn [zip_lookup].
        apply elem_of_cons in Hin as [[= <- <-]|Hin]; [by rewrite decide_True|].
        rewrite decide_False; [by apply IH|]. intros ->. apply Hm.
        apply list_elem_of_fmap. by exists (n, o).
      * intros (o & Hl & Hd & Ha). exists o. split; [|done]. by apply zip_lookup_elem.
  - intros pre n o post err -> Hr _ Hd Ha. by apply collectFiles_Throw.
Qed.
End collecting.

Lemma collectFiles_reads_every_file_witness :
  (∃ files, collectFiles digest_zip [] = Normal files ∧ NoDup (map_keys files))
  ∧ collectFiles (digest_zip ++ [(lit "c", mkZipObject false (Throw NonError))]) []
    = Throw NonError.
Proof.
  assert (Forall readable digest_zip) as Hr.
  { unfold digest_zip.
    repeat (apply Forall_cons; split;
            [unfold readable; cbn; first [by left|right; eexists; reflexivity]|]).
    apply Forall_nil_2. }
  split.
  - assert (NoDup (map fst digest_zip)) as Hn.
    { refine (bool_decide_unpack _ _). vm_compute. exact I. }
    destruct (proj1 (collectFiles_reads_every_file digest_zip Hn) Hr) as (files & H1 & H2 & _).
    exists files. split; [exact H1|exact H2].
  - assert (NoDup (map fst (digest_zip ++ [(lit "c", mkZipObject false (Throw NonError))])))
      as Hn.
    { refine (bool_decide_unpack _ _). vm_compute. exact I. }
    exact (proj2 (collectFiles_reads_every_file _ Hn) digest_zip (lit "c")
             (mkZipObject false (Throw NonError)) [] NonError eq_refl Hr
             (Forall_nil_2 _) eq_refl eq_refl).
Defined.

Section binary_patch.
Import Js Axml Signer Processor Spec Fixture.

Lemma patch_inner_spec turns result j limit :
  match patch_inner turns result j limit with
  | Some out =>
      ∃ j', j ≤ j' < limit ∧ j' < j + Z.of_nat turns
            ∧ bytes_at result j' [x12; x00; x00; x08] = true
            ∧ (∀ j2, j ≤ j2 < j' → bytes_at result j2 [x12; x00; x00; x08] = false)
            ∧ out = <[(Z.to_nat j' + 7)%nat := xff]> (<[(Z.to_nat j' + 6)%nat := xff]>
                     (<[(Z.to_nat j' + 5)%nat := xff]> (<[(Z.to_nat j' + 4)%nat := xff]> result)))
  | None =>
      ∀ j2, j ≤ j2 < Z.min limit (j + Z.of_nat turns) →
            bytes_at result j2 [x12; x00; x00; x08] = false
  end.
Proof.
  revert j. induction turns as [|turns IH]; intros j; cbn [patch_inner].
  - intros j2 Hj2. lia.
  - case_decide as Hlt; [|intros j2 Hj2; lia].
    destruct (bytes_at result j _) eqn:Eb.
    + exists j. split_and!; try done; try lia.
    + specialize (IH (j + 1)). destruct (patch_inner turns result (j + 1) limit) as [out|].
      * destruct IH as (j' & H1 & H2 & H3 & H4 & H5). exists j'.
        split_and!; try done; try lia. intros j2 Hj2.
        destruct (decide (j2 = j)) as [->|]; [done|]. apply H4. lia.
      * intros j2 Hj2. destruct (decide (j2 = j)) as [->|]; [done|]. apply IH. lia.
Qed.

Lemma patch_outer_spec turns result i :
  0 ≤ i → Z.of_nat (length result) - 20 - i ≤ Z.of_nat turns →
  let out := patch_outer turns result i in
  (out = result ∧ ∀ i2 j2, i ≤ i2 → ¬ marker_at result i2 j2)
  ∨ ∃ i' j', i ≤ i' ∧ marker_at result i' j'
             ∧ (∀ i2 j2, i ≤ i2 → marker_at result i2 j2 → i' < i2 ∨ i' = i2 ∧ j' ≤ j2)
             ∧ out = <[(Z.to_nat j' + 7)%nat := xff]> (<[(Z.to_nat j' + 6)%nat := xff]>
                      (<[(Z.to_nat j' + 5)%nat := xff]> (<[(Z.to_nat j' + 4)%nat := xff]> result))).
Proof.
  revert i. induction turns as [|turns IH]; intros i Hi Ht out; unfold out;
    cbn [patch_outer]; cbv zeta.
  - left. split; [done|]. intros i2 j2 Hi2 (H1 & _). lia.
  - case_decide as Hlt; [|left; split; [done|]; intros i2 j2 Hi2 (H1 & _); lia].
    assert (
      (∀ j2, ¬ marker_at result i j2) →
      ((patch_outer turns result (i + 1) = result
        ∧ ∀ i2 j2, i ≤ i2 → ¬ marker_at result i2 j2)
       ∨ ∃ i' j', i ≤ i' ∧ marker_at result i' j'
          ∧ (∀ i2 j2, i ≤ i2 → marker_at result i2 j2 → i' < i2 ∨ i' = i2 ∧ j' ≤ j2)
          ∧ patch_outer turns result (i + 1)
            = <[(Z.to_nat j' + 7)%nat := xff]> (<[(Z.to_nat j' + 6)%nat := xff]>
               (<[(Z.to_nat j' + 5)%nat := xff]> (<[(Z.to_nat j' + 4)%nat := xff]> result))))) as Hnext.
    { intros Hno. destruct (IH (i + 1) ltac:(lia) ltac:(lia)) as [[He Hn]|(i' & j' & H1 & H2 & H3 & H4)].
      - left. split; [done|]. intros i2 j2 Hi2. destruct (decide (i2 = i)) as [->|]; [apply Hno|].
        apply Hn. lia.
      - right. exists i', j'. split; [lia|]. split; [done|]. split; [|done]. intros i2 j2 Hi2 Hm.
        destruct (decide (i2 = i)) as [->|]; [by apply Hno in Hm|]. apply H3; [lia|done]. }
    destruct (bytes_at result i _) eqn:Eb.
    + pose proof (patch_inner_spec 20 result (i + 4)
                    (Z.min (i + 24) (Z.of_nat (length result) - 4))) as Hin.
      destruct (patch_inner 20 result (i + 4) _) as [patched|].
      * destruct Hin as (j' & H1 & H2 & H3 & H4 & H5). right. exists i, j'.
        split; [lia|]. split; [|split; [intros i2 j2 Hi2 Hm|done]].
        -- unfold marker_at. split_and!; try done; lia.
        -- destruct (decide (i2 = i)) as [->|]; [|lia]. right. split; [done|].
           destruct (decide (j' ≤ j2)); [done|]. destruct Hm as (_ & _ & Hj & Hb).
           rewrite H4 in Hb by lia. done.
      * apply Hnext. intros j2 (_ & _ & Hj & Hb). rewrite Hin in Hb by lia. done.
    + apply Hnext. intros j2 (_ & Hb & _). congruence.
Qed.

(** X16.  [patchManifestBinary] keeps the length.  It returns the input
    unchanged when no occurrence of the bytes 0f 00 01 01 is followed,
    within twenty bytes and more than four bytes before the end, by the
    bytes 12 00 00 08; otherwise it takes the first such occurrence and
    the first such marker after it, sets the four bytes after the marker
    to 0xFF as far as they lie inside the buffer, and changes no other
    byte. *)
Theorem patchManifestBinary_sets_first_marker (data : list byte) :
  let out := patchManifestBinary data in
  length out = length data
  ∧ ((∀ i j, ¬ marker_at data i j) → out = data)
  ∧ ((∃ i j, marker_at data i j) →
     ∃ i' j', marker_at data i' j'
       ∧ (∀ i j, marker_at data i j → i' < i ∨ i' = i ∧ j' ≤ j)
       ∧ (∀ k : nat, j' + 4 ≤ Z.of_nat k < j' + 8 → (k < length data)%nat →
                     out !! k = Some xff)
       ∧ (∀ k : nat, Z.of_nat k < j' + 4 ∨ j' + 8 ≤ Z.of_nat k → out !! k = data !! k)).
Proof.
  intros out.
  destruct (patch_outer_spec (length data) data 0 ltac:(lia) ltac:(lia))
    as [[He Hn]|(i' & j' & _ & Hm & Hmin & He)]; fold (patchManifestBinary data) in He;
    fold out in He.
  - split_and!; [by rewrite He|done|]. intros (i & j & Hm). exfalso. apply (Hn i j); [|done].
    destruct Hm as (? & _). lia.
  - assert (0 ≤ j') as Hj by (destruct Hm as (? & _ & ? & _); lia).
    split_and!.
    + rewrite He. by rewrite !length_insert.
    + intros Hno. by apply Hno in Hm.
    + intros _. exists i', j'. split; [done|]. split; [|split].
      * intros i j Hm'. apply Hmin; [|done]. destruct Hm' as (? & _). lia.
      * intros k Hk Hlen. rewrite He.
        destruct (decide (k = Z.to_nat j' + 7)%nat) as [->|];
          [apply list_lookup_insert_eq; rewrite !length_insert; lia|].
        rewrite list_lookup_insert_ne by lia.
        destruct (decide (k = Z.to_nat j' + 6)%nat) as [->|];
          [apply list_lookup_insert_eq; rewrite !length_insert; lia|].
        rewrite list_lookup_insert_ne by lia.
        destruct (decide (k = Z.to_nat j' + 5)%nat) as [->|];
          [apply list_lookup_insert_eq; rewrite !length_insert; lia|].
        rewrite list_lookup_insert_ne by lia.
        assert (k = Z.to_nat j' + 4)%nat as -> by lia.
        apply list_lookup_insert_eq. lia.
      * intros k Hk. rewrite He. rewrite !list_lookup_insert_ne by lia. done.
Qed.
End binary_patch.

Lemma patchManifestBinary_sets_first_marker_witness :
  let data := [x0f; x00; x01; x01; x12; x00; x00; x08] ++ replicate 16 x00 in
  marker_at data 0 4
  ∧ take 4 (drop 8 (patchManifestBinary data)) = [xff; xff; xff; xff]
  ∧ take 8 (patchManifestBinary data) = take 8 data
  ∧ drop 12 (patchManifestBinary data) = drop 12 data.
Proof.
  intros data.
  assert (marker_at data 0 4) as Hm.
  { unfold marker_at. split_and!; try done; vm_compute; done. }
  split; [exact Hm|].
  destruct (proj2 (proj2 (patchManifestBinary_sets_first_marker data))
              (ex_intro _ 0 (ex_intro _ 4 Hm))) as (i' & j' & Hm' & Hmin & Hff & Hsame).
  assert (j' = 4) as ->.
  { destruct (Hmin 0 4 Hm) as [?|[-> ?]]; destruct Hm' as (? & _ & ? & _); lia. }
  pose proof (proj1 (patchManifestBinary_sets_first_marker data)) as Hlen.
  cbv zeta in Hlen.
  split_and!; apply list_eq; intros k.
  - rewrite lookup_take, lookup_drop. destruct (decide (k < 4)%nat) as [Hk|Hk].
    + rewrite (Hff (8 + k)%nat) by (cbn; lia).
      do 4 (destruct k as [|k]; [done|]). lia.
    + symmetry. apply lookup_ge_None_2. cbn. lia.
  - rewrite !lookup_take. case_decide; [|done]. apply Hsame. lia.
  - rewrite !lookup_drop. apply Hsame. lia.
Defined.

Section merge_adds.
Import Js Axml Signer Processor Spec Fixture.

Lemma zip_lookup_None zip path : zip_lookup zip path = None ↔ path ∉ map fst zip.
Proof.
  induction zip as [|[n o] zip IH]; cbn [zip_lookup map fst].
  - split; [intros _; apply not_elem_of_nil|done].
  - rewrite not_elem_of_cons. case_decide as E; [subst; split; [done|tauto]|].
    rewrite IH. split; [by auto|tauto].
Qed.

Lemma zip_lookup_NoDup zip path o :
  NoDup (map fst zip) → (path, o) ∈ zip → zip_lookup zip path = Some o.
Proof.
  induction zip as [|[n f] zip IH]; cbn [zip_lookup map fst];
    [by intros _ ?%elem_of_nil|].
  intros [Hn Hnd]%NoDup_cons [[= <- <-]|Hin]%elem_of_cons; [by rewrite decide_True|].
  rewrite decide_False; [by apply IH|]. intros ->. apply Hn.
  apply list_elem_of_fmap. by exists (path, o).
Qed.

Lemma merge_entries_lookup entries mainZip cnt merged cnt' :
  NoDup (map fst entries) →
  merge_entries entries mainZip cnt = Normal (merged, cnt') →
  cnt' = cnt + Z.of_nat (length entries)
  ∧ (∀ path o, (path, o) ∈ entries →
       ∃ data, async o = Normal data
               ∧ zip_lookup merged path = Some (mkZipObject false (Normal data)))
  ∧ (∀ path, path ∉ map fst entries → zip_lookup merged path = zip_lookup mainZip path).
Proof.
  revert mainZip cnt. induction entries as [|[p f] entries IH]; intros mainZip cnt Hnd;
    cbn [merge_entries].
  - intros [= <- <-]. split_and!; [cbn; lia| |done]. by intros ?? ?%elem_of_nil.
  - cbn [map fst] in Hnd. apply NoDup_cons in Hnd as [Hp Hnd].
    destruct (async f) as [d| |] eqn:Ea; try done. intros Hm.
    destruct (IH _ _ Hnd Hm) as (Hc & Hin & Hout). split_and!.
    + cbn [length]. lia.
    + intros path o [[= -> ->]|Ho]%elem_of_cons; [|by apply Hin].
      exists d. split; [done|]. rewrite Hout by done. rewrite zip_lookup_put.
      by rewrite decide_True.
    + intros path [Hne Hnot]%not_elem_of_cons. rewrite Hout by done.
      rewrite zip_lookup_put. by rewrite decide_False.
Qed.

(** X17.  One split merged into the main archive, the names of the
    split being distinct: the count is the number of eligible entries of
    the split, the files outside META-INF/ whose name is not a file of the
    main archive; each of them is afterwards a file of the merged archive
    with the bytes read from the split; and a name with no eligible entry
    in the split is a file of the merged archive exactly as it was one of
    the main archive. *)
Theorem merge_split_adds_new_files (mainZip splitZip merged : JSZip) (mergedCount : Z) :
  NoDup (map fst splitZip) →
  merge_split mainZip splitZip = Normal (merged, mergedCount) →
  mergedCount = Z.of_nat (length (eligible mainZip splitZip))
  ∧ (∀ path o,
       (path, o) ∈ splitZip → dir o = false →
       startsWith path (lit "META-INF/") = false → zip_file mainZip path = None →
       ∃ data, async o = Normal data
               ∧ zip_file merged path = Some (mkZipObject false (Normal data)))
  ∧ (∀ path,
       (∀ o, (path, o) ∈ splitZip →
             dir o = true ∨ startsWith path (lit "META-INF/") = true
             ∨ zip_file mainZip path ≠ None) →
       zip_file merged path = zip_file mainZip path).
Proof.
  intros Hnd Hm. unfold merge_split in Hm.
  assert (NoDup (map fst (eligible mainZip splitZip))) as Hnd'.
  { unfold eligible. clear -Hnd. induction splitZip as [|[n o] zip IH]; [constructor|].
    cbn [map fst] in Hnd. apply NoDup_cons in Hnd as [Hn Hnd]. rewrite filter_cons.
    case_decide; [|by apply IH]. cbn [map fst]. apply NoDup_cons. split; [|by apply IH].
    intros ([m f] & -> & [_ Hin]%list_elem_of_filter)%list_elem_of_fmap. apply Hn.
    apply list_elem_of_fmap. by exists (m, f). }
  destruct (merge_entries_lookup _ _ _ _ _ Hnd' Hm) as (Hc & Hin & Hout). split_and!.
  - lia.
  - intros path o Ho Hd Hmeta Hfree.
    destruct (Hin path o) as (data & Ha & Hl).
    { unfold eligible. apply list_elem_of_filter. by cbn. }
    exists data. split; [done|]. unfold zip_file. by rewrite Hl.
  - intros path Hno. unfold zip_file. rewrite Hout; [done|].
    intros ([m f] & -> & [(Hd & Hmeta & Hfree) Hel]%list_elem_of_filter)%list_elem_of_fmap.
    cbn [fst snd] in *. destruct (Hno f Hel) as [?|[?|?]]; congruence.
Qed.
End merge_adds.

Lemma merge_split_adds_new_files_witness :
  merge_split demo_base demo_split = Normal (demo_merged, 1)
  ∧ zip_file demo_merged (lit "res/y") = Some (mkZipObject false (Normal (bytes_of "C")))
  ∧ zip_file demo_merged (lit "res/x") = zip_file demo_base (lit "res/x").
Proof.
  assert (NoDup (map fst demo_split)) as Hn.
  { refine (bool_decide_unpack _ _). vm_compute. exact I. }
  assert (merge_split demo_base demo_split = Normal (demo_merged, 1)) as Hm
    by (vm_compute; reflexivity).
  destruct (merge_split_adds_new_files demo_base demo_split demo_merged 1 Hn Hm)
    as (_ & Hin & Hout).
  split; [exact Hm|]. split.
  - destruct (Hin (lit "res/y") (mkZipObject false (Normal (bytes_of "C"))))
      as (data & Ha & Hl); [|reflexivity|reflexivity|reflexivity|].
    + right. left.
    + injection Ha as <-. exact Hl.
  - apply Hout. intros o Ho. right. right. discriminate.
Defined.

(** ** What the orchestrator returns *)

Section success.
Import Js Axml Signer Processor Spec Fixture.
Context {Blob SigningKey CbState : Type}.
Variable onLog : ProcessingLog → CbState → completion unit * CbState.
Variable clock : nat → Z.
Variable loadAsync : list byte → completion JSZip.
Variable generateAsync : JSZip → completion Blob.
Variable blob_size : Blob → Z.
Variable generateSigningKey : completion SigningKey.
Variable createCertRSA : jsstring → SigningKey → completion (list byte).
Variable sha256Base64 : list byte → jsstring.
Variable utf8_encode : jsstring → list byte.
Variable utf8_decode : list byte → jsstring.
Variable toLowerCase toUpperCase : jsstring → jsstring.
Variable toFixedMB : Z → jsstring.
Variable rangeErrorMessage : jsstring.

Hypothesis onLog_returns : ∀ entry cb, (onLog entry cb).1 = Normal tt.

Local Abbreviation log := (log onLog clock).

Local Abbreviation processApk :=
  (processApk onLog clock loadAsync generateAsync blob_size generateSigningKey
     createCertRSA sha256Base64 utf8_encode utf8_decode toLowerCase toUpperCase
     toFixedMB rangeErrorMessage).
Local Abbreviation processApk_try :=
  (processApk_try onLog clock loadAsync generateAsync blob_size generateSigningKey
     createCertRSA sha256Base64 utf8_encode utf8_decode toLowerCase toUpperCase
     toFixedMB).

(** X18.  What a [processApk] that reports success has done, the
    consumer of the log events returning on every event.  The archive
    worked on is the one loaded from the file's bytes, or merged from them
    by [processApksBundle] when the file name ends in .apks; its manifest
    entry was read; the archive handed to [generateAsync] holds under
    AndroidManifest.xml the output of [makeManifestDebuggable], or that of
    [patchManifestBinary] when the former threw; it holds the MANIFEST.MF
    and CERT.SF made from the files collected after the old signatures
    were removed, and the CERT.RSA the CMS signer returned for that
    CERT.SF; it holds no other signature file, and every other entry as
    the loaded archive had it.  The result carries the generated blob, the
    log array, and the manifest information, the fallback one when parsing
    threw, with [isDebuggable] set. *)
Theorem processApk_success_archive (file : File) (cb : CbState)
    (r : ProcessResult Blob) (st : St CbState) :
  processApk file cb = (Normal r, st) → success r = true →
  ∃ mainZip manifestFile manifestData fileMap signingKey certRSA zipOut blob,
    loads_to onLog clock loadAsync toLowerCase file mainZip
    ∧ zip_file mainZip MANIFEST_XML = Some manifestFile
    ∧ async manifestFile = Normal manifestData
    ∧ let modified :=
        or_fallback (makeManifestDebuggable utf8_decode utf8_encode manifestData)
                    (patchManifestBinary manifestData) in
      let info :=
        or_fallback (match parseAndroidManifest utf8_decode manifestData with
                     | Normal (info, _) => Normal (apkInfo_of info)
                     | Throw e => Throw e
                     | Diverge => Diverge
                     end) fallbackInfo in
      let stripped :=
        (removeSignatures toUpperCase (zip_put mainZip MANIFEST_XML modified)).1 in
      let manifestMF := createManifestMF sha256Base64 fileMap in
      let certSF := createCertSF sha256Base64 utf8_encode manifestMF fileMap in
      collectFiles stripped [] = Normal fileMap
      ∧ generateSigningKey = Normal signingKey
      ∧ createCertRSA certSF signingKey = Normal certRSA
      ∧ generateAsync zipOut = Normal blob
      ∧ r = mkResult true (Some blob) (Some (with_debuggable info)) (st_logs st)
      ∧ zip_file zipOut MANIFEST_XML = Some (mkZipObject false (Normal modified))
      ∧ zip_file zipOut MANIFEST_MF
        = Some (mkZipObject false (Normal (utf8_encode manifestMF)))
      ∧ zip_file zipOut CERT_SF = Some (mkZipObject false (Normal (utf8_encode certSF)))
      ∧ zip_file zipOut CERT_RSA = Some (mkZipObject false (Normal certRSA))
      ∧ ∀ path, path ∉ [MANIFEST_XML; MANIFEST_MF; CERT_SF; CERT_RSA] →
          zip_file zipOut path
          = if is_signature_file toUpperCase path then None else zip_file mainZip path.
Proof.
  intros Hrun Hs. unfold Processor.processApk, try_catch, m_bind in Hrun.
  destruct (processApk_try file (mkSt [] cb)) as [[[apkBlob apkInfo]|e|] st1] eqn:Etry.
  - injection Hrun as <- <-.
    eapply processApk_try_archive in Etry; [|exact onLog_returns].
    destruct Etry as (mainZip & manifestFile & manifestData & fileMap & signingKey
                      & certRSA & Hl & Hf & Hd & Hrest).
    cbv zeta in Hrest. destruct Hrest as (Hfiles & Hkey & Hrsa & Hgen & ->).
    eexists mainZip, manifestFile, manifestData, fileMap, signingKey, certRSA, _, apkBlob.
    cbv zeta. unfold zip_file at 2 3 4 5 6. split_and!; try done.
    + rewrite !zip_lookup_put. rewrite !decide_False by done.
      rewrite removeSignatures_filter, zip_lookup_filter.
      assert (is_signature_file toUpperCase MANIFEST_XML = false) as -> by done.
      rewrite zip_lookup_put. by rewrite decide_True.
    + rewrite !zip_lookup_put. rewrite decide_False by done. rewrite decide_False by done.
      by rewrite decide_True.
    + rewrite !zip_lookup_put. rewrite decide_False by done. by rewrite decide_True.
    + rewrite !zip_lookup_put. by rewrite decide_True.
    + intros path Hp. rewrite !not_elem_of_cons in Hp. destruct Hp as (H1 & H2 & H3 & H4 & _).
      rewrite !zip_lookup_put. rewrite !decide_False by done.
      rewrite removeSignatures_filter, zip_lookup_filter.
      destruct (is_signature_file toUpperCase path); [done|].
      rewrite zip_lookup_put. rewrite decide_False by done. done.
  - rewrite (log_returns onLog clock onLog_returns) in Hrun. injection Hrun as <- _.
    done.
  - done.
Qed.
End success.

Lemma demo_run_succeeds :
  ∃ r st,
    processApk quiet_onLog demo_clock demo_loadAsync demo_generateAsync demo_blob_size
      demo_generateSigningKey demo_createCertRSA demo_digest ascii_encode ascii_decode
      ascii_lower ascii_upper demo_toFixedMB
      (lit "Offset is outside the bounds of the DataView") apk_file tt = (Normal r, st)
    ∧ success r = true.
Proof. vm_compute. eexists _, _. split; reflexivity. Qed.

Lemma processApk_success_archive_witness :
  ∃ r st zipOut,
    processApk quiet_onLog demo_clock demo_loadAsync demo_generateAsync demo_blob_size
      demo_generateSigningKey demo_createCertRSA demo_digest ascii_encode ascii_decode
      ascii_lower ascii_upper demo_toFixedMB
      (lit "Offset is outside the bounds of the DataView") apk_file tt = (Normal r, st)
    ∧ success r = true
    ∧ (∃ info, Processor.apkInfo r = Some info ∧ Processor.isDebuggable info = true)
    ∧ is_Some (zip_file zipOut MANIFEST_MF)
    ∧ zip_file zipOut (lit "META-INF/OLD.RSA") = None.
Proof.
  destruct demo_run_succeeds as (r & st & E & Hs).
  assert (∀ entry cb, (quiet_onLog entry cb).1 = Normal tt) as Hq by (intros; reflexivity).
  pose proof (processApk_success_archive quiet_onLog demo_clock demo_loadAsync
              demo_generateAsync demo_blob_size demo_generateSigningKey
              demo_createCertRSA demo_digest ascii_encode ascii_decode ascii_lower
              ascii_upper demo_toFixedMB
              (lit "Offset is outside the bounds of the DataView") Hq apk_file tt r st E Hs)
    as H.
  destruct H as (mainZip & manifestFile & manifestData & fileMap & signingKey & certRSA & zipOut
        & blob & Hl & Hf & Hd & Hrest).
  cbv zeta in Hrest.
  destruct Hrest as (_ & _ & _ & _ & Hr & _ & Hmf & _ & _ & Hother).
  exists r, st, zipOut. split; [exact E|]. split; [exact Hs|]. split.
  - rewrite Hr. eexists. split; reflexivity.
  - split; [rewrite Hmf; by eexists|].
    rewrite Hother.
    + vm_compute. reflexivity.
    + refine (bool_decide_unpack _ _). vm_compute. exact I.
Defined.

Section failures.
Import Js Axml Signer Processor Spec Fixture.
Context {Blob SigningKey CbState : Type}.
Variable onLog : ProcessingLog → CbState → completion unit * CbState.
Variable clock : nat → Z.
Variable loadAsync : list byte → completion JSZip.
Variable generateAsync : JSZip → completion Blob.
Variable blob_size : Blob → Z.
Variable generateSigningKey : completion SigningKey.
Variable createCertRSA : jsstring → SigningKey → completion (list byte).
Variable sha256Base64 : list byte → jsstring.
Variable utf8_encode : jsstring → list byte.
Variable utf8_decode : list byte → jsstring.
Variable toLowerCase toUpperCase : jsstring → jsstring.
Variable toFixedMB : Z → jsstring.
Variable rangeErrorMessage : jsstring.

Hypothesis onLog_returns : ∀ entry cb, (onLog entry cb).1 = Normal tt.

Local Abbreviation processApk :=
  (processApk onLog clock loadAsync generateAsync blob_size generateSigningKey
     createCertRSA sha256Base64 utf8_encode utf8_decode toLowerCase toUpperCase
     toFixedMB rangeErrorMessage).

(** X19.  Early failures of [processApk], the consumer of the log
    events returning on every event.  When reading the file rejects, or
    the container reader rejects a file that is not a bundle, the result
    is a failure without blob and without information whose log holds the
    loading event and one error event, Processing failed: followed by the
    message of the error; when the archive has no AndroidManifest.xml file
    the log holds the loading event, the extraction event and the error
    event that says so; and the message of a thrown value that is not an
    [Error] is Unknown error occurred. *)
Theorem processApk_early_failures (file : File) (cb : CbState) :
  let run := processApk file cb in
  let loading := lit "Loading file: " ++ file_name file ++ lit " ("
                 ++ toFixedMB (file_size file) ++ lit " MB)" in
  let failed (events : list (LogType * jsstring)) :=
    ∃ r, run.1 = Normal r ∧ success r = false ∧ apkBlob r = None
         ∧ Processor.apkInfo r = None
         ∧ map (fun entry => (log_type entry, message entry)) (logs r) = events in
  (∀ e, arrayBuffer file = Throw e →
        failed [(Info, loading);
                (Error, lit "Processing failed: " ++ error_message rangeErrorMessage e)])
  ∧ (∀ arrayBuffer e,
       endsWith (toLowerCase (file_name file)) (lit ".apks") = false →
       Processor.arrayBuffer file = Normal arrayBuffer →
       loadAsync arrayBuffer = Throw e →
       failed [(Info, loading);
               (Error, lit "Processing failed: " ++ error_message rangeErrorMessage e)])
  ∧ (∀ arrayBuffer mainZip,
       endsWith (toLowerCase (file_name file)) (lit ".apks") = false →
       Processor.arrayBuffer file = Normal arrayBuffer →
       loadAsync arrayBuffer = Normal mainZip →
       zip_file mainZip MANIFEST_XML = None →
       failed [(Info, loading);
               (Success, lit "APK extracted successfully");
               (Error, lit "Processing failed: AndroidManifest.xml not found in APK")])
  ∧ error_message rangeErrorMessage NonError = lit "Unknown error occurred".
Proof.
  intros run loading failed. unfold failed, run. split_and!.
  - intros e He. unfold Processor.processApk, processApk_try, try_catch, m_bind, m_lift.
    rewrite (log_returns onLog clock onLog_returns). rewrite He.
    rewrite (log_returns onLog clock onLog_returns). cbn.
    eexists. split; [done|]. done.
  - intros arrayBuffer e Hapks Hbuf Hload.
    unfold Processor.processApk, processApk_try, try_catch, m_bind, m_lift.
    rewrite (log_returns onLog clock onLog_returns). rewrite Hbuf, Hapks, Hload.
    rewrite (log_returns onLog clock onLog_returns). cbn.
    eexists. split; [done|]. done.
  - intros arrayBuffer mainZip Hapks Hbuf Hload Hnone.
    unfold Processor.processApk, processApk_try, try_catch, m_bind, m_lift, m_ret, m_throw.
    rewrite (log_returns onLog clock onLog_returns). rewrite Hbuf, Hapks, Hload.
    rewrite (log_returns onLog clock onLog_returns).
    fold MANIFEST_XML. rewrite Hnone.
    rewrite (log_returns onLog clock onLog_returns). cbn.
    eexists. split; [done|]. done.
  - done.
Qed.
End failures.

Lemma processApk_early_failures_witness :
  let file := mkFile (lit "app.apk") 1 (Normal [x03]) in
  ∃ r, (processApk quiet_onLog demo_clock demo_loadAsync demo_generateAsync demo_blob_size
          demo_generateSigningKey demo_createCertRSA demo_digest ascii_encode ascii_decode
          ascii_lower ascii_upper demo_toFixedMB
          (lit "Offset is outside the bounds of the DataView") file tt).1 = Normal r
       ∧ success r = false
       ∧ last (logs r)
         = Some (mkLog Error
                   (lit "Processing failed: AndroidManifest.xml not found in APK") 2).
Proof.
  intros file.
  assert (∀ entry cb, (quiet_onLog entry cb).1 = Normal tt) as Hq by (intros; reflexivity).
  pose proof (processApk_early_failures quiet_onLog demo_clock demo_loadAsync
                demo_generateAsync demo_blob_size demo_generateSigningKey
                demo_createCertRSA demo_digest ascii_encode ascii_decode ascii_lower
                ascii_upper demo_toFixedMB
                (lit "Offset is outside the bounds of the DataView") Hq file tt) as H.
  cbv zeta in H. destruct H as (_ & _ & H & _).
  destruct (H [x03] demo_empty_bundle) as (r & Hr & Hs & _ & _ & Hl).
  - vm_compute. reflexivity.
  - reflexivity.
  - vm_compute. reflexivity.
  - vm_compute. reflexivity.
  - exists r. split; [exact Hr|]. split; [exact Hs|].
    vm_compute in Hr. injection Hr as <-. vm_compute. reflexivity.
Defined.
